(* ===== verification/_CoqProject ===== *)
-Q . S2P
Prelude.v
GoStrings.v
GoUrl.v
Types.v
Errors.v
Metrics.v
Effects.v
LinodeVolumes.v
Sizes.v
Config.v
Controller.v
ControllerProofs.v
Cloud.v
Csi.v
Interference.v
Refinement.v
Sequences.v
Lifecycle.v
MemoryApi.v
DeviceManager.v
Luks.v
NodeServer.v
NodeProofs.v
NodePublish.v
ErrorCodes.v
Concurrency.v
Linearizability.v
Interleaving.v
Races.v
Schedules.v
Contention.v
NodeWorld.v
NodeSpec.v
NodeRefine.v
NodeSafety.v
NodeContention.v
NodeLifecycle.v
MemoryNode.v
NodeRetries.v
NodeExamples.v
System.v
SystemSafety.v
Crashes.v
SystemLifecycle.v
SystemExamples.v
SystemPool.v
SystemContention.v
SystemProgress.v
SystemRaces.v
Metadata.v
Driver.v
Server.v
LinodeClient.v
Interceptors.v
Logger.v
Main.v
