(* ===== verification/Prelude.v ===== *)
(** Verification of the Linode Block Storage CSI driver.

    * The program

    The driver is a Kubernetes plugin written in Go.  A controller process
    translates CSI calls (create, delete, attach, detach, resize, list) into calls
    of the Linode API; a node process on every machine finds the device of an
    attached volume, formats, opens, mounts and unmounts it.  Both are gRPC
    servers over one [LinodeDriver] object.  This library models the handlers of
    the three services and what they are made of, the server they run in and the
    process around it, and proves what they do for every answer of the world
    around them; for the Controller service and the mounting handlers of the Node
    service it also proves what they do to the state of that world.

    * How it is modelled

    A handler is a program ([Effects.prog]): a finite tree of calls to the code
    around the driver, with a continuation for each possible answer.  The calls
    are those of the Go interfaces LinodeClient (pkg/linode-client), FileSystem
    (pkg/filesystem), mount.Interface and exec.Interface (pkg/mount-manager),
    Device and CryptSetupClient (pkg/cryptsetup-client), the metadata service,
    statfs, the node server's mutex, RecordMetrics, the network and the wait group
    of the server, spans and logs.  None of this outside code
    is defined here: an answer is arbitrary, unless a theorem names a law the
    answers obey ([Effects.env_law]).  A Go function with an error result is a
    program that returns a sum ([Effects.eprog]); a nil dereference or an index
    out of range is [Panic]; [defer] is [finally]; a pointer is an option, and
    using it is [deref].  Handlers loop only over slices they already hold, so
    every program is finite and total and no fuel occurs anywhere: what a theorem
    says of "every run" includes that the run ends.

    [Effects.run] executes a program in an environment and records the calls;
    [Effects.wp] says what holds of the trace and outcome of every run, and that
    every call satisfies a guard over the calls before it; [Effects.run_wp] is
    the theorem that relates the two.  [every_run p Q]: every run of p ends with
    a trace and an outcome in Q.  [every_call p G]: whenever a run of p makes a
    call, G holds of the calls so far and of it.

    Where the state of the world matters, answers obey a law over it
    ([Cloud.state_law]): [Cloud.swp] is the weakest precondition over a state,
    [Cloud.documented] what the Linode API is documented to do to an account, with
    calls that may fail before or after they take effect, and
    [NodeWorld.node_documented] the same for a node.  Concurrency is a pool
    of programs over one state, of which any that can takes the next call
    ([Concurrency.pstep], [Server.proc_step]; [SystemPool.sys_step] for the whole
    driver, with a mutex for each node); a program among others is one whose
    state others change between its calls ([Interference.amid]).  The driver as a
    whole is a state with the account, what is on each volume, and the nodes
    ([System.System]): the devices of a node are the volumes the account has
    attached to it.  A script ([System.script]) makes calls to the controller and
    the nodes one after the other, as the answers say; a crash is a program that
    is left at any of the states it comes through ([Crashes.reaches]).

    Machine integers are integers with the wrap-around written out ([wrap64],
    [wrapu64]); int, int64 and uint have 64 bits, as on the platforms the driver
    is built for.  Go strings are byte sequences.  An error keeps its format and
    arguments unformatted, with its gRPC code.

    * The files

    - Prelude: machine integers, tactics, hint databases, map lookup.
    - GoStrings: strings, strconv, hash/fnv, unicode/utf8 and path of Go.
    - GoUrl: net/url of Go.
    - Types: CSI messages, Linode records, errors of other packages.
    - Errors: internal/driver/errors.go.
    - Metrics: pkg/observability/metrics.go, with the state of the registry.
    - Effects: calls, programs, runs, and the logic of programs.
    - LinodeVolumes: pkg/linode-volumes/utils.go.
    - Sizes: internal/driver/limits.go and the arithmetic of sizes in
      controllerserver_helper.go and metadata.go.
    - Config: capabilities.go, lifecycle.go, keys, the records of the driver.
    - Controller: controllerserver.go and controllerserver_helper.go, one
      definition per function under its Go name.
    - ControllerProofs: the properties of the Controller service.
    - Cloud: the Linode account as a state and the documented API as a law over
      it; the class [LinodeApi] of APIs that obey the law.
    - Csi: the abstract specification [csi] of the Controller service.
    - Interference: programs whose state others change between their calls.
    - Refinement: that every handler of the Controller service takes effect at
      once, also when others change what it does not depend on, and so refines
      [csi].
    - Sequences: sequences of requests: invariants of the account, retries.
    - Lifecycle: a volume from its creation to its deletion on a reliable API.
    - MemoryApi: an API in memory, an instance of [LinodeApi].
    - DeviceManager: pkg/device-manager/device.go.  The class [DeviceUtils] is
      the Go interface, [DeviceUtilsLaws] what the node server relies on, and
      [NewDeviceUtils] implements both.
    - Luks: internal/driver/luks.go and pkg/cryptsetup-client.
    - NodeServer: nodeserver.go, nodeserver_helpers.go, nodeserver_all.go,
      nodeserver_windows.go; the
      staging handler is written against the class [DeviceUtils].
    - NodeProofs: the mutex, panics, metrics, the text of errors, and
      NodeStageVolume.
    - NodePublish: publishing, unstaging, cryptsetup devices, expansion, node
      information, statistics.
    - ErrorCodes: the gRPC codes of the errors.  The class [GrpcCodes] states what
      is relied on of grpc-go, [status.FromError] and [status.FromContextError].
    - Concurrency: programs that run at the same time under the mutex of the node
      server: serializability and termination.
    - Linearizability: a pool of programs that take effect at once each.
    - Interleaving: requests to the Controller service at the same time, which
      ones are independent, and that these are linearizable.
    - Races: schedules of concrete calls; two creations that run at the same time.
    - Schedules: a schedule of independent requests; two publications that run at
      the same time.
    - Contention: any requests at the same time, and what no schedule of them does.
    - NodeWorld: a node as a state (what is on its devices, open LUKS mappings,
      mounts), and what the mounter, cryptsetup and blkid are documented to do to
      it, as a law over it.
    - NodeSpec: the abstract specification [nstep] of the mounting handlers, over
      nodes up to cryptsetup's device objects.
    - NodeRefine: that the handlers refine it.
    - NodeSafety: sequences of calls, and calls at the same time: data, mounts and
      mappings.  The class [NodeApi] is that of environments that obey the law.
    - NodeContention: the calls the mounting handlers make, one by one, and what
      each may do to the node whatever happens in between.
    - NodeLifecycle: a volume from its staging to its unstaging on a reliable node.
    - MemoryNode: a node in memory, an instance of [NodeApi].
    - NodeRetries: repeated calls, and a volume that is half formatted.
    - NodeExamples: concrete runs on the node in memory.
    - System: the account, the volumes and the nodes as one state; scripts; the
      specification [sstep] of a call of the controller or of a node, and that the
      handlers refine it.
    - SystemSafety: sequences of calls to the whole driver; that a node mounts the
      volume it is asked for.
    - Crashes: processes that are killed at any moment.
    - SystemLifecycle: a pod with its volume, from end to end.
    - SystemExamples: the whole driver in memory, and concrete runs of it.
    - SystemPool: the controller and the nodes at the same time: threads, the mutex
      of each node, calls that arrive, crashes, the rule of the orchestrator.
    - SystemContention: what no schedule of it does, at any moment.
    - SystemProgress: that every schedule of any calls ends, with all of them
      answered.
    - SystemRaces: concrete schedules of it, and some that break the rule.
    - Metadata: internal/driver/metadata.go and its property.
    - Driver: driver.go and identityserver.go.  The servers of the Go program
      share one driver by pointer; [Driver.Plugin] keeps that one driver and
      gives each server its view of it.
    - Server: server.go and the end of [Run] in driver.go: the goroutines, what
      they share, and the process they form.
    - LinodeClient: the setup of the API client in pkg/linode-client.
    - Interceptors: pkg/observability/tracker.go and [LogGRPC] of pkg/logger.
    - Logger: the rest of pkg/logger/logger.go.
    - Main: main.go.

    * What the theorems show

    The driver as a whole: [system_refines] (a call of the controller or of a node
    is one step of [sstep]), [system_safe], and [system_crash_safe], which holds
    with crashes at any moment, and of any order and number of calls: the account
    is safe, labels and devices stay unique, and what is on a volume is kept
    wherever it is moved; [stages_right_volume] (a node mounts the volume that was
    named, and only where it is attached); [pod_life_completes] (from the creation
    of a volume to its deletion, with the answers of each call in the next).  Calls
    of one system are one after the other there.  For calls at the same time,
    [system_contention] says the same of every moment of every schedule of the
    calls, each call of a handler a step of its own, with crashes, as long as the
    orchestrator keeps no two calls in flight that are about one volume;
    [stage_race] is what can happen to data without the rule.  [system_progress]
    needs no rule: of any calls, every schedule comes to an end if no process
    crashes, with each call answered and each mutex free.  [controller_linearizable] and
    [node_serializable] give an order of the calls of one service.

    The Controller service as a whole: [controller_refines] (every request is one
    atomic step of [csi], or none, whatever calls fail), and what follows for
    sequences of requests: [account_safe] (labels stay unique, limits hold, no
    volume is lost or shrunk), [retry_at_most_once], [lifecycle_completes].  The
    abstract steps are permissions; that requests succeed at all is
    [lifecycle_completes].  Requests at the same time: independent ones, of
    different volumes, labels and instances, are linearizable
    ([controller_linearizable], [controller_concurrent_safe]); [create_race] and
    [publish_race] are what can happen to others, and [controller_contention] bounds
    it, at every moment of every schedule: no volume is touched but as some request
    asks.

    Errors: [error_codes] (the gRPC codes of each call, exactly, with those that the
    gRPC server makes of the error of a context).

    Safety of the account for every answer of the API, documented or not
    (ControllerProofs): a guard for each handler that changes the Linode account
    states what must have been seen before the change: [create_volume_calls],
    [delete_volume_calls], [publish_volume_calls], [unpublish_volume_calls],
    [expand_volume_calls].  Functional behaviour and errors:
    [create_volume_answer], [delete_volume_outcome], [publish_attached_volume],
    [unpublish_detached_volume], [attach_retry_code],
    [expand_reported_capacity], [list_volumes_entries], [list_volumes_pagination],
    [validate_capabilities].

    The mounting handlers of the Node service as a whole: [node_refines] (every
    call is one step of [nstep]), and what follows: [node_data_safe] (no data, no
    LUKS slot is lost, and nothing is touched that the calls do not name),
    [node_concurrent_safe], [node_retry], [node_lifecycle_completes].
    [half_formatted] and [publish_block_twice] are where this ends: a failure in
    the middle of formatting, and block volumes.

    Safety of data on the node for every answer of the world (NodeProofs, NodePublish): [stage_volume_calls] (a
    device is formatted for LUKS only after blkid found nothing on it, and nothing
    but the volume of the request is mounted), [node_publish_calls],
    [luks_device_freed], [luks_close_name], [luks_key_exposed]; answers of the
    other handlers: [node_get_info], [node_volume_stats], [node_expand_volume].

    Concurrency on the node: [node_mutex], [node_serializable],
    [node_terminates].

    Panics: [controller_no_panic], [node_panics].  Metrics: [controller_metrics],
    [node_metrics], [metrics_registry].

    The process: [exit_code], [maxprocs_undone], [serve_calls], [run_returns], [server_stop],
    [interceptors_transparent], [tracing_transparent], [request_recorded],
    [method_logged], [helpers_untraced], [api_url_components], [api_url_bare_host].  The models of the handlers leave
    spans and interceptors out; the two theorems of transparency say that this
    loses nothing.

    Pure parts: [volume_key_roundtrip], [volume_id_resolution], [label_collision],
    [attachment_limit], [capacity_size_spec], [capacity_limit_exceeded],
    [gb_bytes_roundtrip], [disk_by_id_paths].  The device search is equal to a
    reference search ([verify_device_path]).  Setting up: [node_metadata],
    [setup_driver], [validate_service_request].

    Several of these state behaviour that its comments or callers do not intend:
    [luks_close_name], [node_panics], [luks_device_freed], [luks_key_exposed],
    [node_metrics], [publish_attached_volume], [unpublish_detached_volume],
    [capacity_size_spec], [capacity_limit_exceeded], [expand_reported_capacity],
    [list_volumes_pagination], [node_expand_volume], [controller_metrics],
    [metrics_registry], [create_race], [publish_race], [error_codes] (the code
    Unknown), [helpers_untraced], [half_formatted], [publish_block_twice],
    [node_lifecycle_completes] (the mapping left open), [run_returns], [server_stop],
    [api_url_bare_host], [exit_code], [maxprocs_undone], [stage_race] and [request_recorded] say in their comments
    what happens instead.

    * What is not modelled

    Log statements of the handlers are left out, but for the pointers they
    dereference; [interceptors_transparent] and [method_logged] say what the logs
    around a handler are.  Durations observed by histograms, the text fmt makes of
    a format, and the parsing of flags are left out, and
    so are contexts but for the logger in them: a call that is cancelled is one
    that fails, with the error of its context.  The Linode API, Kubernetes' mount utilities, cryptsetup, blkid,
    udev, statfs, the metadata service, Prometheus, OpenTelemetry, grpc and
    net/http are the environment.  Of calls at the same time,
    answers and the limits of instances are followed for independent requests
    ([controller_linearizable]) and for one node ([node_serializable]); for others,
    on concrete accounts and systems only.  On a node, a
    device is known by the first name it is found at, bind mounts are taken to be
    seen by IsLikelyNotMountPoint, as they are when they cross file systems, and
    files and directories are not part of the state.  In the system, an attached
    volume has one name on its node, that of its label as the API gives it, has no
    partitions, and is there as soon as the account has it attached; pods do not
    write to it.

    * Plan

    What is left are refinements of the environment: partitions of a volume, bind
    mounts within a file system, files and directories on the node, and pods that
    write to their volumes. *)
From Stdlib Require Export ZArith Lia Ascii.
From Stdlib Require String.
From stdpp Require Export base tactics list strings gmap pretty numbers.

Open Scope Z_scope.

(** * Machine integers *)

(** [int], [int64] and [uint] of Go on a 64-bit platform are integers modulo
    [2^64]; the driver is only built for such platforms. *)
Definition min_int64 : Z := - 2 ^ 63.
Definition max_int64 : Z := 2 ^ 63 - 1.
Definition is_int64 (z : Z) : Prop := min_int64 <= z <= max_int64.
Definition is_uint64 (z : Z) : Prop := 0 <= z < 2 ^ 64.

Definition in_int64 (z : Z) : bool := (min_int64 <=? z) && (z <=? max_int64).

(** Conversion to [int64]: two's complement truncation. *)
Definition wrap64 (z : Z) : Z := (z + 2 ^ 63) mod 2 ^ 64 - 2 ^ 63.
(** Conversion to [uint64]. *)
Definition wrapu64 (z : Z) : Z := z mod 2 ^ 64.
Definition wrapu32 (z : Z) : Z := z mod 2 ^ 32.

Lemma in_int64_spec z : in_int64 z = true <-> is_int64 z.
Proof. unfold in_int64, is_int64. rewrite andb_true_iff, !Z.leb_le. done. Qed.

Lemma wrap64_range z : is_int64 (wrap64 z).
Proof.
  unfold is_int64, wrap64, min_int64, max_int64.
  pose proof (Z.mod_pos_bound (z + 2 ^ 63) (2 ^ 64)) as H. lia.
Qed.

Lemma wrap64_id z : is_int64 z -> wrap64 z = z.
Proof.
  unfold is_int64, wrap64, min_int64, max_int64. intros H.
  rewrite Z.mod_small; lia.
Qed.

Lemma wrapu64_range z : is_uint64 (wrapu64 z).
Proof. apply Z.mod_pos_bound. lia. Qed.

Lemma wrapu64_id z : is_uint64 z -> wrapu64 z = z.
Proof. apply Z.mod_small. Qed.

(** * Automation *)

Create HintDb go.
Create Rewrite HintDb go.
#[export] Hint Resolve wrap64_range wrapu64_range : go.
#[export] Hint Rewrite wrap64_id wrapu64_id using assumption : go.

(** Bring boolean comparisons on [Z] to propositions. *)
Ltac zify_bool :=
  repeat match goal with
  | H : (_ && _)%bool = true |- _ => apply andb_true_iff in H as [? ?]
  | H : (_ || _)%bool = false |- _ => apply orb_false_iff in H as [? ?]
  | H : (_ <? _)%Z = true |- _ => apply Z.ltb_lt in H
  | H : (_ <? _)%Z = false |- _ => apply Z.ltb_ge in H
  | H : (_ <=? _)%Z = true |- _ => apply Z.leb_le in H
  | H : (_ <=? _)%Z = false |- _ => apply Z.leb_gt in H
  | H : (_ =? _)%Z = true |- _ => apply Z.eqb_eq in H
  | H : (_ =? _)%Z = false |- _ => apply Z.eqb_neq in H
  | H : (_ >? _)%Z = _ |- _ => rewrite Z.gtb_ltb in H
  | H : String.eqb _ _ = true |- _ => apply String.eqb_eq in H
  | H : String.eqb _ _ = false |- _ => apply String.eqb_neq in H
  end.

(** Case analysis on the condition of every [if] in the goal. *)
Ltac case_if :=
  match goal with
  | |- context [if ?b then _ else _] => destruct b eqn:?
  end.

(** * Generic lemmas *)

(** The double quote character, as a string. *)
Definition dquote : string := String "034" EmptyString.


(** Lookup in a Go [map[string]string]: the zero value when the key is absent. *)
Definition map_get (m : gmap string string) (k : string) : string :=
  default EmptyString (m !! k).

Lemma map_get_insert m k v : map_get (<[k := v]> m) k = v.
Proof. unfold map_get. by rewrite lookup_insert_eq. Qed.

Lemma map_get_insert_ne m k k' v : k <> k' -> map_get (<[k := v]> m) k' = map_get m k'.
Proof. intros. unfold map_get. by rewrite lookup_insert_ne. Qed.

Lemma map_get_empty k : map_get ∅ k = EmptyString.
Proof. done. Qed.

#[export] Hint Rewrite map_get_insert map_get_empty : go.
#[export] Hint Rewrite map_get_insert_ne using done : go.
