(* ===== verification/GoStrings.v ===== *)
(** The functions of Go's standard library on strings that the driver uses:
    [strings.SplitN], [strings.Split], [strings.Contains], [strconv.Itoa],
    [strconv.Atoi], [hash/fnv], rune counting, and [path.Clean], [path.Join]
    and [filepath.Dir].  A Go string is a sequence of bytes, which is what
    Rocq's [string] is. *)
From S2P Require Import Prelude.

(** * Slicing and splitting *)

(** [s[:n]], for [n] at most the length. *)
Fixpoint str_take (n : nat) (s : string) : string :=
  match n, s with
  | S n, String c s => String c (str_take n s)
  | _, _ => EmptyString
  end.

(** The text before and after the first [c]. *)
Fixpoint str_cut (c : ascii) (s : string) : option (string * string) :=
  match s with
  | EmptyString => None
  | String a s =>
      if Ascii.eqb a c then Some (EmptyString, s)
      else match str_cut c s with
           | Some (l, r) => Some (String a l, r)
           | None => None
           end
  end.

(** [strings.SplitN s sep 2] for a separator of one byte. *)
Definition SplitN2 (s : string) (c : ascii) : list string :=
  match str_cut c s with
  | Some (l, r) => [l; r]
  | None => [s]
  end.

(** [strings.Split s sep] for a separator of one byte. *)
Fixpoint Split (s : string) (c : ascii) : list string :=
  match s with
  | EmptyString => [EmptyString]
  | String a s =>
      if Ascii.eqb a c then EmptyString :: Split s c
      else match Split s c with
           | w :: ws => String a w :: ws
           | [] => [String a EmptyString]
           end
  end.

(** [strings.Join]. *)
Fixpoint str_join (sep : string) (l : list string) : string :=
  match l with
  | [] => EmptyString
  | [w] => w
  | w :: ws => w +:+ sep +:+ str_join sep ws
  end.

(** [strings.Contains s sub]. *)
Fixpoint Contains (s sub : string) : bool :=
  String.prefix sub s ||
  match s with
  | EmptyString => false
  | String _ s => Contains s sub
  end.

(** The bytes of a string that satisfy [p]. *)
Fixpoint str_forall (p : ascii -> bool) (s : string) : bool :=
  match s with
  | EmptyString => true
  | String c s => p c && str_forall p s
  end.

Lemma str_app_cons c s t : String c s +:+ t = String c (s +:+ t).
Proof. done. Qed.

Lemma str_app_nil_l s : EmptyString +:+ s = s.
Proof. done. Qed.

#[export] Hint Rewrite str_app_cons str_app_nil_l : go.
Ltac str_simpl := repeat (progress (autorewrite with go in * || simpl in *)).

Lemma str_app_length s t :
  String.length (s +:+ t) = (String.length s + String.length t)%nat.
Proof. induction s as [|c s IH]; str_simpl; [done|]. by rewrite IH. Qed.

Lemma str_app_nil_r s : s +:+ EmptyString = s.
Proof. induction s as [|c s IH]; str_simpl; [done|]. by rewrite IH. Qed.

Lemma str_app_assoc s t u : (s +:+ t) +:+ u = s +:+ (t +:+ u).
Proof. induction s as [|c s IH]; str_simpl; [done|]. by rewrite IH. Qed.

Lemma str_take_length n s : String.length (str_take n s) = Nat.min n (String.length s).
Proof. revert s. induction n as [|n IH]; intros [|c s]; simpl; [done..|]. by rewrite IH. Qed.

Lemma str_take_ge n s : (String.length s <= n)%nat -> str_take n s = s.
Proof.
  revert s. induction n as [|n IH]; intros [|c s] H; simpl in *; [done|lia|done|].
  rewrite IH; [done|lia].
Qed.

Lemma str_take_app n s t :
  str_take n (s +:+ t) = str_take n s +:+ str_take (n - String.length s) t.
Proof.
  revert n. induction s as [|c s IH]; intros n; str_simpl.
  - rewrite Nat.sub_0_r. by destruct n.
  - destruct n as [|n]; [by destruct t|]. str_simpl. by rewrite IH.
Qed.

Lemma str_take_take n m s : str_take n (str_take m s) = str_take (Nat.min n m) s.
Proof.
  revert m s. induction n as [|n IH]; intros [|m] [|c s]; simpl; [done..|]. by rewrite IH.
Qed.

(** [str_cut] finds the first occurrence, and nothing else. *)
Lemma str_cut_app c l r :
  str_forall (fun a => negb (Ascii.eqb a c)) l = true ->
  str_cut c (l +:+ String c r) = Some (l, r).
Proof.
  induction l as [|a l IH]; str_simpl; intros H.
  - by rewrite Ascii.eqb_refl.
  - apply andb_true_iff in H as [Ha H]. apply negb_true_iff in Ha.
    by rewrite Ha, IH.
Qed.

Lemma str_cut_inv c s l r :
  str_cut c s = Some (l, r) ->
  s = l +:+ String c r /\ str_forall (fun a => negb (Ascii.eqb a c)) l = true.
Proof.
  revert l r. induction s as [|a s IH]; intros l r H; simpl in H; [done|].
  destruct (Ascii.eqb a c) eqn:E.
  - apply Ascii.eqb_eq in E as ->. by simplify_eq.
  - destruct (str_cut c s) as [[l' r']|] eqn:Es; simplify_eq.
    destruct (IH l' r eq_refl) as [-> Hl]. str_simpl. by rewrite E, Hl.
Qed.

Lemma str_cut_None c s :
  str_cut c s = None <-> str_forall (fun a => negb (Ascii.eqb a c)) s = true.
Proof.
  induction s as [|a s IH]; simpl; [done|].
  destruct (Ascii.eqb a c); simpl; [done|].
  rewrite <- IH. clear. by destruct (str_cut c s) as [[? ?]|].
Qed.

Lemma str_forall_app p s t : str_forall p (s +:+ t) = str_forall p s && str_forall p t.
Proof. induction s as [|c s IH]; str_simpl; [done|]. by rewrite IH, andb_assoc. Qed.

Lemma str_forall_impl (p q : ascii -> bool) s :
  (forall c, p c = true -> q c = true) -> str_forall p s = true -> str_forall q s = true.
Proof.
  intros Hpq. induction s as [|c s IH]; simpl; [done|].
  rewrite !andb_true_iff. intros [? ?]. auto.
Qed.

(** [strings.Join] undoes [strings.Split]. *)
Lemma Split_none s c :
  str_forall (fun a => negb (Ascii.eqb a c)) s = true -> Split s c = [s].
Proof.
  induction s as [|a s IH]; [done|]. cbn [str_forall Split].
  intros [Ha Hs]%andb_true_iff. apply negb_true_iff in Ha. by rewrite Ha, IH.
Qed.

Lemma Split_cons l r c :
  str_forall (fun a => negb (Ascii.eqb a c)) l = true ->
  Split (l +:+ String c r) c = l :: Split r c.
Proof.
  induction l as [|a l IH]; cbn [str_forall].
  - intros _. rewrite str_app_nil_l. cbn [Split]. by rewrite Ascii.eqb_refl.
  - intros [Ha Hl]%andb_true_iff. apply negb_true_iff in Ha.
    rewrite str_app_cons. cbn [Split]. by rewrite Ha, IH.
Qed.

Lemma Split_nonnil s c : Split s c <> [].
Proof. destruct s as [|a s]; simpl; [done|]. destruct (Ascii.eqb a c); [done|]. by destruct (Split s c). Qed.

Lemma str_join_Split s c : str_join (String c EmptyString) (Split s c) = s.
Proof.
  induction s as [|a s IH]; simpl; [done|].
  destruct (Ascii.eqb a c) eqn:E.
  - apply Ascii.eqb_eq in E as ->. destruct (Split s c) as [|w ws] eqn:Es.
    + by destruct (Split_nonnil s c).
    + change (str_join (String c "") ("" :: w :: ws))
        with (String c (str_join (String c "") (w :: ws))). by rewrite IH.
  - destruct (Split s c) as [|w [|w' ws]] eqn:Es; [by destruct (Split_nonnil s c)|..];
      by rewrite <- IH.
Qed.

(** * Decimal numbers *)

(** [strconv.Itoa]. *)
Definition Itoa (z : Z) : string := pretty z.

(** The two errors of [strconv]. *)
Inductive NumErr := ErrSyntax | ErrRange.

Definition digit_val (c : ascii) : option Z :=
  let d := Z.of_N (N_of_ascii c) - 48 in
  if (0 <=? d) && (d <=? 9) then Some d else None.

(** The loop of [strconv.ParseUint] in base 10: a syntax error at the first
    byte that is not a digit, a range error at the first digit that carries
    the value past 64 bits. *)
Fixpoint parse_digits (acc : Z) (s : string) : NumErr + Z :=
  match s with
  | EmptyString => inr acc
  | String c s =>
      match digit_val c with
      | None => inl ErrSyntax
      | Some d =>
          let n := acc * 10 + d in
          if 2 ^ 64 <=? n then inl ErrRange else parse_digits n s
      end
  end.

(** [strconv.Atoi], which agrees with [strconv.ParseInt s 10 0]. *)
Definition Atoi (s : string) : NumErr + Z :=
  let '(neg, ds) :=
    match s with
    | String "-" r => (true, r)
    | String "+" r => (false, r)
    | _ => (false, s)
    end in
  match ds with
  | EmptyString => inl ErrSyntax
  | _ =>
      match parse_digits 0 ds with
      | inl e => inl e
      | inr n =>
          let v := if neg then - n else n in
          if in_int64 v then inr v else inl ErrRange
      end
  end.

Lemma digit_val_char x : (x < 10)%N -> digit_val (pretty_N_char x) = Some (Z.of_N x).
Proof.
  intros H. assert (x = 0 \/ x = 1 \/ x = 2 \/ x = 3 \/ x = 4 \/ x = 5 \/ x = 6 \/ x = 7
    \/ x = 8 \/ x = 9)%N as Hx by lia.
  by repeat (destruct Hx as [->|Hx]; [reflexivity|]); subst.
Qed.

(** The digits printed in front of [s] carry the accumulator [acc] to a value
    from which parsing goes on with [s]. *)
Lemma parse_digits_pretty x s :
  (Z.of_N x < 2 ^ 64) ->
  parse_digits 0 (pretty_N_go x s) = parse_digits (Z.of_N x) s.
Proof.
  revert s. induction (N.lt_wf_0 x) as [x _ IH]; intros s Hx.
  destruct (decide (x = 0)%N) as [->|Hx0]; [by rewrite pretty_N_go_0|].
  rewrite pretty_N_go_step by lia.
  pose proof (N.div_mod x 10 ltac:(lia)) as Hdm.
  pose proof (N.mod_lt x 10 ltac:(lia)) as Hm.
  pose proof (N.div_lt x 10 ltac:(lia) ltac:(lia)) as Hlt.
  revert Hdm Hm Hlt IH. generalize (x `div` 10)%N, (x `mod` 10)%N. intros q r Hdm Hm Hlt IH.
  rewrite IH by lia.
  cbn [parse_digits]. rewrite digit_val_char by done. cbv zeta.
  replace (Z.of_N q * 10 + Z.of_N r) with (Z.of_N x) by lia.
  destruct (2 ^ 64 <=? Z.of_N x) eqn:E; [|done]. apply Z.leb_le in E. lia.
Qed.

Lemma pretty_N_go_head x s :
  (0 < x)%N -> exists d t, (d < 10)%N /\ pretty_N_go x s = String (pretty_N_char d) t.
Proof.
  revert s. induction (N.lt_wf_0 x) as [x _ IH]; intros s Hx.
  rewrite pretty_N_go_step by lia.
  destruct (decide (x `div` 10 = 0)%N) as [E|E].
  - rewrite E, pretty_N_go_0. exists (x `mod` 10)%N, s. split; [|done]. by apply N.mod_lt.
  - apply IH; [by apply N.div_lt|by apply N.neq_0_lt_0].
Qed.

Definition is_digit (c : ascii) : bool :=
  match digit_val c with Some _ => true | None => false end.

Lemma pretty_N_go_digits x s :
  str_forall is_digit s = true -> str_forall is_digit (pretty_N_go x s) = true.
Proof.
  revert s. induction (N.lt_wf_0 x) as [x _ IH]; intros s Hs.
  destruct (decide (x = 0)%N) as [->|Hx0]; [by rewrite pretty_N_go_0|].
  rewrite pretty_N_go_step by lia. apply IH; [apply N.div_lt; lia|].
  simpl. unfold is_digit at 1. rewrite digit_val_char by (by apply N.mod_lt). done.
Qed.

(** A non-negative number is printed as digits only. *)
Lemma Itoa_digits z : 0 <= z -> str_forall is_digit (Itoa z) = true.
Proof.
  intros Hz. destruct z as [|p|p]; [done| |lia].
  unfold Itoa, pretty, pretty_Z, pretty, pretty_positive, pretty, pretty_N.
  case_decide; [done|]. by apply pretty_N_go_digits.
Qed.

Lemma Itoa_nonempty z : Itoa z <> EmptyString.
Proof.
  destruct z as [|p|p]; [done| |].
  - unfold Itoa, pretty, pretty_Z, pretty, pretty_positive, pretty, pretty_N.
    case_decide; [done|]. destruct (pretty_N_go_head (Npos p) "" ltac:(lia)) as (d & t & _ & ->).
    done.
  - unfold Itoa, pretty, pretty_Z. by rewrite str_app_cons.
Qed.

Lemma Itoa_neg_head p : exists s, Itoa (Zneg p) = String "-" s.
Proof. eexists. reflexivity. Qed.

Lemma parse_digits_positive p :
  Z.pos p < 2 ^ 64 -> parse_digits 0 (pretty (Npos p)) = inr (Z.pos p).
Proof.
  intros H. unfold pretty, pretty_N. case_decide; [done|].
  by rewrite parse_digits_pretty.
Qed.

Lemma pretty_pos_head p : exists d t, (d < 10)%N /\ pretty (Npos p) = String (pretty_N_char d) t.
Proof.
  unfold pretty, pretty_N. case_decide; [done|]. by apply pretty_N_go_head.
Qed.

(** [Atoi] reads back what [Itoa] prints. *)
Lemma Atoi_Itoa z : is_int64 z -> Atoi (Itoa z) = inr z.
Proof.
  intros Hz. assert (in_int64 z = true) as Hin by by apply in_int64_spec.
  unfold is_int64, min_int64, max_int64 in Hz.
  destruct z as [|p|p]; [done| |].
  - change (Itoa (Z.pos p)) with (pretty (Npos p)).
    pose proof (parse_digits_positive p ltac:(lia)) as Hp.
    destruct (pretty_pos_head p) as (d & t & Hd & Heq). rewrite Heq in *.
    unfold Atoi.
    assert (d = 0 \/ d = 1 \/ d = 2 \/ d = 3 \/ d = 4 \/ d = 5 \/ d = 6 \/ d = 7
      \/ d = 8 \/ d = 9)%N as Hx by lia.
    repeat (destruct Hx as [->|Hx]; [by cbn [pretty_N_char] in *; rewrite Hp, Hin|]).
    subst. by cbn [pretty_N_char] in *; rewrite Hp, Hin.
  - change (Itoa (Z.neg p)) with (String "-" (pretty (Npos p))).
    pose proof (parse_digits_positive p ltac:(lia)) as Hp.
    destruct (pretty_pos_head p) as (d & t & Hd & Heq). rewrite Heq in *.
    unfold Atoi. rewrite Hp. cbv zeta. change (- Z.pos p) with (Z.neg p). by rewrite Hin.
Qed.

Lemma Atoi_range s z : Atoi s = inr z -> is_int64 z.
Proof.
  unfold Atoi. intros H. repeat case_match; simplify_eq; by apply in_int64_spec.
Qed.

Lemma Itoa_inj z1 z2 : Itoa z1 = Itoa z2 -> z1 = z2.
Proof. apply (inj pretty). Qed.

(** * Hashing *)

(** [hash/fnv], 32-bit FNV-1a. *)
Fixpoint fnv32a (h : Z) (s : string) : Z :=
  match s with
  | EmptyString => h
  | String c s => fnv32a (wrapu32 (Z.lxor h (Z.of_N (N_of_ascii c)) * 16777619)) s
  end.

Definition Sum32a (s : string) : Z := fnv32a 2166136261 s.

Lemma Sum32a_range s : 0 <= Sum32a s < 2 ^ 32.
Proof.
  unfold Sum32a. assert (0 <= 2166136261 < 2 ^ 32) as H by lia.
  revert H. generalize 2166136261. induction s as [|c s IH]; intros h Hh; cbn [fnv32a]; [done|].
  apply IH. apply Z.mod_pos_bound. lia.
Qed.

(** * Runes *)

(** The width of the rune at the head of a byte sequence, as
    [utf8.DecodeRune] finds it: an invalid sequence is one byte wide. *)
Definition byte_in (lo hi : N) (o : option N) : bool :=
  match o with Some b => (lo <=? b)%N && (b <=? hi)%N | None => false end.

Definition byte_at (i : nat) (s : string) : option N :=
  N_of_ascii <$> String.get i s.

Definition rune_width (s : string) : nat :=
  let cont i := byte_in 0x80 0xBF (byte_at i s) in
  match byte_at 0 s with
  | None => 0
  | Some b =>
      let b1 lo hi := byte_in lo hi (byte_at 1 s) in
      if byte_in 0xC2 0xDF (Some b) then (if cont 1%nat then 2 else 1)
      else if (b =? 0xE0)%N then (if b1 0xA0%N 0xBF%N && cont 2%nat then 3 else 1)
      else if (b =? 0xED)%N then (if b1 0x80%N 0x9F%N && cont 2%nat then 3 else 1)
      else if byte_in 0xE1 0xEF (Some b) then (if cont 1%nat && cont 2%nat then 3 else 1)
      else if (b =? 0xF0)%N then (if b1 0x90%N 0xBF%N && cont 2%nat && cont 3%nat then 4 else 1)
      else if byte_in 0xF1 0xF3 (Some b) then (if cont 1%nat && cont 2%nat && cont 3%nat then 4 else 1)
      else if (b =? 0xF4)%N then (if b1 0x80%N 0x8F%N && cont 2%nat && cont 3%nat then 4 else 1)
      else 1
  end%nat.

(** [len([]rune(s))]; [skip] counts the bytes of the current rune still to pass. *)
Fixpoint rune_count_from (skip : nat) (s : string) : nat :=
  match s with
  | EmptyString => 0
  | String _ r =>
      match skip with
      | S k => rune_count_from k r
      | O => S (rune_count_from (rune_width s - 1) r)
      end
  end.

Definition RuneCount (s : string) : nat := rune_count_from 0 s.

Definition is_ascii (c : ascii) : bool := (N_of_ascii c <? 128)%N.

Lemma rune_width_ascii c s : is_ascii c = true -> rune_width (String c s) = 1%nat.
Proof. by destruct c as [[] [] [] [] [] [] [] []]. Qed.

(** On ASCII text runes are bytes. *)
Lemma RuneCount_ascii s : str_forall is_ascii s = true -> RuneCount s = String.length s.
Proof.
  unfold RuneCount. induction s as [|c s IH]; [done|]. cbn [str_forall String.length].
  intros [Hc Hs]%andb_true_iff. cbn [rune_count_from].
  rewrite rune_width_ascii by done. simpl. by rewrite IH.
Qed.

Lemma RuneCount_le s : (RuneCount s <= String.length s)%nat.
Proof.
  assert (forall k, (rune_count_from k s <= String.length s)%nat) as H; [|apply H].
  induction s as [|c s IH]; intros k; [done|]. cbn [rune_count_from String.length].
  destruct k; [apply le_n_S, IH|]. etrans; [apply IH|lia].
Qed.

(** * Paths *)

(** One component of a path met by [path.Clean], whose state is the stack of
    components kept so far, the last one first. *)
Definition clean_step (rooted : bool) (stack : list string) (w : string) : list string :=
  if String.eqb w "" || String.eqb w "." then stack
  else if String.eqb w ".." then
    match stack with
    | top :: rest =>
        if String.eqb top ".." then w :: stack else rest
    | [] => if rooted then [] else [w]
    end
  else w :: stack.

(** [path.Clean]: the shortest path equivalent by purely lexical processing. *)
Definition Clean (path : string) : string :=
  let rooted := match path with String "/" _ => true | _ => false end in
  let body := str_join "/" (rev (foldl (clean_step rooted) [] (Split path "/"))) in
  if rooted then String "/" body
  else match body with EmptyString => "." | _ => body end.

(** [path.Join] of two elements. *)
Definition Join2 (a b : string) : string :=
  let elems := filter (fun w => w <> EmptyString) [a; b] in
  match elems with
  | [] => EmptyString
  | _ => Clean (str_join "/" elems)
  end.

(** [filepath.Dir]: everything up to the last separator, cleaned. *)
Fixpoint upto_last_slash (s : string) : string :=
  match s with
  | EmptyString => EmptyString
  | String c r =>
      match upto_last_slash r with
      | EmptyString => if Ascii.eqb c "/" then String c EmptyString else EmptyString
      | t => String c t
      end
  end.

Definition Dir (path : string) : string := Clean (upto_last_slash path).

Example Clean_ex1 : Clean "/dev/disk/by-id//linode-x" = "/dev/disk/by-id/linode-x".
Proof. reflexivity. Qed.
Example Clean_ex2 : Clean "/a/./b/../../c" = "/c" /\ Clean "../a/../.." = "../.." /\ Clean "" = ".".
Proof. repeat split. Qed.
Example Dir_ex : Dir "/a/b" = "/a" /\ Dir "b" = "." /\ Dir "/b" = "/" /\ Dir "/a/b/" = "/a/b".
Proof. repeat split. Qed.

(** * strconv.ParseBool *)

Definition ParseBool (s : string) : option bool :=
  if existsb (String.eqb s) ["1"; "t"; "T"; "true"; "TRUE"; "True"] then Some true
  else if existsb (String.eqb s) ["0"; "f"; "F"; "false"; "FALSE"; "False"] then Some false
  else None.
