(* ===== verification/GoUrl.v ===== *)
(** net/url of Go: what [url.Parse] makes of the scheme, the host and the path of a
    URL (Go 1.23).  The user, the query and the fragment are only checked, since
    the driver does not use them. *)
From S2P Require Import Prelude GoStrings.

Record URL := { u_Scheme : string; u_Host : string; u_Path : string }.

(** * Strings *)

Definition in_range (lo hi c : ascii) : bool :=
  ((N_of_ascii lo <=? N_of_ascii c) && (N_of_ascii c <=? N_of_ascii hi))%N.
Definition is_letter (c : ascii) : bool := in_range "a" "z" c || in_range "A" "Z" c.
Definition is_alnum (c : ascii) : bool := is_letter c || is_digit c.

Definition one_of (s : string) (c : ascii) : bool := negb (str_forall (fun d => negb (Ascii.eqb d c)) s).

(** [strings.ToLower] of an ASCII string. *)
Definition to_lower (c : ascii) : ascii :=
  if in_range "A" "Z" c then ascii_of_N (N_of_ascii c + 32) else c.
Fixpoint ToLower (s : string) : string :=
  match s with EmptyString => EmptyString | String c s => String (to_lower c) (ToLower s) end.

(** [strings.Cut] without its second result: the text before [c]. *)
Definition before (c : ascii) (s : string) : string :=
  match str_cut c s with Some (l, _) => l | None => s end.

(** The text around the last [c]. *)
Fixpoint cut_last (c : ascii) (s : string) : option (string * string) :=
  match s with
  | EmptyString => None
  | String d s =>
      match cut_last c s with
      | Some (l, r) => Some (String d l, r)
      | None => if Ascii.eqb d c then Some (EmptyString, s) else None
      end
  end.

(** [strings.TrimPrefix(s, "/")]. *)
Definition trim_slash (s : string) : string :=
  match s with String c s' => if Ascii.eqb c "/" then s' else s | EmptyString => s end.

(** The text before and from [sub]. *)
Fixpoint str_index (sub s : string) : option (string * string) :=
  if String.prefix sub s then Some (EmptyString, s)
  else match s with
       | EmptyString => None
       | String c s' => match str_index sub s' with
                        | Some (l, r) => Some (String c l, r)
                        | None => None
                        end
       end.

(** * Escapes *)

Inductive encoding := EncodePath | EncodeHost | EncodeZone | EncodeUserPassword | EncodeFragment.

Definition hex_val (c : ascii) : option N :=
  if is_digit c then Some (N_of_ascii c - 48)%N
  else if in_range "a" "f" c then Some (N_of_ascii c - 87)%N
  else if in_range "A" "F" c then Some (N_of_ascii c - 55)%N
  else None.

(** [shouldEscape(c, encodeHost)], which is [shouldEscape(c, encodeZone)]. *)
Definition shouldEscape_host (c : ascii) : bool :=
  negb (is_alnum c || one_of "!$&'()*+,;=:[]<>-_.~" c || one_of dquote c).

(** The byte [v], written with the high digit [hi], may not be escaped. *)
Definition escape_refused (mode : encoding) (hi v : N) : bool :=
  match mode with
  | EncodeHost => ((hi <? 8) && negb (v =? 37))%N
  | EncodeZone => negb (v =? 37)%N && negb (v =? 32)%N && shouldEscape_host (ascii_of_N v)
  | _ => false
  end.

Definition plain_refused (mode : encoding) (c : ascii) : bool :=
  match mode with
  | EncodeHost | EncodeZone => is_ascii c && shouldEscape_host c
  | _ => false
  end.

Fixpoint unescape (mode : encoding) (s : string) : option string :=
  match s with
  | EmptyString => Some EmptyString
  | String c rest =>
      if Ascii.eqb c "%" then
        match rest with
        | String h (String l rest) =>
            match hex_val h, hex_val l with
            | Some a, Some b =>
                let v := (a * 16 + b)%N in
                if escape_refused mode a v then None
                else String (ascii_of_N v) <$> unescape mode rest
            | _, _ => None
            end
        | _ => None
        end
      else if plain_refused mode c then None
      else String c <$> unescape mode rest
  end.

(** * Parsing *)

Definition validOptionalPort (port : string) : bool :=
  match port with
  | EmptyString => true
  | String c rest => Ascii.eqb c ":" && str_forall is_digit rest
  end.

Definition parseHost (host : string) : option string :=
  match host with
  | String "[" _ =>
      match cut_last "]" host with
      | None => None
      | Some (inside, colonPort) =>
          if negb (validOptionalPort colonPort) then None
          else match str_index "%25" inside with
               | Some (addr, zone) =>
                   match unescape EncodeHost addr, unescape EncodeZone zone,
                         unescape EncodeHost (String "]" colonPort) with
                   | Some host1, Some host2, Some host3 => Some (host1 +:+ host2 +:+ host3)
                   | _, _, _ => None
                   end
               | None => unescape EncodeHost host
               end
      end
  | _ =>
      match cut_last ":" host with
      | Some (_, port) =>
          if validOptionalPort (String ":" port) then unescape EncodeHost host else None
      | None => unescape EncodeHost host
      end
  end.

Definition validUserinfo (s : string) : bool :=
  str_forall (fun c => is_alnum c || one_of "-._:~!$&'()*+,;=%@" c) s.

(** The host of an authority. *)
Definition parseAuthority (authority : string) : option string :=
  match cut_last "@" authority with
  | None => parseHost authority
  | Some (userinfo, host) =>
      match parseHost host with
      | None => None
      | Some host =>
          if negb (validUserinfo userinfo) then None
          else
            let decoded :=
              match str_cut ":" userinfo with
              | None => unescape EncodeUserPassword userinfo
              | Some (username, password) =>
                  match unescape EncodeUserPassword username with
                  | Some _ => unescape EncodeUserPassword password
                  | None => None
                  end
              end in
            match decoded with Some _ => Some host | None => None end
      end
  end.

(** The scheme, without the colon, and what follows it. *)
Fixpoint getScheme_from (seen rawURL rest : string) : option (string * string) :=
  match rest with
  | EmptyString => Some (EmptyString, rawURL)
  | String c rest =>
      if is_letter c then getScheme_from (seen +:+ String c EmptyString) rawURL rest
      else if is_digit c || one_of "+-." c then
        if String.eqb seen "" then Some (EmptyString, rawURL)
        else getScheme_from (seen +:+ String c EmptyString) rawURL rest
      else if Ascii.eqb c ":" then
        if String.eqb seen "" then None else Some (seen, rest)
      else Some (EmptyString, rawURL)
  end.
Definition getScheme (rawURL : string) : option (string * string) := getScheme_from EmptyString rawURL rawURL.

Definition is_ctl (c : ascii) : bool := ((N_of_ascii c <? 32) || (N_of_ascii c =? 127))%N.

Definition parse (rawURL : string) : option URL :=
  if negb (str_forall (fun c => negb (is_ctl c)) rawURL) then None
  else if String.eqb rawURL "*" then Some {| u_Scheme := ""; u_Host := ""; u_Path := "*" |}
  else
    match getScheme rawURL with
    | None => None
    | Some (scheme, rest) =>
        let scheme := ToLower scheme in
        let rest := before "?" rest in
        let with_path host rest :=
          match unescape EncodePath rest with
          | Some path => Some {| u_Scheme := scheme; u_Host := host; u_Path := path |}
          | None => None
          end in
        if negb (String.prefix "/" rest) && negb (String.eqb scheme "") then
          Some {| u_Scheme := scheme; u_Host := ""; u_Path := "" |}
        else if negb (String.prefix "/" rest) && Contains (before "/" rest) ":" then None
        else if (negb (String.eqb scheme "") || negb (String.prefix "///" rest)) && String.prefix "//" rest then
          match rest with
          | String _ (String _ authority) =>
              let '(authority, rest) :=
                match str_cut "/" authority with
                | Some (l, r) => (l, String "/" r)
                | None => (authority, EmptyString)
                end in
              match parseAuthority authority with
              | Some host => with_path host rest
              | None => None
              end
          | _ => None
          end
        else with_path EmptyString rest
    end.

(** [url.Parse]. *)
Definition url_Parse (rawURL : string) : option URL :=
  match str_cut "#" rawURL with
  | None => parse rawURL
  | Some (u, frag) =>
      match parse u with
      | None => None
      | Some url =>
          match unescape EncodeFragment frag with Some _ => Some url | None => None end
      end
  end.

Example parse_unix : url_Parse "unix:///csi/csi.sock" =
  Some {| u_Scheme := "unix"; u_Host := ""; u_Path := "/csi/csi.sock" |}.
Proof. reflexivity. Qed.
Example parse_unix_short : url_Parse "unix:/tmp/csi.sock" =
  Some {| u_Scheme := "unix"; u_Host := ""; u_Path := "/tmp/csi.sock" |}.
Proof. reflexivity. Qed.
Example parse_tcp : url_Parse "tcp://127.0.0.1:10000" =
  Some {| u_Scheme := "tcp"; u_Host := "127.0.0.1:10000"; u_Path := "" |}.
Proof. reflexivity. Qed.
Example parse_api : url_Parse "https://user:pw@api.linode.com/v4/?x#y" =
  Some {| u_Scheme := "https"; u_Host := "api.linode.com"; u_Path := "/v4/" |}.
Proof. reflexivity. Qed.
Example parse_bad : url_Parse "://invalid-url" = None.
Proof. reflexivity. Qed.
Example parse_v6 : url_Parse "tcp://[fe80::1%25en0]:80/" =
  Some {| u_Scheme := "tcp"; u_Host := "[fe80::1%en0]:80"; u_Path := "/" |}.
Proof. reflexivity. Qed.
Example parse_opaque : url_Parse "unix:csi.sock" =
  Some {| u_Scheme := "unix"; u_Host := ""; u_Path := "" |}.
Proof. reflexivity. Qed.
