(* ===== verification/Types.v ===== *)
(** The data the driver exchanges with the code it calls: the CSI protocol
    messages, the records of the Linode API client, and the errors that come
    back from other packages.

    Of a message or record only the fields the driver reads or writes are kept.
    A Go pointer is an [option].  An error produced by another package is a
    record of the observations the driver makes of it (is it a 404, does its
    message contain some text, ...), since nothing else about it is known. *)
From S2P Require Import Prelude.

(** * CSI messages *)

Inductive AccessMode_Mode :=
| AM_UNKNOWN
| SINGLE_NODE_WRITER
| SINGLE_NODE_READER_ONLY
| MULTI_NODE_READER_ONLY
| MULTI_NODE_SINGLE_WRITER
| MULTI_NODE_MULTI_WRITER
| SINGLE_NODE_SINGLE_WRITER
| SINGLE_NODE_MULTI_WRITER.

#[export] Instance AccessMode_Mode_eq_dec : EqDecision AccessMode_Mode.
Proof. solve_decision. Defined.

Record MountVolume := {
  FsType : string;
  MountFlags : option (list string);   (* [None] is the nil slice *)
}.

(** The [AccessType] oneof.  [AccessBlock false] is the wrapper around a nil
    pointer, for which [GetBlock] returns nil. *)
Inductive AccessType :=
| AccessNone
| AccessBlock (present : bool)
| AccessMount (m : option MountVolume).

Record VolumeCapability := {
  vc_AccessType : AccessType;
  vc_AccessMode : option AccessMode_Mode;
}.

Definition GetBlock (c : option VolumeCapability) : bool :=
  match c with
  | Some {| vc_AccessType := AccessBlock b |} => b
  | _ => false
  end.

Definition GetMount (c : option VolumeCapability) : option MountVolume :=
  match c with
  | Some {| vc_AccessType := AccessMount m |} => m
  | _ => None
  end.

Record CapacityRange := { RequiredBytes : Z; LimitBytes : Z }.

Record Topology := { Segments : gmap string string }.

Record TopologyRequirement := { Requisite : list Topology; Preferred : list Topology }.

(** The [Type] oneof of a content source, [ContentNone] when it is not set. *)
Inductive VolumeContentSource :=
| ContentNone
| ContentSnapshot (snapshotID : string)
| ContentVolume (src : option string).     (* the source volume's ID *)

Record CreateVolumeRequest := {
  cv_Name : string;
  cv_CapacityRange : option CapacityRange;
  cv_VolumeCapabilities : list (option VolumeCapability);
  cv_Parameters : gmap string string;
  cv_VolumeContentSource : option VolumeContentSource;
  cv_AccessibilityRequirements : option TopologyRequirement;
}.

Record CsiVolume := {
  csi_VolumeId : string;
  csi_CapacityBytes : Z;
  csi_VolumeContext : gmap string string;
  csi_ContentSource : option VolumeContentSource;
  csi_AccessibleTopology : list Topology;
}.

Record ControllerPublishVolumeRequest := {
  cp_VolumeId : string;
  cp_NodeId : string;
  cp_VolumeCapability : option VolumeCapability;
}.

Record ControllerUnpublishVolumeRequest := { cu_VolumeId : string; cu_NodeId : string }.

Record ValidateVolumeCapabilitiesRequest := {
  vv_VolumeId : string;
  vv_VolumeCapabilities : list (option VolumeCapability);
}.

Record ListVolumesRequest := { lv_MaxEntries : Z; lv_StartingToken : string }.

Record ListVolumesEntry := {
  le_Volume : CsiVolume;
  le_PublishedNodeIds : list string;
  le_Abnormal : bool;
}.

Record ListVolumesResponse := { lr_Entries : list ListVolumesEntry; lr_NextToken : string }.

Record ControllerExpandVolumeRequest := {
  ce_VolumeId : string;
  ce_CapacityRange : option CapacityRange;
}.

Record ControllerExpandVolumeResponse := { er_CapacityBytes : Z; er_NodeExpansionRequired : bool }.

Record NodeStageVolumeRequest := {
  ns_VolumeId : string;
  ns_StagingTargetPath : string;
  ns_VolumeCapability : option VolumeCapability;
  ns_Secrets : gmap string string;
  ns_VolumeContext : gmap string string;
}.

Record NodeUnstageVolumeRequest := { nu_VolumeId : string; nu_StagingTargetPath : string }.

Record NodePublishVolumeRequest := {
  np_VolumeId : string;
  np_PublishContext : gmap string string;
  np_StagingTargetPath : string;
  np_TargetPath : string;
  np_VolumeCapability : option VolumeCapability;
  np_Readonly : bool;
}.

Record NodeUnpublishVolumeRequest := { nup_VolumeId : string; nup_TargetPath : string }.

Record NodeExpandVolumeRequest := {
  ne_VolumeId : string;
  ne_VolumePath : string;
  ne_CapacityRange : option CapacityRange;
}.

Record NodeGetInfoResponse := {
  ni_NodeId : string;
  ni_MaxVolumesPerNode : Z;
  ni_AccessibleTopology : Topology;
}.

Record NodeGetVolumeStatsRequest := { vs_VolumeId : string; vs_VolumePath : string }.

Inductive UsageUnit := BYTES | INODES.

Record VolumeUsage := { vu_Available : Z; vu_Total : Z; vu_Used : Z; vu_Unit : UsageUnit }.

(** * Linode API records *)

(** [linodego.VolumeActive], and the statuses the driver does not name. *)
Inductive VolumeStatus := VolumeActive | VolumeStatusOther (name : string).

Record Volume := {
  v_ID : Z;
  v_Label : string;
  v_Status : VolumeStatus;
  v_Region : string;
  v_Size : Z;                     (* in GB *)
  v_LinodeID : option Z;
  v_FilesystemPath : string;
}.

Record InstanceSpec := { Memory : Z }.    (* in MB *)

Record Instance := {
  i_ID : Z;
  i_Label : string;
  i_Region : string;
  i_Specs : option InstanceSpec;
}.

Record InstanceDisk := { d_ID : Z }.

Record Region := { r_Capabilities : list string }.

Record InstanceData := {
  id_ID : Z;
  id_Label : string;
  id_Region : string;
  id_Memory : Z;
}.

(** The JSON object passed as a list filter: its fields, in order. *)
Definition Filter : Type := list (string * string).
#[export] Instance Filter_eq_dec : EqDecision Filter.
Proof. unfold Filter. apply _. Defined.

Record ListOptions := { lo_Page : Z; lo_PageSize : Z; lo_Filter : option Filter }.

Record VolumeCreateOptions := {
  co_Region : string;
  co_Label : string;
  co_Size : Z;
  co_Encryption : string;
  co_Tags : list string;
}.

Record VolumeAttachOptions := { ao_LinodeID : Z; ao_PersistAcrossBoots : bool }.

(** * Errors of other packages *)

(** The errors of the package context. *)
Inductive ContextError := context_Canceled | context_DeadlineExceeded.

#[export] Instance ContextError_eq_dec : EqDecision ContextError.
Proof. solve_decision. Defined.

(** An error of the Linode API client: what [linodego.IsNotFound] says of it, the
    [Message] of the [linodego.Error] that [errors.As] finds in it, the error of
    the context of the call that [errors.Is] finds in it, its text. *)
Record ApiError := {
  ae_IsNotFound : bool;
  ae_Message : option string;
  ae_Context : option ContextError;
  ae_Text : string;
}.

(** An error of the operating system: what [os.IsNotExist] says of it. *)
Record OsError := { oe_IsNotExist : bool; oe_Text : string }.

(** An error of running a command: the status when it is an [ExitError]. *)
Record ExecError := { xe_NotFound : bool; xe_ExitStatus : option Z; xe_Text : string }.

(** An error of cryptsetup: the code of the [cryptsetup.Error] in it. *)
Record CryptError := { ye_Code : option Z; ye_Text : string }.

(** The errors of [statfs] the driver tells apart. *)
Inductive Errno := EIO | ENOENT | EOther (text : string).

(** The record [statfs] fills in. *)
Record Statfs_t := {
  Bavail : Z; Bsize : Z; Blocks : Z; Bfree : Z; Ffree : Z; Files : Z;
}.

(** * Decidable equality of the data that appears in calls *)

#[export] Instance VolumeStatus_eq_dec : EqDecision VolumeStatus.
Proof. solve_decision. Defined.
#[export] Instance ListOptions_eq_dec : EqDecision ListOptions.
Proof. solve_decision. Defined.
#[export] Instance VolumeCreateOptions_eq_dec : EqDecision VolumeCreateOptions.
Proof. solve_decision. Defined.
#[export] Instance VolumeAttachOptions_eq_dec : EqDecision VolumeAttachOptions.
Proof. solve_decision. Defined.
