(* ===== verification/Errors.v ===== *)
(** The driver's errors: internal/driver/errors.go, and the error values of
    [errors.New], [fmt.Errorf], [errors.Join] and [status.Errorf].

    An error made from a format keeps the format and its arguments; the text
    [fmt] would make of them is never inspected by the driver. *)
From S2P Require Import Prelude GoStrings Types.

(** gRPC status codes. *)
Inductive Code :=
| OK | Canceled | Unknown | InvalidArgument | DeadlineExceeded | NotFound
| AlreadyExists | PermissionDenied | ResourceExhausted | FailedPrecondition
| Aborted | OutOfRange | Unimplemented | Internal | Unavailable | DataLoss
| Unauthenticated.

#[export] Instance Code_eq_dec : EqDecision Code.
Proof. solve_decision. Defined.

Inductive goerror :=
| EStatus (c : Code) (format : string) (args : list arg)   (* status.Errorf *)
| EErrorf (format : string) (args : list arg)              (* fmt.Errorf *)
| ENew (text : string)                                     (* errors.New *)
| EJoin (errs : list goerror)                              (* errors.Join *)
| EApi (e : ApiError)
| EOs (e : OsError)
| EExec (e : ExecError)
| ECrypt (e : CryptError)
| EMount (text : string)                                   (* k8s.io/mount-utils *)
| EErrno (e : Errno)
| ENum (input : string) (e : NumErr)                       (* strconv *)
| EMeta (text : string)                                    (* go-metadata *)
| EUrl (rawURL : string)                                   (* net/url, of Parse *)
with arg :=
| AInt (z : Z)
| AStr (s : string)
| AStrs (l : list string)
| AErr (e : goerror)
| ACaps (l : list (option VolumeCapability)).

(** [status.Error]: the text is taken as it is. *)
Definition status_Error (c : Code) (text : string) : goerror := EStatus c text [].

(** [errors.Join err e], where [err] may be nil. *)
Definition errors_Join (err : option goerror) (e : goerror) : goerror :=
  EJoin (match err with Some err => [err; e] | None => [e] end).

(** * errors.go *)

Definition errInternal (format : string) (args : list arg) : goerror := EStatus Internal format args.
Definition errNotFound (format : string) (args : list arg) : goerror := EStatus NotFound format args.
Definition errAlreadyExists (format : string) (args : list arg) : goerror :=
  EStatus AlreadyExists format args.

Definition errNilDriver := status_Error Internal "nil driver".
Definition errNoVolumeName := status_Error InvalidArgument "volume name is required".
Definition errNoVolumeCapabilities := status_Error InvalidArgument "volume capabilities are required".
Definition errVolumeInUse := status_Error FailedPrecondition "volume is in use".
Definition errNoVolumeCapability := status_Error InvalidArgument "no volume capability set".
Definition errNoVolumeID := status_Error InvalidArgument "volume id is not set".
Definition errNoVolumePath := status_Error InvalidArgument "volume path is not set".
Definition errNoStagingTargetPath := status_Error InvalidArgument "staging target path is not set".
Definition errNoTargetPath := status_Error InvalidArgument "target path is not set".
Definition errNilSource := errInternal "nil source volume" [].
Definition errNilInstance := errInternal "nil instance" [].
Definition errMaxAttachments :=
  status_Error ResourceExhausted "max number of volumes already attached to instance".
Definition errResizeDown := errInternal "volume cannot be resized to be smaller" [].
Definition errUnsupportedVolumeContentSource :=
  status_Error InvalidArgument "unsupported volume content source type".
Definition errNoSourceVolume := status_Error InvalidArgument "no volume content source specified".

Definition errRegionMismatch (gotRegion wantRegion : string) : goerror :=
  EStatus InvalidArgument "source volume is in region %q, needs to be in region %q"
    [AStr gotRegion; AStr wantRegion].
Definition errMaxVolumeAttachments (numAttachments : Z) : goerror :=
  EStatus ResourceExhausted "max number of volumes (%d) already attached to instance"
    [AInt numAttachments].
Definition errInstanceNotFound (linodeID : Z) : goerror :=
  EStatus NotFound "linode instance %d not found" [AInt linodeID].
Definition errVolumeAttached (volumeID linodeID : Z) : goerror :=
  EStatus AlreadyExists "volume %d is already attached to linode %d" [AInt volumeID; AInt linodeID].
Definition errVolumeNotFound (volumeID : Z) : goerror :=
  EStatus NotFound "volume not found: %d" [AInt volumeID].
Definition errInvalidVolumeCapability (capability : list (option VolumeCapability)) : goerror :=
  EStatus InvalidArgument "invalid volume capability: %v" [ACaps capability].

(** * Inspecting an error *)

(** [errors.Is err errNilInstance]: a gRPC status error equals another one of
    the same code and message. *)
Definition Is_errNilInstance (e : goerror) : bool :=
  match e with
  | EStatus Internal f [] => String.eqb f "nil instance"
  | _ => false
  end.

(** [linodego.IsNotFound err], of an error that may be nil. *)
Definition IsNotFound (e : option ApiError) : bool :=
  match e with Some e => ae_IsNotFound e | None => false end.

(** The code of an error that is a gRPC status. *)
Definition status_code (e : goerror) : option Code :=
  match e with EStatus c _ _ => Some c | _ => None end.
