(* ===== verification/Metrics.v ===== *)
(** pkg/observability/metrics.go: the counters and histograms of the driver,
    their registration, and [RecordMetrics]. *)
From S2P Require Import Prelude.

(** The [functionStatus] label. *)
Definition Completed : string := "true".
Definition Failed : string := "false".

Inductive CounterVec :=
| NodePublishTotal
| NodeUnpublishTotal
| NodeStageVolumeTotal
| NodeUnstageVolumeTotal
| NodeExpandTotal
| ControllerCreateVolumeTotal
| ControllerDeleteVolumeTotal
| ControllerPublishVolumeTotal
| ControllerUnpublishVolumeTotal.

Inductive HistogramVec :=
| NodePublishDuration
| NodeUnpublishDuration
| NodeStageVolumeDuration
| NodeUnstageVolumeDuration
| NodeExpandDuration
| ControllerCreateVolumeDuration
| ControllerDeleteVolumeDuration
| ControllerPublishVolumeDuration
| ControllerUnpublishVolumeDuration.

#[export] Instance CounterVec_eq_dec : EqDecision CounterVec.
Proof. solve_decision. Defined.
#[export] Instance HistogramVec_eq_dec : EqDecision HistogramVec.
Proof. solve_decision. Defined.

(** The [Name] each metric is created with. *)
Definition CounterOpts_Name (c : CounterVec) : string :=
  match c with
  | NodePublishTotal => "csi_node_publish_total"
  | NodeUnpublishTotal => "csi_node_unpublish_total"
  | NodeStageVolumeTotal => "csi_node_stage_volume_total"
  | NodeUnstageVolumeTotal => "csi_node_unstage_volume_total"
  | NodeExpandTotal => "csi_node_expand_total"
  | ControllerCreateVolumeTotal => "csi_controller_create_volume_total"
  | ControllerDeleteVolumeTotal => "csi_controller_delete_volume_total"
  | ControllerPublishVolumeTotal => "csi_controller_publish_volume_total"
  | ControllerUnpublishVolumeTotal => "csi_controller_unpublish_volume_total"
  end.

Definition HistogramOpts_Name (h : HistogramVec) : string :=
  match h with
  | NodePublishDuration => "csi_node_publish_duration_seconds"
  | NodeUnpublishDuration => "csi_node_unpublish_duration_seconds"
  | NodeStageVolumeDuration => "csi_node_stage_volume_duration_seconds"
  | NodeUnstageVolumeDuration => "csi_node_unstage_volume_duration_seconds"
  | NodeExpandDuration => "csi_node_expand_duration_seconds"
  | ControllerCreateVolumeDuration => "csi_controller_create_volume_duration_seconds"
  | ControllerDeleteVolumeDuration => "csi_controller_delete_volume_duration_seconds"
  | ControllerPublishVolumeDuration => "csi_controller_publish_volume_duration_seconds"
  | ControllerUnpublishVolumeDuration => "csi_controller_unpublish_volume_duration_seconds"
  end.

Inductive Collector := Counter (c : CounterVec) | Histogram (h : HistogramVec).

#[export] Instance Collector_eq_dec : EqDecision Collector.
Proof. solve_decision. Defined.

Definition Collector_Name (c : Collector) : string :=
  match c with Counter c => CounterOpts_Name c | Histogram h => HistogramOpts_Name h end.

(** The calls of [init], in order. *)
Definition init_MustRegister : list Collector := [
  Counter NodePublishTotal;
  Histogram NodePublishDuration;
  Counter NodeUnpublishTotal;
  Histogram NodeUnpublishDuration;
  Counter NodeStageVolumeTotal;
  Histogram NodeStageVolumeDuration;
  Counter NodeUnstageVolumeTotal;
  Histogram NodeUnstageVolumeDuration;
  Counter NodeExpandTotal;
  Histogram NodeExpandDuration;
  Counter ControllerCreateVolumeTotal;
  Histogram ControllerCreateVolumeDuration;
  Counter ControllerDeleteVolumeTotal;
  Histogram ControllerDeleteVolumeDuration;
  Counter ControllerPublishVolumeTotal;
  Histogram ControllerPublishVolumeDuration;
  Counter ControllerUnpublishVolumeTotal;
  Histogram ControllerUnpublishVolumeDuration
].

(** The state of the metrics: the value of each counter and the number of
    observations of each histogram, by name and label. *)
Definition Registry : Type := gmap (string * string) N.

Definition bump (k : string * string) (reg : Registry) : Registry :=
  <[k := (default 0 (reg !! k) + 1)%N]> reg.

Definition RecordMetrics_step (total : CounterVec) (duration : HistogramVec)
    (functionStatus : string) (reg : Registry) : Registry :=
  bump (HistogramOpts_Name duration, functionStatus)
    (bump (CounterOpts_Name total, functionStatus) reg).

(** * Properties *)

Definition registered_names : list string := map Collector_Name init_MustRegister.

Lemma counter_not_histogram c h : CounterOpts_Name c <> HistogramOpts_Name h.
Proof. by destruct c, h. Qed.

Lemma bump_lookup k k' reg :
  default 0%N (bump k reg !! k') = (default 0 (reg !! k') + (if bool_decide (k = k') then 1 else 0))%N.
Proof.
  unfold bump, Registry in *. case_bool_decide as Hk; [subst|].
  - by rewrite lookup_insert_eq.
  - rewrite lookup_insert_ne by done. lia.
Qed.

(** The registry of metrics: every counter and histogram of the driver is
    registered, all under different names; recording one call adds one to its
    counter and one to its histogram under the given status and changes no other
    series; and neither csi_node_stage_duration_seconds nor
    csi_node_unstage_duration_seconds, which the documentation queries, is a
    registered name. *)
Theorem metrics_registry (total : CounterVec) (duration : HistogramVec) (status : string)
  (reg : Registry) (k : string * string) :
  (forall c, c ∈ init_MustRegister) /\ NoDup registered_names /\
  (default 0 (RecordMetrics_step total duration status reg !! k) =
     default 0 (reg !! k) +
       (if bool_decide (k = (CounterOpts_Name total, status) \/
                        k = (HistogramOpts_Name duration, status)) then 1 else 0))%N /\
  ~ ("csi_node_stage_duration_seconds" ∈ registered_names) /\
  ~ ("csi_node_unstage_duration_seconds" ∈ registered_names).
Proof.
  split_and!.
  - intros [[]|[]]; apply (bool_decide_unpack _); vm_compute; exact I.
  - apply (bool_decide_unpack _). vm_compute. exact I.
  - unfold RecordMetrics_step. rewrite !bump_lookup.
    pose proof (counter_not_histogram total duration).
    repeat case_bool_decide; subst; try lia; exfalso; intuition congruence.
  - apply (bool_decide_unpack _). vm_compute. exact I.
  - apply (bool_decide_unpack _). vm_compute. exact I.
Qed.
