(* ===== verification/Effects.v ===== *)
(** Programs with effects.

    A handler of the driver is a [prog]: a tree of calls to the code around the
    driver (the Linode API, the file system, the mount utilities, commands,
    cryptsetup, the metadata service, metrics, the mutex, the network and the
    goroutines of the server, spans and logs), each
    followed by what the handler does with the answer.  Handlers have no loop
    other than over a slice they already hold, so the tree is finite and every
    handler returns or panics once its calls return.

    [run] executes a program against an environment and records the calls it
    makes; [wp] states what holds of every run, for all answers the environment
    may give; [run_wp] relates the two. *)
From S2P Require Import Prelude GoStrings Types Errors Metrics.

(** * Calls *)

Module Client.
Inductive call :=
| ListVolumes (opts : ListOptions)
| ListInstanceVolumes (instanceID : Z)
| ListInstanceDisks (instanceID : Z)
| GetRegion (regionID : string)
| GetInstance (linodeID : Z)
| GetVolume (volumeID : Z)
| CreateVolume (opts : VolumeCreateOptions)
| CloneVolume (volumeID : Z) (label : string)
| AttachVolume (volumeID : Z) (opts : VolumeAttachOptions)
| DetachVolume (volumeID : Z)
| WaitForVolumeLinodeID (volumeID : Z) (linodeID : option Z) (timeout : Z)
| WaitForVolumeStatus (volumeID : Z) (status : VolumeStatus) (timeout : Z)
| DeleteVolume (volumeID : Z)
| ResizeVolume (volumeID size : Z).

Definition answer (c : call) : Type :=
  match c with
  | ListVolumes _ | ListInstanceVolumes _ => ApiError + list Volume
  | ListInstanceDisks _ => ApiError + list InstanceDisk
  | GetRegion _ => ApiError + option Region
  | GetInstance _ => ApiError + option Instance
  | GetVolume _ | CreateVolume _ | CloneVolume _ _ | AttachVolume _ _
  | WaitForVolumeLinodeID _ _ _ | WaitForVolumeStatus _ _ _ => ApiError + option Volume
  | DetachVolume _ | DeleteVolume _ | ResizeVolume _ _ => option ApiError
  end.

#[export] Instance call_eq_dec : EqDecision call.
Proof. solve_decision. Defined.
End Client.

(** Open files and cryptsetup devices are known by a handle. *)
Definition File : Type := Z.
Definition Device : Type := Z.

#[export] Instance File_eq_dec : EqDecision File := Z.eq_dec.
#[export] Instance Device_eq_dec : EqDecision Device := Z.eq_dec.

Module FS.
Inductive call :=
| MkdirAll (path : string) (perm : Z)
| Stat (path : string)
| Remove (path : string)
| OpenFile (path : string) (flag perm : Z)
| Open (path : string)
| ReadLimit (f : File) (limit : Z)      (* io.ReadAll(io.LimitReader(f, limit)) *)
| Close (f : File)
| Glob (pattern : string)
| EvalSymlinks (path : string).

Definition answer (c : call) : Type :=
  match c with
  | MkdirAll _ _ | Stat _ | Remove _ | Close _ => option OsError
  | OpenFile _ _ _ | Open _ => OsError + File
  | ReadLimit _ _ | EvalSymlinks _ => OsError + string
  | Glob _ => OsError + list string
  end.

#[export] Instance call_eq_dec : EqDecision call.
Proof. solve_decision. Defined.
End FS.

Module Mounter.
Inductive call :=
| IsLikelyNotMountPoint (path : string)
| Mount (source target fstype : string) (options : list string)
| CleanupMountPoint (path : string) (extensiveCheck : bool)
| FormatAndMount (source target fstype : string) (options : list string).

(** [IsLikelyNotMountPoint] returns both a boolean and an error. *)
Definition answer (c : call) : Type :=
  match c with
  | IsLikelyNotMountPoint _ => bool * option OsError
  | Mount _ _ _ _ | CleanupMountPoint _ _ | FormatAndMount _ _ _ _ => option string
  end.

#[export] Instance call_eq_dec : EqDecision call.
Proof. solve_decision. Defined.
End Mounter.

Module Executor.
Inductive call :=
| LookPath (cmd : string)
| CmdRun (cmd : string) (args : list string)
| CombinedOutput (cmd : string) (args : list string).

Definition answer (c : call) : Type := option ExecError.

#[export] Instance call_eq_dec : EqDecision call.
Proof. solve_decision. Defined.
End Executor.

(** The parameters of [cryptsetup.Device.Format]. *)
Record GenericParams := {
  Cipher : string;
  CipherMode : string;
  VolumeKey : string;
  VolumeKeySize : Z;
}.

#[export] Instance GenericParams_eq_dec : EqDecision GenericParams.
Proof. solve_decision. Defined.

Module Cryptsetup.
Inductive call :=
| Init (path : string)
| InitByName (name : string)
| Format (d : Device) (sectorSize : Z) (params : GenericParams)
| KeyslotAddByVolumeKey (d : Device) (keyslot : Z) (volumeKey passphrase : string)
| ActivateByPassphrase (d : Device) (name : string) (keyslot : Z) (passphrase : string) (flags : Z)
| Load (d : Device) (sectorSize : Z)
| Free (d : Device)
| Deactivate (d : Device) (name : string).

Definition answer (c : call) : Type :=
  match c with
  | Init _ | InitByName _ => CryptError + Device
  | Format _ _ _ | KeyslotAddByVolumeKey _ _ _ _ | ActivateByPassphrase _ _ _ _ _
  | Load _ _ | Deactivate _ _ => option CryptError
  | Free _ => bool
  end.

#[export] Instance call_eq_dec : EqDecision call.
Proof. solve_decision. Defined.
End Cryptsetup.

Module Sys.
Inductive call :=
| Statfs (path : string)
| NewMetadataClient
| MetadataGetInstance.

Definition answer (c : call) : Type :=
  match c with
  | Statfs _ => Errno + Statfs_t
  | NewMetadataClient => option string
  | MetadataGetInstance => string + option InstanceData
  end.

#[export] Instance call_eq_dec : EqDecision call.
Proof. solve_decision. Defined.
End Sys.

(** The gRPC server, the metrics server, the listener and the goroutines of
    server.go.  [LoadServer] and [LoadMetricsServer] read a field and say whether
    it is set. *)
Inductive Goroutine :=
| GoServe (endpoint : string) (ids cs ns : bool)
| GoMetricsServer (addr : string).

#[export] Instance Goroutine_eq_dec : EqDecision Goroutine.
Proof. solve_decision. Defined.

Inductive Service := IdentityService | ControllerService | NodeService.

#[export] Instance Service_eq_dec : EqDecision Service.
Proof. solve_decision. Defined.

(** An error of [http.Server.ListenAndServe], which never returns nil. *)
Inductive HttpError := ErrServerClosed | HttpOther (text : string).

Module Net.
Inductive call :=
| WgAdd (n : Z) | WgDone | WgWait
| Go (g : Goroutine)
| Listen (network address : string)
| NewServer                              (* s.server = grpc.NewServer(opts...) *)
| Register (service : Service)
| Serve
| NewMetricsServer (addr : string)       (* s.metricsServer = &http.Server{...} *)
| ListenAndServe
| LoadServer | LoadMetricsServer | LoadTracerProvider
| GracefulStop | Stop
| MetricsShutdown | MetricsClose | TracerShutdown
| Fatal.                                 (* klog.Fatal: the process exits *)

Definition answer (c : call) : Type :=
  match c with
  | Listen _ _ | Serve | MetricsShutdown | MetricsClose | TracerShutdown => option string
  | ListenAndServe => HttpError
  | LoadServer | LoadMetricsServer | LoadTracerProvider => bool
  | WgAdd _ | WgDone | WgWait | Go _ | NewServer | Register _ | NewMetricsServer _
  | GracefulStop | Stop | Fatal => unit
  end.

#[export] Instance call_eq_dec : EqDecision call.
Proof. solve_decision. Defined.
End Net.

(** Spans and logs. *)
Module Obs.
Inductive call :=
| SpanFromContext                        (* is there a span? *)
| SetAttribute (key value : string)
| RecordError (text : string)
| SetStatus (failed : bool) (text : string)
| EndSpan
| StartSpan (name : string)
| Caller                                 (* runtime.Caller and FuncForPC *)
| LogInfo (level : Z) (msg value : string)
| LogError (msg value : string).

Definition answer (c : call) : Type :=
  match c with
  | SpanFromContext => bool
  | Caller => option string
  | _ => unit
  end.

#[export] Instance call_eq_dec : EqDecision call.
Proof. solve_decision. Defined.
End Obs.

Inductive cmd :=
| Api (c : Client.call)
| Fs (c : FS.call)
| Mnt (c : Mounter.call)
| Exec (c : Executor.call)
| Crypt (c : Cryptsetup.call)
| Host (c : Sys.call)
| Net (c : Net.call)
| Obs (c : Obs.call)
| Lock
| Unlock
| RecordMetrics (total : CounterVec) (duration : HistogramVec) (functionStatus : string).

#[export] Instance cmd_eq_dec : EqDecision cmd.
Proof.
  pose proof Client.call_eq_dec. pose proof FS.call_eq_dec. pose proof Mounter.call_eq_dec.
  pose proof Executor.call_eq_dec. pose proof Cryptsetup.call_eq_dec. pose proof Sys.call_eq_dec.
  pose proof Net.call_eq_dec. pose proof Obs.call_eq_dec.
  solve_decision.
Defined.

Definition resp (c : cmd) : Type :=
  match c with
  | Api c => Client.answer c
  | Fs c => FS.answer c
  | Mnt c => Mounter.answer c
  | Exec c => Executor.answer c
  | Crypt c => Cryptsetup.answer c
  | Host c => Sys.answer c
  | Net c => Net.answer c
  | Obs c => Obs.answer c
  | Lock | Unlock | RecordMetrics _ _ _ => unit
  end.

(** * Programs *)

(** Why a goroutine panics. *)
Inductive PanicReason := NilDereference | IndexOutOfRange.

Inductive prog (A : Type) : Type :=
| Ret (a : A)
| Panic (why : PanicReason)
| Call (c : cmd) (k : resp c -> prog A).
Arguments Ret {A} a.
Arguments Panic {A} why.
Arguments Call {A} c k.

Fixpoint bind {A B} (p : prog A) (f : A -> prog B) : prog B :=
  match p with
  | Ret a => f a
  | Panic why => Panic why
  | Call c k => Call c (fun r => bind (k r) f)
  end.

(** A function with an error result. *)
Definition eprog (A : Type) : Type := prog (goerror + A).

Definition call (c : cmd) : prog (resp c) := Call c Ret.
Definition ok {A} (a : A) : eprog A := Ret (inr a).
Definition throw {A} (e : goerror) : eprog A := Ret (inl e).
Definition ebind {A B} (p : eprog A) (f : A -> eprog B) : eprog B :=
  bind p (fun r => match r with inl e => throw e | inr a => f a end).

(** [x, err := p; if err != nil { return h(err) }]. *)
Definition try_else {E A B} (p : prog (E + A)) (h : E -> prog B) (f : A -> prog B) : prog B :=
  bind p (fun r => match r with inl e => h e | inr a => f a end).

(** [defer c()]: the call is made when [p] returns and when it panics. *)
Fixpoint finally {A} (p : prog A) (c : cmd) : prog A :=
  match p with
  | Ret a => Call c (fun _ => Ret a)
  | Panic why => Call c (fun _ => Panic why)
  | Call c' k => Call c' (fun r => finally (k r) c)
  end.

(** Dereferencing a pointer. *)
Definition deref {A} (o : option A) : prog A :=
  match o with Some a => Ret a | None => Panic NilDereference end.

Declare Scope go_scope.
Delimit Scope go_scope with go.
Notation "'let*' x ':=' p 'in' q" := (bind p (fun x => q))
  (at level 10, x pattern, p at level 100, q at level 200,
   format "'[v' 'let*'  x  ':='  p  'in' '/' q ']'") : go_scope.
Notation "'let!' x ':=' p 'in' q" := (ebind p (fun x => q))
  (at level 10, x pattern, p at level 100, q at level 200,
   format "'[v' 'let!'  x  ':='  p  'in' '/' q ']'") : go_scope.
Notation "'let?' x ':=' p 'else' h 'in' q" := (try_else p h (fun x => q))
  (at level 10, x pattern, p at level 100, h at level 100, q at level 200,
   format "'[v' 'let?'  x  ':='  p  'else'  h  'in' '/' q ']'") : go_scope.
Open Scope go_scope.

Abbreviation api c := (call (Api c)).

(** * Running a program *)

Inductive event := Event (c : cmd) (r : resp c).
Definition trace : Type := list event.

Inductive outcome (A : Type) := Done (a : A) | Panicked (why : PanicReason).
Arguments Done {A} a.
Arguments Panicked {A} why.

Lemma Event_inj c (r r' : resp c) : Event c r = Event c r' -> r = r'.
Proof.
  intros H. injection H as H. by apply (Eqdep_dec.inj_pair2_eq_dec _ (decide_rel (=))) in H.
Qed.

Lemma Event_inj_cmd c (r : resp c) c' (r' : resp c') : Event c r = Event c' r' -> c = c'.
Proof. intros H. exact (f_equal (fun e => match e with Event c _ => c end) H). Qed.

Lemma Call_inj {A} c (k : resp c -> prog A) k' : Call c k = Call c k' -> k = k'.
Proof. intros H. injection H as H. by apply (Eqdep_dec.inj_pair2_eq_dec _ (decide_rel (=))) in H. Qed.

Lemma Call_inj_cmd {A} c (k : resp c -> prog A) c' k' : Call c k = Call c' k' -> c = c'.
Proof. by injection 1. Qed.

Section Run.
(** An environment: how it answers a call, and how the call changes it. *)
Context {W : Type} (env : forall c : cmd, W -> resp c * W).

Fixpoint run {A} (p : prog A) (w : W) : trace * outcome A * W :=
  match p with
  | Ret a => ([], Done a, w)
  | Panic why => ([], Panicked why, w)
  | Call c k =>
      let '(r, w1) := env c w in
      let '(tr, o, w2) := run (k r) w1 in
      (Event c r :: tr, o, w2)
  end.

Lemma run_bind {A B} (p : prog A) (f : A -> prog B) w :
  run (bind p f) w =
  let '(tr, o, w1) := run p w in
  match o with
  | Done a => let '(tr2, o2, w2) := run (f a) w1 in (tr ++ tr2, o2, w2)
  | Panicked why => (tr, Panicked why, w1)
  end.
Proof.
  revert w. induction p as [a|why|c k IH]; intros w; simpl.
  - by destruct (run (f a) w) as [[? ?] ?].
  - done.
  - destruct (env c w) as [r w1]. rewrite IH.
    destruct (run (k r) w1) as [[tr o] w2]. destruct o as [a|why]; [|done].
    by destruct (run (f a) w2) as [[? ?] ?].
Qed.
End Run.

(** * What holds of every run *)

(** A condition on the answers of the environment, given the calls so far. *)
Definition env_law : Type := trace -> forall c : cmd, resp c -> Prop.
Definition any_env : env_law := fun _ _ _ => True.

(** A condition on the calls a program makes, given the calls so far. *)
Definition call_guard : Type := trace -> cmd -> Prop.
Definition any_call : call_guard := fun _ _ => True.

(** The call [c] is always answered [r]. *)
Definition always (c : cmd) (r : resp c) : env_law := fun _ c' r' =>
  c' = c -> Event c' r' = Event c r.

Lemma always_eq c r tr r' : always c r tr c r' -> r' = r.
Proof. intros H. by apply Event_inj, H. Qed.

Definition both (l1 l2 : env_law) : env_law := fun tr c r => l1 tr c r /\ l2 tr c r.

Section WP.
Context (law : env_law) (guard : call_guard).

(** Started after the calls [tr], for all answers the law allows, [p] only makes
    calls the guard permits, and ends with a trace and an outcome in [Q]. *)
Fixpoint wp {A} (p : prog A) (Q : trace -> outcome A -> Prop) (tr : trace) : Prop :=
  match p with
  | Ret a => Q tr (Done a)
  | Panic why => Q tr (Panicked why)
  | Call c k => guard tr c /\ forall r, law tr c r -> wp (k r) Q (tr ++ [Event c r])
  end.

Lemma wp_mono {A} (p : prog A) (Q Q' : trace -> outcome A -> Prop) tr :
  wp p Q tr -> (forall tr o, Q tr o -> Q' tr o) -> wp p Q' tr.
Proof.
  intros H HQ. revert tr H. induction p as [a|why|c k IH]; simpl; [naive_solver..|].
  intros tr [Hg H]. split; [done|]. intros r Hr. by apply IH, H.
Qed.

Lemma wp_bind {A B} (p : prog A) (f : A -> prog B) Q tr :
  wp (bind p f) Q tr <->
  wp p (fun tr o => match o with
                    | Done a => wp (f a) Q tr
                    | Panicked why => Q tr (Panicked why)
                    end) tr.
Proof.
  revert tr. induction p as [a|why|c k IH]; intros tr; simpl; [done..|].
  split; intros [Hg H]; (split; [done|]); intros r Hr; apply IH, H, Hr.
Qed.

Lemma wp_finally {A} (p : prog A) c Q tr :
  wp (finally p c) Q tr <->
  wp p (fun tr o => guard tr c /\ forall r, law tr c r -> Q (tr ++ [Event c r]) o) tr.
Proof.
  revert tr. induction p as [a|why|c' k IH]; intros tr; simpl; [done..|].
  split; intros [Hg H]; (split; [done|]); intros r Hr; apply IH, H, Hr.
Qed.

(** A specification of [p] used under a continuation. *)
Lemma wp_seq {A B} (p : prog A) (f : A -> prog B) R Q tr :
  wp p R tr ->
  (forall tr' a, R tr' (Done a) -> wp (f a) Q tr') ->
  (forall tr' why, R tr' (Panicked why) -> Q tr' (Panicked why)) ->
  wp (bind p f) Q tr.
Proof.
  intros Hp Hf Hw. apply wp_bind. eapply wp_mono; [exact Hp|].
  intros tr' [a|why]; auto.
Qed.

Lemma wp_try {E A B} (p : prog (E + A)) (h : E -> prog B) (f : A -> prog B) R Q tr :
  wp p R tr ->
  (forall tr' e, R tr' (Done (inl e)) -> wp (h e) Q tr') ->
  (forall tr' a, R tr' (Done (inr a)) -> wp (f a) Q tr') ->
  (forall tr' why, R tr' (Panicked why) -> Q tr' (Panicked why)) ->
  wp (try_else p h f) Q tr.
Proof.
  intros Hp Hh Hf Hw. eapply wp_seq; [exact Hp| |done]. intros tr' [e|a]; auto.
Qed.

Lemma wp_and {A} (p : prog A) Q Q' tr :
  wp p Q tr -> wp p Q' tr -> wp p (fun tr o => Q tr o /\ Q' tr o) tr.
Proof.
  revert tr. induction p as [a|why|c k IH]; simpl; [done..|].
  intros tr [Hg H1] [_ H2]. split; [done|]. intros r Hr. auto.
Qed.
End WP.

(** Every run of [p] ends in [Q]; every call [p] makes is permitted by [G]. *)
Definition every_run {A} (p : prog A) (Q : trace -> outcome A -> Prop) : Prop :=
  wp any_env any_call p Q [].
Definition every_call {A} (p : prog A) (G : call_guard) : Prop :=
  wp any_env G p (fun _ _ => True) [].

Lemma event_cons_inv c (r : resp c) (tr tr1 : trace) c' (r' : resp c') tr2 :
  Event c r :: tr = tr1 ++ Event c' r' :: tr2 ->
  (tr1 = [] /\ c = c') \/ (exists tr1', tr1 = Event c r :: tr1' /\ tr = tr1' ++ Event c' r' :: tr2).
Proof.
  destruct tr1 as [|e tr1]; intros H.
  - left. split; [done|].
    exact (f_equal (fun l => match l with Event c _ :: _ => c | [] => c' end) H).
  - right. exists tr1. cbn in H. split.
    + f_equal. symmetry. exact (f_equal (fun l => default e (head l)) H).
    + exact (f_equal tail H).
Qed.

(** The calls of a run, when the guard does not depend on the calls before. *)
Definition event_cmd (e : event) : cmd := match e with Event c _ => c end.

Lemma wp_trace {A} law (G : cmd -> Prop) (p : prog A) Q tr :
  wp law (fun _ => G) p Q tr ->
  wp law any_call p (fun tr' o => Q tr' o /\
    exists tr'', tr' = tr ++ tr'' /\ Forall (fun e => G (event_cmd e)) tr'') tr.
Proof.
  revert tr. induction p as [a|why|c k IH]; intros tr H; simpl in *.
  - split; [done|]. exists []. by rewrite app_nil_r.
  - split; [done|]. exists []. by rewrite app_nil_r.
  - destruct H as [Hg H]. split; [done|]. intros r Hr.
    eapply wp_mono; [by apply IH, H|]. cbv beta. intros tr' o [HQ (tr'' & -> & Ht)].
    split; [done|]. exists (Event c r :: tr''). rewrite <- app_assoc. split; [done|by constructor].
Qed.

(** A run in an environment that obeys the law does what [wp] promises. *)
Section Adequacy.
Context {W : Type} (env : forall c : cmd, W -> resp c * W) (law : env_law) (guard : call_guard).

Lemma run_wp_from {A} (p : prog A) Q w tr0 :
  (forall tr c w, law tr c (env c w).1) ->
  wp law guard p Q tr0 ->
  let '(tr, o, _) := run env p w in
  Q (tr0 ++ tr) o /\
  forall tr1 c r tr2, tr = tr1 ++ Event c r :: tr2 -> guard (tr0 ++ tr1) c.
Proof.
  intros Hlaw. revert w tr0. induction p as [a|why|c k IH]; intros w tr0; simpl.
  - rewrite app_nil_r. intros H. split; [done|]. intros [|??] ????; simplify_list_eq.
  - rewrite app_nil_r. intros H. split; [done|]. intros [|??] ????; simplify_list_eq.
  - intros [Hg H]. pose proof (Hlaw tr0 c w) as Hr.
    destruct (env c w) as [r w1]. simpl in Hr.
    specialize (IH r w1 (tr0 ++ [Event c r]) (H r Hr)).
    destruct (run env (k r) w1) as [[tr o] w2].
    rewrite <- app_assoc in IH. destruct IH as [HQ HG]. split; [done|].
    intros tr1 c' r' tr2 [[-> <-]|(tr1' & -> & Heq)]%event_cons_inv.
    + by rewrite app_nil_r.
    + specialize (HG tr1' c' r' tr2 Heq). by rewrite <- app_assoc in HG.
Qed.

Theorem run_wp {A} (p : prog A) Q w :
  (forall tr c w, law tr c (env c w).1) ->
  wp law guard p Q [] ->
  let '(tr, o, _) := run env p w in
  Q tr o /\ forall tr1 c r tr2, tr = tr1 ++ Event c r :: tr2 -> guard tr1 c.
Proof. apply (run_wp_from p Q w []). Qed.
End Adequacy.

(** * Symbolic execution *)

(** The definitions of a component are unfolded by [autounfold with prog]. *)
Create HintDb prog.
#[export] Hint Unfold ebind try_else call ok throw deref : prog.

Ltac wp_unfold := autounfold with prog in *.

Ltac wp_simpl := cbn [bind finally app].

Ltac resp_simpl r :=
  cbn [resp Client.answer FS.answer Mounter.answer Executor.answer Cryptsetup.answer Sys.answer
       Net.answer Obs.answer] in r.

(** One step: a call is made and answered, or a condition is decided. *)
Ltac wp_step :=
  lazymatch goal with
  | |- wp _ _ (Call _ _) _ _ =>
      split; [|let r := fresh "r" in let Hr := fresh "Hr" in
               intros r Hr; resp_simpl r; wp_simpl]
  | |- wp _ _ (Ret ?a) ?Q ?tr => change (Q tr (Done a)); cbv beta
  | |- wp _ _ (Panic ?w) ?Q ?tr => change (Q tr (Panicked w)); cbv beta
  | |- wp _ _ ?p _ _ =>
      match p with
      | context [match ?x with _ => _ end] =>
          lazymatch x with
          | context [match ?y with _ => _ end] => fail
          | _ => destruct x eqn:?
          end
      end; wp_simpl
  end.

Ltac wp_run := wp_simpl; repeat wp_step.

(** Membership of a call in a recorded trace. *)
Create HintDb trace.
#[export] Hint Resolve list_elem_of_here list_elem_of_further : trace.

(** Membership in a trace whose last calls are known. *)
Ltac in_trace :=
  repeat first [ apply list_elem_of_here | apply list_elem_of_further
               | apply elem_of_app; right ]; fail.

(** Facts about pointers and comparisons, as propositions. *)
Ltac ptr_facts :=
  repeat match goal with
  | H : bool_decide (is_Some _) = true |- _ => apply bool_decide_eq_true in H as [? ?]
  | H : bool_decide (is_Some _) = false |- _ => apply bool_decide_eq_false, eq_None_not_Some in H
  | H : negb _ = true |- _ => apply negb_true_iff in H
  | H : negb _ = false |- _ => apply negb_false_iff in H
  end; zify_bool.

(** Use what the law says of the answers received. *)
Ltac use_answers :=
  repeat match goal with
  | H : both _ _ _ _ _ |- _ => destruct H as [? ?]
  | H : always ?c _ _ ?c _ |- _ => apply always_eq in H; simplify_eq
  end.

(** Membership in a trace with unknown segments. *)
Lemma elem_of_app_l (e : event) tr1 tr2 : e ∈ tr1 -> e ∈ tr1 ++ tr2.
Proof. rewrite elem_of_app. auto. Qed.
Lemma elem_of_app_r (e : event) tr1 tr2 : e ∈ tr2 -> e ∈ tr1 ++ tr2.
Proof. rewrite elem_of_app. auto. Qed.
#[export] Hint Resolve elem_of_app_l elem_of_app_r : trace.

Ltac in_app := solve [eauto 30 with trace].
