(* ===== verification/LinodeVolumes.v ===== *)
(** pkg/linode-volumes/utils.go: volume keys ["<id>-<label>"] and the conversion
    of CSI volume and node IDs to the integers of the Linode API. *)
From S2P Require Import Prelude GoStrings Types Errors.

Definition LinodeVolumeLabelLength : nat := 32.

Definition hashStringToInt (b : string) : Z := wrap64 (Sum32a b).

Record LinodeVolumeKey := { VolumeID : Z; Label : string }.

Definition CreateLinodeVolumeKey (id : Z) (label : string) : LinodeVolumeKey :=
  {| VolumeID := id; Label := label |}.

Definition ParseLinodeVolumeKey (key : string) : goerror + LinodeVolumeKey :=
  match SplitN2 key "-" with
  | [k0; k1] =>
      match Atoi k0 with
      | inl _ => inl (EErrorf "invalid linode volume id: %q" [AStr k0])
      | inr volumeID => inr {| VolumeID := volumeID; Label := k1 |}
      end
  | _ => inl (EErrorf "invalid linode volume key: %q" [AStr key])
  end.

Definition GetNormalizedLabel (key : LinodeVolumeKey) : string :=
  if Nat.ltb LinodeVolumeLabelLength (String.length (Label key))
  then str_take LinodeVolumeLabelLength (Label key)
  else Label key.

Definition GetNormalizedLabelWithPrefix (key : LinodeVolumeKey) (prefix : string) : string :=
  let label := prefix +:+ GetNormalizedLabel key in
  if Nat.ltb LinodeVolumeLabelLength (String.length label)
  then str_take LinodeVolumeLabelLength label
  else label.

(** [fmt.Sprintf "%d-%s"]. *)
Definition GetVolumeKey (key : LinodeVolumeKey) : string :=
  Itoa (VolumeID key) +:+ "-" +:+ GetNormalizedLabel key.

Definition with_caller (caller : string) : string :=
  if String.eqb caller "" then caller else caller +:+ " ".

Definition VolumeIdAsInt (caller : string) (strVolID : string) : goerror + Z :=
  let caller := with_caller caller in
  if String.eqb strVolID "" then
    inl (EStatus InvalidArgument "%sVolume ID must be provided" [AStr caller])
  else
    match ParseLinodeVolumeKey strVolID with
    | inr key => inr (VolumeID key)
    | inl _ => inr (hashStringToInt strVolID)
    end.

Definition NodeIdAsInt (caller : string) (strNodeID : string) : goerror + Z :=
  let caller := with_caller caller in
  if String.eqb strNodeID "" then
    inl (EStatus InvalidArgument "%sNode ID must be provided" [AStr caller])
  else
    match Atoi strNodeID with
    | inr nodeID => inr nodeID
    | inl _ => inr (hashStringToInt strNodeID)
    end.

(** * Labels *)

Lemma GetNormalizedLabel_take key :
  GetNormalizedLabel key = str_take LinodeVolumeLabelLength (Label key).
Proof.
  unfold GetNormalizedLabel. destruct (Nat.ltb_spec LinodeVolumeLabelLength (String.length (Label key))).
  - done.
  - by rewrite str_take_ge.
Qed.

Lemma GetNormalizedLabelWithPrefix_take key prefix :
  GetNormalizedLabelWithPrefix key prefix =
  str_take LinodeVolumeLabelLength (prefix +:+ Label key).
Proof.
  unfold GetNormalizedLabelWithPrefix. rewrite GetNormalizedLabel_take.
  set (l := prefix +:+ _).
  assert (str_take LinodeVolumeLabelLength l = str_take LinodeVolumeLabelLength (prefix +:+ Label key))
    as Hl.
  { subst l. rewrite !str_take_app, str_take_take. do 2 f_equal. lia. }
  rewrite <- Hl. destruct (Nat.ltb_spec LinodeVolumeLabelLength (String.length l)); [done|].
  by rewrite str_take_ge.
Qed.

Lemma digits_no_dash s :
  str_forall is_digit s = true -> str_forall (fun a => negb (Ascii.eqb a "-")) s = true.
Proof. apply str_forall_impl. by intros [[] [] [] [] [] [] [] []]. Qed.

Lemma SplitN2_first_dash l r :
  str_forall (fun a => negb (Ascii.eqb a "-")) l = true ->
  SplitN2 (l +:+ String "-" r) "-" = [l; r].
Proof. intros H. unfold SplitN2. by rewrite str_cut_app. Qed.

Lemma ParseLinodeVolumeKey_digits l r :
  str_forall is_digit l = true ->
  ParseLinodeVolumeKey (l +:+ String "-" r) =
  match Atoi l with
  | inr id => inr {| VolumeID := id; Label := r |}
  | inl _ => inl (EErrorf "invalid linode volume id: %q" [AStr l])
  end.
Proof.
  intros H. unfold ParseLinodeVolumeKey. rewrite SplitN2_first_dash by by apply digits_no_dash.
  by destruct (Atoi l).
Qed.

Lemma GetVolumeKey_nonempty key : GetVolumeKey key <> EmptyString.
Proof.
  unfold GetVolumeKey. pose proof (Itoa_nonempty (VolumeID key)).
  destruct (Itoa (VolumeID key)); [done|]. by rewrite str_app_cons.
Qed.

(** Parsing a generated key gives back the ID and the normalized label. *)
Lemma Parse_GetVolumeKey key :
  0 <= VolumeID key <= max_int64 ->
  ParseLinodeVolumeKey (GetVolumeKey key) =
  inr (CreateLinodeVolumeKey (VolumeID key) (GetNormalizedLabel key)).
Proof.
  intros H. unfold GetVolumeKey.
  change ("-" +:+ GetNormalizedLabel key) with (String "-" (GetNormalizedLabel key)).
  rewrite ParseLinodeVolumeKey_digits by (apply Itoa_digits; lia).
  rewrite Atoi_Itoa; [done|]. unfold is_int64, min_int64. lia.
Qed.

Lemma VolumeIdAsInt_GetVolumeKey caller key :
  0 <= VolumeID key <= max_int64 ->
  VolumeIdAsInt caller (GetVolumeKey key) = inr (VolumeID key).
Proof.
  intros H. unfold VolumeIdAsInt.
  destruct (String.eqb_spec (GetVolumeKey key) "") as [E|_].
  - by destruct (GetVolumeKey_nonempty key).
  - by rewrite Parse_GetVolumeKey.
Qed.

Lemma hashStringToInt_range s : 0 <= hashStringToInt s < 2 ^ 32.
Proof.
  unfold hashStringToInt. pose proof (Sum32a_range s).
  rewrite wrap64_id; [done|]. unfold is_int64, min_int64, max_int64. lia.
Qed.

Lemma NodeIdAsInt_Itoa caller z : is_int64 z -> NodeIdAsInt caller (Itoa z) = inr z.
Proof.
  intros Hz. unfold NodeIdAsInt. destruct (String.eqb_spec (Itoa z) "") as [E|_].
  - by destruct (Itoa_nonempty z).
  - by rewrite Atoi_Itoa.
Qed.

(** Only the empty ID is refused. *)
Lemma VolumeIdAsInt_inl caller s e :
  VolumeIdAsInt caller s = inl e -> s = "" /\ status_code e = Some InvalidArgument.
Proof.
  unfold VolumeIdAsInt. destruct (String.eqb_spec s "") as [->|_]; [by intros [= <-]|].
  by destruct (ParseLinodeVolumeKey s).
Qed.

Lemma NodeIdAsInt_inl caller s e :
  NodeIdAsInt caller s = inl e -> s = "" /\ status_code e = Some InvalidArgument.
Proof.
  unfold NodeIdAsInt. destruct (String.eqb_spec s "") as [->|_]; [by intros [= <-]|].
  by destruct (Atoi s).
Qed.

(** * Properties *)

(** C32. Round trip of volume keys: the CSI volume ID that [GetVolumeKey] builds
    from an ID of the Linode API and a label parses back to that ID and to the
    label cut at 32 bytes, and parsing the key a second time changes nothing. *)
Theorem volume_key_roundtrip (key : LinodeVolumeKey)
  (Hid : 0 <= VolumeID key <= max_int64) :
  exists key',
    ParseLinodeVolumeKey (GetVolumeKey key) = inr key' /\
    VolumeID key' = VolumeID key /\
    Label key' = str_take 32 (Label key) /\
    GetVolumeKey key' = GetVolumeKey key.
Proof.
  eexists. split; [by apply Parse_GetVolumeKey|]. split_and!; simpl; [done| |].
  - apply GetNormalizedLabel_take.
  - unfold GetVolumeKey. rewrite !GetNormalizedLabel_take.
    cbn [CreateLinodeVolumeKey VolumeID Label]. by rewrite str_take_take.
Qed.

Lemma volume_key_roundtrip_witness :
  exists key', ParseLinodeVolumeKey (GetVolumeKey (CreateLinodeVolumeKey 30001 "pvc-0123")) = inr key' /\
    VolumeID key' = 30001 /\ Label key' = str_take 32 "pvc-0123" /\
    GetVolumeKey key' = GetVolumeKey (CreateLinodeVolumeKey 30001 "pvc-0123").
Proof. apply (volume_key_roundtrip (CreateLinodeVolumeKey 30001 "pvc-0123")). unfold max_int64; simpl; lia. Defined.

(** Resolution of a volume ID: only the empty string is refused; an ID
    ["<l>-<r>"] whose part before the first dash is a decimal [int] denotes that
    integer, and every other ID denotes its 32-bit FNV-1a hash. *)
Theorem volume_id_resolution (caller s : string) :
  match VolumeIdAsInt caller s with
  | inl e => s = "" /\ status_code e = Some InvalidArgument
  | inr id =>
      s <> "" /\ is_int64 id /\
      ((exists l r, s = l +:+ "-" +:+ r /\
          str_forall (fun a => negb (Ascii.eqb a "-")) l = true /\ Atoi l = inr id) \/
       ((forall l r z, s = l +:+ "-" +:+ r ->
          str_forall (fun a => negb (Ascii.eqb a "-")) l = true -> Atoi l <> inr z) /\
        id = Sum32a s /\ 0 <= id < 2 ^ 32))
  end.
Proof.
  unfold VolumeIdAsInt. destruct (String.eqb_spec s "") as [->|Hs]; [done|].
  assert (hashStringToInt s = Sum32a s) as Hh.
  { unfold hashStringToInt. apply wrap64_id. pose proof (Sum32a_range s).
    unfold is_int64, min_int64, max_int64. lia. }
  unfold ParseLinodeVolumeKey, SplitN2.
  destruct (str_cut "-" s) as [[l r]|] eqn:Hc.
  - apply str_cut_inv in Hc as [-> Hl]. destruct (Atoi l) as [e|id] eqn:Ha.
    + split; [done|]. rewrite Hh. split; [|right; split; [|split; [done|apply Sum32a_range]]].
      * pose proof (Sum32a_range (l +:+ String "-" r)).
        unfold is_int64, min_int64, max_int64. lia.
      * intros l' r' z Heq Hl'. pose proof (str_cut_app "-" l r Hl) as H1.
        change ("-" +:+ r') with (String "-" r') in Heq.
        rewrite Heq, str_cut_app in H1 by done. congruence.
    + split_and!; [done|by eapply Atoi_range|]. left. by exists l, r.
  - pose proof Hc as Hn. apply str_cut_None in Hn.
    split; [done|]. rewrite Hh. split; [|right; split; [|split; [done|apply Sum32a_range]]].
    + pose proof (Sum32a_range s). unfold is_int64, min_int64, max_int64. lia.
    + intros l r z -> Hl. change ("-" +:+ r) with (String "-" r) in Hc.
      by rewrite str_cut_app in Hc.
Qed.

(** Labels of the Linode API: the label made of a prefix and a name is at
    most 32 bytes long, and two names get the same label exactly when they agree
    on the bytes the prefix leaves room for; so distinct names of that length
    never collide, and longer ones that differ only past it always do. *)
Theorem label_collision (prefix : string) (id1 id2 : Z) (name1 name2 : string)
  (Hprefix : (String.length prefix <= 32)%nat) :
  let label id name := GetNormalizedLabelWithPrefix (CreateLinodeVolumeKey id name) prefix in
  let room := (32 - String.length prefix)%nat in
  (String.length (label id1 name1) <= 32)%nat /\
  (label id1 name1 = label id2 name2 <-> str_take room name1 = str_take room name2).
Proof.
  intros label room. unfold label. rewrite !GetNormalizedLabelWithPrefix_take.
  cbn [Label CreateLinodeVolumeKey]. unfold LinodeVolumeLabelLength.
  rewrite !str_take_app, !(str_take_ge 32 prefix) by done. fold room. split.
  - rewrite str_app_length, str_take_length. lia.
  - split; [|by intros ->]. intros H. by apply (inj (String.append prefix)) in H.
Qed.

Lemma label_collision_witness :
  (String.length "prod-" <= 32)%nat /\
  GetNormalizedLabelWithPrefix (CreateLinodeVolumeKey 0 "pvc-00000000-0000-0000-0000-000000000001") "prod-" =
  GetNormalizedLabelWithPrefix (CreateLinodeVolumeKey 0 "pvc-00000000-0000-0000-0000-000000000002") "prod-".
Proof.
  split; [vm_compute; lia|].
  apply (label_collision "prod-" 0 0 "pvc-00000000-0000-0000-0000-000000000001"
           "pvc-00000000-0000-0000-0000-000000000002"); [vm_compute; lia|reflexivity].
Defined.
