(* ===== verification/Sizes.v ===== *)
(** Sizes and limits: internal/driver/limits.go, the conversions between bytes,
    megabytes and gigabytes of controllerserver_helper.go and metadata.go, and
    the choice of a volume's size. *)
From S2P Require Import Prelude GoStrings Types Errors.

(** * limits.go *)

Definition maxPersistentAttachments : Z := 8.
Definition maxAttachments : Z := 64.

(** [memoryBytes] is a [uint]. *)
Definition maxVolumeAttachments (memoryBytes : Z) : Z :=
  let attachments := Z.shiftr memoryBytes 30 in
  if attachments >? maxAttachments then maxAttachments
  else if attachments <? maxPersistentAttachments then maxPersistentAttachments
  else wrap64 attachments.

(** * Conversions *)

Definition MinVolumeSizeBytes : Z := Z.shiftl 10 30.
Definition bytesToGB (numBytes : Z) : Z := wrap64 (Z.shiftr numBytes 30).
Definition gbToBytes (gb : Z) : Z := wrap64 (wrap64 (Z.shiftl gb 30)).

Definition minMemory : Z := Z.shiftl 1 30.

Definition memoryToBytes (sizeMB : Z) : Z :=
  if sizeMB <? Z.shiftl 1 10 then minMemory
  else wrapu64 (Z.shiftl (wrapu64 sizeMB) 20).

(** [int(WaitTimeout.Truncate(time.Second).Seconds())], in seconds; a
    [time.Duration] counts nanoseconds. *)
Definition Second : Z := 1000000000.
Definition WaitTimeout : Z := 5 * 60 * Second.
Definition CloneTimeout : Z := 15 * 60 * Second.
Definition waitTimeout : Z := (WaitTimeout - WaitTimeout mod Second) / Second.
Definition cloneTimeout : Z := (CloneTimeout - CloneTimeout mod Second) / Second.

(** * The size of a volume *)

Definition adjustToMinimumSize (size : Z) : Z :=
  if size <? MinVolumeSizeBytes then MinVolumeSizeBytes else size.

Definition determineOptimalSize (reqSize maxSize : Z) : Z :=
  if (reqSize =? 0) || (reqSize <? maxSize) then maxSize else reqSize.

Definition getRequestCapacitySize (capRange : option CapacityRange) : goerror + Z :=
  match capRange with
  | None => inr MinVolumeSizeBytes
  | Some r =>
      let reqSize := RequiredBytes r in
      let maxSize := LimitBytes r in
      if (reqSize =? 0) && (maxSize =? 0) then
        inl (ENew "either RequiredBytes or LimitBytes must be set")
      else if (reqSize <? 0) || (maxSize <? 0) then
        inl (ENew "RequiredBytes and LimitBytes must not be negative")
      else if maxSize =? 0 then inr (adjustToMinimumSize reqSize)
      else if maxSize <? MinVolumeSizeBytes then
        inl (EErrorf "limit bytes %v is less than minimum allowed bytes %v"
               [AInt maxSize; AInt MinVolumeSizeBytes])
      else inr (determineOptimalSize reqSize maxSize)
  end.

(** * Lemmas *)

Lemma shiftr30 z : Z.shiftr z 30 = z / 2 ^ 30.
Proof. by rewrite Z.shiftr_div_pow2. Qed.

Lemma shiftl30 z : Z.shiftl z 30 = z * 2 ^ 30.
Proof. by rewrite Z.shiftl_mul_pow2. Qed.

Lemma MinVolumeSizeBytes_eq : MinVolumeSizeBytes = 10 * 2 ^ 30.
Proof. done. Qed.

Lemma bytesToGB_div b : is_int64 b -> bytesToGB b = b / 2 ^ 30.
Proof.
  intros H. unfold bytesToGB. rewrite shiftr30. apply wrap64_id.
  unfold is_int64, min_int64, max_int64 in *. split.
  - apply Z.div_le_lower_bound; lia.
  - apply Z.div_le_upper_bound; lia.
Qed.

Lemma gbToBytes_mul gb : - 2 ^ 33 <= gb < 2 ^ 33 -> gbToBytes gb = gb * 2 ^ 30.
Proof.
  intros H. unfold gbToBytes. rewrite shiftl30.
  assert (is_int64 (gb * 2 ^ 30)) as Hr by (unfold is_int64, min_int64, max_int64; lia).
  by rewrite !wrap64_id by (rewrite ?wrap64_id; done).
Qed.

Lemma maxVolumeAttachments_clamp m :
  is_uint64 m -> maxVolumeAttachments m = Z.max 8 (Z.min 64 (m / 2 ^ 30)).
Proof.
  intros H. unfold maxVolumeAttachments, maxAttachments, maxPersistentAttachments.
  cbv zeta. rewrite shiftr30. repeat case_if; zify_bool; try lia.
  rewrite wrap64_id; [lia|]. unfold is_int64, min_int64, max_int64. lia.
Qed.

(** The size chosen, as a function of the range alone. *)
Lemma getRequestCapacitySize_inr r size :
  getRequestCapacitySize (Some r) = inr size <->
  0 <= RequiredBytes r /\ 0 <= LimitBytes r /\ (RequiredBytes r <> 0 \/ LimitBytes r <> 0) /\
  (LimitBytes r = 0 \/ MinVolumeSizeBytes <= LimitBytes r) /\
  size = Z.max (RequiredBytes r)
               (if LimitBytes r =? 0 then MinVolumeSizeBytes else LimitBytes r).
Proof.
  unfold getRequestCapacitySize, adjustToMinimumSize, determineOptimalSize.
  rewrite MinVolumeSizeBytes_eq. cbv zeta.
  destruct (LimitBytes r =? 0) eqn:Hl, (RequiredBytes r =? 0) eqn:Hr,
    (RequiredBytes r <? 0) eqn:Hr0, (LimitBytes r <? 0) eqn:Hl0,
    (LimitBytes r <? 10 * 2 ^ 30) eqn:Hm,
    (RequiredBytes r <? 10 * 2 ^ 30) eqn:Hrm,
    (RequiredBytes r <? LimitBytes r) eqn:Hrl; zify_bool; cbn [andb orb];
    split; try (intros [=]; lia); try (intros; f_equal; lia).
Qed.

(** * Properties *)

(** C36. The attachment limit of an instance is its memory in GiB, kept between 8
    and 64, and it does not decrease when the memory grows. *)
Theorem attachment_limit (m m' : Z) (Hm : is_uint64 m) (Hm' : is_uint64 m') :
  maxVolumeAttachments m = Z.max 8 (Z.min 64 (m / 2 ^ 30)) /\
  8 <= maxVolumeAttachments m <= 64 /\
  (m <= m' -> maxVolumeAttachments m <= maxVolumeAttachments m').
Proof.
  rewrite !maxVolumeAttachments_clamp by done. split_and!; [done|lia|lia|].
  intros H. pose proof (Z.div_le_mono m m' (2 ^ 30) ltac:(lia) H). lia.
Qed.

Lemma attachment_limit_witness :
  maxVolumeAttachments (Z.shiftl 16384 20) = 16 /\
  8 <= maxVolumeAttachments (Z.shiftl 16384 20) <= 64.
Proof.
  pose proof (attachment_limit (Z.shiftl 16384 20) (Z.shiftl 32768 20)
    ltac:(vm_compute; split; congruence) ltac:(vm_compute; split; congruence)) as (_ & H & _).
  split; [reflexivity|exact H].
Defined.

(** C35. The size chosen for a capacity range: an absent range gives 10 GiB; a
    range is accepted exactly when its bounds are not negative, not both zero,
    and the limit, if set, allows 10 GiB; the size is then at least 10 GiB and at
    least what is required, and is the larger of the requirement and the limit
    (or 10 GiB without a limit).

    The limit is no upper bound of the size, although README.md says that it is
    honored and that volumes do not exceed it, and the comments of
    getRequestCapacitySize say that the size does not exceed it and that a volume
    must not be bigger: a requirement above the limit is accepted, and the size
    then exceeds the limit; it does in no other case.  When the requirement is at
    most the limit, the size is the limit, not the requirement. *)
Theorem capacity_size_spec (range : option CapacityRange) :
  match range with
  | None => getRequestCapacitySize range = inr (10 * 2 ^ 30)
  | Some r =>
      let accepted :=
        0 <= RequiredBytes r /\ 0 <= LimitBytes r /\
        (RequiredBytes r <> 0 \/ LimitBytes r <> 0) /\
        (LimitBytes r = 0 \/ 10 * 2 ^ 30 <= LimitBytes r) in
      match getRequestCapacitySize range with
      | inl _ => ~ accepted
      | inr size =>
          accepted /\ 10 * 2 ^ 30 <= size /\ RequiredBytes r <= size /\
          size = Z.max (RequiredBytes r)
                       (if LimitBytes r =? 0 then 10 * 2 ^ 30 else LimitBytes r) /\
          (LimitBytes r = 0 \/
           (LimitBytes r < size <-> LimitBytes r < RequiredBytes r) /\
           (size = LimitBytes r <-> RequiredBytes r <= LimitBytes r))
      end
  end.
Proof.
  destruct range as [r|]; [|done]. cbv zeta.
  destruct (getRequestCapacitySize (Some r)) as [e|size] eqn:H.
  - intros (H1 & H2 & H3 & H4).
    assert (getRequestCapacitySize (Some r) =
      inr (Z.max (RequiredBytes r) (if LimitBytes r =? 0 then MinVolumeSizeBytes else LimitBytes r)))
      as H'; [|congruence].
    apply getRequestCapacitySize_inr. by rewrite MinVolumeSizeBytes_eq.
  - apply getRequestCapacitySize_inr in H as (H1 & H2 & H3 & H4 & ->).
    rewrite MinVolumeSizeBytes_eq in *. split_and!; try done; case_if; zify_bool; lia.
Qed.

(** A requirement of 30 GiB with a limit of 20 GiB gives a volume of 30 GiB. *)
Lemma capacity_size_spec_witness :
  let r := {| RequiredBytes := 30 * 2 ^ 30; LimitBytes := 20 * 2 ^ 30 |} in
  getRequestCapacitySize (Some r) = inr (30 * 2 ^ 30) /\ LimitBytes r < 30 * 2 ^ 30.
Proof.
  intros r. split; [reflexivity|].
  destruct (capacity_size_spec (Some r)) as (_ & _ & _ & _ & [Hzero|[Hlimit _]]); [discriminate Hzero|].
  apply Hlimit. reflexivity.
Defined.

(** The limit of a capacity range is not enforced: when a range is accepted,
    the size exceeds the limit that was set exactly when the limit is smaller
    than the required size. *)
Theorem capacity_limit_exceeded (r : CapacityRange) (size : Z)
  (Hsize : getRequestCapacitySize (Some r) = inr size) (Hlimit : LimitBytes r <> 0) :
  LimitBytes r < size <-> LimitBytes r < RequiredBytes r.
Proof.
  apply getRequestCapacitySize_inr in Hsize as (H1 & H2 & H3 & H4 & ->).
  case_if; zify_bool; lia.
Qed.

Lemma capacity_limit_exceeded_witness :
  let r := {| RequiredBytes := 30 * 2 ^ 30; LimitBytes := 20 * 2 ^ 30 |} in
  getRequestCapacitySize (Some r) = inr (30 * 2 ^ 30) /\ LimitBytes r < 30 * 2 ^ 30.
Proof.
  intros r. split; [reflexivity|].
  apply (capacity_limit_exceeded r); [reflexivity|done|reflexivity].
Defined.

(** Bytes and gigabytes: a size in GB below [2^33] survives the round trip
    through bytes; a size in bytes loses its remainder modulo 1 GiB, so that the
    two conversions are inverse exactly on multiples of 1 GiB; and [2^33] GB
    wraps around to a negative number of bytes. *)
Theorem gb_bytes_roundtrip (gb b : Z) (Hgb : 0 <= gb < 2 ^ 33) (Hb : 0 <= b <= max_int64) :
  bytesToGB (gbToBytes gb) = gb /\
  gbToBytes (bytesToGB b) = b - b mod 2 ^ 30 /\
  (gbToBytes (bytesToGB b) = b <-> (2 ^ 30 | b)) /\
  gbToBytes (2 ^ 33) = min_int64.
Proof.
  unfold max_int64 in Hb.
  assert (gbToBytes (bytesToGB b) = b - b mod 2 ^ 30) as Hbb.
  { rewrite bytesToGB_div by (unfold is_int64, min_int64, max_int64; lia).
    pose proof (Z.div_mod b (2 ^ 30) ltac:(lia)).
    rewrite gbToBytes_mul; [lia|]. split.
    - transitivity 0; [lia|]. apply Z.div_pos; lia.
    - apply Z.div_lt_upper_bound; lia. }
  split_and!; [|done| |reflexivity].
  - rewrite gbToBytes_mul by lia. rewrite bytesToGB_div.
    + apply Z.div_mul. lia.
    + unfold is_int64, min_int64, max_int64. lia.
  - rewrite Hbb. rewrite <- Z.mod_divide by lia. lia.
Qed.

Lemma gb_bytes_roundtrip_witness :
  bytesToGB (gbToBytes 20) = 20 /\ gbToBytes (bytesToGB (20 * 2 ^ 30 + 1)) = 20 * 2 ^ 30.
Proof.
  pose proof (gb_bytes_roundtrip 20 (20 * 2 ^ 30 + 1) ltac:(lia) ltac:(unfold max_int64; lia))
    as (H1 & H2 & _ & _).
  split; [exact H1|]. rewrite H2. reflexivity.
Defined.
