(* ===== verification/Config.v ===== *)
(** The constants and configuration shared by the servers of the driver:
    internal/driver/lifecycle.go and capabilities.go, the keys of the parameter
    and context maps, and the state of [LinodeDriver] and [Metadata]. *)
From S2P Require Import Prelude GoStrings Types Errors.

Definition Name : string := "linodebs.csi.linode.com".
Definition True_ : string := "true".

(** * Keys *)

Definition VolumeTags : string := Name +:+ "/volumeTags".
Definition PublishInfoVolumeName : string := Name +:+ "/volume-name".
Definition VolumeTopologyRegion : string := "topology.linode.com/region".
Definition devicePathKey : string := "devicePath".
Definition VolumeEncryption : string := Name +:+ "/encrypted".
Definition LuksEncryptedAttribute : string := Name +:+ "/luks-encrypted".
Definition LuksCipherAttribute : string := Name +:+ "/luks-cipher".
Definition LuksKeySizeAttribute : string := Name +:+ "/luks-key-size".
Definition LuksKeyAttribute : string := "luksKey".

(** * lifecycle.go *)

Inductive VolumeLifecycle :=
| VolumeLifecycleNodeStageVolume
| VolumeLifecycleNodePublishVolume
| VolumeLifecycleNodeUnstageVolume
| VolumeLifecycleNodeUnpublishVolume.

(** * capabilities.go *)

Inductive ControllerServiceCapability_RPC_Type :=
| CSC_UNKNOWN
| CSC_CREATE_DELETE_VOLUME
| CSC_PUBLISH_UNPUBLISH_VOLUME
| CSC_LIST_VOLUMES
| CSC_GET_CAPACITY
| CSC_CREATE_DELETE_SNAPSHOT
| CSC_LIST_SNAPSHOTS
| CSC_CLONE_VOLUME
| CSC_PUBLISH_READONLY
| CSC_EXPAND_VOLUME
| CSC_LIST_VOLUMES_PUBLISHED_NODES
| CSC_VOLUME_CONDITION
| CSC_GET_VOLUME
| CSC_SINGLE_NODE_MULTI_WRITER.

#[export] Instance CSC_eq_dec : EqDecision ControllerServiceCapability_RPC_Type.
Proof. solve_decision. Defined.

Inductive NodeServiceCapability_RPC_Type :=
| NSC_UNKNOWN
| NSC_STAGE_UNSTAGE_VOLUME
| NSC_GET_VOLUME_STATS
| NSC_EXPAND_VOLUME
| NSC_VOLUME_CONDITION
| NSC_SINGLE_NODE_MULTI_WRITER
| NSC_VOLUME_MOUNT_GROUP.

#[export] Instance NSC_eq_dec : EqDecision NodeServiceCapability_RPC_Type.
Proof. solve_decision. Defined.

(** The messages wrap each capability type once; the wrapping is dropped. *)
Definition ControllerServiceCapabilities : list ControllerServiceCapability_RPC_Type := [
  CSC_PUBLISH_READONLY;
  CSC_CREATE_DELETE_VOLUME;
  CSC_PUBLISH_UNPUBLISH_VOLUME;
  CSC_EXPAND_VOLUME;
  CSC_CLONE_VOLUME;
  CSC_LIST_VOLUMES;
  CSC_LIST_VOLUMES_PUBLISHED_NODES;
  CSC_VOLUME_CONDITION
].

Definition NodeServiceCapabilities : list NodeServiceCapability_RPC_Type := [
  NSC_STAGE_UNSTAGE_VOLUME;
  NSC_EXPAND_VOLUME;
  NSC_GET_VOLUME_STATS;
  NSC_VOLUME_CONDITION
].

Definition VolumeCapabilityAccessModes : list AccessMode_Mode := [SINGLE_NODE_WRITER].

(** * State *)

(** metadata.go: [Memory] is in bytes. *)
Record Metadata := {
  md_ID : Z;
  md_Label : string;
  md_Region : string;
  md_Memory : Z;
}.

(** driver.go: the fields of [LinodeDriver] other than the three servers. *)
Record LinodeDriver := {
  ld_name : string;
  ld_vendorVersion : string;
  ld_volumeLabelPrefix : string;
  ld_vcap : list AccessMode_Mode;
  ld_cscap : list ControllerServiceCapability_RPC_Type;
  ld_nscap : list NodeServiceCapability_RPC_Type;
  ld_ready : bool;
  ld_enableMetrics : string;
  ld_metricsPort : string;
  ld_enableTracing : string;
  ld_tracingPort : string;
}.

(** controllerserver.go: the Linode client is the environment of the program. *)
Record ControllerServer := {
  cs_driver : LinodeDriver;
  cs_metadata : Metadata;
}.
