(* ===== verification/Controller.v ===== *)
(** internal/driver/controllerserver.go and controllerserver_helper.go: the
    Controller service.  Log statements are left out, except that the pointers
    they dereference are dereferenced. *)
From S2P Require Import Prelude GoStrings Types Errors Metrics Effects LinodeVolumes Sizes Config.

Record VolumeParams := {
  vp_VolumeName : string;
  vp_TargetSizeGB : Z;
  vp_Size : Z;
  vp_EncryptionStatus : string;
  vp_Region : string;
}.

Section Controller.
Context (cs : ControllerServer).

(** * controllerserver_helper.go *)

Definition maxAllowedVolumeAttachments (instance : option Instance) : eprog Z :=
  match instance with
  | None => throw errNilInstance
  | Some i =>
      match i_Specs i with
      | None => throw errNilInstance
      | Some specs =>
          let? disks := api (Client.ListInstanceDisks (i_ID i))
            else fun err => throw (errInternal "list instance disks: %v" [AErr (EApi err)]) in
          let memBytes := wrapu64 (Z.shiftl (wrapu64 (Memory specs)) 20) in
          ok (wrap64 (maxVolumeAttachments memBytes - Z.of_nat (length disks)))
      end
  end.

Definition canAttach (instance : option Instance) : eprog bool :=
  let* i := deref instance in
  let! limit := maxAllowedVolumeAttachments instance in
  let? volumes := api (Client.ListInstanceVolumes (i_ID i))
    else fun err => throw (errInternal "list instance volumes: %v" [AErr (EApi err)]) in
  ok (Z.of_nat (length volumes) <? limit).

Definition getRegionFromTopology (requirements : TopologyRequirement) : string :=
  let topologies :=
    match Preferred requirements with
    | [] => Requisite requirements
    | l => l
    end in
  match topologies with
  | t :: _ => match Segments t !! VolumeTopologyRegion with
              | Some value => value
              | None => ""
              end
  | [] => ""
  end.

(** The region asked for, or that of the controller's own metadata. *)
Definition requested_region (accessibilityRequirements : option TopologyRequirement) : string :=
  match accessibilityRequirements with
  | Some reqs =>
      let topologyRegion := getRegionFromTopology reqs in
      if String.eqb topologyRegion "" then md_Region (cs_metadata cs) else topologyRegion
  | None => md_Region (cs_metadata cs)
  end.

Definition getContentSourceVolume (contentSource : option VolumeContentSource)
    (accessibilityRequirements : option TopologyRequirement) : eprog (option LinodeVolumeKey) :=
  match contentSource with
  | None => ok None
  | Some (ContentNone | ContentSnapshot _) => throw errUnsupportedVolumeContentSource
  | Some (ContentVolume None) => throw errNoSourceVolume
  | Some (ContentVolume (Some sourceVolumeId)) =>
      match ParseLinodeVolumeKey sourceVolumeId with
      | inl err => throw (errInternal "parse volume info from content source: %v" [AErr err])
      | inr volKey =>
          let? volumeData := api (Client.GetVolume (VolumeID volKey))
            else fun err => throw (errInternal "get volume %d: %v"
                                     [AInt (VolumeID volKey); AErr (EApi err)]) in
          match volumeData with
          | None => throw (errInternal "source volume *linodego.Volume is nil" [])
          | Some volumeData =>
              let requiredRegion := requested_region accessibilityRequirements in
              if negb (String.eqb (v_Region volumeData) requiredRegion)
              then throw (errRegionMismatch (v_Region volumeData) requiredRegion)
              else ok (Some volKey)
          end
      end
  end.

Definition createLinodeVolume (label tags encryptionStatus : string) (sizeGB : Z)
    (region : string) : eprog (option Volume) :=
  let volumeReq := {|
    co_Region := region;
    co_Label := label;
    co_Size := sizeGB;
    co_Encryption := encryptionStatus;
    co_Tags := if String.eqb tags "" then [] else Split tags ","
  |} in
  let? result := api (Client.CreateVolume volumeReq)
    else fun err => throw (errInternal "create volume: %v" [AErr (EApi err)]) in
  ok result.

Definition cloneLinodeVolume (label : string) (sourceID : Z) : eprog (option Volume) :=
  let? result := api (Client.CloneVolume sourceID label)
    else fun err => throw (errInternal "clone volume %d: %v" [AInt sourceID; AErr (EApi err)]) in
  ok result.

(** The filter is the JSON object [{"label": label}]; marshalling a map of
    strings never fails. *)
Definition attemptCreateLinodeVolume (label tags volumeEncryption : string) (sizeGB : Z)
    (sourceVolume : option LinodeVolumeKey) (region : string) : eprog (option Volume) :=
  let jsonFilter := [("label", label)] in
  let? volumes := api (Client.ListVolumes
      {| lo_Page := 0; lo_PageSize := 0; lo_Filter := Some jsonFilter |})
    else fun err => throw (errInternal "list volumes: %v" [AErr (EApi err)]) in
  match volumes with
  | _ :: _ :: _ => throw (errAlreadyExists "more than one volume with the label %q exists" [AStr label])
  | [v] => ok (Some v)
  | [] =>
      match sourceVolume with
      | Some key => cloneLinodeVolume label (VolumeID key)
      | None => createLinodeVolume label tags volumeEncryption sizeGB region
      end
  end.

Definition isEncryptionSupported (region : string) : eprog bool :=
  let? regionDetails := api (Client.GetRegion region)
    else fun err => throw (errInternal "failed to fetch region %s: %v" [AStr region; AErr (EApi err)]) in
  let* regionDetails := deref regionDetails in
  ok (existsb (fun capability => String.eqb capability "Block Storage Encryption")
        (r_Capabilities regionDetails)).

Fixpoint validVolumeCapabilities (caps : list (option VolumeCapability)) : bool :=
  match caps with
  | [] => true
  | None :: _ => false
  | Some cap :: caps =>
      match vc_AccessMode cap with
      | None => false
      | Some accMode =>
          if negb (bool_decide (accMode = SINGLE_NODE_WRITER)) then false
          else validVolumeCapabilities caps
      end
  end.

Definition validateCreateVolumeRequest (req : CreateVolumeRequest) : option goerror :=
  if String.eqb (cv_Name req) "" then Some errNoVolumeName
  else
    let volCaps := cv_VolumeCapabilities req in
    match volCaps with
    | [] => Some errNoVolumeCapabilities
    | _ => if negb (validVolumeCapabilities volCaps) then Some (errInvalidVolumeCapability volCaps)
           else None
    end.

Definition prepareVolumeParams (req : CreateVolumeRequest) : eprog VolumeParams :=
  match getRequestCapacitySize (cv_CapacityRange req) with
  | inl err => throw err
  | inr size =>
      let region := requested_region (cv_AccessibilityRequirements req) in
      let preKey := CreateLinodeVolumeKey 0 (cv_Name req) in
      let volumeName := GetNormalizedLabelWithPrefix preKey (ld_volumeLabelPrefix (cs_driver cs)) in
      let targetSizeGB := bytesToGB size in
      let! encryptionStatus :=
        if String.eqb (map_get (cv_Parameters req) VolumeEncryption) True_ then
          let! supported := isEncryptionSupported region in
          if negb supported
          then throw (errInternal "Volume encryption is not supported in the %s region" [AStr region])
          else ok "enabled"
        else ok "disabled" in
      ok {| vp_VolumeName := volumeName; vp_TargetSizeGB := targetSizeGB; vp_Size := size;
            vp_EncryptionStatus := encryptionStatus; vp_Region := region |}
  end.

Definition createVolumeContext (req : CreateVolumeRequest) (vol : Volume) : gmap string string :=
  let volumeContext :=
    if String.eqb (map_get (cv_Parameters req) LuksEncryptedAttribute) True_ then
      <[LuksKeySizeAttribute := map_get (cv_Parameters req) LuksKeySizeAttribute]>
      (<[LuksCipherAttribute := map_get (cv_Parameters req) LuksCipherAttribute]>
      (<[PublishInfoVolumeName := cv_Name req]>
      (<[LuksEncryptedAttribute := True_]> ∅)))
    else ∅ in
  <[VolumeTopologyRegion := v_Region vol]> volumeContext.

Definition createAndWaitForVolume (name : string) (parameters : gmap string string)
    (encryptionStatus : string) (sizeGB : Z) (sourceInfo : option LinodeVolumeKey)
    (region : string) : eprog Volume :=
  let! vol := attemptCreateLinodeVolume name (map_get parameters VolumeTags) encryptionStatus
                sizeGB sourceInfo region in
  let* vol := deref vol in
  if negb (v_Size vol =? sizeGB) && negb (bool_decide (is_Some sourceInfo)) then
    throw (errAlreadyExists "volume %d already exists with size %d" [AInt (v_ID vol); AInt (v_Size vol)])
  else
    let statusPollTimeout := match sourceInfo with Some _ => cloneTimeout | None => waitTimeout end in
    let? vol' := api (Client.WaitForVolumeStatus (v_ID vol) VolumeActive statusPollTimeout)
      else fun err => throw (errInternal "Timed out waiting for volume %d to be active: %v"
                               [AInt (v_ID vol); AErr (EApi err)]) in
    let* vol' := deref vol' in
    ok vol'.

Definition prepareCreateVolumeResponse (vol : Volume) (size : Z) (volContext : gmap string string)
    (sourceInfo : option LinodeVolumeKey) (contentSource : option VolumeContentSource) : CsiVolume :=
  let key := CreateLinodeVolumeKey (v_ID vol) (v_Label vol) in
  {| csi_VolumeId := GetVolumeKey key;
     csi_CapacityBytes := size;
     csi_AccessibleTopology := [{| Segments := {[VolumeTopologyRegion := v_Region vol]} |}];
     csi_VolumeContext := volContext;
     csi_ContentSource :=
       match sourceInfo with
       | Some _ =>
           let volumeId := match contentSource with
                           | Some (ContentVolume (Some id)) => id
                           | _ => ""
                           end in
           Some (ContentVolume (Some volumeId))
       | None => None
       end |}.

Definition validateControllerPublishVolumeRequest (req : ControllerPublishVolumeRequest)
    : goerror + Z * Z :=
  match NodeIdAsInt "ControllerPublishVolume" (cp_NodeId req) with
  | inl err => inl err
  | inr linodeID =>
      match VolumeIdAsInt "ControllerPublishVolume" (cp_VolumeId req) with
      | inl err => inl err
      | inr volumeID =>
          match cp_VolumeCapability req with
          | None => inl errNoVolumeCapability
          | Some volCap =>
              if negb (validVolumeCapabilities [Some volCap])
              then inl (errInvalidVolumeCapability [Some volCap])
              else inr (linodeID, volumeID)
          end
      end
  end.

Definition getAndValidateVolume (volumeID : Z) (instance : option Instance) : eprog string :=
  let* i := deref instance in
  let? volume := api (Client.GetVolume volumeID)
    else fun err =>
      if ae_IsNotFound err then throw (errVolumeNotFound volumeID)
      else throw (errInternal "get volume %d: %v" [AInt volumeID; AErr (EApi err)]) in
  let* volume := deref volume in
  match v_LinodeID volume with
  | Some linodeID =>
      if linodeID =? i_ID i then ok (v_FilesystemPath volume)
      else throw (errVolumeAttached volumeID (i_ID i))
  | None => ok ""
  end.

Definition getInstance (linodeID : Z) : eprog (option Instance) :=
  let? instance := api (Client.GetInstance linodeID)
    else fun err =>
      if ae_IsNotFound err then throw (errInstanceNotFound linodeID)
      else throw (errInternal "get linode instance %d: %v" [AInt linodeID; AErr (EApi err)]) in
  ok instance.

Definition checkAttachmentCapacity (instance : option Instance) : eprog unit :=
  let* _ := deref instance in
  let! can := canAttach instance in
  if negb can then
    let? limit := maxAllowedVolumeAttachments instance
      else fun err =>
        if Is_errNilInstance err
        then throw (errInternal "cannot calculate max volume attachments for a nil instance" [])
        else throw errMaxAttachments in
    throw (errMaxVolumeAttachments limit)
  else ok tt.

Definition attachVolume (volumeID linodeID : Z) : eprog unit :=
  let? _ := api (Client.AttachVolume volumeID
      {| ao_LinodeID := linodeID; ao_PersistAcrossBoots := false |})
    else fun err =>
      let code :=
        match ae_Message err with
        | Some message => if Contains message "is already attached" then Unavailable else Internal
        | None => Internal
        end in
      throw (EStatus code "attach volume: %v" [AErr (EApi err)]) in
  ok tt.

(** * controllerserver.go *)

(** [RecordMetrics(total, duration, Failed, start); return resp, err]. *)
Definition failed {A} (total : CounterVec) (duration : HistogramVec) (err : goerror) : eprog A :=
  let* _ := call (RecordMetrics total duration Failed) in
  throw err.

Definition CreateVolume (req : CreateVolumeRequest) : eprog CsiVolume :=
  let failed {A} := @failed A ControllerCreateVolumeTotal ControllerCreateVolumeDuration in
  match validateCreateVolumeRequest req with
  | Some err => failed err
  | None =>
      let? params := prepareVolumeParams req else failed in
      let contentSource := cv_VolumeContentSource req in
      let accessibilityRequirements := cv_AccessibilityRequirements req in
      let? sourceVolInfo := getContentSourceVolume contentSource accessibilityRequirements
        else failed in
      let? vol := createAndWaitForVolume (vp_VolumeName params) (cv_Parameters req)
                    (vp_EncryptionStatus params) (vp_TargetSizeGB params) sourceVolInfo
                    (vp_Region params)
        else failed in
      let volContext := createVolumeContext req vol in
      let resp := prepareCreateVolumeResponse vol (vp_Size params) volContext
                    sourceVolInfo contentSource in
      let* _ := call (RecordMetrics ControllerCreateVolumeTotal ControllerCreateVolumeDuration Completed) in
      ok resp
  end.

Definition DeleteVolume (volumeId : string) : eprog unit :=
  let total := ControllerDeleteVolumeTotal in
  let duration := ControllerDeleteVolumeDuration in
  match VolumeIdAsInt "DeleteVolume" volumeId with
  | inl statusErr => failed total duration statusErr
  | inr volID =>
      let? vol := api (Client.GetVolume volID)
        else fun err =>
          if ae_IsNotFound err then
            let* _ := call (RecordMetrics total duration Failed) in ok tt
          else failed total duration (errInternal "get volume %d: %v" [AInt volID; AErr (EApi err)]) in
      let* vol := deref vol in
      if bool_decide (is_Some (v_LinodeID vol)) then failed total duration errVolumeInUse
      else
        let* err := api (Client.DeleteVolume volID) in
        match err with
        | Some err => failed total duration
                        (errInternal "delete volume %d: %v" [AInt volID; AErr (EApi err)])
        | None =>
            let* _ := call (RecordMetrics total duration Completed) in
            ok tt
        end
  end.

Definition ControllerPublishVolume (req : ControllerPublishVolumeRequest)
    : eprog (gmap string string) :=
  let failed {A} := @failed A ControllerPublishVolumeTotal ControllerPublishVolumeDuration in
  match validateControllerPublishVolumeRequest req with
  | inl err => failed err
  | inr (linodeID, volumeID) =>
      let? instance := getInstance linodeID else failed in
      let? devicePath := getAndValidateVolume volumeID instance else failed in
      if negb (String.eqb devicePath "") then
        let* _ := call (RecordMetrics ControllerPublishVolumeTotal ControllerPublishVolumeDuration Failed) in
        ok {[devicePathKey := devicePath]}
      else
        let? _ := checkAttachmentCapacity instance else failed in
        let? _ := attachVolume volumeID linodeID else failed in
        let? volume := api (Client.WaitForVolumeLinodeID volumeID (Some linodeID) waitTimeout)
          else fun err => failed (EApi err) in
        let* _ := call (RecordMetrics ControllerPublishVolumeTotal ControllerPublishVolumeDuration Completed) in
        let* volume := deref volume in
        let* _ := deref (v_LinodeID volume) in
        ok {[devicePathKey := v_FilesystemPath volume]}
  end.

Definition ControllerUnpublishVolume (req : ControllerUnpublishVolumeRequest) : eprog unit :=
  let failed {A} := @failed A ControllerUnpublishVolumeTotal ControllerUnpublishVolumeDuration in
  let record := fun status =>
    call (RecordMetrics ControllerUnpublishVolumeTotal ControllerUnpublishVolumeDuration status) in
  match VolumeIdAsInt "ControllerUnpublishVolume" (cu_VolumeId req) with
  | inl statusErr => failed statusErr
  | inr volumeID =>
  match NodeIdAsInt "ControllerUnpublishVolume" (cu_NodeId req) with
  | inl statusErr => failed statusErr
  | inr linodeID =>
      let? volume := api (Client.GetVolume volumeID)
        else fun err =>
          if ae_IsNotFound err then let* _ := record Failed in ok tt
          else failed (errInternal "get volume %d: %v" [AInt volumeID; AErr (EApi err)]) in
      let* volume := deref volume in
      if match v_LinodeID volume with Some id => negb (id =? linodeID) | None => false end then
        let* _ := record Failed in ok tt
      else
        let* err := api (Client.DetachVolume volumeID) in
        match err with
        | Some err =>
            if ae_IsNotFound err then let* _ := record Failed in ok tt
            else failed (errInternal "detach volume %d: %v" [AInt volumeID; AErr (EApi err)])
        | None =>
            let? _ := api (Client.WaitForVolumeLinodeID volumeID None waitTimeout)
              else fun err =>
                failed (errInternal "wait for volume %d to detach: %v" [AInt volumeID; AErr (EApi err)]) in
            let* _ := record Completed in
            ok tt
        end
  end
  end.

(** The result is the confirmed capabilities, if any. *)
Definition ValidateVolumeCapabilities (req : ValidateVolumeCapabilitiesRequest)
    : eprog (option (list (option VolumeCapability))) :=
  match VolumeIdAsInt "ControllerValidateVolumeCapabilities" (vv_VolumeId req) with
  | inl statusErr => throw statusErr
  | inr volumeID =>
      let volumeCapabilities := vv_VolumeCapabilities req in
      match volumeCapabilities with
      | [] => throw errNoVolumeCapabilities
      | _ =>
          let? _ := api (Client.GetVolume volumeID)
            else fun err =>
              if ae_IsNotFound err then throw (errVolumeNotFound volumeID)
              else throw (errInternal "get volume: %v" [AErr (EApi err)]) in
          ok (if validVolumeCapabilities volumeCapabilities then Some volumeCapabilities else None)
      end
  end.

Definition list_entry (v : Volume) : ListVolumesEntry :=
  let key := CreateLinodeVolumeKey (v_ID v) (v_Label v) in
  {| le_Volume :=
       {| csi_VolumeId := GetVolumeKey key;
          csi_CapacityBytes := gbToBytes (v_Size v);
          csi_VolumeContext := ∅;
          csi_ContentSource := None;
          csi_AccessibleTopology := [{| Segments := {[VolumeTopologyRegion := v_Region v]} |}] |};
     le_PublishedNodeIds := match v_LinodeID v with Some id => [Itoa id] | None => [] end;
     le_Abnormal := false |}.

(** The list options and the next token, or the error of a bad token.
    [strconv.ParseInt startingToken 10 0] is [Atoi]. *)
Definition list_options (req : ListVolumesRequest) : goerror + (ListOptions * string) :=
  let startingToken := lv_StartingToken req in
  let pageSize := if lv_MaxEntries req >? 0 then lv_MaxEntries req else 0 in
  if String.eqb startingToken "" then
    inr ({| lo_Page := 0; lo_PageSize := pageSize; lo_Filter := None |}, "")
  else
    match Atoi startingToken with
    | inl _ => inl (EStatus Aborted "invalid starting token: %q" [AStr startingToken])
    | inr startingPage =>
        if (startingPage <? min_int64) || (startingPage >? max_int64) then
          inl (EStatus Aborted "starting token out of bounds: %q" [AStr startingToken])
        else
          inr ({| lo_Page := startingPage; lo_PageSize := pageSize; lo_Filter := None |},
               Itoa (wrap64 (startingPage + 1)))
    end.

Definition ListVolumes (req : ListVolumesRequest) : eprog ListVolumesResponse :=
  match list_options req with
  | inl err => throw err
  | inr (listOpts, nextToken) =>
      let? volumes := api (Client.ListVolumes listOpts)
        else fun err => throw (errInternal "list volumes: %v" [AErr (EApi err)]) in
      ok {| lr_Entries := map list_entry volumes; lr_NextToken := nextToken |}
  end.

Definition ControllerGetCapabilities : eprog (list ControllerServiceCapability_RPC_Type) :=
  ok (ld_cscap (cs_driver cs)).

Definition ControllerExpandVolume (req : ControllerExpandVolumeRequest)
    : eprog ControllerExpandVolumeResponse :=
  match VolumeIdAsInt "ControllerExpandVolume" (ce_VolumeId req) with
  | inl statusErr => throw statusErr
  | inr volumeID =>
  match getRequestCapacitySize (ce_CapacityRange req) with
  | inl err => throw (errInternal "get requested size from capacity range: %v" [AErr err])
  | inr size =>
      let? vol := api (Client.GetVolume volumeID)
        else fun err => throw (errInternal "get volume: %v" [AErr (EApi err)]) in
      let* vol := deref vol in
      if v_Size vol >? bytesToGB size then throw errResizeDown
      else
        let* err := api (Client.ResizeVolume volumeID (bytesToGB size)) in
        match err with
        | Some err => throw (errInternal "resize volume %d: %v" [AInt volumeID; AErr (EApi err)])
        | None =>
            let? _ := api (Client.WaitForVolumeStatus (v_ID vol) VolumeActive waitTimeout)
              else fun err =>
                throw (errInternal "timed out waiting for volume %d to become active: %v"
                         [AInt volumeID; AErr (EApi err)]) in
            ok {| er_CapacityBytes := size; er_NodeExpansionRequired := false |}
        end
  end
  end.
End Controller.

#[export] Hint Unfold
  maxAllowedVolumeAttachments canAttach getContentSourceVolume createLinodeVolume
  cloneLinodeVolume attemptCreateLinodeVolume isEncryptionSupported prepareVolumeParams
  createAndWaitForVolume getAndValidateVolume getInstance checkAttachmentCapacity attachVolume
  failed CreateVolume DeleteVolume ControllerPublishVolume ControllerUnpublishVolume
  ValidateVolumeCapabilities ListVolumes ControllerGetCapabilities ControllerExpandVolume : prog.

(** [NewControllerServer]; the client is nil or not. *)
Definition NewControllerServer (driver : option LinodeDriver) (client_is_nil : bool)
    (metadata : Metadata) : goerror + ControllerServer :=
  match driver with
  | None => inl errNilDriver
  | Some driver =>
      if client_is_nil then inl (ENew "nil client")
      else inr {| cs_driver := driver; cs_metadata := metadata |}
  end.
