(* ===== verification/ControllerProofs.v ===== *)
(** Properties of the Controller service. *)
From S2P Require Import Prelude GoStrings Types Errors Metrics Effects LinodeVolumes Sizes Config Controller.

(** The calls that change the state of the Linode account. *)
Definition is_mutating (c : cmd) : bool :=
  match c with
  | Api (Client.CreateVolume _ | Client.CloneVolume _ _ | Client.AttachVolume _ _
        | Client.DetachVolume _ | Client.DeleteVolume _ | Client.ResizeVolume _ _) => true
  | _ => false
  end.

(** What the Linode API said of a volume. *)
Definition saw_volume (tr : trace) (id : Z) (v : Volume) : Prop :=
  Event (Api (Client.GetVolume id)) (inr (Some v)) ∈ tr.

Definition label_filter (label : string) : ListOptions :=
  {| lo_Page := 0; lo_PageSize := 0; lo_Filter := Some [("label", label)] |}.

Definition made_volume (e : event) : bool :=
  match e with
  | Event (Api (Client.CreateVolume _ | Client.CloneVolume _ _)) _ => true
  | _ => false
  end.

(** * A concrete world *)

Definition ex_node : Instance :=
  {| i_ID := 42; i_Label := "node"; i_Region := "us-east"; i_Specs := Some {| Memory := 4096 |} |}.
Definition ex_volume (id : Z) (attached : option Z) : Volume :=
  {| v_ID := id; v_Label := "pvc-1"; v_Status := VolumeActive; v_Region := "us-east";
     v_Size := 20; v_LinodeID := attached; v_FilesystemPath := "/dev/disk/by-id/x" |}.
Definition ex_capability : VolumeCapability :=
  {| vc_AccessType := AccessMount None; vc_AccessMode := Some SINGLE_NODE_WRITER |}.

Definition ex_driver (prefix : string) : LinodeDriver := {|
  ld_name := Name; ld_vendorVersion := "v1"; ld_volumeLabelPrefix := prefix;
  ld_vcap := VolumeCapabilityAccessModes; ld_cscap := ControllerServiceCapabilities;
  ld_nscap := NodeServiceCapabilities; ld_ready := true;
  ld_enableMetrics := ""; ld_metricsPort := ""; ld_enableTracing := ""; ld_tracingPort := "" |}.

Definition ex_account (a : Client.call) : Client.answer a :=
  match a return Client.answer a with
  | Client.ListVolumes _ | Client.ListInstanceVolumes _ | Client.ListInstanceDisks _ => inr []
  | Client.GetRegion _ => inr (Some {| r_Capabilities := ["Block Storage Encryption"] |})
  | Client.GetInstance _ => inr (Some ex_node)
  | Client.GetVolume id | Client.CloneVolume id _ | Client.AttachVolume id _
  | Client.WaitForVolumeStatus id _ _ => inr (Some (ex_volume id None))
  | Client.CreateVolume _ => inr (Some (ex_volume 7 None))
  | Client.WaitForVolumeLinodeID id l _ => inr (Some (ex_volume id l))
  | Client.DetachVolume _ | Client.DeleteVolume _ | Client.ResizeVolume _ _ => None
  end.

(** A world in which every call succeeds, every path exists, nothing is mounted and
    blkid finds no file system. *)
Definition ex_world (c : cmd) : resp c :=
  match c return resp c with
  | Api a => ex_account a
  | Fs f =>
      match f return FS.answer f with
      | FS.MkdirAll _ _ | FS.Stat _ | FS.Remove _ | FS.Close _ => None
      | FS.OpenFile _ _ _ | FS.Open _ => inr 3
      | FS.ReadLimit _ _ | FS.EvalSymlinks _ => inr ""
      | FS.Glob _ => inr []
      end
  | Mnt m =>
      match m return Mounter.answer m with
      | Mounter.IsLikelyNotMountPoint _ => (true, None)
      | Mounter.Mount _ _ _ _ | Mounter.CleanupMountPoint _ _ | Mounter.FormatAndMount _ _ _ _ => None
      end
  | Exec (Executor.CmdRun _ _) => Some {| xe_NotFound := false; xe_ExitStatus := Some 2; xe_Text := "" |}
  | Exec _ => None
  | Crypt y =>
      match y return Cryptsetup.answer y with
      | Cryptsetup.Init _ | Cryptsetup.InitByName _ => inr 5
      | Cryptsetup.Format _ _ _ | Cryptsetup.KeyslotAddByVolumeKey _ _ _ _
      | Cryptsetup.ActivateByPassphrase _ _ _ _ _ | Cryptsetup.Load _ _ | Cryptsetup.Deactivate _ _ => None
      | Cryptsetup.Free _ => true
      end
  | Host h =>
      match h return Sys.answer h with
      | Sys.Statfs _ => inl ENOENT
      | Sys.NewMetadataClient => None
      | Sys.MetadataGetInstance => inr None
      end
  | Net n =>
      match n return Net.answer n with
      | Net.Listen _ _ | Net.Serve | Net.MetricsShutdown | Net.MetricsClose | Net.TracerShutdown => None
      | Net.ListenAndServe => ErrServerClosed
      | Net.LoadServer | Net.LoadMetricsServer | Net.LoadTracerProvider => true
      | Net.WgAdd _ | Net.WgDone | Net.WgWait | Net.Go _ | Net.NewServer | Net.Register _
      | Net.NewMetricsServer _ | Net.GracefulStop | Net.Stop | Net.Fatal => tt
      end
  | Obs o =>
      match o return Obs.answer o with
      | Obs.SpanFromContext => true
      | Obs.Caller => Some "github.com/linode/linode-blockstorage-csi-driver/internal/driver.f"
      | Obs.SetAttribute _ _ | Obs.RecordError _ | Obs.SetStatus _ _ | Obs.EndSpan | Obs.StartSpan _
      | Obs.LogInfo _ _ _ | Obs.LogError _ _ => tt
      end
  | Lock | Unlock | RecordMetrics _ _ _ => tt
  end.

Definition in_ex_world {A} (p : prog A) : trace * outcome A :=
  (run (fun c (w : unit) => (ex_world c, w)) p tt).1.

Section Create.
Context (cs : ControllerServer).

Definition request_label (req : CreateVolumeRequest) : string :=
  GetNormalizedLabelWithPrefix (CreateLinodeVolumeKey 0 (cv_Name req))
    (ld_volumeLabelPrefix (cs_driver cs)).

Definition encryption_asked (req : CreateVolumeRequest) : bool :=
  String.eqb (map_get (cv_Parameters req) VolumeEncryption) "true".

Definition create_guard (req : CreateVolumeRequest) : call_guard := fun tr c =>
  is_mutating c = true ->
  let region := requested_region cs (cv_AccessibilityRequirements req) in
  forallb (fun e => negb (made_volume e)) tr = true /\
  Event (Api (Client.ListVolumes (label_filter (request_label req)))) (inr []) ∈ tr /\
  match c with
  | Api (Client.CreateVolume o) =>
      cv_VolumeContentSource req = None /\
      co_Label o = request_label req /\ co_Region o = region /\
      (exists size, getRequestCapacitySize (cv_CapacityRange req) = inr size /\
         co_Size o = bytesToGB size) /\
      if encryption_asked req then
        co_Encryption o = "enabled" /\
        exists reg, Event (Api (Client.GetRegion region)) (inr (Some reg)) ∈ tr /\
          "Block Storage Encryption" ∈ r_Capabilities reg
      else co_Encryption o = "disabled"
  | Api (Client.CloneVolume src label) =>
      label = request_label req /\
      exists srcid key v,
        cv_VolumeContentSource req = Some (ContentVolume (Some srcid)) /\
        ParseLinodeVolumeKey srcid = inr key /\ src = VolumeID key /\
        saw_volume tr src v /\ v_Region v = region
  | _ => False
  end.

Lemma existsb_supported reg :
  existsb (fun c => String.eqb c "Block Storage Encryption") (r_Capabilities reg) = true ->
  "Block Storage Encryption" ∈ r_Capabilities reg.
Proof.
  intros (c & Hc & Heq)%existsb_exists. apply String.eqb_eq in Heq as ->.
  by apply list_elem_of_In.
Qed.

Local Ltac clone_case :=
  split; [reflexivity|]; do 3 eexists; split_and!; try done; [in_trace|];
  by apply String.eqb_eq, negb_false_iff.

Lemma create_calls (req : CreateVolumeRequest) :
  every_call (CreateVolume cs req) (create_guard req).
Proof.
  unfold every_call. wp_unfold. wp_run; try done.
  all: intros _; cbn zeta; split; [reflexivity|]; split; [in_trace|]; cbv beta iota.
  1: clone_case. 2: clone_case.
  all: unfold encryption_asked; change "true" with True_; rewrite Heqb; split_and!; try done.
  - by eexists.
  - eexists. split; [in_trace|]. by apply existsb_supported, negb_false_iff.
  - by eexists.
Qed.

(** C12. CreateVolume changes the account only as it should: it creates or clones
    at most one volume, and only after the API listed no volume of the label
    made for the request; a new volume has that label, the requested region,
    the size chosen for the capacity range in GB, and is encrypted exactly when
    the request asks for it, in a region whose capabilities include it; a clone
    is made only of the volume the request names, seen in the requested region.
    It never attaches, detaches, resizes or deletes anything. *)
Theorem create_volume_calls (req : CreateVolumeRequest) :
  every_call (CreateVolume cs req) (create_guard req).
Proof. apply create_calls. Qed.

(** What a successful answer says. *)
Definition create_answer (req : CreateVolumeRequest) (tr : trace) (resp : CsiVolume) : Prop :=
  exists size vol v0 timeout,
    validateCreateVolumeRequest req = None /\
    getRequestCapacitySize (cv_CapacityRange req) = inr size /\
    (cv_VolumeContentSource req = None -> v_Size v0 = bytesToGB size) /\
    Event (Api (Client.WaitForVolumeStatus (v_ID v0) VolumeActive timeout)) (inr (Some vol)) ∈ tr /\
    csi_VolumeId resp = GetVolumeKey (CreateLinodeVolumeKey (v_ID vol) (v_Label vol)) /\
    csi_CapacityBytes resp = size /\
    csi_ContentSource resp = cv_VolumeContentSource req /\
    csi_AccessibleTopology resp = [{| Segments := {[VolumeTopologyRegion := v_Region vol]} |}] /\
    csi_VolumeContext resp = createVolumeContext req vol /\
    (0 <= v_ID vol <= max_int64 ->
     forall caller, VolumeIdAsInt caller (csi_VolumeId resp) = inr (v_ID vol)).

Lemma size_checked (size size' : Z) :
  negb (size =? size') && negb (bool_decide (is_Some (@None LinodeVolumeKey))) = false -> size = size'.
Proof. intros [H|H]%andb_false_iff; [|done]. by apply Z.eqb_eq, negb_false_iff. Qed.

(** The answer of CreateVolume: on success it describes the active volume the
    API reported: its ID and label as the volume key, its region as topology,
    the content source of the request, and the requested size as capacity,
    after checking the size of a volume that is not a clone; the volume ID of
    the answer leads every later call back to that volume. *)
Theorem create_volume_answer (req : CreateVolumeRequest) :
  every_run (CreateVolume cs req) (fun tr o =>
    match o with Done (inr resp) => create_answer req tr resp | _ => True end).
Proof.
  unfold every_run. wp_unfold. wp_run; try done.
  all: cbv beta iota; do 4 eexists; split_and!; try done; try in_trace; simpl; try congruence.
  all: try (intros; by apply (VolumeIdAsInt_GetVolumeKey _ (CreateLinodeVolumeKey _ _))).
  all: intros _; by apply size_checked.
Qed.
End Create.

Section Delete.
Definition delete_guard (volumeId : string) : call_guard := fun tr c =>
  is_mutating c = true ->
  exists id v, c = Api (Client.DeleteVolume id) /\
    VolumeIdAsInt "DeleteVolume" volumeId = inr id /\
    saw_volume tr id v /\ v_LinodeID v = None.

Lemma delete_calls (volumeId : string) :
  every_call (DeleteVolume volumeId) (delete_guard volumeId).
Proof.
  unfold every_call. wp_unfold. wp_run; try done.
  intros _. do 2 eexists. split_and!; try done; [in_trace|].
  by apply bool_decide_eq_false, eq_None_not_Some in Heqb.
Qed.

(** C13. DeleteVolume deletes nothing but the volume its ID denotes, and that only
    after the API showed the volume attached to no instance. *)
Theorem delete_volume_calls (volumeId : string) :
  every_call (DeleteVolume volumeId) (delete_guard volumeId).
Proof. apply delete_calls. Qed.

(** The outcome of DeleteVolume, by what the API answers: an empty ID is
    refused; success means that the volume was not found or that its deletion
    succeeded; an attached volume is FailedPrecondition; every other API error
    is Internal. *)
Theorem delete_volume_outcome (volumeId : string) :
  every_run (DeleteVolume volumeId) (fun tr o =>
    match o with
    | Done (inr tt) =>
        exists id, VolumeIdAsInt "DeleteVolume" volumeId = inr id /\
          ((exists e, Event (Api (Client.GetVolume id)) (inl e) ∈ tr /\ ae_IsNotFound e = true) \/
           Event (Api (Client.DeleteVolume id)) None ∈ tr)
    | Done (inl e) =>
        (volumeId = "" /\ status_code e = Some InvalidArgument) \/
        (exists id v l, saw_volume tr id v /\ v_LinodeID v = Some l /\ e = errVolumeInUse) \/
        (status_code e = Some Internal /\ exists id err,
          (Event (Api (Client.GetVolume id)) (inl err) ∈ tr /\ ae_IsNotFound err = false) \/
          Event (Api (Client.DeleteVolume id)) (Some err) ∈ tr)
    | Panicked why =>
        exists id, Event (Api (Client.GetVolume id)) (inr None) ∈ tr
    end).
Proof.
  unfold every_run. wp_unfold. wp_run; try done; cbv beta iota.
  { left. by eapply VolumeIdAsInt_inl. }
  all: ptr_facts; unfold saw_volume; eauto 12 with trace.
  all: right; right; split; [reflexivity|]; eauto 12 with trace.
Qed.
End Delete.

Section Publish.
(** The memory of an instance, in bytes, as the attachment limit sees it. *)
Definition instance_memory (s : InstanceSpec) : Z := wrapu64 (Z.shiftl (wrapu64 (Memory s)) 20).

(** The API showed an instance with room for one more volume. *)
Definition saw_room (tr : trace) (linodeID : Z) (i : Instance) : Prop :=
  exists specs disks vols,
    Event (Api (Client.GetInstance linodeID)) (inr (Some i)) ∈ tr /\
    i_Specs i = Some specs /\
    Event (Api (Client.ListInstanceDisks (i_ID i))) (inr disks) ∈ tr /\
    Event (Api (Client.ListInstanceVolumes (i_ID i))) (inr vols) ∈ tr /\
    (is_int64 (Z.of_nat (length disks)) ->
     Z.of_nat (length vols) + Z.of_nat (length disks)
       < maxVolumeAttachments (instance_memory specs) <= 64).

Definition publish_guard (req : ControllerPublishVolumeRequest) : call_guard := fun tr c =>
  is_mutating c = true ->
  exists linodeID volumeID i v,
    c = Api (Client.AttachVolume volumeID
               {| ao_LinodeID := linodeID; ao_PersistAcrossBoots := false |}) /\
    NodeIdAsInt "ControllerPublishVolume" (cp_NodeId req) = inr linodeID /\
    VolumeIdAsInt "ControllerPublishVolume" (cp_VolumeId req) = inr volumeID /\
    saw_room tr linodeID i /\
    saw_volume tr volumeID v /\
    (v_LinodeID v = None \/ v_LinodeID v = Some (i_ID i) /\ v_FilesystemPath v = "").

Lemma capacity_left (disks : list InstanceDisk) (vols : list Volume) specs :
  (Z.of_nat (length vols) <?
     wrap64 (maxVolumeAttachments (instance_memory specs) - Z.of_nat (length disks))) = true ->
  is_int64 (Z.of_nat (length disks)) ->
  Z.of_nat (length vols) + Z.of_nat (length disks)
    < maxVolumeAttachments (instance_memory specs) <= 64.
Proof.
  intros H Hd. zify_bool.
  pose proof (maxVolumeAttachments_clamp (instance_memory specs) (wrapu64_range _)) as Hm.
  rewrite wrap64_id in H; unfold is_int64, min_int64, max_int64 in *; lia.
Qed.

Lemma publish_request_inr req linodeID volumeID :
  validateControllerPublishVolumeRequest req = inr (linodeID, volumeID) ->
  NodeIdAsInt "ControllerPublishVolume" (cp_NodeId req) = inr linodeID /\
  VolumeIdAsInt "ControllerPublishVolume" (cp_VolumeId req) = inr volumeID.
Proof. unfold validateControllerPublishVolumeRequest. intros. by repeat case_match; simplify_eq. Qed.

Lemma publish_calls (req : ControllerPublishVolumeRequest) :
  every_call (ControllerPublishVolume req) (publish_guard req).
Proof.
  unfold every_call. wp_unfold. wp_run; try done.
  all: intros _; apply publish_request_inr in Heqs as [Hn Hv]; ptr_facts.
  all: [> do 4 eexists; split_and!; [done..| |in_trace|];
          [do 3 eexists; split_and!; [in_trace|done|in_trace..|by apply capacity_left, Z.ltb_lt]
          |first [by left | right; split; congruence]] ..].
Qed.

(** C14. ControllerPublishVolume attaches only the volume of the request, only to
    the instance of the request, without persisting across boots, and only
    after the API showed the volume unattached (or attached to this instance
    with no device path) and the instance with fewer volumes and disks than its
    limit, which is at most 64. *)
Theorem publish_volume_calls (req : ControllerPublishVolumeRequest) :
  every_call (ControllerPublishVolume req) (publish_guard req).
Proof. apply publish_calls. Qed.

(** Publishing a volume that is attached already: to the instance of the
    request, it succeeds with the device path and attaches nothing; to another
    instance, it is refused as AlreadyExists, and the message names the
    instance of the request as the one that holds the volume. *)
Theorem publish_attached_volume (req : ControllerPublishVolumeRequest)
  (linodeID volumeID l : Z) (i : Instance) (v : Volume)
  (Hreq : validateControllerPublishVolumeRequest req = inr (linodeID, volumeID))
  (Hl : v_LinodeID v = Some l) (Hpath : v_FilesystemPath v <> "") :
  wp (both (always (Api (Client.GetInstance linodeID)) (inr (Some i)))
           (always (Api (Client.GetVolume volumeID)) (inr (Some v))))
     (fun _ c => is_mutating c = false)
     (ControllerPublishVolume req)
     (fun _ o =>
        o = Done (if l =? i_ID i then inr {[devicePathKey := v_FilesystemPath v]}
                  else inl (EStatus AlreadyExists "volume %d is already attached to linode %d"
                              [AInt volumeID; AInt (i_ID i)])))
     [].
Proof.
  wp_unfold. rewrite Hreq. wp_run; try done; use_answers; ptr_facts; simplify_eq.
  - by rewrite Z.eqb_refl.
  - by rewrite (proj2 (Z.eqb_neq _ _)).
Qed.

Definition ex_publish : ControllerPublishVolumeRequest :=
  {| cp_VolumeId := "7-pvc-1"; cp_NodeId := "42"; cp_VolumeCapability := Some ex_capability |}.

Lemma publish_attached_volume_witness :
  wp (both (always (Api (Client.GetInstance 42)) (inr (Some ex_node)))
           (always (Api (Client.GetVolume 7)) (inr (Some (ex_volume 7 (Some 43))))))
     (fun _ c => is_mutating c = false)
     (ControllerPublishVolume ex_publish)
     (fun _ o => o = Done (inl (EStatus AlreadyExists "volume %d is already attached to linode %d"
                                  [AInt 7; AInt 42])))
     [].
Proof.
  apply (publish_attached_volume ex_publish 42 7 43 ex_node (ex_volume 7 (Some 43)));
    [vm_compute; reflexivity|reflexivity|discriminate].
Defined.
End Publish.

Section Unpublish.
Definition unpublish_guard (req : ControllerUnpublishVolumeRequest) : call_guard := fun tr c =>
  is_mutating c = true ->
  exists linodeID volumeID v,
    c = Api (Client.DetachVolume volumeID) /\
    NodeIdAsInt "ControllerUnpublishVolume" (cu_NodeId req) = inr linodeID /\
    VolumeIdAsInt "ControllerUnpublishVolume" (cu_VolumeId req) = inr volumeID /\
    saw_volume tr volumeID v /\
    (v_LinodeID v = None \/ v_LinodeID v = Some linodeID).

Lemma unpublish_calls (req : ControllerUnpublishVolumeRequest) :
  every_call (ControllerUnpublishVolume req) (unpublish_guard req).
Proof.
  unfold every_call. wp_unfold. wp_run; try done.
  all: intros _; ptr_facts; do 3 eexists; split_and!; try done; [in_trace|].
  all: subst; auto.
Qed.

(** C15. ControllerUnpublishVolume detaches only the volume of the request, and
    never one the API showed attached to another instance. *)
Theorem unpublish_volume_calls (req : ControllerUnpublishVolumeRequest) :
  every_call (ControllerUnpublishVolume req) (unpublish_guard req).
Proof. apply unpublish_calls. Qed.
End Unpublish.

(** A volume that is already detached is detached again: when the API shows the
    volume attached to no instance, every run that completes calls DetachVolume,
    and an API that refuses to detach it makes the call fail with Internal unless
    the refusal is a 404. *)
Theorem unpublish_detached_volume (req : ControllerUnpublishVolumeRequest)
  (linodeID volumeID : Z) (v : Volume) (err : ApiError)
  (Hn : NodeIdAsInt "ControllerUnpublishVolume" (cu_NodeId req) = inr linodeID)
  (Hv : VolumeIdAsInt "ControllerUnpublishVolume" (cu_VolumeId req) = inr volumeID)
  (Hdetached : v_LinodeID v = None) (Herr : ae_IsNotFound err = false) :
  wp (both (always (Api (Client.GetVolume volumeID)) (inr (Some v)))
           (always (Api (Client.DetachVolume volumeID)) (Some err)))
     any_call (ControllerUnpublishVolume req)
     (fun tr o =>
        Event (Api (Client.DetachVolume volumeID)) (Some err) ∈ tr /\
        o = Done (inl (EStatus Internal "detach volume %d: %v" [AInt volumeID; AErr (EApi err)])))
     [].
Proof.
  wp_unfold. rewrite Hn, Hv. wp_run; try done; use_answers; try congruence.
  split; [in_trace|done].
Qed.

Lemma unpublish_detached_volume_witness :
  let err := {| ae_IsNotFound := false; ae_Message := None; ae_Context := None; ae_Text := "[400] not attached" |} in
  wp (both (always (Api (Client.GetVolume 7)) (inr (Some (ex_volume 7 None))))
           (always (Api (Client.DetachVolume 7)) (Some err)))
     any_call (ControllerUnpublishVolume {| cu_VolumeId := "7-pvc-1"; cu_NodeId := "42" |})
     (fun tr o =>
        Event (Api (Client.DetachVolume 7)) (Some err) ∈ tr /\
        o = Done (inl (EStatus Internal "detach volume %d: %v" [AInt 7; AErr (EApi err)])))
     [].
Proof.
  intros err. apply (unpublish_detached_volume {| cu_VolumeId := "7-pvc-1"; cu_NodeId := "42" |} 42 7
    (ex_volume 7 None) err); vm_compute; reflexivity.
Defined.

Section Attach.
(** A failed attachment may be retried exactly when the API says that the
    volume is attached already: the error is Unavailable if the message of the
    API error contains that text, and Internal otherwise. *)
Theorem attach_retry_code (volumeID linodeID : Z) :
  every_run (attachVolume volumeID linodeID) (fun tr o =>
    match o with
    | Done (inl e) =>
        exists err opts,
          Event (Api (Client.AttachVolume volumeID opts)) (inl err) ∈ tr /\
          (status_code e = Some Unavailable <->
           exists m, ae_Message err = Some m /\ Contains m "is already attached" = true) /\
          (status_code e = Some Unavailable \/ status_code e = Some Internal)
    | Done (inr tt) =>
        exists opts v, Event (Api (Client.AttachVolume volumeID opts)) (inr v) ∈ tr
    | Panicked _ => False
    end).
Proof.
  unfold every_run. wp_unfold. wp_simpl. wp_step; [done|]. wp_step.
  - wp_step. cbn [status_code]. exists a. eexists. split; [in_trace|].
    destruct (ae_Message a) as [m|]; [destruct (Contains m _) eqn:Hm|].
    + split; [|by left]. split; [by eexists|done].
    + split; [|by right]. split; [done|]. intros (m' & [= <-] & H). congruence.
    + split; [|by right]. split; [done|]. by intros (m' & [=] & _).
  - wp_step. do 2 eexists. in_trace.
Qed.
End Attach.

Section Expand.
Definition expand_guard (req : ControllerExpandVolumeRequest) : call_guard := fun tr c =>
  is_mutating c = true ->
  exists id v size,
    c = Api (Client.ResizeVolume id (bytesToGB size)) /\
    VolumeIdAsInt "ControllerExpandVolume" (ce_VolumeId req) = inr id /\
    getRequestCapacitySize (ce_CapacityRange req) = inr size /\
    saw_volume tr id v /\ v_Size v <= bytesToGB size.

Lemma expand_calls (req : ControllerExpandVolumeRequest) :
  every_call (ControllerExpandVolume req) (expand_guard req).
Proof.
  unfold every_call. wp_unfold. wp_run; try done.
  intros _. zify_bool. do 3 eexists. split_and!; try done; in_trace.
Qed.

(** ControllerExpandVolume never shrinks a volume: the only change it makes is
    to resize the volume of the request to the requested size in GB, and only
    after the API showed that the volume is not larger than that. *)
Theorem expand_volume_calls (req : ControllerExpandVolumeRequest) :
  every_call (ControllerExpandVolume req) (expand_guard req).
Proof. apply expand_calls. Qed.

Lemma capacity_size_int64 range size :
  (forall r, range = Some r -> RequiredBytes r <= max_int64 /\ LimitBytes r <= max_int64) ->
  getRequestCapacitySize range = inr size -> 0 <= size <= max_int64.
Proof.
  intros Hr. destruct range as [r|].
  - destruct (Hr r eq_refl) as [H1 H2]. intros (H3 & H4 & _ & _ & ->)%getRequestCapacitySize_inr.
    rewrite MinVolumeSizeBytes_eq. unfold max_int64 in *. case_if; lia.
  - intros [= <-]. rewrite MinVolumeSizeBytes_eq. unfold max_int64. lia.
Qed.

Lemma gb_remainder size :
  0 <= size <= max_int64 ->
  bytesToGB size * 2 ^ 30 <= size < (bytesToGB size + 1) * 2 ^ 30 /\
  (size = bytesToGB size * 2 ^ 30 <-> (2 ^ 30 | size)).
Proof.
  intros H. rewrite bytesToGB_div by (unfold is_int64, min_int64, max_int64 in *; lia).
  pose proof (Z.div_mod size (2 ^ 30) ltac:(lia)).
  pose proof (Z.mod_pos_bound size (2 ^ 30) ltac:(lia)).
  split; [lia|]. rewrite <- Z.mod_divide by lia. lia.
Qed.

(** The capacity ControllerExpandVolume reports is the requested size in
    bytes, while the volume was resized to whole gigabytes: it never reports
    less than the volume has, and reports more, by less than 1 GiB, whenever
    the requested size is not a multiple of 1 GiB. *)
Theorem expand_reported_capacity (req : ControllerExpandVolumeRequest)
  (Hrange : forall r, ce_CapacityRange req = Some r ->
     RequiredBytes r <= max_int64 /\ LimitBytes r <= max_int64) :
  every_run (ControllerExpandVolume req) (fun tr o =>
    match o with
    | Done (inr resp) =>
        exists id gb,
          Event (Api (Client.ResizeVolume id gb)) None ∈ tr /\
          er_NodeExpansionRequired resp = false /\
          gb * 2 ^ 30 <= er_CapacityBytes resp < (gb + 1) * 2 ^ 30 /\
          (er_CapacityBytes resp = gb * 2 ^ 30 <-> (2 ^ 30 | er_CapacityBytes resp))
    | _ => True
    end).
Proof.
  unfold every_run. wp_unfold. wp_run; try done. cbn [er_NodeExpansionRequired er_CapacityBytes].
  do 2 eexists. split; [in_trace|]. split; [done|].
  match goal with H : getRequestCapacitySize _ = inr ?z |- _ =>
    pose proof (capacity_size_int64 _ _ Hrange H) as Hz end.
  by apply gb_remainder.
Qed.

Lemma expand_reported_capacity_witness :
  let req := {| ce_VolumeId := "7-vol";
                ce_CapacityRange := Some {| RequiredBytes := 20 * 2 ^ 30 + 1; LimitBytes := 0 |} |} in
  every_run (ControllerExpandVolume req) (fun tr o =>
    match o with
    | Done (inr resp) =>
        exists id gb,
          Event (Api (Client.ResizeVolume id gb)) None ∈ tr /\
          er_NodeExpansionRequired resp = false /\
          gb * 2 ^ 30 <= er_CapacityBytes resp < (gb + 1) * 2 ^ 30 /\
          (er_CapacityBytes resp = gb * 2 ^ 30 <-> (2 ^ 30 | er_CapacityBytes resp))
    | _ => True
    end).
Proof.
  intros req. apply (expand_reported_capacity req).
  intros r [= <-]. split; vm_compute; congruence.
Defined.
End Expand.

Section List_.
(** The list entry of a volume, with a volume ID that leads back to it. *)
Lemma list_entry_id v caller :
  0 <= v_ID v <= max_int64 ->
  VolumeIdAsInt caller (csi_VolumeId (le_Volume (list_entry v))) = inr (v_ID v).
Proof. apply (VolumeIdAsInt_GetVolumeKey caller (CreateLinodeVolumeKey (v_ID v) (v_Label v))). Qed.

(** ListVolumes answers with one entry per volume the API listed, in order,
    each with a volume ID that denotes the volume, its size in bytes, its
    region and the instance it is attached to; a token that is not an integer
    is refused as Aborted without a call to the API. *)
Theorem list_volumes_entries (req : ListVolumesRequest) :
  every_run (ListVolumes req) (fun tr o =>
    match o with
    | Done (inr resp) =>
        exists opts volumes,
          tr = [Event (Api (Client.ListVolumes opts)) (inr volumes)] /\
          lo_PageSize opts = Z.max 0 (lv_MaxEntries req) /\
          Forall2 (fun v e =>
            (0 <= v_ID v <= max_int64 -> forall caller,
               VolumeIdAsInt caller (csi_VolumeId (le_Volume e)) = inr (v_ID v)) /\
            (0 <= v_Size v < 2 ^ 33 -> csi_CapacityBytes (le_Volume e) = v_Size v * 2 ^ 30) /\
            csi_AccessibleTopology (le_Volume e) =
              [{| Segments := {[VolumeTopologyRegion := v_Region v]} |}] /\
            le_PublishedNodeIds e = option_list (Itoa <$> v_LinodeID v))
            volumes (lr_Entries resp)
    | Done (inl e) =>
        (tr = [] /\ status_code e = Some Aborted /\ exists err, Atoi (lv_StartingToken req) = inl err) \/
        status_code e = Some Internal
    | Panicked _ => False
    end).
Proof.
  unfold every_run. wp_unfold. wp_run; try done.
  - left. unfold list_options in Heqs.
    destruct (String.eqb _ ""); [done|]. destruct (Atoi _) as [e|page] eqn:Ha.
    + injection Heqs as <-. by eauto.
    + apply Atoi_range in Ha. unfold is_int64 in Ha.
      destruct ((page <? min_int64) || (page >? max_int64)) eqn:E; [|done].
      apply orb_true_iff in E as [E|E]; zify_bool; lia.
  - by right.
  - do 2 eexists. split; [done|]. split.
    + unfold list_options in Heqs. repeat case_match; simplify_eq; simpl; zify_bool; lia.
    + cbn [lr_Entries]. clear. induction l0 as [|v vs IH]; cbn [map]; constructor; [|done].
      split_and!; [intros; by apply list_entry_id| |done|by cbn; destruct (v_LinodeID v)].
      intros H. cbn. apply gbToBytes_mul. lia.
Qed.

(** Pagination of ListVolumes does not depend on what is listed: the next
    token is empty exactly when the starting token is, so that a listing begun
    without a token is never continued, and one begun at page [p] is always
    continued, at page [p + 1], even when the page was empty. *)
Theorem list_volumes_pagination (req : ListVolumesRequest) :
  every_run (ListVolumes req) (fun tr o =>
    match o with
    | Done (inr resp) =>
        (lr_NextToken resp = "" <-> lv_StartingToken req = "") /\
        forall p, Atoi (lv_StartingToken req) = inr p ->
          lr_NextToken resp = Itoa (if p =? max_int64 then min_int64 else p + 1) /\
          exists volumes,
            tr = [Event (Api (Client.ListVolumes
                    {| lo_Page := p; lo_PageSize := Z.max 0 (lv_MaxEntries req); lo_Filter := None |}))
                    (inr volumes)]
    | _ => True
    end).
Proof.
  unfold every_run. wp_unfold. wp_run; try done. cbn [lr_NextToken].
  unfold list_options in Heqs.
  assert ((if lv_MaxEntries req >? 0 then lv_MaxEntries req else 0) = Z.max 0 (lv_MaxEntries req))
    as Hsize by (case_if; zify_bool; lia).
  rewrite Hsize in Heqs. destruct (String.eqb_spec (lv_StartingToken req) "") as [Ht|Ht].
  - simplify_eq. rewrite Ht. split; [done|]. by intros p [=].
  - destruct (Atoi (lv_StartingToken req)) as [?|page] eqn:Ha; [done|].
    destruct ((page <? min_int64) || _); [done|]. simplify_eq. split.
    + split; [|done]. intros H. by destruct (Itoa_nonempty _ H).
    + intros p [= ->]. split; [|by eexists]. f_equal.
      apply Atoi_range in Ha. destruct (Z.eqb_spec p max_int64) as [->|Hp]; [done|].
      apply wrap64_id. unfold is_int64, max_int64 in *. lia.
Qed.
End List_.

(** A capability of access mode SINGLE_NODE_WRITER. *)
Definition single_writer (c : option VolumeCapability) : Prop :=
  exists a, c = Some {| vc_AccessType := a; vc_AccessMode := Some SINGLE_NODE_WRITER |}.

Lemma validVolumeCapabilities_spec l :
  validVolumeCapabilities l = true <-> Forall single_writer l.
Proof.
  unfold single_writer. induction l as [|[[a m]|] l IH]; [done| |];
    cbn [validVolumeCapabilities vc_AccessMode]; rewrite Forall_cons_iff.
  - rewrite <- IH. destruct m as [m|]; [|split; [done|by intros [[? [=]] _]]].
    destruct (bool_decide_reflect (m = SINGLE_NODE_WRITER)) as [->|Hm]; cbn [negb].
    + split; [|tauto]. intros H. split; [by eexists|done].
    + split; [done|]. intros [[? [=]] _]. congruence.
  - split; [done|]. by intros [[? [=]] _].
Qed.

(** ValidateVolumeCapabilities confirms the capabilities of an existing volume,
    all or none: they are confirmed exactly when each is set and has access mode
    SINGLE_NODE_WRITER. *)
Theorem validate_capabilities (req : ValidateVolumeCapabilitiesRequest) :
  every_run (ValidateVolumeCapabilities req) (fun tr o =>
    match o with
    | Done (inr confirmed) =>
        exists id v,
          VolumeIdAsInt "ControllerValidateVolumeCapabilities" (vv_VolumeId req) = inr id /\
          Event (Api (Client.GetVolume id)) (inr v) ∈ tr /\ vv_VolumeCapabilities req <> [] /\
          (confirmed = Some (vv_VolumeCapabilities req) <->
           Forall single_writer (vv_VolumeCapabilities req)) /\
          (confirmed = None \/ confirmed = Some (vv_VolumeCapabilities req))
    | Done (inl e) => status_code e <> None
    | Panicked _ => False
    end).
Proof.
  unfold every_run. wp_unfold. wp_run; try done.
  { apply VolumeIdAsInt_inl in Heqs as [_ ->]. done. }
  do 2 eexists. split; [done|]. split; [in_trace|]. split; [done|].
  rewrite <- validVolumeCapabilities_spec.
  destruct (validVolumeCapabilities _); split; auto; by split.
Qed.

(** * Panics and metrics *)

(** What the Linode client documents: a call that succeeds returns a record, and
    waiting for a volume to be attached to an instance returns the volume so
    attached. *)
Definition client_ok : env_law := fun _ c =>
  match c return resp c -> Prop with
  | Api a =>
      match a return Client.answer a -> Prop with
      | Client.GetRegion _ => fun r => r <> inr None
      | Client.GetInstance _ => fun r => r <> inr None
      | Client.GetVolume _ | Client.CreateVolume _ | Client.CloneVolume _ _
      | Client.WaitForVolumeStatus _ _ _ => fun r => r <> inr None
      | Client.WaitForVolumeLinodeID _ (Some l) _ => fun r =>
          forall v, r = inr v -> exists v', v = Some v' /\ v_LinodeID v' = Some l
      | _ => fun _ => True
      end
  | _ => fun _ => True
  end.

Definition no_panic {A} (_ : trace) (o : outcome A) : Prop :=
  forall why, o <> Panicked why.

Local Ltac use_client_ok :=
  repeat match goal with
  | H : client_ok _ _ _ |- _ => cbn [client_ok] in H
  | H : forall v, inr ?x = inr v -> _ |- _ => destruct (H _ eq_refl) as (? & ? & ?); clear H
  end; congruence.

Lemma handlers_no_panic (cs : ControllerServer) :
  (forall req, wp client_ok any_call (CreateVolume cs req) no_panic []) /\
  (forall id, wp client_ok any_call (DeleteVolume id) no_panic []) /\
  (forall req, wp client_ok any_call (ControllerPublishVolume req) no_panic []) /\
  (forall req, wp client_ok any_call (ControllerUnpublishVolume req) no_panic []) /\
  (forall req, wp client_ok any_call (ValidateVolumeCapabilities req) no_panic []) /\
  (forall req, wp client_ok any_call (ListVolumes req) no_panic []) /\
  (forall req, wp client_ok any_call (ControllerExpandVolume req) no_panic []).
Proof.
  split_and!; intros req; wp_unfold; wp_run; try done; use_client_ok.
Qed.

(** C28. No handler of the Controller service panics as long as the Linode client
    keeps to its documentation: a successful call returns a record, and the wait
    for an attachment returns the volume with the instance's ID. *)
Theorem controller_no_panic (cs : ControllerServer) :
  (forall req, wp client_ok any_call (CreateVolume cs req) no_panic []) /\
  (forall id, wp client_ok any_call (DeleteVolume id) no_panic []) /\
  (forall req, wp client_ok any_call (ControllerPublishVolume req) no_panic []) /\
  (forall req, wp client_ok any_call (ControllerUnpublishVolume req) no_panic []) /\
  (forall req, wp client_ok any_call (ValidateVolumeCapabilities req) no_panic []) /\
  (forall req, wp client_ok any_call (ListVolumes req) no_panic []) /\
  (forall req, wp client_ok any_call (ControllerExpandVolume req) no_panic []).
Proof. exact (handlers_no_panic cs). Qed.

Lemma controller_no_panic_witness :
  (forall tr c, client_ok tr c (ex_world c)) /\
  wp client_ok any_call (ControllerPublishVolume ex_publish) no_panic [] /\
  (in_ex_world (ControllerPublishVolume ex_publish)).2 =
    Done (inr {[devicePathKey := "/dev/disk/by-id/x"]}).
Proof.
  split; [|split; [apply (controller_no_panic {|
    cs_driver := ex_driver "";
    cs_metadata := {| md_ID := 42; md_Label := ""; md_Region := "us-east"; md_Memory := 0 |} |})
    |vm_compute; reflexivity]].
  intros tr c. destruct c as [[]|[]|[]|[]|[]|[]|[]|[]| | |]; try exact I; try discriminate.
  destruct linodeID as [l|]; [|exact I]. intros v [= <-]. by eexists.
Defined.

(** The metrics recorded in a run, in order. *)
Definition recorded (tr : trace) : list (CounterVec * HistogramVec * string) :=
  omap (fun e => match e with
                 | Event (RecordMetrics total duration status) _ => Some (total, duration, status)
                 | _ => None
                 end) tr.

(** A call that the API answered by changing an attachment or deleting a volume. *)
Definition changed_account (e : event) : bool :=
  match e with
  | Event (Api a) r =>
      match a return Client.answer a -> bool with
      | Client.AttachVolume _ _ => fun r => match r with inr _ => true | inl _ => false end
      | Client.DetachVolume _ | Client.DeleteVolume _ => fun r => negb (bool_decide (is_Some r))
      | _ => fun _ => false
      end r
  | _ => false
  end.

Definition recorded_once {A} (total : CounterVec) (duration : HistogramVec)
    (completed : trace -> bool) (tr : trace) (o : outcome (goerror + A)) : Prop :=
  match o with
  | Done r =>
      recorded tr = [(total, duration,
        match r with
        | inr _ => if completed tr then Completed else Failed
        | inl _ => Failed
        end)]
  | Panicked _ => True
  end.

(** Every call of CreateVolume, DeleteVolume, ControllerPublishVolume and
    ControllerUnpublishVolume that returns records exactly one observation, on
    its own counter and histogram.  CreateVolume records Completed exactly when
    it succeeds; the others record Completed exactly when they succeed and the
    API changed something, so that a repeated call, which succeeds with nothing
    left to do, is counted as Failed. *)
Theorem controller_metrics (cs : ControllerServer) :
  (forall req, every_run (CreateVolume cs req)
     (recorded_once ControllerCreateVolumeTotal ControllerCreateVolumeDuration (fun _ => true))) /\
  (forall id, every_run (DeleteVolume id)
     (recorded_once ControllerDeleteVolumeTotal ControllerDeleteVolumeDuration (existsb changed_account))) /\
  (forall req, every_run (ControllerPublishVolume req)
     (recorded_once ControllerPublishVolumeTotal ControllerPublishVolumeDuration (existsb changed_account))) /\
  (forall req, every_run (ControllerUnpublishVolume req)
     (recorded_once ControllerUnpublishVolumeTotal ControllerUnpublishVolumeDuration
        (existsb changed_account))).
Proof. split_and!; intros req; unfold every_run; wp_unfold; wp_run; done. Qed.
