(* ===== verification/Cloud.v ===== *)
(** The Linode account as a state.

    [documented] relates a call, the account before it, the answer and the
    account after it, as the API of Linode documents its calls; a call that
    fails may still have taken effect (the answer was lost).  The law is weaker
    than the documentation where the driver should not need it: the API is not
    assumed to refuse to delete an attached volume, to move an attached volume,
    to shrink a volume, to overfill an instance or to give two volumes the same
    label.  [swp] states what holds of every run of a program over the account;
    [swp_run] relates it to the runs of any environment that implements
    [LinodeApi], and [Memory] is such an environment. *)
From S2P Require Import Prelude GoStrings Types Errors Metrics Effects LinodeVolumes Sizes Config Controller ControllerProofs.

(** * The account *)

Record VolInfo := {
  vi_Label : string;
  vi_Size : Z;                   (* in GB *)
  vi_Region : string;
  vi_Encryption : string;
  vi_LinodeID : option Z;
  vi_Path : string;
}.

#[export] Instance VolInfo_eq_dec : EqDecision VolInfo.
Proof. solve_decision. Defined.

Abbreviation Account := (gmap Z VolInfo).

Record InstInfo := { ii_Label : string; ii_Region : string; ii_Specs : InstanceSpec; ii_Disks : nat }.

Definition set_LinodeID (l : option Z) (i : VolInfo) : VolInfo :=
  {| vi_Label := vi_Label i; vi_Size := vi_Size i; vi_Region := vi_Region i;
     vi_Encryption := vi_Encryption i; vi_LinodeID := l; vi_Path := vi_Path i |}.

Definition set_Size (size : Z) (i : VolInfo) : VolInfo :=
  {| vi_Label := vi_Label i; vi_Size := size; vi_Region := vi_Region i;
     vi_Encryption := vi_Encryption i; vi_LinodeID := vi_LinodeID i; vi_Path := vi_Path i |}.

(** The record the API shows of the volume [id]. *)
Definition as_volume (id : Z) (i : VolInfo) : Volume :=
  {| v_ID := id; v_Label := vi_Label i; v_Status := VolumeActive; v_Region := vi_Region i;
     v_Size := vi_Size i; v_LinodeID := vi_LinodeID i; v_FilesystemPath := vi_Path i |}.

(** [v] shows the volume [id], in any status; a volume has a device path, made of
    its label, whether it is attached or not. *)
Definition shows (a : Account) (v : Volume) (i : VolInfo) : Prop :=
  a !! v_ID v = Some i /\ vi_Path i <> "" /\
  v_Label v = vi_Label i /\ v_Region v = vi_Region i /\ v_Size v = vi_Size i /\
  v_LinodeID v = vi_LinodeID i /\ v_FilesystemPath v = vi_Path i.

(** How many volumes are attached to the instance [l]. *)
Definition attached_to (l : Z) (a : Account) : nat :=
  size (filter (fun kv => vi_LinodeID kv.2 = Some l) a).

Lemma attached_insert l (a : Account) id i :
  attached_to l (<[id := i]> a) =
  (attached_to l (delete id a) + if decide (vi_LinodeID i = Some l) then 1 else 0)%nat.
Proof.
  unfold attached_to. rewrite map_filter_insert, map_filter_delete. cbn [snd].
  destruct (decide (vi_LinodeID i = Some l)); [|lia].
  rewrite <- insert_delete_eq, map_size_insert_None by apply lookup_delete_eq. lia.
Qed.

Lemma attached_present l (a : Account) id i :
  a !! id = Some i ->
  attached_to l a =
  (attached_to l (delete id a) + if decide (vi_LinodeID i = Some l) then 1 else 0)%nat.
Proof. intros H. rewrite <- attached_insert. by rewrite insert_id. Qed.

Lemma alter_present (a : Account) f id i :
  a !! id = Some i -> alter f id a = <[id := f i]> a.
Proof. intros H. rewrite <- (insert_id a id i H) at 1. apply alter_insert_eq. Qed.

(** The volume [id] is in the account with the label. *)
Definition has_label (a : Account) (label : string) (id : Z) : Prop :=
  exists i, a !! id = Some i /\ vi_Label i = label.

(** The labels the API takes: at most 32 letters, digits, dashes and underscores. *)
Definition label_char (a : Ascii.ascii) : bool :=
  let between first last := (N.leb (Ascii.N_of_ascii first) (Ascii.N_of_ascii a) &&
    N.leb (Ascii.N_of_ascii a) (Ascii.N_of_ascii last))%bool in
  between "0"%char "9"%char || between "a"%char "z"%char || between "A"%char "Z"%char ||
  Ascii.eqb a "-" || Ascii.eqb a "_".

Definition valid_label (label : string) : bool :=
  str_forall label_char label && Nat.leb (String.length label) LinodeVolumeLabelLength.

(** A change was made; if the call failed, it may not have been. *)
Definition attempted (failed : bool) (a a1 a' : Account) : Prop :=
  a' = a1 \/ (failed = true /\ a' = a).

Definition is_inl {A B} (r : A + B) : bool := match r with inl _ => true | inr _ => false end.
Definition is_some {A} (o : option A) : bool := match o with Some _ => true | None => false end.

(** * The documented behaviour of the API *)

Section Documented.
(** The instances of the account, which do not change while the driver runs. *)
Context (instances : gmap Z InstInfo).

(** A new volume, with an ID not in use. *)
Definition fresh_volume (a : Account) (id : Z) (i : VolInfo) : Prop :=
  a !! id = None /\ 0 < id <= max_int64 /\ vi_LinodeID i = None /\ vi_Path i <> "".

(** The answer shows the volume [id] of the account after the call. *)
Definition answers_volume (a' : Account) (id : Z) (r : ApiError + option Volume) : Prop :=
  match r with
  | inr (Some v) => v_ID v = id /\ exists i, shows a' v i
  | inr None => False
  | inl _ => True
  end.

Definition documented (c : cmd) (a : Account) : resp c -> Account -> Prop :=
  match c return resp c -> Account -> Prop with
  | Api q =>
      match q return Client.answer q -> Account -> Prop with
      | Client.ListVolumes opts => fun r a' =>
          a' = a /\
          forall vs label, r = inr vs -> opts = label_filter label ->
            NoDup (v_ID <$> vs) /\
            Forall (fun v => exists i, shows a v i) vs /\
            forall id, id ∈ (v_ID <$> vs) <-> has_label a label id
      | Client.ListInstanceVolumes l => fun r a' =>
          a' = a /\ match r with inr vs => length vs = attached_to l a | inl _ => True end
      | Client.ListInstanceDisks l => fun r a' =>
          a' = a /\
          match r with
          | inr disks => is_int64 (Z.of_nat (length disks)) /\
              exists inst, instances !! l = Some inst /\ length disks = ii_Disks inst
          | inl _ => True
          end
      | Client.GetRegion _ => fun r a' => a' = a /\ r <> inr None
      | Client.GetInstance l => fun r a' =>
          a' = a /\
          match r with
          | inr o => exists inst, instances !! l = Some inst /\
              o = Some {| i_ID := l; i_Label := ii_Label inst; i_Region := ii_Region inst;
                          i_Specs := Some (ii_Specs inst) |}
          | inl _ => True
          end
      | Client.GetVolume id => fun r a' =>
          a' = a /\ answers_volume a id r /\
          match r with inl e => ae_IsNotFound e = true -> a !! id = None | inr _ => True end
      | Client.CreateVolume o => fun r a' =>
          (a' = a /\ is_inl r = true) \/
          exists id i, fresh_volume a id i /\
            vi_Label i = co_Label o /\ vi_Size i = co_Size o /\ vi_Region i = co_Region o /\
            vi_Encryption i = co_Encryption o /\ a' = <[id := i]> a /\ answers_volume a' id r
      | Client.CloneVolume src label => fun r a' =>
          (a' = a /\ is_inl r = true) \/
          exists id i j, fresh_volume a id i /\ a !! src = Some j /\
            vi_Label i = label /\ vi_Size i = vi_Size j /\ vi_Region i = vi_Region j /\
            vi_Encryption i = vi_Encryption j /\ a' = <[id := i]> a /\ answers_volume a' id r
      | Client.AttachVolume id o => fun r a' =>
          attempted (is_inl r) a (alter (set_LinodeID (Some (ao_LinodeID o))) id a) a' /\
          answers_volume a' id r
      | Client.DetachVolume id => fun r a' =>
          attempted (is_some r) a (alter (set_LinodeID None) id a) a' /\
          match r with Some e => ae_IsNotFound e = true -> a !! id = None | None => True end
      | Client.WaitForVolumeLinodeID id l _ => fun r a' =>
          a' = a /\ answers_volume a id r /\
          match r with inr (Some v) => v_LinodeID v = l | _ => True end
      | Client.WaitForVolumeStatus id _ _ => fun r a' => a' = a /\ answers_volume a id r
      | Client.DeleteVolume id => fun r a' => attempted (is_some r) a (delete id a) a'
      | Client.ResizeVolume id size => fun r a' =>
          attempted (is_some r) a (alter (set_Size size) id a) a'
      end
  | _ => fun _ a' => a' = a
  end.
End Documented.

(** * Runs over a state *)

(** How a call may be answered, and how it changes the state. *)
Definition state_law (S : Type) : Type := forall c : cmd, S -> resp c -> S -> Prop.

Section StateWP.
Context {S : Type} (law : state_law S).

(** Started in [s], for all answers the law allows, [p] ends in [Q]. *)
Fixpoint swp {A} (p : prog A) (Q : S -> outcome A -> Prop) (s : S) : Prop :=
  match p with
  | Ret a => Q s (Done a)
  | Panic why => Q s (Panicked why)
  | Call c k => forall r s', law c s r s' -> swp (k r) Q s'
  end.

Lemma swp_mono {A} (p : prog A) (Q Q' : S -> outcome A -> Prop) s :
  swp p Q s -> (forall s o, Q s o -> Q' s o) -> swp p Q' s.
Proof.
  intros H HQ. revert s H. induction p as [a|why|c k IH]; simpl; [auto..|].
  intros s H r s' Hr. by apply IH, H.
Qed.

Lemma swp_bind {A B} (p : prog A) (f : A -> prog B) Q s :
  swp (bind p f) Q s <->
  swp p (fun s' o => match o with
                     | Done a => swp (f a) Q s'
                     | Panicked why => Q s' (Panicked why)
                     end) s.
Proof.
  revert s. induction p as [a|why|c k IH]; intros s; simpl; [done..|].
  split; intros H r s' Hr; apply IH, H, Hr.
Qed.

Lemma swp_seq {A B} (p : prog A) (f : A -> prog B) R Q s :
  swp p R s ->
  (forall s' a, R s' (Done a) -> swp (f a) Q s') ->
  (forall s' why, R s' (Panicked why) -> Q s' (Panicked why)) ->
  swp (bind p f) Q s.
Proof.
  intros Hp Hf Hw. apply swp_bind. eapply swp_mono; [exact Hp|]. intros s' [a|why]; auto.
Qed.

(** A program that neither panics nor leaves its post-condition, used under a
    continuation for its error and one for its result. *)
Lemma swp_try {E A B} (p : prog (E + A)) (h : E -> prog B) (f : A -> prog B)
    (R : S -> E + A -> Prop) Q s :
  swp p (fun s' o => exists r, o = Done r /\ R s' r) s ->
  (forall s' e, R s' (inl e) -> swp (h e) Q s') ->
  (forall s' a, R s' (inr a) -> swp (f a) Q s') ->
  swp (try_else p h f) Q s.
Proof.
  intros Hp Hh Hf. eapply swp_seq; [exact Hp| |].
  - intros s' a (r & [= <-] & HR). destruct a; auto.
  - by intros s' why (r & [=] & _).
Qed.

Lemma swp_and {A} (p : prog A) Q Q' s :
  swp p Q s -> swp p Q' s -> swp p (fun s' o => Q s' o /\ Q' s' o) s.
Proof. revert s. induction p as [a|why|c k IH]; simpl; [done..|]. auto. Qed.

(** A program whose calls never return without an answer has a run. *)
Lemma swp_exists {A} (p : prog A) Q s :
  (forall c s, exists r s', law c s r s') -> swp p Q s -> exists s' o, Q s' o.
Proof.
  intros Hlaw. revert s. induction p as [a|why|c k IH]; intros s; simpl; [eauto..|].
  intros H. destruct (Hlaw c s) as (r & s' & Hr). eauto.
Qed.
End StateWP.

Lemma swp_law {S} (law law' : state_law S) {A} (p : prog A) Q s :
  (forall c s r s', law' c s r s' -> law c s r s') ->
  swp law p Q s -> swp law' p Q s.
Proof.
  intros Hl. revert s. induction p as [a|why|c k IH]; simpl; [done..|].
  intros s H r s' Hr. by apply IH, H, Hl.
Qed.

(** What holds of the runs over a part of the state. *)
Lemma swp_part {S T} (law : state_law S) (law' : state_law T) (part : T -> S) {A} (p : prog A) Q t :
  (forall c t r t', law' c t r t' -> law c (part t) r (part t')) ->
  swp law p Q (part t) -> swp law' p (fun t' o => Q (part t') o) t.
Proof.
  intros Hl. revert t. induction p as [a|why|c k IH]; intros t; cbn; [done..|].
  intros H r t' Hr. by apply IH, H, Hl.
Qed.

(** What is proved of the calls of a program holds of those of its runs. *)
Lemma swp_guarded {S} (law : state_law S) (G : call_guard) {A} (p : prog A) Q s tr :
  wp any_env G p (fun _ _ => True) tr ->
  swp (fun c s r s' => (exists tr, G tr c) /\ law c s r s') p Q s -> swp law p Q s.
Proof.
  revert s tr. induction p as [a|why|c k IH]; intros s tr; cbn; [done..|].
  intros [Hg Hwp] H r s' Hr. eapply IH; [by apply Hwp|]. apply H. eauto.
Qed.

(** The Linode API as the controller relies on it: an environment, what the
    account is in each of its states, and the documented behaviour. *)
Class LinodeApi (instances : gmap Z InstInfo) (W : Type) := {
  la_env : forall c : cmd, W -> resp c * W;
  la_account : W -> Account;
  la_documented : forall c w,
    documented instances c (la_account w) (la_env c w).1 (la_account (la_env c w).2);
}.

(** Every run in an environment that obeys the law does what [swp] promises. *)
Lemma swp_run_env {S W} (law : state_law S) (env : forall c : cmd, W -> resp c * W) (view : W -> S)
  (Henv : forall c w, law c (view w) (env c w).1 (view (env c w).2)) {A} (p : prog A) Q (w : W) :
  swp law p Q (view w) -> let '(_, o, w') := run env p w in Q (view w') o.
Proof.
  revert w. induction p as [a|why|c k IH]; intros w; simpl; [done..|].
  intros HQ. pose proof (Henv c w) as Hd.
  destruct (env c w) as [r w1]. simpl in Hd.
  specialize (IH r w1 (HQ r _ Hd)).
  by destruct (run env (k r) w1) as [[tr o] w2].
Qed.

Lemma swp_run `{LinodeApi instances W} {A} (p : prog A) Q (w : W) :
  swp (documented instances) p Q (la_account w) ->
  let '(_, o, w') := run la_env p w in Q (la_account w') o.
Proof. apply swp_run_env, la_documented. Qed.
