(* ===== verification/Csi.v ===== *)
(** The abstract specification of the Controller service: [csi] says, in terms of
    the account alone, what each request may do and answer: one atomic change or
    none. *)
From S2P Require Import Prelude GoStrings Types Errors Metrics Effects LinodeVolumes Sizes Config Controller ControllerProofs Cloud.

(** * The service as one program *)

Inductive Request :=
| ReqCreate (req : CreateVolumeRequest)
| ReqDelete (volumeId : string)
| ReqPublish (req : ControllerPublishVolumeRequest)
| ReqUnpublish (req : ControllerUnpublishVolumeRequest)
| ReqExpand (req : ControllerExpandVolumeRequest)
| ReqValidate (req : ValidateVolumeCapabilitiesRequest)
| ReqList (req : ListVolumesRequest).

Inductive Answer :=
| AnsCreate (v : CsiVolume)
| AnsDelete
| AnsPublish (context : gmap string string)
| AnsUnpublish
| AnsExpand (resp : ControllerExpandVolumeResponse)
| AnsValidate (confirmed : option (list (option VolumeCapability)))
| AnsList (resp : ListVolumesResponse).

Definition answering {A} (f : A -> Answer) (p : eprog A) : eprog Answer :=
  let! a := p in ok (f a).

Definition handle (cs : ControllerServer) (q : Request) : eprog Answer :=
  match q with
  | ReqCreate req => answering AnsCreate (CreateVolume cs req)
  | ReqDelete id => answering (fun _ => AnsDelete) (DeleteVolume id)
  | ReqPublish req => answering AnsPublish (ControllerPublishVolume req)
  | ReqUnpublish req => answering (fun _ => AnsUnpublish) (ControllerUnpublishVolume req)
  | ReqExpand req => answering AnsExpand (ControllerExpandVolume req)
  | ReqValidate req => answering AnsValidate (ValidateVolumeCapabilities req)
  | ReqList req => answering AnsList (ListVolumes req)
  end.

(** * The abstract specification *)

Section Spec.
Context (instances : gmap Z InstInfo) (cs : ControllerServer).

(** One more volume may be attached to the instance [l]. *)
Definition room (a : Account) (l : Z) : Prop :=
  exists inst, instances !! l = Some inst /\
    Z.of_nat (attached_to l a) + Z.of_nat (ii_Disks inst)
      < maxVolumeAttachments (instance_memory (ii_Specs inst)) <= 64.

(** The volume is as the request asks. *)
Definition made_for (a : Account) (req : CreateVolumeRequest) (size : Z) (i : VolInfo) : Prop :=
  vi_Label i = request_label cs req /\
  vi_Region i = requested_region cs (cv_AccessibilityRequirements req) /\
  match cv_VolumeContentSource req with
  | None =>
      vi_Size i = bytesToGB size /\
      vi_Encryption i = if encryption_asked req then "enabled" else "disabled"
  | Some source =>
      exists srcid key j,
        source = ContentVolume (Some srcid) /\ ParseLinodeVolumeKey srcid = inr key /\
        a !! VolumeID key = Some j /\
        vi_Size i = vi_Size j /\ vi_Region i = vi_Region j /\ vi_Encryption i = vi_Encryption j
  end.

(** What CreateVolume answers of the volume [id]. *)
Definition describe (req : CreateVolumeRequest) (size : Z) (id : Z) (i : VolInfo) : CsiVolume :=
  {| csi_VolumeId := GetVolumeKey (CreateLinodeVolumeKey id (vi_Label i));
     csi_CapacityBytes := size;
     csi_VolumeContext := createVolumeContext req (as_volume id i);
     csi_ContentSource := cv_VolumeContentSource req;
     csi_AccessibleTopology := [{| Segments := {[VolumeTopologyRegion := vi_Region i]} |}] |}.

Definition request_valid (req : CreateVolumeRequest) (size : Z) : Prop :=
  validateCreateVolumeRequest req = None /\ getRequestCapacitySize (cv_CapacityRange req) = inr size.

(** The answer is [ans], or an error: the call that made the change, or the wait
    for it, may have failed. *)
Definition or_error (ans : Answer) (r : goerror + Answer) : Prop := r = inr ans \/ is_inl r = true.

Inductive csi (a : Account) : Request -> goerror + Answer -> Account -> Prop :=
| Refused q e : csi a q (inl e) a
| Create_new req size id i r :
    request_valid req size -> (forall id', ~ has_label a (request_label cs req) id') ->
    fresh_volume a id i -> made_for a req size i ->
    or_error (AnsCreate (describe req size id i)) r ->
    csi a (ReqCreate req) r (<[id := i]> a)
| Create_again req size id i :
    request_valid req size -> (forall id', has_label a (request_label cs req) id' <-> id' = id) ->
    a !! id = Some i -> (cv_VolumeContentSource req = None -> vi_Size i = bytesToGB size) ->
    csi a (ReqCreate req) (inr (AnsCreate (describe req size id i))) a
| Delete_gone vid id :
    VolumeIdAsInt "DeleteVolume" vid = inr id -> a !! id = None ->
    csi a (ReqDelete vid) (inr AnsDelete) a
| Delete_volume vid id i r :
    VolumeIdAsInt "DeleteVolume" vid = inr id -> a !! id = Some i -> vi_LinodeID i = None ->
    or_error AnsDelete r ->
    csi a (ReqDelete vid) r (delete id a)
| Publish_again req l id i :
    validateControllerPublishVolumeRequest req = inr (l, id) ->
    a !! id = Some i -> vi_LinodeID i = Some l ->
    csi a (ReqPublish req) (inr (AnsPublish {[devicePathKey := vi_Path i]})) a
| Publish_attach req l id i r :
    validateControllerPublishVolumeRequest req = inr (l, id) ->
    a !! id = Some i -> vi_LinodeID i = None -> room a l ->
    or_error (AnsPublish {[devicePathKey := vi_Path i]}) r ->
    csi a (ReqPublish req) r (alter (set_LinodeID (Some l)) id a)
| Unpublish_gone req l id :
    NodeIdAsInt "ControllerUnpublishVolume" (cu_NodeId req) = inr l ->
    VolumeIdAsInt "ControllerUnpublishVolume" (cu_VolumeId req) = inr id ->
    (forall i, a !! id = Some i -> exists l', vi_LinodeID i = Some l' /\ l' <> l) ->
    csi a (ReqUnpublish req) (inr AnsUnpublish) a
| Unpublish_detach req l id i r :
    NodeIdAsInt "ControllerUnpublishVolume" (cu_NodeId req) = inr l ->
    VolumeIdAsInt "ControllerUnpublishVolume" (cu_VolumeId req) = inr id ->
    a !! id = Some i -> (vi_LinodeID i = None \/ vi_LinodeID i = Some l) ->
    or_error AnsUnpublish r ->
    csi a (ReqUnpublish req) r (alter (set_LinodeID None) id a)
| Expand_volume req id i size r :
    VolumeIdAsInt "ControllerExpandVolume" (ce_VolumeId req) = inr id ->
    getRequestCapacitySize (ce_CapacityRange req) = inr size ->
    a !! id = Some i -> vi_Size i <= bytesToGB size ->
    or_error (AnsExpand {| er_CapacityBytes := size; er_NodeExpansionRequired := false |}) r ->
    csi a (ReqExpand req) r (alter (set_Size (bytesToGB size)) id a)
| Read_validate req r : csi a (ReqValidate req) r a
| Read_list req r : csi a (ReqList req) r a.

(** The step as a relation between the account, the outcome and the account after. *)
Definition does (q : Request) (a : Account) (o : outcome (goerror + Answer)) (a' : Account) : Prop :=
  exists r, o = Done r /\ csi a q r a'.

Definition refines (q : Request) : Prop :=
  forall a, swp (documented instances) (handle cs q) (fun a' o => does q a o a') a.
End Spec.

