(* ===== verification/Interference.v ===== *)
(** A program under interference: what can be proved of one program when others
    change the state between its calls.

    Before each call of the program, others may have changed the state within
    what the program relies on ([amid]); the calls that write are logged.  A
    program that makes at most one such call, and does one step of its
    specification at that call, or a step that changes nothing, takes effect at
    once ([takes_effect_once]).  Run alone, it refines its specification
    ([once_refines]); run with others, it is what [pool_linearizable] is about. *)
From S2P Require Import Prelude GoStrings Types Errors Metrics Effects LinodeVolumes Sizes Config.
From S2P Require Import Controller ControllerProofs Cloud.

(** * A program under interference *)

Section Amid.
Context {S : Type} (law : state_law S) (writes : cmd -> bool).

(** The state, and what the calls that write did, in order. *)
Abbreviation logged := (S * list (S * S))%type.

(** A call that is answered after others took steps in [rely]. *)
Definition amid (rely : S -> S -> Prop) : state_law logged := fun c st r st' =>
  exists s1, rely st.1 s1 /\ law c s1 r st'.1 /\
    st'.2 = if writes c then st.2 ++ [(s1, st'.1)] else st.2.

(** At most one call wrote, and it took the step; without one, the step changes
    nothing and can be taken at the end. *)
Definition atomic {A} (spec : S -> outcome A -> S -> Prop) (st : logged) (o : outcome A) : Prop :=
  match st.2 with
  | [] => spec st.1 o st.1
  | [(s, s')] => spec s o s'
  | _ => False
  end.

Definition takes_effect_once {A} (rely : S -> S -> Prop) (spec : S -> outcome A -> S -> Prop)
    (p : prog A) (s : S) : Prop :=
  swp (amid rely) p (atomic spec) (s, []).

(** Relying on more is easier. *)
Lemma amid_rely (rely rely' : S -> S -> Prop) {A} (p : prog A) Q st :
  (forall s s', rely' s s' -> rely s s') -> swp (amid rely) p Q st -> swp (amid rely') p Q st.
Proof.
  intros Hr. apply swp_law. intros c s r s' (s1 & H & Hl). exists s1. split; [by apply Hr|done].
Qed.

(** A log without gaps. *)
Fixpoint chained (s : S) (log : list (S * S)) (s' : S) : Prop :=
  match log with
  | [] => s' = s
  | (s1, s2) :: log => s1 = s /\ chained s2 log s'
  end.

Lemma chained_snoc s log s1 s2 : chained s log s1 -> chained s (log ++ [(s1, s2)]) s2.
Proof. revert s. induction log as [|[t1 t2] log IH]; intros s; cbn; [by intros ->|]. intros [-> H]. auto. Qed.

(** A program under interference runs alone as well; nothing is missing in the log
    then. *)
Lemma amid_alone {A} (p : prog A) Q s :
  (forall c s r s', writes c = false -> law c s r s' -> s' = s) ->
  swp (amid eq) p Q (s, []) ->
  swp law p (fun s' o => exists log, Q (s', log) o /\ chained s log s') s.
Proof.
  intros Hreads. assert (chained s [] s) as Hlog by done. revert Hlog. generalize (@nil (S * S)) as log.
  generalize s at 2 3 5 as s1.
  induction p as [a|why|c k IH]; intros s1 log Hlog; cbn [swp]; [by exists log..|].
  intros H r s2 Hr. apply (IH r s2 (if writes c then log ++ [(s1, s2)] else log)), H.
  - destruct (writes c) eqn:Hw; [by apply chained_snoc|]. by rewrite (Hreads _ _ _ _ Hw Hr).
  - exists s1. by split_and!.
Qed.

Lemma once_refines {A} (spec : S -> outcome A -> S -> Prop) (p : prog A) s :
  (forall c s r s', writes c = false -> law c s r s' -> s' = s) ->
  takes_effect_once eq spec p s -> swp law p (fun s' o => spec s o s') s.
Proof.
  intros Hreads H. eapply swp_mono; [by apply amid_alone|]. cbv beta. intros s' o (log & Hat & Hlog).
  destruct log as [|[s1 s2] [|]]; cbn in *; [by subst| |done]. by destruct Hlog as [-> ->].
Qed.

(** The log only grows. *)
Lemma amid_log (rely : S -> S -> Prop) {A} (p : prog A) Q st :
  swp (amid rely) p Q st -> swp (amid rely) p (fun st' o => Q st' o /\ st.2 `prefix_of` st'.2) st.
Proof.
  intros H. apply swp_and; [exact H|]. clear H. revert st.
  assert (forall st log, log `prefix_of` st.2 ->
    swp (amid rely) p (fun st' (_ : outcome A) => log `prefix_of` st'.2) st) as H; [|intros st; by apply H].
  induction p as [a|why|c k IH]; intros st log Hlog; cbn [swp]; [exact Hlog..|].
  intros r st' (s1 & _ & _ & Hlog'). apply IH. rewrite Hlog'. destruct (writes c); [|done].
  by apply prefix_app_r.
Qed.

(** A program that has written has taken its step. *)
Lemma wrote_step {A} (rely : S -> S -> Prop) (spec : S -> outcome A -> S -> Prop) (p : prog A) s log s1 s2 :
  (forall s, rely s s) -> (forall c s, exists r s', law c s r s') ->
  swp (amid rely) p (atomic spec) (s, log ++ [(s1, s2)]) ->
  log = [] /\ exists o, spec s1 o s2.
Proof.
  intros Hrefl Htotal H%amid_log.
  destruct (swp_exists _ _ _ _ (fun c st => match Htotal c st.1 with
    | ex_intro _ r (ex_intro _ s' Hr) =>
        ex_intro _ r (ex_intro _ (s', if writes c then st.2 ++ [(st.1, s')] else st.2)
          (ex_intro _ st.1 (conj (Hrefl st.1) (conj Hr eq_refl))))
    end) H) as ([s' log'] & o & Hat & [log2 Hlog]).
  cbn in Hlog. subst log'. unfold atomic in Hat. cbn in Hat.
  destruct log as [|x [|y log]]; cbn in Hat.
  - destruct log2 as [|]; [by split; [|exists o]|done].
  - by destruct x.
  - by destruct x.
Qed.
End Amid.


(** ** A larger state *)

(** The state is part of a larger one, which only the calls that write change: a
    program that takes effect at once leaves the larger state as it was, or as one
    call changed it. *)
Section Lift.
Context {S T : Type} (law : state_law S) (law' : state_law T) (writes : cmd -> bool) (part : T -> S).
Context (Hpart : forall c t r t', law' c t r t' -> law c (part t) r (part t')).
Context (Hreads : forall c t r t', writes c = false -> law' c t r t' -> t' = t).

(** The writes of the log, in the larger state. *)
Fixpoint lifted (t : T) (log : list (S * S)) (t' : T) : Prop :=
  match log with
  | [] => t' = t
  | (s1, s2) :: log => exists c r t1, s1 = part t /\ s2 = part t1 /\ law' c t r t1 /\ lifted t1 log t'
  end.

Lemma lifted_snoc t log c t1 r t2 :
  lifted t log t1 -> law' c t1 r t2 -> lifted t (log ++ [(part t1, part t2)]) t2.
Proof.
  revert t. induction log as [|[s1 s2] log IH]; intros t; cbn; [intros -> H; by exists c, r, t2|].
  intros (c0 & r0 & t0 & -> & -> & H0 & Hlog) H. exists c0, r0, t0. auto.
Qed.

Lemma lift_amid {A} (p : prog A) Q t t0 log :
  lifted t0 log t -> swp (amid law writes eq) p Q (part t, log) ->
  swp law' p (fun t' o => exists log', lifted t0 log' t' /\ Q (part t', log') o) t.
Proof.
  revert t log. induction p as [a|why|c k IH]; intros t log Hlog; cbn [swp]; [by eauto..|].
  intros H r t' Hr. destruct (writes c) eqn:Hw.
  - apply (IH r t' (log ++ [(part t, part t')])); [by eapply lifted_snoc|]. apply H.
    exists (part t). rewrite Hw. eauto.
  - pose proof (Hreads _ _ _ _ Hw Hr) as ->. apply (IH r t log Hlog), H. exists (part t). rewrite Hw. eauto.
Qed.

Lemma once_lifts {A} (spec : S -> outcome A -> S -> Prop) (p : prog A) t :
  takes_effect_once law writes eq spec p (part t) ->
  swp law' p (fun t' o => spec (part t) o (part t') /\ (t' = t \/ exists c r, law' c t r t')) t.
Proof.
  intros H. eapply swp_mono; [by apply (lift_amid p (atomic spec) t t [])|]. cbv beta.
  intros t' o (log & Hlog & Hat). destruct log as [|[s1 s2] [|]]; cbn in *; [by subst; auto| |done].
  destruct Hlog as (c & r & t1 & -> & -> & Hc & ->). eauto.
Qed.
End Lift.
