(* ===== verification/Refinement.v ===== *)
(** The handlers of the Controller service refine [csi], under interference and
    alone: whatever others do to other volumes between its calls, a handler makes
    one step of [csi], at its one call that writes, or none; what holds of every
    sequence of abstract steps therefore holds of every sequence of calls to the
    driver ([controller_refines]), and of calls at the same time
    ([controller_linearizable], in Interleaving). *)
From S2P Require Import Prelude GoStrings Types Errors Metrics Effects LinodeVolumes Sizes Config.
From S2P Require Import Controller ControllerProofs Cloud Csi Interference.

(** * Symbolic execution over the account *)

#[export] Hint Unfold answering : prog.

(** Use the documented behaviour of the calls answered. *)
Ltac law_facts :=
  cbn [answers_volume is_inl is_some i_ID i_Specs ao_LinodeID] in *;
  repeat match goal with
  | H : True |- _ => clear H
  | H : forall vs label, inl _ = inr vs -> _ |- _ => clear H
  | H : forall vs label, inr _ = inr vs -> _ |- _ => specialize (H _ _ eq_refl eq_refl)
  | H : shows _ _ _ |- _ => destruct H as (? & ? & ? & ? & ? & ? & ?)
  | H : match ?o with Some _ => _ | None => False end |- _ => destruct o; [|destruct H]
  | H : _ /\ _ |- _ => destruct H
  | H : exists _, _ |- _ => destruct H
  | H : False |- _ => destruct H
  | H : attempted _ _ _ _ |- _ => cbn [is_inl is_some] in H; destruct H as [?|[? ?]]; try discriminate
  end; simplify_eq.

Ltac law_use H :=
  cbn [documented] in H;
  lazymatch type of H with
  | _ = _ => subst
  | _ = _ /\ _ => destruct H as [-> H]
  | _ => idtac
  end.

Ltac swp_step :=
  lazymatch goal with
  | |- swp _ (Call _ _) _ _ =>
      let r := fresh "r" in let s := fresh "a" in let Hr := fresh "Hr" in
      intros r s Hr; resp_simpl r; law_use Hr; wp_simpl
  | |- swp _ (Ret ?a) ?Q ?s => change (Q s (Done a)); cbv beta
  | |- swp _ (Panic ?w) ?Q ?s => change (Q s (Panicked w)); cbv beta
  | |- swp _ ?p _ _ =>
      match p with
      | context [match ?x with _ => _ end] =>
          lazymatch x with
          | context [match ?y with _ => _ end] => fail
          | _ => destruct x eqn:?
          end
      end; wp_simpl
  end.

Ltac swp_run := wp_simpl; repeat (swp_step; try done); law_facts; try done.

(** The program ends in this state with this answer. *)
Ltac answered := eexists; split; [reflexivity|].

(** Symbolic execution: what the others did, and what the call did. *)
Ltac amid_step :=
  lazymatch goal with
  | |- swp _ (Call _ _) _ _ =>
      let r := fresh "r" in let a1 := fresh "a" in let a := fresh "b" in let log := fresh "log" in
      let Hr := fresh "Hr" in let Hother := fresh "Hother" in
      intros r [a log] (a1 & Hother & Hr & Hlog);
      resp_simpl r; cbn [is_mutating fst snd app] in Hlog, Hr, Hother; subst log; law_use Hr; wp_simpl
  | |- _ => swp_step
  end.

Ltac amid_run := wp_simpl; repeat (amid_step; try done); law_facts; try done.

(** What was seen of a volume is so still. *)
Ltac unchanged :=
  repeat match goal with
  | H : true = true -> _ |- _ => specialize (H eq_refl)
  | H : _ !! _ = ?x, E : ?x = Some _ |- _ => rewrite E in H
  | H : _ !! _ = ?x, E : ?x = None |- _ => rewrite E in H
  | H : ?x = _ !! _, E : ?x = Some _ |- _ => rewrite E in H; symmetry in H
  end; simplify_eq.

(** The handler ends with this answer. *)
Ltac atomically := unfold atomic; cbn [fst snd]; eexists; split; [reflexivity|]; ptr_facts; unchanged.

Section Handlers.
Context (instances : gmap Z InstInfo) (cs : ControllerServer).

(** The handler is atomic when others leave alone what [rely] says. *)
Definition atomic_under (rely : Account -> Account -> Prop) (q : Request) : Prop :=
  forall a, takes_effect_once (documented instances) is_mutating rely (does instances cs q) (handle cs q) a.

Definition same_at (id : Z) (a a' : Account) : Prop := a' !! id = a !! id.

Lemma delete_atomic vid (rely : Account -> Account -> Prop) :
  (forall id a a', VolumeIdAsInt "DeleteVolume" vid = inr id -> rely a a' -> same_at id a a') ->
  atomic_under rely (ReqDelete vid).
Proof.
  intros Hrely a. unfold takes_effect_once. cbn [handle]. wp_unfold.
  destruct (VolumeIdAsInt "DeleteVolume" vid) as [e|id] eqn:Hid.
  { amid_run. atomically. apply Refused. }
  eapply amid_rely; [intros s s'; by apply Hrely|]. clear Hrely. unfold same_at.
  amid_run.
  all: atomically; try apply Refused.
  1: eapply Delete_gone; [done|congruence].
  all: eapply Delete_volume; try done; [congruence|by (left + right)].
Qed.

Lemma expand_atomic req (rely : Account -> Account -> Prop) :
  (forall id a a', VolumeIdAsInt "ControllerExpandVolume" (ce_VolumeId req) = inr id ->
     rely a a' -> same_at id a a') ->
  atomic_under rely (ReqExpand req).
Proof.
  intros Hrely a. unfold takes_effect_once. cbn [handle]. wp_unfold.
  destruct (VolumeIdAsInt "ControllerExpandVolume" (ce_VolumeId req)) as [e|id] eqn:Hid.
  { amid_run. atomically. apply Refused. }
  eapply amid_rely; [intros s s'; by apply Hrely|]. clear Hrely. unfold same_at.
  amid_run.
  all: atomically; try apply Refused.
  all: eapply Expand_volume; try done; [lia|by (left + right)].
Qed.

Lemma unpublish_atomic req (rely : Account -> Account -> Prop) :
  (forall id a a', VolumeIdAsInt "ControllerUnpublishVolume" (cu_VolumeId req) = inr id ->
     rely a a' -> same_at id a a') ->
  atomic_under rely (ReqUnpublish req).
Proof.
  intros Hrely a. unfold takes_effect_once. cbn [handle]. wp_unfold.
  destruct (VolumeIdAsInt "ControllerUnpublishVolume" (cu_VolumeId req)) as [e|id] eqn:Hid.
  { amid_run. atomically. apply Refused. }
  eapply amid_rely; [intros s s'; by apply Hrely|]. clear Hrely. unfold same_at.
  amid_run.
  all: atomically; try apply Refused.
  all: try (eapply Unpublish_detach; [done..|(left + right); congruence|by (left + right)]).
  all: eapply Unpublish_gone; try done; intros i Hi; try congruence.
  all: eexists; split; [|done]; congruence.
Qed.

(** Others leave the volume alone, and attach nothing to the instance. *)
Definition publish_rely (l id : Z) (a a' : Account) : Prop :=
  same_at id a a' /\ (attached_to l a' <= attached_to l a)%nat.

Lemma room_left a l inst (disks : list InstanceDisk) (vols : list Volume) :
  instances !! l = Some inst -> length disks = ii_Disks inst -> length vols = attached_to l a ->
  is_int64 (Z.of_nat (length disks)) ->
  Z.of_nat (length vols) <
    wrap64 (maxVolumeAttachments (instance_memory (ii_Specs inst)) - Z.of_nat (length disks)) ->
  room instances a l.
Proof.
  intros Hi Hd Hv Hint Hlt. exists inst. split; [done|]. rewrite <- Hd, <- Hv.
  apply capacity_left; [by apply Z.ltb_lt|done].
Qed.

Lemma room_less (a a' : Account) l :
  room instances a l -> (attached_to l a' <= attached_to l a)%nat -> room instances a' l.
Proof. intros (inst & Hinst & Hroom) Hle. exists inst. split; [done|]. lia. Qed.

Lemma publish_atomic req (rely : Account -> Account -> Prop) :
  (forall l id a a', validateControllerPublishVolumeRequest req = inr (l, id) ->
     rely a a' -> publish_rely l id a a') ->
  atomic_under rely (ReqPublish req).
Proof.
  intros Hrely a. unfold takes_effect_once. cbn [handle]. wp_unfold.
  destruct (validateControllerPublishVolumeRequest req) as [e|[l id]] eqn:Hid.
  { amid_run. atomically. apply Refused. }
  eapply amid_rely; [intros s s'; by apply Hrely|]. clear Hrely. unfold publish_rely, same_at.
  amid_run.
  all: atomically; try apply Refused; try congruence; cbn [i_ID i_Specs] in *; simplify_eq.
  { replace (v_FilesystemPath v) with (vi_Path x) by done. eapply Publish_again; try done. congruence. }
  all: eapply Publish_attach; [done..|congruence|eapply room_less; [by eapply room_left|lia]|].
  1,2: by right.
  left. do 3 f_equal.
  match goal with H : ?a !! ?i = alter ?f ?i ?b !! ?i, E : ?b !! ?i = Some _ |- _ =>
    rewrite lookup_alter_eq, E in H; cbn [fmap option_fmap option_map] in H end.
  match goal with E : v_ID ?v = v_ID ?w, H : ?a !! v_ID ?v = Some _ |- _ => rewrite E in H end.
  simplify_eq. cbn [vi_Path set_LinodeID] in *. congruence.
Qed.

(** What CreateVolume has learnt before it looks for a volume. *)
Definition source_of (a : Account) (req : CreateVolumeRequest) (src : option LinodeVolumeKey) : Prop :=
  match src with
  | None => cv_VolumeContentSource req = None
  | Some key =>
      exists srcid j, cv_VolumeContentSource req = Some (ContentVolume (Some srcid)) /\
        ParseLinodeVolumeKey srcid = inr key /\ a !! VolumeID key = Some j /\
        vi_Region j = requested_region cs (cv_AccessibilityRequirements req)
  end.

Definition params_of (req : CreateVolumeRequest) (params : VolumeParams) : Prop :=
  vp_VolumeName params = request_label cs req /\
  getRequestCapacitySize (cv_CapacityRange req) = inr (vp_Size params) /\
  vp_TargetSizeGB params = bytesToGB (vp_Size params) /\
  vp_Region params = requested_region cs (cv_AccessibilityRequirements req) /\
  vp_EncryptionStatus params = if encryption_asked req then "enabled" else "disabled".

Lemma made_new a req size i :
  source_of a req None ->
  vi_Label i = request_label cs req -> vi_Size i = bytesToGB size ->
  vi_Region i = requested_region cs (cv_AccessibilityRequirements req) ->
  vi_Encryption i = (if encryption_asked req then "enabled" else "disabled") ->
  made_for cs a req size i.
Proof. unfold made_for. by intros ->. Qed.

Lemma made_clone a req size key i j :
  source_of a req (Some key) -> a !! VolumeID key = Some j ->
  vi_Label i = request_label cs req -> vi_Size i = vi_Size j -> vi_Region i = vi_Region j ->
  vi_Encryption i = vi_Encryption j -> made_for cs a req size i.
Proof.
  intros (srcid & j' & Hc & Hp & Hj & Hr) Hj' ????. unfold made_for. rewrite Hc.
  split_and!; [done|congruence|]. by do 3 eexists.
Qed.

Lemma listed_none a label (vs : list Volume) :
  (forall id, id ∈ (v_ID <$> vs) <-> has_label a label id) -> vs = [] ->
  forall id, ~ has_label a label id.
Proof. intros H -> id Hid%H. by apply elem_of_nil in Hid. Qed.

Lemma described a req size v i src :
  source_of a req src -> v_Label v = vi_Label i -> v_Region v = vi_Region i ->
  prepareCreateVolumeResponse v size (createVolumeContext req v) src (cv_VolumeContentSource req) =
  describe req size (v_ID v) i.
Proof.
  intros Hsrc Hl Hr. unfold prepareCreateVolumeResponse, describe, createVolumeContext.
  rewrite Hl, Hr. cbn [as_volume v_Region].
  destruct src as [key|]; [destruct Hsrc as (s & j & -> & _)|rewrite Hsrc]; done.
Qed.

(** Others leave the source alone, and the volumes of the label. *)
Definition create_rely (req : CreateVolumeRequest) (a a' : Account) : Prop :=
  (forall srcid key, cv_VolumeContentSource req = Some (ContentVolume (Some srcid)) ->
     ParseLinodeVolumeKey srcid = inr key -> same_at (VolumeID key) a a') /\
  forall id i, vi_Label i = request_label cs req -> a !! id = Some i <-> a' !! id = Some i.

#[local] Instance create_rely_preorder req : PreOrder (create_rely req).
Proof.
  split.
  - intros a. by split.
  - intros a1 a2 a3 [Hs Hl] [Hs' Hl']. split.
    + intros srcid key H1 H2. unfold same_at in *. rewrite (Hs' srcid key), (Hs srcid key); done.
    + intros id i Hi. by rewrite Hl, Hl'.
Qed.

Lemma source_rely req src a a' :
  source_of a req src -> create_rely req a a' -> source_of a' req src.
Proof.
  destruct src as [key|]; cbn; [|done]. intros (srcid & j & Hc & Hk & Hj & Hr) [Hs _].
  exists srcid, j. split_and!; [done..| |done]. by rewrite (Hs srcid key).
Qed.

Lemma label_rely req id a a' :
  create_rely req a a' -> has_label a' (request_label cs req) id <-> has_label a (request_label cs req) id.
Proof. intros [_ Hl]. split; intros (i & Hi & Hlab); exists i; (split; [by apply (Hl id i)|done]). Qed.

(** A part of CreateVolume that only looks. *)
Definition looks {A} (req : CreateVolumeRequest) (p : eprog A) (R : Account -> A -> Prop) (a : Account) : Prop :=
  swp (amid (documented instances) is_mutating (create_rely req)) p
    (fun st o => exists r, o = Done r /\ st.2 = [] /\ create_rely req a st.1 /\
       match r with inl _ => True | inr x => R st.1 x end) (a, []).

Lemma params_looks req a : looks req (prepareVolumeParams cs req) (fun _ => params_of req) a.
Proof.
  unfold looks, params_of, encryption_asked. change "true" with True_.
  wp_unfold. amid_run.
  all: eexists; split; [reflexivity|]; split; [done|]; try done.
Qed.

Lemma source_looks req a :
  looks req (getContentSourceVolume cs (cv_VolumeContentSource req) (cv_AccessibilityRequirements req))
    (fun a' => source_of a' req) a.
Proof.
  unfold looks, source_of. wp_unfold. amid_run.
  all: eexists; split; [reflexivity|]; split; [done|]; split; try done.
  ptr_facts. match goal with E : v_ID _ = VolumeID _ |- _ => rewrite <- E end.
  do 2 eexists. split_and!; [done..|congruence].
Qed.

(** A volume was made for the request. *)
Definition made (req : CreateVolumeRequest) (size : Z) (a1 a2 : Account) (id : Z) (i : VolInfo) : Prop :=
  a2 = <[id := i]> a1 /\ (forall id', ~ has_label a1 (request_label cs req) id') /\
  fresh_volume a1 id i /\ made_for cs a1 req size i.

(** It was found or made, and is there still. *)
Definition placed (req : CreateVolumeRequest) (size : Z) (st : Account * list (Account * Account))
    (id : Z) (i : VolInfo) : Prop :=
  st.1 !! id = Some i /\
  match st.2 with
  | [] => forall id', has_label st.1 (request_label cs req) id' <-> id' = id
  | [(a1, a2)] => made req size a1 a2 id i
  | _ => False
  end.

Definition maybe_placed (req : CreateVolumeRequest) (size : Z) (st : Account * list (Account * Account)) : Prop :=
  st.2 = [] \/
  exists a1 a2, st.2 = [(a1, a2)] /\ (a2 = a1 \/ exists id i, made req size a1 a2 id i).

Lemma placed_label req size st id i : placed req size st id i -> vi_Label i = request_label cs req.
Proof.
  intros [Hi Hp]. destruct st as [a [|[a1 a2] [|]]]; cbn in *; [|by destruct Hp as (_ & _ & _ & Hl & _)|done].
  destruct (proj2 (Hp id) eq_refl) as (j & Hj & Hl). congruence.
Qed.

Lemma placed_rely req size a a' log id i :
  create_rely req a a' -> placed req size (a, log) id i -> placed req size (a', log) id i.
Proof.
  intros Hrely Hp. pose proof (placed_label _ _ _ _ _ Hp) as Hl. destruct Hp as [Hi Hp]. split.
  - by apply (proj2 Hrely id i Hl).
  - cbn in *. destruct log as [|[a1 a2] [|]]; [|done..]. intros id'. rewrite <- Hp. by apply label_rely.
Qed.

Lemma placed_maybe req size st id i : placed req size st id i -> maybe_placed req size st.
Proof.
  intros [_ Hp]. destruct st as [a [|[a1 a2] [|]]]; cbn in *; [by left| |done].
  right. exists a1, a2. split; [done|]. right. by exists id, i.
Qed.

(** No volume was listed, and none appeared. *)
Lemma unlisted req (a a' : Account) (vs : list Volume) :
  (forall id, id ∈ (v_ID <$> vs) <-> has_label a (request_label cs req) id) -> vs = [] ->
  create_rely req a a' -> forall id, ~ has_label a' (request_label cs req) id.
Proof. intros H Hvs Hrely id Hid%(label_rely _ _ _ _ Hrely). by eapply listed_none. Qed.

Lemma attempt_atomic req tags size src a :
  source_of a req src ->
  swp (amid (documented instances) is_mutating (create_rely req))
    (attemptCreateLinodeVolume (request_label cs req) tags
       (if encryption_asked req then "enabled" else "disabled") (bytesToGB size)
       src (requested_region cs (cv_AccessibilityRequirements req)))
    (fun st o => exists r, o = Done r /\
       match r with
       | inl _ => maybe_placed req size st
       | inr v => exists v' i, v = Some v' /\ shows st.1 v' i /\ placed req size st (v_ID v') i
       end) (a, []).
Proof.
  intros Hsrc. wp_unfold. amid_run.
  all: eexists; split; [reflexivity|]; try by left.
  1-4: pose proof (unlisted _ _ _ _ H1 eq_refl Hother0) as Hnone.
  1-4: pose proof (source_rely _ _ _ _ (source_rely _ _ _ _ Hsrc Hother) Hother0) as Hsrc1.
  1,3: destruct Hr0 as [[-> _]|Hr0]; right; do 2 eexists; (split; [reflexivity|]); [by left|right];
    law_facts; do 2 eexists; (split_and!; [done..|]); by (eapply made_clone + apply made_new).
  1,2: destruct Hr0 as [[_ [=]]|Hr0]; law_facts; do 2 eexists; (split; [reflexivity|]); (split; [done|]);
    cbn [fst]; rewrite lookup_insert_eq in *; simplify_eq;
    (split; [apply lookup_insert_eq|]); split_and!; [done..|by (eapply made_clone + apply made_new)].
  match goal with H : Forall _ [_] |- _ => apply Forall_cons_iff in H as [(? & ?) _] end.
  do 2 eexists. split; [reflexivity|]. split; [done|]. law_facts. split; [done|].
  intros id'. rewrite <- H1. cbn. by rewrite list_elem_of_singleton.
Qed.

Lemma wait_atomic req params src a :
  params_of req params -> source_of a req src ->
  swp (amid (documented instances) is_mutating (create_rely req))
    (createAndWaitForVolume (vp_VolumeName params) (cv_Parameters req) (vp_EncryptionStatus params)
       (vp_TargetSizeGB params) src (vp_Region params))
    (fun st o => exists r, o = Done r /\
       match r with
       | inl _ => maybe_placed req (vp_Size params) st
       | inr v => exists i, shows st.1 v i /\ placed req (vp_Size params) st (v_ID v) i /\
           (cv_VolumeContentSource req = None -> vi_Size i = bytesToGB (vp_Size params))
       end) (a, []).
Proof.
  intros (Hlabel & _ & Hgb & Hregion & Henc) Hsrc. rewrite Hlabel, Hgb, Hregion, Henc.
  unfold createAndWaitForVolume. eapply swp_try; [by apply attempt_atomic| |]; cbv beta.
  { intros st e He. wp_unfold. amid_step. by eexists. }
  intros [a' log] o (v & i & -> & Hv & Hset). cbn [fst] in *. wp_unfold. amid_run.
  all: eexists; (split; [reflexivity|]); try (by eapply placed_maybe).
  all: pose proof (placed_rely _ _ _ _ _ _ _ Hother Hset) as Hset'; try (by eapply placed_maybe).
  law_facts. cbn [fst] in *. pose proof (proj1 Hset') as Hi. cbn [fst] in Hi.
  match goal with E : v_ID _ = v_ID _ |- _ => rewrite <- E in * end. simplify_eq.
  eexists. split; [by split_and!|]. split; [done|]. intros Hnone.
  destruct src as [key|]; [destruct Hsrc as (? & ? & Hc & _); congruence|].
  apply size_checked in Heqb. congruence.
Qed.

(** What was placed is what the request asked to create. *)
Lemma placed_created req size st v i :
  request_valid req size -> placed req size st (v_ID v) i ->
  (cv_VolumeContentSource req = None -> vi_Size i = bytesToGB size) ->
  atomic (does instances cs (ReqCreate req)) st (Done (inr (AnsCreate (describe req size (v_ID v) i)))).
Proof.
  intros Hreq [Hi Hp] Hgb. destruct st as [a [|[a1 a2] [|]]]; cbn in *; [| |done].
  - eexists. split; [done|]. by eapply Create_again.
  - destruct Hp as (-> & Hno & Hfresh & Hmade). eexists. split; [done|]. eapply Create_new; try done. by left.
Qed.

Lemma maybe_placed_error req size st e :
  request_valid req size -> maybe_placed req size st ->
  atomic (does instances cs (ReqCreate req)) st (Done (inl e)).
Proof.
  intros Hreq Hp. destruct st as [a log]. destruct Hp as [Hp|(a1 & a2 & Hp & Hm)]; cbn in Hp; subst log.
  - eexists. split; [done|]. apply Refused.
  - destruct Hm as [->|(id & i & -> & Hno & Hfresh & Hmade)]; (eexists; split; [done|]); [apply Refused|].
    eapply Create_new; try done. by right.
Qed.

Lemma create_atomic req : atomic_under (create_rely req) (ReqCreate req).
Proof.
  intros a. unfold takes_effect_once. cbn [handle]. unfold answering, ebind, CreateVolume. rewrite swp_bind.
  destruct (validateCreateVolumeRequest req) eqn:Hvalid.
  { wp_unfold. amid_run. atomically. apply Refused. }
  eapply swp_try; [apply params_looks| |].
  { cbv beta. intros [a' log] e (Hlog & _). cbn in Hlog. subst log. wp_unfold. amid_run. atomically. apply Refused. }
  cbv beta. intros [a1 log] params (Hlog & _ & Hparams). cbn in Hlog. subst log.
  eapply swp_try; [apply source_looks| |].
  { cbv beta. intros [a' log] e (Hlog & _). cbn in Hlog. subst log. wp_unfold. amid_run. atomically. apply Refused. }
  cbv beta. intros [a2 log] src (Hlog & _ & Hsrc). cbn [fst snd] in Hlog, Hsrc. subst log.
  pose proof Hparams as (_ & Hsize & _).
  eapply swp_try; [by apply wait_atomic| |]; cbv beta.
  - intros [a' log] e He. wp_unfold. amid_run. by eapply maybe_placed_error.
  - intros [a' log] v (i & Hshows & Hp & Hgb). wp_unfold. amid_run.
    rewrite (described a2 req (vp_Size params) v i src Hsrc) by congruence.
    apply placed_created; [done| |done]. by eapply placed_rely.
Qed.

Lemma validate_atomic req (rely : Account -> Account -> Prop) : atomic_under rely (ReqValidate req).
Proof. intros a. unfold takes_effect_once. cbn [handle]. wp_unfold. amid_run; atomically; apply Read_validate. Qed.

Lemma list_atomic req (rely : Account -> Account -> Prop) : atomic_under rely (ReqList req).
Proof. intros a. unfold takes_effect_once. cbn [handle]. wp_unfold. amid_run; atomically; apply Read_list. Qed.

(** * Alone *)

Lemma documented_reads c a r a' : is_mutating c = false -> documented instances c a r a' -> a' = a.
Proof. destruct c as [q| | | | | | | | | |]; [destruct q|..]; cbn; intuition congruence. Qed.

Lemma atomic_refines q : atomic_under eq q -> refines instances cs q.
Proof. intros H a. apply (once_refines _ _ _ _ _ documented_reads), H. Qed.

Lemma all_atomic q : atomic_under eq q.
Proof.
  destruct q as [req|vid|req|req|req|req|req].
  - intros a. eapply amid_rely; [|apply create_atomic]. intros a1 a2 ->. reflexivity.
  - apply delete_atomic. by intros ? ? ? _ ->.
  - apply publish_atomic. by intros ? ? ? ? _ ->.
  - apply unpublish_atomic. by intros ? ? ? _ ->.
  - apply expand_atomic. by intros ? ? ? _ ->.
  - apply validate_atomic.
  - apply list_atomic.
Qed.

Lemma all_refine q : refines instances cs q.
Proof. apply atomic_refines, all_atomic. Qed.

(** The parts of CreateVolume, alone. *)
Definition reads {A} (p : eprog A) (R : A -> Prop) (a : Account) : Prop :=
  swp (documented instances) p (fun a' o => exists r, o = Done r /\
    a' = a /\ match r with inl _ => True | inr x => R x end) a.

Lemma looks_reads {A} req (p : eprog A) R a : looks req p R a -> reads p (R a) a.
Proof.
  intros H. eapply swp_mono; [eapply amid_alone; [apply documented_reads|]; eapply amid_rely; [|exact H]|].
  - intros a1 a2 ->. reflexivity.
  - cbv beta. intros a' o (log & (r & -> & Hlog & _ & HR) & Hc). cbn in *. subst log. cbn in Hc. subst a'.
    by exists r.
Qed.

Lemma source_reads req a :
  reads (getContentSourceVolume cs (cv_VolumeContentSource req) (cv_AccessibilityRequirements req))
    (source_of a req) a.
Proof. apply (looks_reads req _ (fun a' => source_of a' req)), source_looks. Qed.

Lemma params_reads req a : reads (prepareVolumeParams cs req) (params_of req) a.
Proof. apply (looks_reads req _ (fun _ => params_of req)), params_looks. Qed.

(** The account after a volume was found or made for the request. *)
Definition settled (a : Account) (req : CreateVolumeRequest) (size : Z) (a' : Account)
    (id : Z) (i : VolInfo) : Prop :=
  a' !! id = Some i /\
  ((a' = a /\ (forall id', has_label a (request_label cs req) id' <-> id' = id)) \/
   (a' = <[id := i]> a /\ (forall id', ~ has_label a (request_label cs req) id') /\
    fresh_volume a id i /\ made_for cs a req size i)).

(** Unchanged, or settled with an error. *)
Definition maybe_settled (a : Account) (req : CreateVolumeRequest) (size : Z) (a' : Account) : Prop :=
  a' = a \/ exists id i, settled a req size a' id i.

Lemma placed_settled req size a a' log id i :
  placed req size (a', log) id i -> chained a log a' -> settled a req size a' id i.
Proof.
  intros [Hi Hp] Hc. split; [done|]. destruct log as [|[a1 a2] [|]]; cbn in *; [left|right|done].
  - by subst a'.
  - by destruct Hc as [-> ->].
Qed.

Lemma attempt_settles req tags size src a :
  source_of a req src ->
  swp (documented instances)
    (attemptCreateLinodeVolume (request_label cs req) tags
       (if encryption_asked req then "enabled" else "disabled") (bytesToGB size)
       src (requested_region cs (cv_AccessibilityRequirements req)))
    (fun a' o => exists r, o = Done r /\
       match r with
       | inl _ => True
       | inr v => exists v' i, v = Some v' /\ shows a' v' i /\ settled a req size a' (v_ID v') i
       end) a.
Proof.
  intros Hsrc. eapply swp_mono; [eapply amid_alone; [apply documented_reads|];
    eapply amid_rely; [|by apply attempt_atomic]|].
  - intros a1 a2 ->. reflexivity.
  - cbv beta. intros a' o (log & (r & -> & Hr) & Hc). exists r. split; [done|].
    destruct r as [e|v]; [done|]. destruct Hr as (v' & i & -> & Hv & Hp). exists v', i.
    split_and!; [done..|]. by eapply placed_settled.
Qed.

Lemma wait_settles req params src a :
  params_of req params -> source_of a req src ->
  swp (documented instances)
    (createAndWaitForVolume (vp_VolumeName params) (cv_Parameters req) (vp_EncryptionStatus params)
       (vp_TargetSizeGB params) src (vp_Region params))
    (fun a' o => exists r, o = Done r /\
       match r with
       | inl _ => True
       | inr v => exists i, shows a' v i /\ settled a req (vp_Size params) a' (v_ID v) i
       end) a.
Proof.
  intros Hparams Hsrc. eapply swp_mono; [eapply amid_alone; [apply documented_reads|];
    eapply amid_rely; [|by apply wait_atomic]|].
  - intros a1 a2 ->. reflexivity.
  - cbv beta. intros a' o (log & (r & -> & Hr) & Hc). exists r. split; [done|].
    destruct r as [e|v]; [done|]. destruct Hr as (i & Hv & Hp & _). exists i.
    split; [done|]. by eapply placed_settled.
Qed.
End Handlers.

(** C1. The Controller service refines its abstract specification: against an API
    that keeps to its documentation, whatever calls fail and whether or not they
    took effect, every request is answered without a panic, and its answer and
    the account it leaves are those of one step of [csi]: one atomic change of
    one volume, or none, permitted by the account as it was; a success tells the
    truth about the account it leaves; an error leaves the account unchanged or
    changed as the success would have. *)
Theorem controller_refines (instances : gmap Z InstInfo) (cs : ControllerServer) (q : Request) (a : Account) :
  swp (documented instances) (handle cs q)
    (fun a' o => exists r, o = Done r /\ csi instances cs a q r a') a.
Proof. apply all_refine. Qed.
