(* ===== verification/Sequences.v ===== *)
(** Sequences of requests to the Controller service: invariants of the account by
    rule induction over the abstract steps, and what retrying a request does. *)
From S2P Require Import Prelude GoStrings Types Errors Metrics Effects LinodeVolumes Sizes Config Controller ControllerProofs Cloud Csi Interference Refinement.

(** * Requests, one after the other *)

(** The answers to the requests, in order; an error does not stop the service. *)
Fixpoint serve (cs : ControllerServer) (qs : list Request) : prog (list (goerror + Answer)) :=
  match qs with
  | [] => Ret []
  | q :: qs =>
      let* r := handle cs q in
      let* rs := serve cs qs in
      Ret (r :: rs)
  end.

Section Sequences.
Context (instances : gmap Z InstInfo) (cs : ControllerServer).

Inductive csi_run : Account -> list Request -> list (goerror + Answer) -> Account -> Prop :=
| run_nil a : csi_run a [] [] a
| run_cons a q r a1 qs rs a' :
    csi instances cs a q r a1 -> csi_run a1 qs rs a' -> csi_run a (q :: qs) (r :: rs) a'.

Lemma serve_refines qs a :
  swp (documented instances) (serve cs qs)
    (fun a' o => exists rs, o = Done rs /\ csi_run a qs rs a') a.
Proof.
  revert a. induction qs as [|q qs IH]; intros a; cbn [serve].
  { eexists. split; [reflexivity|constructor]. }
  eapply swp_seq; [apply all_refine| |by intros ? ? (? & [=] & _)]. cbv beta.
  intros a1 r (r' & [= <-] & Hr). eapply swp_seq; [apply IH| |by intros ? ? (? & [=] & _)].
  cbv beta. intros a' rs (rs' & [= <-] & Hrs). swp_run. eexists. split; [reflexivity|].
  by econstructor.
Qed.

(** * Invariants of the account *)

Definition labels_unique (a : Account) : Prop :=
  forall id1 id2 i1 i2, a !! id1 = Some i1 -> a !! id2 = Some i2 ->
    vi_Label i1 = vi_Label i2 -> id1 = id2.

(** No instance has more volumes and disks than its attachment limit. *)
Definition within_limits (a : Account) : Prop :=
  forall l inst, instances !! l = Some inst ->
    Z.of_nat (attached_to l a) + Z.of_nat (ii_Disks inst)
      <= maxVolumeAttachments (instance_memory (ii_Specs inst)).

Lemma labels_unique_alter a id f :
  (forall i, vi_Label (f i) = vi_Label i) -> labels_unique a -> labels_unique (alter f id a).
Proof.
  intros Hf Hu id1 id2 i1 i2. rewrite !lookup_alter_Some.
  intros [(<- & ? & ? & ->)|[? ?]] [(<- & ? & ? & ->)|[? ?]]; rewrite ?Hf; eauto.
Qed.

Lemma csi_labels a q r a' : csi instances cs a q r a' -> labels_unique a -> labels_unique a'.
Proof.
  intros Hstep Hu. destruct Hstep; try done; try (by apply labels_unique_alter).
  - intros id1 id2 i1 i2. destruct H2 as [Hl _]. unfold has_label in H0.
    rewrite !lookup_insert_Some.
    intros [[<- <-]|[? E1]] [[<- <-]|[? E2]] Heq; try done; [| |by eauto].
    all: exfalso; eapply H0; eexists; split; [eassumption|congruence].
  - intros id1 id2 i1 i2. rewrite !lookup_delete_Some. intros [_ ?] [_ ?]. eauto.
Qed.

Lemma csi_limits a q r a' : csi instances cs a q r a' -> within_limits a -> within_limits a'.
Proof.
  intros Hstep Hw. destruct Hstep; try done; intros l' inst Hinst; specialize (Hw l' inst Hinst).
  - destruct H1 as (Hnone & _ & Hl & _).
    by rewrite attached_insert, delete_id, Hl, decide_False, Nat.add_0_r by done.
  - rewrite (attached_present l' a id i) in Hw by done. lia.
  - rewrite (alter_present a _ id i), attached_insert by done.
    rewrite (attached_present l' a id i), H1, decide_False in Hw by done.
    cbn [vi_LinodeID set_LinodeID]. case_decide as Heq; [|lia]. injection Heq as <-.
    destruct H2 as (inst' & Hinst' & Hroom). rewrite Hinst in Hinst'. injection Hinst' as <-.
    rewrite (attached_present l a id i), H1, decide_False in Hroom by done. lia.
  - rewrite (alter_present a _ id i), attached_insert by done. cbn [vi_LinodeID set_LinodeID].
    rewrite (attached_present l' a id i) in Hw by done. rewrite decide_False by done. lia.
  - rewrite (alter_present a _ id i), attached_insert by done.
    by rewrite (attached_present l' a id i) in Hw by done.
Qed.

Lemma run_labels a qs rs a' : csi_run a qs rs a' -> labels_unique a -> labels_unique a'.
Proof. induction 1; eauto using csi_labels. Qed.

Lemma run_limits a qs rs a' : csi_run a qs rs a' -> within_limits a -> within_limits a'.
Proof. induction 1; eauto using csi_limits. Qed.

(** * What happens to a volume *)

(** The same volume, grown or not. *)
Definition grown (i i' : VolInfo) : Prop :=
  vi_Label i' = vi_Label i /\ vi_Region i' = vi_Region i /\ vi_Encryption i' = vi_Encryption i /\
  vi_Path i' = vi_Path i /\ vi_Size i <= vi_Size i'.

#[local] Instance grown_preorder : PreOrder grown.
Proof. split; unfold grown; [intros i; by split_and!|intros i1 i2 i3; intuition (lia || congruence)]. Qed.

Definition asks_delete (q : Request) (id : Z) : Prop :=
  exists vid, q = ReqDelete vid /\ VolumeIdAsInt "DeleteVolume" vid = inr id.
Definition asks_detach (q : Request) (id l : Z) : Prop :=
  exists req, q = ReqUnpublish req /\
    VolumeIdAsInt "ControllerUnpublishVolume" (cu_VolumeId req) = inr id /\
    NodeIdAsInt "ControllerUnpublishVolume" (cu_NodeId req) = inr l.

(** The volume is still there, grown or not, and attached as it was unless one
    of the requests asks to detach it. *)
Definition kept (qs : list Request) (id : Z) (i : VolInfo) (a' : Account) : Prop :=
  exists i', a' !! id = Some i' /\ grown i i' /\
    forall l, vi_LinodeID i = Some l ->
      vi_LinodeID i' = Some l \/ exists q, q ∈ qs /\ asks_detach q id l.

(** One of the requests asks to delete the volume, and another to detach it if
    it was attached. *)
Definition asked_away (qs : list Request) (id : Z) (i : VolInfo) : Prop :=
  (exists q, q ∈ qs /\ asks_delete q id) /\
  forall l, vi_LinodeID i = Some l -> exists q, q ∈ qs /\ asks_detach q id l.

(** More requests may ask for more. *)
Lemma kept_more qs qs' id i a : (forall q, q ∈ qs -> q ∈ qs') -> kept qs id i a -> kept qs' id i a.
Proof.
  intros Hq (i' & Hi & Hg & Hl). exists i'. split_and!; [done..|].
  intros l [?|(q & ? & ?)]%Hl; [by left|right]. exists q. auto.
Qed.

Lemma asked_away_more qs qs' id i : (forall q, q ∈ qs -> q ∈ qs') -> asked_away qs id i -> asked_away qs' id i.
Proof.
  intros Hq [(q & ? & ?) Hl]. split; [exists q; auto|]. intros l (q' & ? & ?)%Hl. exists q'. auto.
Qed.

Lemma kept_trans qs id i i1 (a1 a2 : Account) :
  kept qs id i a1 -> a1 !! id = Some i1 -> kept qs id i1 a2 -> kept qs id i a2.
Proof.
  intros (j & Hj & Hg & Hl) Hi1 (i2 & Hi2 & Hg2 & Hl2). simplify_eq. exists i2.
  split_and!; [done|by etransitivity|]. intros l [?%Hl2|?]%Hl; auto.
Qed.

Lemma asked_away_back qs id i i1 (a1 : Account) :
  kept qs id i a1 -> a1 !! id = Some i1 -> asked_away qs id i1 -> asked_away qs id i.
Proof.
  intros (j & Hj & _ & Hl) Hi1 [Hd Ha]. simplify_eq. split; [done|]. intros l [?%Ha|?]%Hl; done.
Qed.

Lemma kept_same qs (a : Account) id i : a !! id = Some i -> kept qs id i a.
Proof. intros H. exists i. split; [done|]. split; [reflexivity|auto]. Qed.

Lemma kept_alter qs (a : Account) f id id0 i i0 :
  a !! id = Some i -> a !! id0 = Some i0 -> grown i0 (f i0) ->
  (forall l, vi_LinodeID i0 = Some l ->
     vi_LinodeID (f i0) = Some l \/ exists q, q ∈ qs /\ asks_detach q id0 l) ->
  kept qs id i (alter f id0 a).
Proof.
  intros Hi Hi0 Hg Hl. destruct (decide (id0 = id)) as [->|Hne].
  - assert (i0 = i) as -> by congruence. exists (f i). rewrite lookup_alter_eq, Hi. auto.
  - eapply kept_same. by rewrite lookup_alter_ne.
Qed.

Lemma csi_keeps a q r a' id i :
  csi instances cs a q r a' -> a !! id = Some i ->
  (vi_LinodeID i = None /\ asks_delete q id) \/ kept [q] id i a'.
Proof.
  intros Hstep Hi. destruct Hstep; try (right; by apply kept_same).
  - right. apply kept_same. rewrite lookup_insert_ne; [done|]. intros ->. destruct H1. congruence.
  - destruct (decide (id0 = id)) as [->|Hne]; [left|right].
    + split; [congruence|by eexists].
    + apply kept_same. by rewrite lookup_delete_ne.
  - right. eapply kept_alter; [done..| |congruence]. unfold grown. cbn. by split_and!.
  - right. eapply kept_alter; [done..| |].
    + unfold grown. cbn. by split_and!.
    + intros l' Hl'. right. eexists. split; [apply list_elem_of_here|].
      eexists. split_and!; [done..|]. destruct H2; congruence.
  - right. eapply kept_alter; [done..| |by auto]. unfold grown. cbn. by split_and!.
Qed.

Lemma run_keeps a qs rs a' id i :
  csi_run a qs rs a' -> a !! id = Some i -> asked_away qs id i \/ kept qs id i a'.
Proof.
  intros Hrun. revert i. induction Hrun as [a|a q r a1 qs rs a' Hstep _ IH]; intros i Hi.
  { right. by apply kept_same. }
  destruct (csi_keeps _ _ _ _ id i Hstep Hi) as [[Hl Hd]|(i1 & Hi1 & Hg1 & Hl1)].
  { left. split; [|congruence]. exists q. split; [apply list_elem_of_here|done]. }
  assert (kept (q :: qs) id i a1) as H1.
  { apply (kept_more [q]); [|by exists i1]. intros q' ->%list_elem_of_singleton. apply list_elem_of_here. }
  destruct (IH i1 Hi1) as [H2|H2].
  - left. eapply asked_away_back; [done..|]. eapply asked_away_more, H2. intros q'. apply list_elem_of_further.
  - right. eapply kept_trans; [done..|]. eapply kept_more, H2. intros q'. apply list_elem_of_further.
Qed.


(** * Retries *)

(** Every request but the two that only read. *)
Definition changing (q : Request) : Prop :=
  match q with ReqValidate _ | ReqList _ => False | _ => True end.

(** Repeating the request changes nothing any more, and succeeds with [x] only. *)
Definition stuck (a : Account) (q : Request) (x : Answer) : Prop :=
  forall r a', csi instances cs a q r a' -> a' = a /\ forall y, r = inr y -> y = x.

(** One case of [csi] per rule that fits the request. *)
Local Ltac by_rule :=
  let H := fresh in intros ? ? H; inversion H; subst; clear H;
  repeat match goal with
  | H : or_error _ _ |- _ => destruct H as [->|?]
  | H : request_valid _ _ |- _ => destruct H
  end;
  repeat match goal with
  | H1 : ?x = inr _, H2 : ?x = inr _ |- _ => rewrite H1 in H2; injection H2 as H2; subst
  end; simplify_eq.

Lemma stuck_created a req size id i :
  request_valid req size -> (forall id', has_label a (request_label cs req) id' <-> id' = id) ->
  a !! id = Some i -> stuck a (ReqCreate req) (AnsCreate (describe req size id i)).
Proof.
  intros [Hv Hs] Hone Hi. by_rule; try (split; [done|by intros ? [=]]).
  1,2: match goal with H : forall _, ~ has_label _ _ _ |- _ => by destruct (H id); apply Hone end.
  match goal with H : forall id', _ <-> id' = ?id0 |- _ =>
    assert (id0 = id) as -> by (apply Hone, H; reflexivity) end.
  simplify_eq. split; [done|]. by intros ? [= <-].
Qed.

Lemma stuck_gone a vid id :
  VolumeIdAsInt "DeleteVolume" vid = inr id -> a !! id = None -> stuck a (ReqDelete vid) AnsDelete.
Proof. intros Hv Hi. by_rule; split; try done; by intros ? [=]. Qed.

Lemma stuck_attached a req l id i :
  validateControllerPublishVolumeRequest req = inr (l, id) ->
  a !! id = Some i -> vi_LinodeID i = Some l ->
  stuck a (ReqPublish req) (AnsPublish {[devicePathKey := vi_Path i]}).
Proof. intros Hv Hi Hl. by_rule; split; try done; try by intros ? [=]. Qed.

Lemma stuck_detached a req l id :
  NodeIdAsInt "ControllerUnpublishVolume" (cu_NodeId req) = inr l ->
  VolumeIdAsInt "ControllerUnpublishVolume" (cu_VolumeId req) = inr id ->
  (forall i, a !! id = Some i -> vi_LinodeID i <> Some l) -> stuck a (ReqUnpublish req) AnsUnpublish.
Proof.
  intros Hn Hv Hd.
  assert (forall i, a !! id = Some i -> vi_LinodeID i = None \/ vi_LinodeID i = Some l ->
    alter (set_LinodeID None) id a = a) as Hsame.
  { intros i Hi [Hl|Hl]; [|by destruct (Hd i Hi)].
    apply alter_id. intros j Hj. assert (j = i) as -> by congruence. destruct i; cbn in *; by subst. }
  by_rule; split; try done; try (by intros ? [=]); eauto.
  all: by destruct r.
Qed.

Lemma stuck_expanded a req size id i :
  VolumeIdAsInt "ControllerExpandVolume" (ce_VolumeId req) = inr id ->
  getRequestCapacitySize (ce_CapacityRange req) = inr size ->
  a !! id = Some i -> vi_Size i = bytesToGB size ->
  stuck a (ReqExpand req)
    (AnsExpand {| er_CapacityBytes := size; er_NodeExpansionRequired := false |}).
Proof.
  intros Hv Hs Hi Hgb.
  assert (alter (set_Size (bytesToGB size)) id a = a) as Hsame.
  { apply alter_id. intros j Hj. assert (j = i) as -> by congruence. destruct i; cbn in *; by subst. }
  by_rule; split; try done; try (by intros ? [=]).
  all: by destruct r.
Qed.

Lemma or_error_answer x r y : or_error x r -> r = inr y -> y = x.
Proof. intros [->|H] Hy; [congruence|]. by subst. Qed.

(** After a request succeeded or changed the account, it is stuck. *)
Lemma csi_stuck a q r a1 :
  csi instances cs a q r a1 -> changing q -> (a1 <> a \/ is_inl r = false) ->
  exists x, stuck a1 q x /\ forall y, r = inr y -> y = x.
Proof.
  intros Hstep Hq Hdone. destruct Hstep; try done; try (by destruct Hdone).
  all: eexists; split; [|by (intros ? [= <-]) || (intros ?; by apply or_error_answer)].
  - apply stuck_created; [done| |apply lookup_insert_eq]. intros id'. destruct H2 as [Hl _].
    split.
    + intros (j & Hj & Hjl). destruct (decide (id' = id)) as [->|Hne]; [done|].
      rewrite lookup_insert_ne in Hj by done. destruct (H0 id'). by exists j.
    + intros ->. exists i. by rewrite lookup_insert_eq.
  - by apply stuck_created.
  - by eapply stuck_gone.
  - eapply stuck_gone; [done|]. apply lookup_delete_eq.
  - by eapply stuck_attached.
  - eapply (stuck_attached _ _ _ _ (set_LinodeID (Some l) i)); [done| |done].
    by rewrite lookup_alter_eq, H0.
  - eapply stuck_detached; [done..|]. intros i Hi Hl. destruct (H1 i Hi) as (? & ? & ?). congruence.
  - eapply stuck_detached; [done..|]. intros j. rewrite lookup_alter_eq, H1. cbn. by intros [= <-].
  - eapply (stuck_expanded _ _ _ _ (set_Size _ i)); [done..| |done]. by rewrite lookup_alter_eq, H1.
Qed.

Lemma run_stuck a q x n rs a' :
  stuck a q x -> csi_run a (repeat q n) rs a' -> a' = a /\ forall y, inr y ∈ rs -> y = x.
Proof.
  intros Hs. revert rs. induction n as [|n IH]; intros rs Hrun; inversion Hrun as [|? ? r ? ? rs' ? H1 H2]; subst.
  { split; [done|]. by intros y ?%elem_of_nil. }
  destruct (Hs _ _ H1) as [-> Hr]. destruct (IH _ H2) as [-> Hrs]. split; [done|].
  intros y [Hy|Hy]%elem_of_cons; auto.
Qed.

Lemma run_retry a q n rs a' :
  changing q -> csi_run a (repeat q n) rs a' ->
  (a' = a \/ exists r, csi instances cs a q r a') /\
  forall x y, inr x ∈ rs -> inr y ∈ rs -> x = y.
Proof.
  intros Hq. revert rs. induction n as [|n IH]; intros rs Hrun; inversion Hrun as [|? ? r a1 ? rs' ? H1 H2]; subst.
  { split; [by left|]. by intros x y ?%elem_of_nil. }
  assert ((a1 = a /\ is_inl r = true) \/ (a1 <> a \/ is_inl r = false)) as [[-> Hr]|Hdone].
  { destruct (decide (a1 = a)); destruct (is_inl r) eqn:?; auto. }
  - destruct (IH _ H2) as [Ha Hrs]. split; [done|].
    intros x y [Hx|Hx]%elem_of_cons [Hy|Hy]%elem_of_cons; subst; try done; auto.
  - destruct (csi_stuck _ _ _ _ H1 Hq Hdone) as (x0 & Hst & Hx0).
    destruct (run_stuck _ _ _ _ _ _ Hst H2) as [-> Hrs]. split; [right; by eexists|].
    assert (forall y, inr y ∈ r :: rs' -> y = x0) as Hall.
    { intros y [Hy|Hy]%elem_of_cons; auto. }
    intros x y Hx Hy. rewrite (Hall x Hx). symmetry. auto.
Qed.

(** C10. Retrying is safe: however often a request that creates, deletes, attaches,
    detaches or resizes is repeated, and whichever of the calls fail or lose
    their answer after taking effect, the account is changed at most once, as by
    one abstract step, and all the repetitions that succeed give the same
    answer. *)
Theorem retry_at_most_once (q : Request) (n : nat) (a : Account) (Hq : changing q) :
  swp (documented instances) (serve cs (repeat q n))
    (fun a' o => exists rs, o = Done rs /\
       (a' = a \/ exists r, csi instances cs a q r a') /\
       forall x y, inr x ∈ rs -> inr y ∈ rs -> x = y) a.
Proof.
  eapply swp_mono; [apply serve_refines|]. cbv beta. intros a' o (rs & -> & Hrun).
  exists rs. split; [done|]. by eapply run_retry.
Qed.
End Sequences.

(** * A concrete account *)

(** One instance with 4 GiB of memory and one disk, one volume attached to it. *)
Definition ex_instances : gmap Z InstInfo :=
  {[42 := {| ii_Label := "node"; ii_Region := "us-east"; ii_Specs := {| Memory := 4096 |};
             ii_Disks := 1 |}]}.
Definition ex_info (attached : option Z) : VolInfo :=
  {| vi_Label := "pvc-1"; vi_Size := 20; vi_Region := "us-east"; vi_Encryption := "disabled";
     vi_LinodeID := attached; vi_Path := "/dev/disk/by-id/x" |}.
Definition ex_cs : ControllerServer :=
  {| cs_driver := ex_driver "";
     cs_metadata := {| md_ID := 42; md_Label := "node"; md_Region := "us-east"; md_Memory := 2 ^ 32 |} |}.
Definition ex_requests : list Request :=
  [ReqUnpublish {| cu_VolumeId := "7-pvc-1"; cu_NodeId := "42" |}; ReqDelete "7-pvc-1"].


Lemma retry_at_most_once_witness :
  swp (documented ex_instances) (serve ex_cs (repeat (ReqDelete "7-pvc-1") 3))
    (fun a' o => exists rs, o = Done rs /\
       (a' = {[7 := ex_info None]} \/
        exists r, csi ex_instances ex_cs {[7 := ex_info None]} (ReqDelete "7-pvc-1") r a') /\
       forall x y, inr x ∈ rs -> inr y ∈ rs -> x = y) {[7 := ex_info None]}.
Proof. apply (retry_at_most_once ex_instances ex_cs (ReqDelete "7-pvc-1") 3). exact I. Defined.
