(* ===== verification/Lifecycle.v ===== *)
(** Progress of the Controller service on a reliable API: requests that make sense
    succeed, and a volume can be created, attached, detached and deleted. *)
From S2P Require Import Prelude GoStrings Types Errors Metrics Effects LinodeVolumes Sizes Config Controller ControllerProofs Cloud Csi Interference Refinement Sequences.

(** * A reliable API *)

Section Lifecycle.
Context (instances : gmap Z InstInfo) (cs : ControllerServer).

(** IDs for new volumes are left. *)
Definition ids_left (a : Account) : Prop := forall id, is_Some (a !! id) -> id < max_int64.

(** The calls that the API documents to succeed do. *)
Definition succeeds (c : cmd) (a : Account) : resp c -> Prop :=
  match c return resp c -> Prop with
  | Api q =>
      match q return Client.answer q -> Prop with
      | Client.ListVolumes _ | Client.ListInstanceVolumes _ => fun r => is_inl r = false
      | Client.GetRegion _ => fun r =>
          exists reg, r = inr (Some reg) /\ "Block Storage Encryption" ∈ r_Capabilities reg
      | Client.ListInstanceDisks l => fun r => is_Some (instances !! l) -> is_inl r = false
      | Client.GetInstance l => fun r => is_Some (instances !! l) -> is_inl r = false
      | Client.GetVolume id => fun r =>
          (is_Some (a !! id) -> is_inl r = false) /\
          (a !! id = None -> exists e, r = inl e /\ ae_IsNotFound e = true)
      | Client.CreateVolume o => fun r => ids_left a -> valid_label (co_Label o) = true -> is_inl r = false
      | Client.CloneVolume src label => fun r =>
          ids_left a -> is_Some (a !! src) -> valid_label label = true -> is_inl r = false
      | Client.AttachVolume id _ => fun r =>
          is_Some (a !! id) -> (vi_LinodeID <$> a !! id) = Some None -> is_inl r = false
      | Client.DetachVolume id => fun r =>
          forall i, a !! id = Some i -> vi_LinodeID i <> None -> r = None
      | Client.WaitForVolumeLinodeID id l _ => fun r =>
          (vi_LinodeID <$> a !! id) = Some l -> is_inl r = false
      | Client.WaitForVolumeStatus id _ _ => fun r => is_Some (a !! id) -> is_inl r = false
      | Client.DeleteVolume id => fun r => (vi_LinodeID <$> a !! id) = Some None -> r = None
      | Client.ResizeVolume id size => fun r =>
          forall i, a !! id = Some i -> vi_Size i <= size -> r = None
      end
  | _ => fun _ => True
  end.

Definition reliable : state_law Account := fun c a r a' =>
  documented instances c a r a' /\ succeeds c a r.

(** The requests that make sense in the account. *)
Definition enabled (a : Account) (q : Request) : Prop :=
  match q with
  | ReqCreate req =>
      exists size, request_valid req size /\ ids_left a /\ valid_label (request_label cs req) = true /\
        (exists src, source_of cs a req src) /\
        ((forall id, ~ has_label a (request_label cs req) id) \/
         exists id i, (forall id', has_label a (request_label cs req) id' <-> id' = id) /\
           a !! id = Some i /\ (cv_VolumeContentSource req = None -> vi_Size i = bytesToGB size))
  | ReqDelete vid =>
      exists id, VolumeIdAsInt "DeleteVolume" vid = inr id /\
        forall i, a !! id = Some i -> vi_LinodeID i = None
  | ReqPublish req =>
      exists l id i, validateControllerPublishVolumeRequest req = inr (l, id) /\
        is_Some (instances !! l) /\ a !! id = Some i /\
        (vi_LinodeID i = Some l \/ vi_LinodeID i = None /\ room instances a l)
  | ReqUnpublish req =>
      exists l id, NodeIdAsInt "ControllerUnpublishVolume" (cu_NodeId req) = inr l /\
        VolumeIdAsInt "ControllerUnpublishVolume" (cu_VolumeId req) = inr id /\
        forall i, a !! id = Some i -> vi_LinodeID i <> None
  | ReqExpand req =>
      exists id i size, VolumeIdAsInt "ControllerExpandVolume" (ce_VolumeId req) = inr id /\
        getRequestCapacitySize (ce_CapacityRange req) = inr size /\
        a !! id = Some i /\ vi_Size i <= bytesToGB size
  | ReqValidate _ | ReqList _ => False
  end.

Definition succeeds_on (q : Request) (a : Account) : Prop :=
  swp reliable (handle cs q) (fun _ o => exists x, o = Done (inr x)) a.

(** What a call answered says, when the API is reliable. *)
Local Ltac rel_facts :=
  repeat match goal with
  | H : reliable _ _ _ _ |- _ =>
      let Hd := fresh "Hd" in let Hs := fresh "Hs" in destruct H as [Hd Hs];
      cbn [succeeds] in Hs; law_use Hd
  end; law_facts;
  repeat match goal with
  | H : is_Some ?x -> _, E : ?x = Some _ |- _ => specialize (H (mk_is_Some _ _ E))
  | H : ?x = None -> _, E : ?x = None |- _ => specialize (H E)
  | H : ?x = None -> _, E : ?x = Some _ |- _ => clear H
  | H : forall i, ?x = Some i -> _, E : ?x = Some _ |- _ => specialize (H _ E)
  end; law_facts; rewrite ?lookup_alter_eq in *;
  repeat match goal with
  | E : ?x = Some _, H : context [_ <$> ?x] |- _ => rewrite E in H
  | H : is_Some (Some _) -> _ |- _ => specialize (H (mk_is_Some _ _ eq_refl))
  end; cbn [fmap option_fmap option_map vi_LinodeID set_LinodeID] in *; law_facts;
  ptr_facts;
  repeat match goal with
  | H : _ = _ -> _ |- _ => specialize (H ltac:(congruence))
  | H : _ <> _ -> _ |- _ => specialize (H ltac:(congruence))
  | H : _ <= _ -> _ |- _ => specialize (H ltac:(lia))
  | H : is_Some (Some _) -> _ |- _ => specialize (H (mk_is_Some _ _ eq_refl))
  end; law_facts; try congruence; try lia.

Lemma room_found a l inst (disks : list InstanceDisk) (vols : list Volume) :
  Z.of_nat (attached_to l a) + Z.of_nat (ii_Disks inst)
    < maxVolumeAttachments (instance_memory (ii_Specs inst)) ->
  length disks = ii_Disks inst -> length vols = attached_to l a ->
  Z.of_nat (length vols) <
    wrap64 (maxVolumeAttachments (instance_memory (ii_Specs inst)) - Z.of_nat (length disks)).
Proof.
  intros H -> ->. pose proof (maxVolumeAttachments_clamp (instance_memory (ii_Specs inst)) (wrapu64_range _)).
  rewrite wrap64_id; [lia|]. unfold is_int64, min_int64, max_int64. lia.
Qed.

Local Ltac rel_run := swp_run; try (by eexists); exfalso; rel_facts.

Lemma delete_enabled vid a : enabled a (ReqDelete vid) -> succeeds_on (ReqDelete vid) a.
Proof.
  intros (id & Hid & Hdet). unfold succeeds_on. cbn [handle]. wp_unfold. rewrite Hid. wp_simpl.
  destruct (a !! id) as [i|] eqn:Hi; [specialize (Hdet i eq_refl)|]; rel_run.
Qed.

Lemma expand_enabled req a : enabled a (ReqExpand req) -> succeeds_on (ReqExpand req) a.
Proof.
  intros (id & i & size & Hid & Hsize & Hi & Hgb). unfold succeeds_on. cbn [handle]. wp_unfold.
  rewrite Hid, Hsize. wp_simpl. rel_run.
Qed.

Lemma unpublish_enabled req a : enabled a (ReqUnpublish req) -> succeeds_on (ReqUnpublish req) a.
Proof.
  intros (l & id & Hl & Hid & Hatt). unfold succeeds_on. cbn [handle]. wp_unfold.
  rewrite Hid. wp_simpl. rewrite Hl. wp_simpl.
  destruct (a !! id) as [i|] eqn:Hi; [specialize (Hatt i eq_refl)|]; rel_run.
Qed.

Lemma publish_enabled req a : enabled a (ReqPublish req) -> succeeds_on (ReqPublish req) a.
Proof.
  intros (l & id & i & Hl & [inst Hinst] & Hi & Hroom). unfold succeeds_on. cbn [handle]. wp_unfold.
  rewrite Hl. wp_simpl.
  destruct Hroom as [Hroom|[Hnone (inst' & Hinst' & Hroom)]]; rel_run.
  pose proof (room_found a l _ l0 l1 H ltac:(done) ltac:(done)). unfold instance_memory in *. lia.
Qed.

(** A program that succeeds on a reliable API, and what it establishes whenever it
    returns. *)
Lemma live_and_right {A} (p : eprog A) (R : Account -> goerror + A -> Prop) a :
  swp reliable p (fun _ o => exists x, o = Done (inr x)) a ->
  swp (documented instances) p (fun a' o => exists r, o = Done r /\ R a' r) a ->
  swp reliable p (fun a' o => exists r, o = Done r /\
    match r with inl _ => False | inr x => R a' (inr x) end) a.
Proof.
  intros H1 H2. eapply swp_mono; [apply swp_and; [exact H1|eapply swp_law; [|exact H2]]|].
  - by intros c s r s' [H _].
  - cbv beta. intros s o [(x & ->) (r & [= <-] & HR)]. by eexists.
Qed.

Lemma params_live req size a :
  getRequestCapacitySize (cv_CapacityRange req) = inr size ->
  swp reliable (prepareVolumeParams cs req) (fun _ o => exists x, o = Done (inr x)) a.
Proof.
  intros Hsize. wp_unfold. rewrite Hsize. wp_simpl. rel_run.
  eapply eq_true_false_abs; [|eassumption]. apply existsb_exists.
  eexists. split; [by apply list_elem_of_In|]. apply String.eqb_refl.
Qed.

Lemma source_live req src a :
  source_of cs a req src ->
  swp reliable (getContentSourceVolume cs (cv_VolumeContentSource req) (cv_AccessibilityRequirements req))
    (fun _ o => exists x, o = Done (inr x)) a.
Proof.
  intros Hsrc. destruct src as [key|]; [destruct Hsrc as (srcid & j & -> & Hkey & Hj & Hregion)|rewrite Hsrc].
  - wp_unfold. rewrite Hkey. wp_simpl. rel_run.
  - wp_unfold. rel_run.
Qed.

(** The label is not in use, or by one volume of the right size. *)
Definition label_ready (a : Account) (req : CreateVolumeRequest) (size : Z) : Prop :=
  (forall id, ~ has_label a (request_label cs req) id) \/
  exists id i, (forall id', has_label a (request_label cs req) id' <-> id' = id) /\
    a !! id = Some i /\ (cv_VolumeContentSource req = None -> vi_Size i = bytesToGB size).

Lemma listed_two a label (v v0 : Volume) vs :
  NoDup (v_ID <$> v :: v0 :: vs) ->
  (forall id, id ∈ (v_ID <$> v :: v0 :: vs) <-> has_label a label id) ->
  exists id1 id2, id1 <> id2 /\ has_label a label id1 /\ has_label a label id2.
Proof.
  cbn. inversion 1 as [|? ? Hne _]; subst; intros Hin.
  exists (v_ID v), (v_ID v0). split_and!; [|apply Hin; repeat constructor..].
  intros E. apply Hne. rewrite E. constructor.
Qed.

Lemma attempt_live req tags size src a :
  source_of cs a req src -> ids_left a -> valid_label (request_label cs req) = true -> label_ready a req size ->
  swp reliable
    (attemptCreateLinodeVolume (request_label cs req) tags
       (if encryption_asked req then "enabled" else "disabled") (bytesToGB size)
       src (requested_region cs (cv_AccessibilityRequirements req)))
    (fun _ o => exists x, o = Done (inr x)) a.
Proof.
  intros Hsrc Hids Hvalid Hlabel. wp_unfold. rel_run.
  - destruct Hsrc as (? & j & _ & _ & Hj & _). by discriminate (Hs Hids (mk_is_Some _ _ Hj) Hvalid).
  - by discriminate (Hs Hids Hvalid).
  - destruct (listed_two a (request_label cs req) v v0 l1) as (id1 & id2 & Hne & H1' & H2'); [done..|].
    destruct Hlabel as [Hno|(id & i & Hone & _)]; [by destruct (Hno _ H1')|].
    apply Hone in H1', H2'. congruence.
Qed.

Lemma wait_live req params src a :
  params_of cs req params -> source_of cs a req src -> ids_left a -> valid_label (request_label cs req) = true ->
  label_ready a req (vp_Size params) ->
  swp reliable
    (createAndWaitForVolume (vp_VolumeName params) (cv_Parameters req) (vp_EncryptionStatus params)
       (vp_TargetSizeGB params) src (vp_Region params))
    (fun _ o => exists x, o = Done (inr x)) a.
Proof.
  intros (Hlabel & _ & Hgb & Hregion & Henc) Hsrc Hids Hvalid Hready. rewrite Hlabel, Hgb, Hregion, Henc.
  unfold createAndWaitForVolume. eapply swp_try.
  - apply live_and_right; [by apply attempt_live|by apply attempt_settles].
  - by intros a' e.
  - cbv beta. intros a' o (v & i & -> & Hv & Hi & Hset). wp_unfold. rel_run.
    destruct src; [done|]. ptr_facts.
    destruct Hset as [[-> Hone]|(-> & _ & _ & _ & _ & Hmade)].
    + destruct Hready as [Hno|(id & j & Hone' & Hj & Hsize)].
      * apply (Hno (v_ID v)). by apply Hone.
      * assert (v_ID v = id) as <- by (apply Hone', Hone; done).
        specialize (Hsize Hsrc). congruence.
    + cbn in Hsrc. rewrite Hsrc in Hmade. destruct Hmade as [? _]. congruence.
Qed.

Lemma create_enabled req a : enabled a (ReqCreate req) -> succeeds_on (ReqCreate req) a.
Proof.
  intros (size & [Hvalid Hsize] & Hids & Hlab & [src Hsrc] & Hlabel). unfold succeeds_on.
  cbn [handle]. unfold answering, ebind, CreateVolume. rewrite swp_bind, Hvalid.
  eapply swp_try; [apply live_and_right; [by eapply params_live|apply params_reads]|by intros|].
  cbv beta. intros a' params [-> Hparams].
  eapply swp_try; [apply live_and_right; [by eapply source_live|apply source_reads]|by intros|].
  cbv beta. intros a' src' [-> Hsrc'].
  eapply swp_try; [apply live_and_right; [eapply wait_live|by eapply wait_settles]; try done| |].
  - destruct Hparams as (_ & Hs & _). rewrite Hsize in Hs. by injection Hs as <-.
  - by intros.
  - intros a' v _. wp_unfold. swp_run. by eexists.
Qed.

(** On a reliable API, every request that makes sense succeeds, and does what the
    specification says. *)
Lemma enabled_step q a :
  enabled a q ->
  swp reliable (handle cs q) (fun a' o => exists x, o = Done (inr x) /\ csi instances cs a q (inr x) a') a.
Proof.
  intros Hq. eapply swp_mono.
  - apply (live_and_right _ (fun a' r => csi instances cs a q r a')); [|apply all_refine].
    destruct q as [req|id|req|req|req|req|req]; try done;
      [by apply create_enabled|by apply delete_enabled|by apply publish_enabled
      |by apply unpublish_enabled|by apply expand_enabled].
  - cbv beta. intros a' o (r & -> & H). destruct r as [|x]; [done|]. eauto.
Qed.

(** The same of the handler itself. *)
Lemma answering_inv {A} (f : A -> Answer) (p : eprog A) (R : Account -> Answer -> Prop) a :
  swp reliable (answering f p) (fun a' o => exists x, o = Done (inr x) /\ R a' x) a ->
  swp reliable p (fun a' o => exists y, o = Done (inr y) /\ R a' (f y)) a.
Proof.
  unfold answering, ebind. rewrite swp_bind. intros H. eapply swp_mono; [exact H|].
  cbv beta. intros a' [[e|y]|why]; cbn.
  - by intros (x & [=] & _).
  - intros (x & [= <-] & HR). by exists y.
  - by intros (x & [=] & _).
Qed.

(** * The life of a volume *)

(** What Kubernetes asks of the controller for a volume used by one pod. *)
Definition lifecycle (req : CreateVolumeRequest) (nodeId : string) (cap : VolumeCapability)
    : eprog (CsiVolume * gmap string string) :=
  let! v := CreateVolume cs req in
  let! ctx := ControllerPublishVolume
    {| cp_VolumeId := csi_VolumeId v; cp_NodeId := nodeId; cp_VolumeCapability := Some cap |} in
  let! _ := ControllerUnpublishVolume {| cu_VolumeId := csi_VolumeId v; cu_NodeId := nodeId |} in
  let! _ := DeleteVolume (csi_VolumeId v) in
  ok (v, ctx).

(** The next handler of a sequence, when its request makes sense. *)
Lemma lifecycle_step {A B} (f : A -> Answer) (p : eprog A) (k : A -> eprog B) q Q a :
  handle cs q = answering f p -> enabled a q ->
  (forall a' y, csi instances cs a q (inr (f y)) a' -> swp reliable (k y) Q a') ->
  swp reliable (ebind p k) Q a.
Proof.
  intros Hq He Hk. unfold ebind. eapply swp_seq.
  - apply (answering_inv f p (fun a' x => csi instances cs a q (inr x) a')).
    rewrite <- Hq. by apply enabled_step.
  - cbv beta. intros a' r (y & [= ->] & Hstep). by apply Hk.
  - by intros a' why (y & [=] & _).
Qed.

Lemma room_insert (a : Account) l id i :
  a !! id = None -> vi_LinodeID i = None -> room instances a l -> room instances (<[id := i]> a) l.
Proof.
  intros Hid Hi (inst & Hinst & H). exists inst. split; [done|].
  by rewrite attached_insert, delete_id, Hi, decide_False, Nat.add_0_r by done.
Qed.

Lemma created_fresh a req v a' :
  csi instances cs a (ReqCreate req) (inr (AnsCreate v)) a' ->
  (forall id, ~ has_label a (request_label cs req) id) ->
  exists size id i, request_valid req size /\ fresh_volume a id i /\ made_for cs a req size i /\
    v = describe req size id i /\ a' = <[id := i]> a.
Proof.
  intros H Hfree. inversion H; subst.
  - match goal with H : or_error _ _ |- _ => destruct H as [[= ->]|[=]] end. eauto 10.
  - destruct (Hfree id). match goal with H : forall id', _ <-> id' = id |- _ => by apply H end.
Qed.

Lemma published_unattached a req l id i ctx a' :
  csi instances cs a (ReqPublish req) (inr (AnsPublish ctx)) a' ->
  validateControllerPublishVolumeRequest req = inr (l, id) ->
  a !! id = Some i -> vi_LinodeID i = None ->
  ctx = {[devicePathKey := vi_Path i]} /\ a' = alter (set_LinodeID (Some l)) id a.
Proof.
  intros H Hv Hi Hl. inversion H; subst; rewrite Hv in *; simplify_eq.
  match goal with H : or_error _ _ |- _ => destruct H as [[= ->]|[=]] end. done.
Qed.

Lemma unpublished_attached a req l id i a' :
  csi instances cs a (ReqUnpublish req) (inr AnsUnpublish) a' ->
  NodeIdAsInt "ControllerUnpublishVolume" (cu_NodeId req) = inr l ->
  VolumeIdAsInt "ControllerUnpublishVolume" (cu_VolumeId req) = inr id ->
  a !! id = Some i -> vi_LinodeID i = Some l -> a' = alter (set_LinodeID None) id a.
Proof.
  intros H Hn Hv Hi Hl. inversion H; subst; rewrite Hn, Hv in *; simplify_eq; [|done].
  match goal with H : forall i, _ -> exists l', _ |- _ => destruct (H _ Hi) as (? & ? & ?) end. congruence.
Qed.

Lemma deleted_present a vid id i a' :
  csi instances cs a (ReqDelete vid) (inr AnsDelete) a' ->
  VolumeIdAsInt "DeleteVolume" vid = inr id -> a !! id = Some i -> a' = delete id a.
Proof. intros H Hv Hi. inversion H; subst; rewrite Hv in *; by simplify_eq. Qed.

(** On a reliable API a volume goes through its whole life: created for a request
    whose label is free and valid, published to an instance with room, unpublished and
    deleted by the volume ID the creation answered with, every call succeeds,
    the publication answers with a device path, and the account ends as it
    began. *)
Theorem lifecycle_completes (req : CreateVolumeRequest) (nodeId : string) (cap : VolumeCapability)
  (size l : Z) (src : option LinodeVolumeKey) (a : Account)
  (Hreq : request_valid req size) (Hids : ids_left a) (Hsrc : source_of cs a req src)
  (Hlabel : valid_label (request_label cs req) = true)
  (Hfree : forall id, ~ has_label a (request_label cs req) id)
  (Hnode : forall caller, NodeIdAsInt caller nodeId = inr l)
  (Hcap : validVolumeCapabilities [Some cap] = true) (Hroom : room instances a l) :
  swp reliable (lifecycle req nodeId cap)
    (fun a' o => exists v path, o = Done (inr (v, {[devicePathKey := path]})) /\ path <> "" /\
       csi_CapacityBytes v = size /\ a' = a) a.
Proof.
  unfold lifecycle.
  eapply (lifecycle_step AnsCreate _ _ (ReqCreate req)); [done|exists size; eauto 7|].
  intros a1 v (size' & id & i & [_ Hs'] & (Hid & Hrange & Hnone & Hpath) & _ & -> & ->)%created_fresh; [|done].
  destruct Hreq as [_ Hs]. rewrite Hs in Hs'. injection Hs' as <-.
  assert (forall caller, VolumeIdAsInt caller (csi_VolumeId (describe req size id i)) = inr id) as Hvid.
  { intros caller. apply (VolumeIdAsInt_GetVolumeKey caller (CreateLinodeVolumeKey id (vi_Label i))).
    cbn. lia. }
  set (pub := {| cp_VolumeId := _; cp_NodeId := nodeId; cp_VolumeCapability := Some cap |}).
  assert (validateControllerPublishVolumeRequest pub = inr (l, id)) as Hpub.
  { unfold validateControllerPublishVolumeRequest. cbn [pub cp_NodeId cp_VolumeId cp_VolumeCapability].
    by rewrite Hnode, Hvid, Hcap. }
  eapply (lifecycle_step AnsPublish _ _ (ReqPublish pub)); [done| |].
  { exists l, id, i. destruct Hroom as (inst & Hinst & ?). split_and!; [done|by eexists|apply lookup_insert_eq|].
    right. split; [done|]. apply room_insert; [done..|]. by exists inst. }
  intros a2 ctx [-> ->]%(published_unattached _ _ l id i); [|done|apply lookup_insert_eq|done].
  rewrite alter_insert_eq.
  eapply (lifecycle_step (fun _ => AnsUnpublish) _ _ (ReqUnpublish _)); [done| |].
  { exists l, id. split_and!; [apply Hnode|apply Hvid|]. intros j. rewrite lookup_insert_eq. by intros [= <-]. }
  intros a3 [] ->%(unpublished_attached _ _ l id (set_LinodeID (Some l) i));
    [|apply Hnode|apply Hvid|apply lookup_insert_eq|done].
  rewrite alter_insert_eq.
  eapply (lifecycle_step (fun _ => AnsDelete) _ _ (ReqDelete _)); [done| |].
  { exists id. split; [apply Hvid|]. intros j. rewrite lookup_insert_eq. by intros [= <-]. }
  intros a4 [] ->%(fun H => deleted_present _ _ id _ _ H (Hvid _) (lookup_insert_eq _ _ _)).
  do 2 eexists. split; [reflexivity|]. split_and!; [done..|]. by rewrite delete_insert_id.
Qed.
End Lifecycle.
