(* ===== verification/MemoryApi.v ===== *)
(** An account in memory: an implementation of [LinodeApi] that is reliable, which
    shows that the documented behaviour can be had, and runs the life of a
    volume by computation. *)
From S2P Require Import Prelude GoStrings Types Errors Metrics Effects LinodeVolumes Sizes Config Controller ControllerProofs Cloud Csi Interference Refinement Sequences Lifecycle.

Definition not_found : ApiError := {| ae_IsNotFound := true; ae_Message := None; ae_Context := None; ae_Text := "[404]" |}.
Definition refused : ApiError := {| ae_IsNotFound := false; ae_Message := None; ae_Context := None; ae_Text := "[400]" |}.

(** The largest ID in use. *)
Definition last_id (a : Account) : Z := foldr (fun kv m => Z.max kv.1 m) 0 (map_to_list a).

Lemma last_id_le (a : Account) id i : a !! id = Some i -> id <= last_id a.
Proof.
  intros H%elem_of_map_to_list. unfold last_id. induction (map_to_list a) as [|kv l IH].
  - by apply elem_of_nil in H.
  - cbn. apply elem_of_cons in H as [<-|H]; [cbn; lia|]. specialize (IH H). lia.
Qed.

Lemma last_id_nonneg (a : Account) : 0 <= last_id a.
Proof. unfold last_id. induction (map_to_list a); cbn; lia. Qed.

Lemma last_id_used (a : Account) : last_id a = 0 \/ is_Some (a !! last_id a).
Proof.
  assert (forall kv, kv ∈ map_to_list a -> a !! kv.1 = Some kv.2) as H.
  { intros [k v]. apply elem_of_map_to_list. }
  unfold last_id. induction (map_to_list a) as [|kv l IH]; [by left|]. cbn.
  destruct IH as [IH|IH]; [intros; apply H; by constructor|..].
  all: destruct (Z.max_spec kv.1 (foldr (fun kv m => Z.max kv.1 m) 0 l)) as [[_ ->]|[_ ->]]; auto.
  all: right; eexists; apply H; constructor.
Qed.

(** The path of a volume is made of its label. *)
Definition path_of (label : string) : string := "/dev/disk/by-id/scsi-0Linode_Volume_" +:+ label.

Lemma path_of_nonempty label : path_of label <> "".
Proof. discriminate. Qed.

Definition found (a : Account) (id : Z) : ApiError + option Volume :=
  match a !! id with
  | Some i => if String.eqb (vi_Path i) "" then inl refused else inr (Some (as_volume id i))
  | None => inl not_found
  end.

(** A new volume, unless the IDs are exhausted. *)
Definition add (i : VolInfo) (a : Account) : (ApiError + option Volume) * Account :=
  let id := last_id a + 1 in
  if id <=? max_int64 then (inr (Some (as_volume id i)), <[id := i]> a) else (inl refused, a).

Definition volumes_of (a : Account) (P : VolInfo -> bool) : list Volume :=
  (fun kv => as_volume kv.1 kv.2) <$> map_to_list (filter (fun kv : Z * VolInfo => P kv.2 = true) a).

Definition listed_by (opts : ListOptions) (i : VolInfo) : bool :=
  match lo_Filter opts with
  | Some [(_, label)] => String.eqb (vi_Label i) label
  | _ => true
  end.

Definition paths_ok (a : Account) : bool := forallb (fun kv => negb (String.eqb (vi_Path kv.2) "")) (map_to_list a).

Section Memory.
Context (instances : gmap Z InstInfo).

Definition clone_of (label : string) (j : VolInfo) : VolInfo :=
  {| vi_Label := label; vi_Size := vi_Size j; vi_Region := vi_Region j;
     vi_Encryption := vi_Encryption j; vi_LinodeID := None; vi_Path := path_of label |}.

Definition memory_api (q : Client.call) (a : Account) : Client.answer q * Account :=
  match q return Client.answer q * Account with
  | Client.ListVolumes opts =>
      (if paths_ok a then inr (volumes_of a (listed_by opts)) else inl refused, a)
  | Client.ListInstanceVolumes l =>
      (inr (volumes_of a (fun i => bool_decide (vi_LinodeID i = Some l))), a)
  | Client.ListInstanceDisks l =>
      (match instances !! l with
       | Some inst =>
           if Z.of_nat (ii_Disks inst) <=? max_int64
           then inr (replicate (ii_Disks inst) {| d_ID := 0 |}) else inl refused
       | None => inl not_found
       end, a)
  | Client.GetRegion _ => (inr (Some {| r_Capabilities := ["Block Storage Encryption"] |}), a)
  | Client.GetInstance l =>
      (match instances !! l with
       | Some inst => inr (Some {| i_ID := l; i_Label := ii_Label inst; i_Region := ii_Region inst;
                                   i_Specs := Some (ii_Specs inst) |})
       | None => inl not_found
       end, a)
  | Client.GetVolume id | Client.WaitForVolumeStatus id _ _ => (found a id, a)
  | Client.CreateVolume o =>
      if valid_label (co_Label o) then
        add {| vi_Label := co_Label o; vi_Size := co_Size o; vi_Region := co_Region o;
               vi_Encryption := co_Encryption o; vi_LinodeID := None; vi_Path := path_of (co_Label o) |} a
      else (inl refused, a)
  | Client.CloneVolume src label =>
      match a !! src with
      | Some j => if valid_label label then add (clone_of label j) a else (inl refused, a)
      | None => (inl not_found, a)
      end
  | Client.AttachVolume id o =>
      match a !! id with
      | Some {| vi_LinodeID := None |} =>
          let a' := alter (set_LinodeID (Some (ao_LinodeID o))) id a in (found a' id, a')
      | _ => (inl refused, a)
      end
  | Client.DetachVolume id =>
      match a !! id with
      | Some {| vi_LinodeID := Some _ |} => (None, alter (set_LinodeID None) id a)
      | Some _ => (Some refused, a)
      | None => (Some not_found, a)
      end
  | Client.WaitForVolumeLinodeID id l _ =>
      (match a !! id with
       | Some i => if decide (vi_LinodeID i = l) then found a id else inl refused
       | None => inl not_found
       end, a)
  | Client.DeleteVolume id =>
      match a !! id with
      | Some {| vi_LinodeID := None |} => (None, delete id a)
      | _ => (Some refused, a)
      end
  | Client.ResizeVolume id size =>
      match a !! id with
      | Some i => if vi_Size i <=? size then (None, alter (set_Size size) id a) else (Some refused, a)
      | None => (Some not_found, a)
      end
  end.

Definition memory_env (c : cmd) (a : Account) : resp c * Account :=
  match c return resp c * Account with
  | Api q => memory_api q a
  | c => (ex_world c, a)
  end.

Lemma found_answers a id : answers_volume a id (found a id).
Proof.
  unfold found. destruct (a !! id) as [i|] eqn:Hi; [|done].
  destruct (String.eqb_spec (vi_Path i) ""); [done|]. cbn. split; [done|]. exists i. by split_and!.
Qed.

Lemma found_missing a id e : found a id = inl e -> ae_IsNotFound e = true -> a !! id = None.
Proof.
  unfold found. destruct (a !! id) as [i|]; [|done].
  destruct (String.eqb _ _); [|done]. by intros [= <-].
Qed.

Lemma add_documented i a :
  vi_LinodeID i = None -> vi_Path i <> "" ->
  ((add i a).2 = a /\ is_inl (add i a).1 = true) \/
  exists id, fresh_volume a id i /\ (add i a).2 = <[id := i]> a /\ answers_volume (add i a).2 id (add i a).1.
Proof.
  intros Hl Hp. unfold add. case_if; [right|by left]. exists (last_id a + 1).
  pose proof (last_id_nonneg a). zify_bool. split_and!; [|done|].
  - split_and!; try done; [|lia].
    destruct (a !! (last_id a + 1)) as [j|] eqn:Hj; [|done]. apply last_id_le in Hj. lia.
  - cbn. split; [done|]. exists i. split_and!; try done. apply lookup_insert_eq.
Qed.

Lemma volumes_of_in a P v :
  v ∈ volumes_of a P <-> exists id i, v = as_volume id i /\ a !! id = Some i /\ P i = true.
Proof.
  unfold volumes_of. rewrite list_elem_of_fmap. split.
  - intros ([id i] & -> & H%elem_of_map_to_list). apply map_lookup_filter_Some in H. eauto.
  - intros (id & i & -> & H). exists (id, i). split; [done|].
    by apply elem_of_map_to_list, map_lookup_filter_Some.
Qed.

Lemma volumes_of_NoDup a P : NoDup (v_ID <$> volumes_of a P).
Proof.
  unfold volumes_of. rewrite <- list_fmap_compose.
  apply (NoDup_fst_map_to_list (filter (fun kv : Z * VolInfo => P kv.2 = true) a)).
Qed.

Lemma volumes_of_attached a l :
  length (volumes_of a (fun i => bool_decide (vi_LinodeID i = Some l))) = attached_to l a.
Proof.
  unfold volumes_of, attached_to. rewrite length_fmap, length_map_to_list. f_equal. apply map_filter_ext. intros id i _. cbn. by rewrite bool_decide_eq_true.
Qed.

Lemma paths_ok_lookup a id i : paths_ok a = true -> a !! id = Some i -> vi_Path i <> "".
Proof.
  unfold paths_ok. rewrite forallb_forall. intros H Hi%elem_of_map_to_list%list_elem_of_In.
  by apply H, negb_true_iff, String.eqb_neq in Hi.
Qed.

Lemma listed_label a label :
  paths_ok a = true ->
  let vs := volumes_of a (listed_by (label_filter label)) in
  Forall (fun v => exists i, shows a v i) vs /\
  forall id, id ∈ (v_ID <$> vs) <-> has_label a label id.
Proof.
  intros Hp vs. split.
  - apply Forall_forall. intros v (id & i & -> & Hi & _)%list_elem_of_In%volumes_of_in.
    exists i. split_and!; try done. by eapply paths_ok_lookup.
  - intros id. rewrite list_elem_of_fmap. split.
    + intros (v & -> & (id' & i & -> & Hi & Hl)%volumes_of_in). exists i. split; [done|].
      by apply String.eqb_eq in Hl.
    + intros (i & Hi & <-). exists (as_volume id i). split; [done|]. apply volumes_of_in.
      do 2 eexists. split; [done|]. split; [done|]. apply String.eqb_refl.
Qed.

Lemma memory_documented c a : documented instances c a (memory_env c a).1 (memory_env c a).2.
Proof.
  destruct c as [q|?|?|?|?|?|?|?| | |]; try done.
  destruct q as [opts|l|l|reg|l|id|o|src label|id o|id|id l t|id st t|id|id size];
    cbn [memory_env memory_api documented fst snd]; try (split; [done|]).
  - intros vs label Hvs ->. destruct (paths_ok a) eqn:Hp; [|done]. injection Hvs as <-.
    split; [apply volumes_of_NoDup|by apply listed_label].
  - apply volumes_of_attached.
  - destruct (instances !! l) as [inst|]; [|done]. case_if; [|done]. zify_bool.
    rewrite length_replicate. split; [|by exists inst].
    unfold is_int64, min_int64. lia.
  - done.
  - destruct (instances !! l) as [inst|]; [by eexists|done].
  - split; [apply found_answers|]. destruct (found a id) as [e|] eqn:E; [|done]. by apply found_missing.
  - destruct (valid_label (co_Label o)); [|by left].
    match goal with |- context [add ?i a] =>
      destruct (add_documented i a) as [H|(id & H)]; [done|apply path_of_nonempty|by left|right; exists id, i] end.
    by destruct H as (? & ? & ?); split_and!.
  - destruct (a !! src) as [j|] eqn:Hj; [|by left]. destruct (valid_label label); [|by left].
    destruct (add_documented (clone_of label j) a) as [H|(id & H)]; [done|apply path_of_nonempty|by left|right].
    exists id, (clone_of label j), j. by destruct H as (? & ? & ?); split_and!.
  - destruct (a !! id) as [[? ? ? ? [?|] ?]|]; cbn; [by split; [right|]| |by split; [right|]].
    split; [by left|apply found_answers].
  - destruct (a !! id) as [[? ? ? ? [?|] ?]|]; cbn; split; try done; by (left + right).
  - destruct (a !! id) as [i|] eqn:Hi; [|done]. case_decide as Hl; [|done]. split; [apply found_answers|].
    unfold found. rewrite Hi. by destruct (String.eqb _ _).
  - apply found_answers.
  - destruct (a !! id) as [[? ? ? ? [?|] ?]|]; cbn; by (left + right).
  - destruct (a !! id) as [i|]; [case_if|]; cbn; by (left + right).
Qed.

#[export] Instance memory_LinodeApi : LinodeApi instances Account :=
  { la_env := memory_env; la_account := fun a => a; la_documented := memory_documented }.

(** Every call the API documents to succeed does, as long as the volumes have
    paths and the instances a number of disks that fits an int. *)
Lemma found_ok (a : Account) id : paths_ok a = true -> is_Some (a !! id) -> is_inl (found a id) = false.
Proof.
  intros Hp [i Hi]. unfold found. rewrite Hi.
  by rewrite (proj2 (String.eqb_neq _ _) (paths_ok_lookup _ _ _ Hp Hi)).
Qed.

Lemma add_ok i a : ids_left a -> is_inl (add i a).1 = false.
Proof.
  intros Hids. unfold add. case_if; [done|]. zify_bool.
  destruct (last_id_used a) as [E|H]; [rewrite E in *; unfold max_int64 in *; lia|].
  specialize (Hids _ H). lia.
Qed.

Lemma paths_ok_alter a f id :
  (forall i, vi_Path (f i) = vi_Path i) -> paths_ok a = true -> paths_ok (alter f id a) = true.
Proof.
  intros Hf Hp. unfold paths_ok. apply forallb_forall. intros [k v] H%list_elem_of_In%elem_of_map_to_list.
  apply negb_true_iff, String.eqb_neq. cbn.
  apply lookup_alter_Some in H as [(<- & x & Hx & ->)|[_ H]]; [rewrite Hf|]; by eapply paths_ok_lookup.
Qed.

Lemma memory_succeeds c a :
  paths_ok a = true -> (forall l inst, instances !! l = Some inst -> Z.of_nat (ii_Disks inst) <= max_int64) ->
  succeeds instances c a (memory_env c a).1.
Proof.
  intros Hp Hd. destruct c as [q|?|?|?|?|?|?|?| | |]; try done.
  destruct q as [opts|l|l|reg|l|id|o|src label|id o|id|id l t|id st t|id|id size];
    cbn [memory_env memory_api succeeds fst snd].
  - by rewrite Hp.
  - done.
  - intros [inst Hi]. rewrite Hi, (proj2 (Z.leb_le _ _) (Hd _ _ Hi)). done.
  - eexists. split; [done|]. constructor.
  - intros [inst ->]. done.
  - split; [by apply found_ok|]. unfold found. intros ->. by eexists.
  - intros Hids ->. by apply add_ok.
  - intros H [j ->] ->. by apply add_ok.
  - intros [i Hi]. rewrite Hi. intros [= Hl]. destruct i; cbn in *; subst.
    apply found_ok; [by apply paths_ok_alter|]. rewrite lookup_alter_eq, Hi. by eexists.
  - intros i -> Hl. by destruct i as [? ? ? ? [?|] ?].
  - destruct (a !! id) as [i|] eqn:Hi; [|done]. intros [= <-]. rewrite decide_True by done.
    apply found_ok; [done|by eexists].
  - by apply found_ok.
  - destruct (a !! id) as [[? ? ? ? [?|] ?]|]; by cbn.
  - intros i -> Hs. by rewrite (proj2 (Z.leb_le _ _) Hs).
Qed.
End Memory.

(** * The life of a volume, computed *)

Definition ex_create : CreateVolumeRequest :=
  {| cv_Name := "pvc-2"; cv_CapacityRange := Some {| RequiredBytes := 10 * 2 ^ 30; LimitBytes := 0 |};
     cv_VolumeCapabilities := [Some ex_capability]; cv_Parameters := ∅;
     cv_VolumeContentSource := None; cv_AccessibilityRequirements := None |}.

(** An account with another volume, attached to the instance. *)
Definition ex_before : Account := {[7 := ex_info (Some 42)]}.

Lemma ex_room : room ex_instances ex_before 42.
Proof.
  exists {| ii_Label := "node"; ii_Region := "us-east"; ii_Specs := {| Memory := 4096 |}; ii_Disks := 1 |}.
  split; [reflexivity|]. vm_compute. split; [reflexivity|discriminate].
Qed.

Lemma lifecycle_completes_witness :
  (let '(_, o, a') := run (memory_env ex_instances) (lifecycle ex_cs ex_create "42" ex_capability) ex_before in
   (match o with Done (inr (v, ctx)) => csi_VolumeId v = "8-pvc-2" | _ => False end) /\ a' = ex_before) /\
  swp (reliable ex_instances) (lifecycle ex_cs ex_create "42" ex_capability)
    (fun a' o => exists v path, o = Done (inr (v, {[devicePathKey := path]})) /\ path <> "" /\
       csi_CapacityBytes v = 10 * 2 ^ 30 /\ a' = ex_before) ex_before.
Proof.
  split; [vm_compute; split; reflexivity|].
  apply (lifecycle_completes ex_instances ex_cs ex_create "42" ex_capability (10 * 2 ^ 30) 42 None).
  - split; reflexivity.
  - unfold ex_before. intros id [i [<- _]%lookup_singleton_Some]. reflexivity.
  - reflexivity.
  - reflexivity.
  - unfold ex_before. intros id (i & [<- <-]%lookup_singleton_Some & H). vm_compute in H. discriminate H.
  - intros caller. reflexivity.
  - reflexivity.
  - apply ex_room.
Defined.
