(* ===== verification/DeviceManager.v ===== *)
(** pkg/device-manager/device.go: the names a Linode volume's device may have
    under /dev/disk/by-id, and the search for one that exists.

    [DeviceUtils] is the Go interface the node server is written against, and
    [DeviceUtilsLaws] what the node server relies on; [deviceUtils] implements
    both. *)
From S2P Require Import Prelude GoStrings Types Errors Metrics Effects.

Definition diskByIdPath : string := "/dev/disk/by-id/".
Definition diskLinodePrefix : string := "linode-".
Definition diskScsiLinodePrefix : string := "scsi-0Linode_Volume_".
Definition diskPartitionSuffix : string := "-part".
Definition diskSDPath : string := "/dev/sd".
Definition diskSDPattern : string := "/dev/sd*".

(** * The interface *)

Class DeviceUtils := {
  GetDiskByIdPaths : string -> string -> list string;
  VerifyDevicePath : list string -> eprog string;
}.

(** The calls a search for a device may make: none of them changes a disk. *)
Definition device_call (c : cmd) : bool :=
  match c with
  | Fs (FS.Glob _ | FS.EvalSymlinks _ | FS.Stat _) => true
  | Exec (Executor.CombinedOutput "udevadm" _) => true
  | _ => false
  end.

(** What the answer of [VerifyDevicePath] says of the paths. *)
Definition verified (paths : list string) (tr : trace) (r : goerror + string) : Prop :=
  match r with
  | inr path =>
      path = "" \/ (path ∈ paths /\ Event (Fs (FS.Stat path)) None ∈ tr)
  | inl _ => True
  end.

(** The file system answers [Stat] by [stat]. *)
Definition stat_law (stat : string -> option OsError) : env_law := fun _ c =>
  match c return resp c -> Prop with
  | Fs f => match f return FS.answer f -> Prop with
            | FS.Stat p => fun r => r = stat p
            | _ => fun _ => True
            end
  | _ => fun _ => True
  end.

(** The first path that is not missing, on a file system that does not change
    meanwhile. *)
Definition missing (r : option OsError) : bool :=
  match r with Some err => oe_IsNotExist err | None => false end.

Definition search (stat : string -> option OsError) (paths : list string) : goerror + string :=
  match List.find (fun p => negb (missing (stat p))) paths with
  | None => inr ""
  | Some p => match stat p with
              | None => inr p
              | Some err => inl (EErrorf "error checking if path exists: %w" [AErr (EOs err)])
              end
  end.

Class DeviceUtilsLaws (D : DeviceUtils) : Prop := {
  (** A search makes only [device_call]s, returns, and a path that it returns was
      among the paths given and exists. *)
  VerifyDevicePath_spec law guard paths Q tr :
    (forall tr c, device_call c = true -> guard tr c) ->
    (forall tr' r, Forall (fun e => device_call (event_cmd e) = true) tr' ->
       verified paths tr' r -> Q (tr ++ tr') (Done r)) ->
    wp law guard (VerifyDevicePath paths) Q tr;
  (** It is the search for the first path that is not missing. *)
  VerifyDevicePath_search stat paths tr :
    wp (stat_law stat) (fun _ c => device_call c = true) (VerifyDevicePath paths)
      (fun _ o => o = Done (search stat paths)) tr;
}.

(** * The implementation *)

Module deviceUtils.
Definition GetDiskByIdPaths (deviceName partition : string) : list string :=
  let devicePaths := [
    Join2 diskByIdPath (diskLinodePrefix +:+ deviceName);
    Join2 diskByIdPath (diskScsiLinodePrefix +:+ deviceName)
  ] in
  if negb (String.eqb partition "")
  then map (fun devicePath => devicePath +:+ diskPartitionSuffix +:+ partition) devicePaths
  else devicePaths.

Definition pathExists (devicePath : string) : eprog bool :=
  let* err := call (Fs (FS.Stat devicePath)) in
  match err with
  | None => ok true
  | Some err => if oe_IsNotExist err then ok false else throw (EOs err)
  end.

(** The result is the error, if any. *)
Definition udevadmChangeToDrive (drivePath : string) : prog (option goerror) :=
  let? drive := call (Fs (FS.EvalSymlinks drivePath))
    else fun err => Ret (Some (EErrorf "eval symlinks %q: %w" [AStr drivePath; AErr (EOs err)])) in
  if negb (Contains drive diskSDPath) then
    Ret (Some (EErrorf "invalid disk %q: path must start with %q" [AStr drive; AStr diskSDPattern]))
  else
    let* err := call (Exec (Executor.CombinedOutput "udevadm"
      ["trigger"; "--action=change"; "--property-match=DEVNAME=" +:+ drive])) in
    Ret (match err with
         | Some err => Some (EErrorf "udevadm trigger failed for %q: %w" [AStr drive; AErr (EExec err)])
         | None => None
         end).

Fixpoint change_first_new (sdBeforeSet : gset string) (sdAfter : list string) : prog (option goerror) :=
  match sdAfter with
  | [] => Ret None
  | sd :: sdAfter =>
      if negb (bool_decide (sd ∈ sdBeforeSet)) then udevadmChangeToDrive sd
      else change_first_new sdBeforeSet sdAfter
  end.

Definition udevadmChangeToNewDrives (sdBeforeSet : gset string) : prog (option goerror) :=
  let? sdAfter := call (Fs (FS.Glob diskSDPattern))
    else fun err => Ret (Some (EErrorf ("error filepath.Glob(" +:+ dquote +:+ "%s" +:+ dquote +:+ "): %w")
                                 [AStr diskSDPattern; AErr (EOs err)])) in
  change_first_new sdBeforeSet sdAfter.

Fixpoint first_existing (devicePaths : list string) : eprog string :=
  match devicePaths with
  | [] => ok ""
  | devicePath :: devicePaths =>
      let? exists_ := pathExists devicePath
        else fun err => throw (EErrorf "error checking if path exists: %w" [AErr err]) in
      if exists_ then ok devicePath else first_existing devicePaths
  end.

(** [Glob] returns no names with an error; errors of udevadm are only logged. *)
Definition VerifyDevicePath (devicePaths : list string) : eprog string :=
  let* sdBefore := call (Fs (FS.Glob diskSDPattern)) in
  let sdBeforeSet := list_to_set (match sdBefore with inr l => l | inl _ => [] end) in
  let* _ := udevadmChangeToNewDrives sdBeforeSet in
  first_existing devicePaths.
End deviceUtils.

#[export] Instance NewDeviceUtils : DeviceUtils := {
  GetDiskByIdPaths := deviceUtils.GetDiskByIdPaths;
  VerifyDevicePath := deviceUtils.VerifyDevicePath;
}.

#[export] Hint Unfold deviceUtils.pathExists deviceUtils.udevadmChangeToDrive
  deviceUtils.udevadmChangeToNewDrives deviceUtils.VerifyDevicePath : prog.

(** * Proofs *)

Section Search.
Context (law : env_law) (guard : call_guard).

Lemma wp_first_existing paths Q tr :
  (forall tr p, guard tr (Fs (FS.Stat p))) ->
  (forall tr' r, Forall (fun e => device_call (event_cmd e) = true) tr' ->
     verified paths tr' r -> Q (tr ++ tr') (Done r)) ->
  wp law guard (deviceUtils.first_existing paths) Q tr.
Proof.
  intros Hg. revert tr. induction paths as [|p paths IH]; intros tr HQ;
    cbn [deviceUtils.first_existing].
  - change (Q tr (Done (inr ""))). rewrite <- (app_nil_r tr). apply HQ; [done|by left].
  - wp_unfold. wp_simpl. split; [apply Hg|]. intros r _. wp_simpl.
    destruct r as [err|]; [destruct (oe_IsNotExist err)|]; wp_simpl.
    + apply IH. intros tr' r Ht Hr. rewrite <- app_assoc. apply HQ; [by constructor|].
      destruct r as [|path]; [done|]. destruct Hr as [->|[? ?]]; [by left|right].
      split; by apply list_elem_of_further.
    + cbn [wp]. apply HQ; [by repeat constructor|done].
    + cbn [wp]. apply HQ; [by repeat constructor|right]. split; apply list_elem_of_here.
Qed.
End Search.

Lemma wp_first_existing_search stat guard paths tr :
  (forall tr p, guard tr (Fs (FS.Stat p))) ->
  wp (stat_law stat) guard (deviceUtils.first_existing paths) (fun _ o => o = Done (search stat paths)) tr.
Proof.
  intros Hg. unfold search. revert tr. induction paths as [|p paths IH]; intros tr;
    cbn [deviceUtils.first_existing List.find]; [done|].
  wp_unfold. wp_simpl. split; [apply Hg|]. intros r Hr. cbn [stat_law] in Hr. subst r.
  destruct (stat p) as [err|] eqn:Hs; cbn [missing negb].
  - destruct (oe_IsNotExist err); wp_simpl; [apply IH|]. cbn [wp negb]. by rewrite Hs.
  - cbn [wp bind]. by rewrite Hs.
Qed.

(** udev is triggered for one drive that the second listing shows and the first
    does not, whose resolved name contains /dev/sd. *)
Definition udev_guard : call_guard := fun tr c =>
  match c with
  | Exec (Executor.CombinedOutput cmd args) =>
      exists before after sd drive,
        tr = [Event (Fs (FS.Glob diskSDPattern)) before;
              Event (Fs (FS.Glob diskSDPattern)) (inr after);
              Event (Fs (FS.EvalSymlinks sd)) (inr drive)] /\
        sd ∈ after /\ (forall l, before = inr l -> sd ∉ l) /\
        Contains drive "/dev/sd" = true /\
        cmd = "udevadm" /\
        args = ["trigger"; "--action=change"; "--property-match=DEVNAME=" +:+ drive]
  | Fs (FS.Glob _ | FS.EvalSymlinks _ | FS.Stat _) => True
  | _ => False
  end.

Section Udev.
Context (law : env_law) (guard : call_guard).

(** A new drive is handled by [P], or there is none. *)
Lemma wp_change_first_new S sds Q tr :
  (forall sd, sd ∈ sds -> sd ∉ S -> wp law guard (deviceUtils.udevadmChangeToDrive sd) Q tr) ->
  Q tr (Done None) ->
  wp law guard (deviceUtils.change_first_new S sds) Q tr.
Proof.
  intros HP HQ. induction sds as [|sd sds IH]; cbn [deviceUtils.change_first_new]; [exact HQ|].
  case_bool_decide as Hsd; cbn [negb].
  - apply IH. intros sd' Hin. apply HP. by apply list_elem_of_further.
  - apply HP; [apply list_elem_of_here|done].
Qed.

Lemma wp_udevadmChangeToNewDrives S Q tr :
  (forall tr c, device_call c = true -> guard tr c) ->
  (forall tr' o, Forall (fun e => device_call (event_cmd e) = true) tr' -> Q (tr ++ tr') (Done o)) ->
  wp law guard (deviceUtils.udevadmChangeToNewDrives S) Q tr.
Proof.
  intros Hg HQ. unfold deviceUtils.udevadmChangeToNewDrives. wp_unfold. wp_simpl.
  split; [by apply Hg|]. intros [err|sds] _; wp_simpl; [apply HQ; by repeat constructor|].
  apply wp_change_first_new; [|apply HQ; by repeat constructor]. intros sd _ _.
  wp_unfold. wp_run; try (by apply Hg); rewrite <- ?app_assoc; apply HQ; by repeat constructor.
Qed.
End Udev.

#[export] Instance NewDeviceUtils_laws : DeviceUtilsLaws NewDeviceUtils.
Proof.
  constructor.
  2:{ intros stat paths tr. cbn [VerifyDevicePath NewDeviceUtils].
      unfold deviceUtils.VerifyDevicePath, call. wp_simpl. split; [done|]. intros r _. wp_simpl.
      apply wp_bind, wp_udevadmChangeToNewDrives; [done|]. intros tr' o _. by apply wp_first_existing_search. }
  intros law guard paths Q tr Hg HQ. cbn [VerifyDevicePath NewDeviceUtils].
  unfold deviceUtils.VerifyDevicePath, call. wp_simpl. split; [by apply Hg|]. intros r _. wp_simpl.
  apply wp_bind, wp_udevadmChangeToNewDrives; [done|]. intros tr1 o Ht1.
  apply wp_first_existing; [intros; by apply Hg|]. intros tr2 r2 Ht2 Hr.
  rewrite <- !app_assoc. apply HQ.
  - rewrite !Forall_app. split_and!; [by repeat constructor|done..].
  - destruct r2 as [|path]; [done|]. destruct Hr as [->|[? ?]]; [by left|right].
    split; [done|]. rewrite !elem_of_app. auto.
Qed.

(** * Properties *)

(** C33. [VerifyDevicePath] is a search for the first path that is not missing: it
    returns that path when it exists, the empty string when every path is missing,
    and an error when the path can be neither found nor excluded; whatever globbing,
    resolving links and udev answer has no effect on the result.  The only command
    it runs is "udevadm trigger", at most once, for a drive that appeared between
    two listings of /dev/sd* and that resolves to a name with /dev/sd in it. *)
Theorem verify_device_path (stat : string -> option OsError) (paths : list string) :
  wp (stat_law stat) udev_guard (deviceUtils.VerifyDevicePath paths)
     (fun _ o => o = Done (search stat paths)) [].
Proof.
  unfold deviceUtils.VerifyDevicePath, deviceUtils.udevadmChangeToNewDrives. wp_unfold. wp_simpl.
  split; [done|]. intros before _. wp_simpl. split; [done|]. intros [err|after] _; wp_simpl.
  { by apply wp_first_existing_search. }
  apply wp_bind, wp_change_first_new; [|by apply wp_first_existing_search].
  intros sd Hsd Hnew. wp_unfold. wp_run; try done; try by apply wp_first_existing_search.
  do 4 eexists. split_and!; try done; [|by apply negb_false_iff].
  intros l -> Hl. apply Hnew. by apply elem_of_list_to_set.
Qed.

Lemma Join2_by_id w :
  str_forall (fun a => negb (Ascii.eqb a "/")) w = true -> w <> "" -> w <> "." -> w <> ".." ->
  Join2 diskByIdPath w = "/dev/disk/by-id/" +:+ w.
Proof.
  intros Hw H0 H1 H2. unfold Join2.
  rewrite !filter_cons_True, filter_nil by done. unfold Clean. cbn [str_join].
  change (diskByIdPath +:+ "/" +:+ w) with
    ("" +:+ String "/" ("dev" +:+ String "/" ("disk" +:+ String "/"
      ("by-id" +:+ String "/" ("" +:+ String "/" w))))).
  rewrite !Split_cons, Split_none by done. cbn [foldl].
  assert (forall l, clean_step true l w = w :: l) as ->.
  { intros l. unfold clean_step. by rewrite !(proj2 (String.eqb_neq _ _)). }
  done.
Qed.

Lemma by_id_names label partition :
  str_forall (fun a => negb (Ascii.eqb a "/")) label = true ->
  deviceUtils.GetDiskByIdPaths label partition =
    (let suffix := if String.eqb partition "" then "" else "-part" +:+ partition in
     ["/dev/disk/by-id/linode-" +:+ label +:+ suffix;
      "/dev/disk/by-id/scsi-0Linode_Volume_" +:+ label +:+ suffix]).
Proof.
  intros Hlabel. unfold deviceUtils.GetDiskByIdPaths.
  unfold diskLinodePrefix, diskScsiLinodePrefix.
  rewrite !Join2_by_id by
    (rewrite ?str_forall_app, ?Hlabel; reflexivity || (rewrite !str_app_cons; discriminate)).
  cbv zeta. destruct (String.eqb partition ""); cbn [negb map]; rewrite ?str_app_nil_r; [done|].
  by rewrite !str_app_assoc.
Qed.

(** A volume whose label has no slash is looked for at exactly two names under
    /dev/disk/by-id, followed by the partition if one is given; a label with
    slashes can lead outside of that directory. *)
Theorem disk_by_id_paths (label partition : string)
  (Hlabel : str_forall (fun a => negb (Ascii.eqb a "/")) label = true) :
  deviceUtils.GetDiskByIdPaths label partition =
    (let suffix := if String.eqb partition "" then "" else "-part" +:+ partition in
     ["/dev/disk/by-id/linode-" +:+ label +:+ suffix;
      "/dev/disk/by-id/scsi-0Linode_Volume_" +:+ label +:+ suffix]) /\
  deviceUtils.GetDiskByIdPaths "x/../../../sda" "" = ["/dev/sda"; "/dev/sda"].
Proof. split; [by apply by_id_names|reflexivity]. Qed.

Lemma disk_by_id_paths_witness :
  deviceUtils.GetDiskByIdPaths "pvc-123" "1" =
  ["/dev/disk/by-id/linode-pvc-123-part1"; "/dev/disk/by-id/scsi-0Linode_Volume_pvc-123-part1"].
Proof. apply (proj1 (disk_by_id_paths "pvc-123" "1" eq_refl)). Defined.
