(* ===== verification/Luks.v ===== *)
(** internal/driver/luks.go and pkg/cryptsetup-client/cryptsetup_client.go:
    formatting, opening and closing LUKS devices.  The [Encryption] object only
    holds the executor, the file system and the cryptsetup client, which are the
    environment of the programs. *)
From S2P Require Import Prelude GoStrings Types Errors Metrics Effects Config.

(** * cryptsetup_client.go *)

Module CryptSetup.
Definition Init (devicePath : string) : eprog Device :=
  let? device := call (Crypt (Cryptsetup.Init devicePath))
    else fun err => throw (EErrorf "init cryptsetup by device path %q: %w"
                             [AStr devicePath; AErr (ECrypt err)]) in
  ok device.

Definition InitByName (name : string) : eprog Device :=
  let? device := call (Crypt (Cryptsetup.InitByName name))
    else fun err => throw (EErrorf "init cryptsetup by name %q: %w"
                             [AStr name; AErr (ECrypt err)]) in
  ok device.
End CryptSetup.

Record LuksDevice := { Identifier : string; LuksDevice_Device : Device }.

Definition NewLuksDevice (path : string) : eprog LuksDevice :=
  let! dev := CryptSetup.Init path in
  ok {| Identifier := path; LuksDevice_Device := dev |}.

Definition NewLuksDeviceByName (name : string) : eprog LuksDevice :=
  let! dev := CryptSetup.InitByName name in
  ok {| Identifier := name; LuksDevice_Device := dev |}.

(** * luks.go *)

Record LuksContext := {
  EncryptionEnabled : bool;
  EncryptionKey : string;
  EncryptionCipher : string;
  EncryptionKeySize : string;
  VolumeName : string;
  lc_VolumeLifecycle : VolumeLifecycle;
}.

(** The error, if any. *)
Definition validate (ctx : LuksContext) : option goerror :=
  if negb (EncryptionEnabled ctx) then None
  else
    let join (missing : string) (text : string) (err : option goerror) : option goerror :=
      if String.eqb missing "" then Some (errors_Join err (ENew text)) else err in
    let err := join (VolumeName ctx) "no volume name provided" None in
    let err := join (EncryptionKey ctx) "no encryption key provided" err in
    let err := join (EncryptionCipher ctx) "no encryption cipher provided" err in
    join (EncryptionKeySize ctx) "no encryption key size provided" err.

Definition getLuksContext (secrets volContext : gmap string string)
    (lifecycle : VolumeLifecycle) : LuksContext :=
  if negb (String.eqb (map_get volContext LuksEncryptedAttribute) True_) then
    {| EncryptionEnabled := false; EncryptionKey := ""; EncryptionCipher := "";
       EncryptionKeySize := ""; VolumeName := ""; lc_VolumeLifecycle := lifecycle |}
  else
    {| EncryptionEnabled := true;
       EncryptionKey := map_get secrets LuksKeyAttribute;
       EncryptionCipher := map_get volContext LuksCipherAttribute;
       EncryptionKeySize := map_get volContext LuksKeySizeAttribute;
       VolumeName := map_get volContext PublishInfoVolumeName;
       lc_VolumeLifecycle := lifecycle |}.

(** Indexing a slice panics when it is too short. *)
Definition index {A} (l : list A) (i : nat) : prog A :=
  match l !! i with Some a => Ret a | None => Panic IndexOutOfRange end.

(** [cryptsetup.LUKS2{SectorSize: 512}]. *)
Definition luks2_SectorSize : Z := 512.

Definition luksFormat (luksCtx : LuksContext) (source : string) : eprog string :=
  let devicePath := "/dev/mapper/" +:+ VolumeName luksCtx in
  match Atoi (EncryptionKeySize luksCtx) with
  | inl err => throw (EErrorf "keysize str to int coversion: %w"
                        [AErr (ENum (EncryptionKeySize luksCtx) err)])
  | inr keySize =>
      let cipherString := SplitN2 (EncryptionCipher luksCtx) "-" in
      let* cipher := index cipherString 0 in
      let* cipherMode := index cipherString 1 in
      let genericParams := {|
        Cipher := cipher;
        CipherMode := cipherMode;
        VolumeKey := EncryptionKey luksCtx;
        VolumeKeySize := Z.quot keySize 8
      |} in
      let? newLuksDevice := NewLuksDevice source
        else fun err => throw (EErrorf "initializing luks device to format: %w" [AErr err]) in
      let dev := LuksDevice_Device newLuksDevice in
      let* err := call (Crypt (Cryptsetup.Format dev luks2_SectorSize genericParams)) in
      match err with
      | Some err => throw (EErrorf "formatting luks device: %w" [AErr (ECrypt err)])
      | None =>
          let* err := call (Crypt (Cryptsetup.KeyslotAddByVolumeKey dev 0 "" (EncryptionKey luksCtx))) in
          match err with
          | Some err => throw (EErrorf "adding keysot by volumekey: %w" [AErr (ECrypt err)])
          | None =>
              finally (
                let* err := call (Crypt (Cryptsetup.ActivateByPassphrase dev
                  (VolumeName luksCtx) 0 (EncryptionKey luksCtx) 0)) in
                match err with
                | Some err =>
                    throw (EErrorf "activating %s luks device %s volumekey %s: %w"
                      [AStr (Identifier newLuksDevice); AStr (VolumeName luksCtx);
                       AStr (EncryptionKey luksCtx); AErr (ECrypt err)])
                | None => ok devicePath
                end)
              (Crypt (Cryptsetup.Free dev))
          end
      end
  end.

Definition luksOpen (luksCtx : LuksContext) (source : string) : eprog string :=
  let? newLuksDevice := NewLuksDevice source
    else fun err => throw (EErrorf "initializing luks device to open: %w" [AErr err]) in
  let dev := LuksDevice_Device newLuksDevice in
  finally (
    let* err := call (Crypt (Cryptsetup.Load dev luks2_SectorSize)) in
    match err with
    | Some err =>
        throw (EErrorf "Loading %s luks device %s volumekey %s: %w"
          [AStr (Identifier newLuksDevice); AStr (VolumeName luksCtx);
           AStr (EncryptionKey luksCtx); AErr (ECrypt err)])
    | None =>
        let* err := call (Crypt (Cryptsetup.ActivateByPassphrase dev
          (VolumeName luksCtx) 0 (EncryptionKey luksCtx) 0)) in
        match err with
        | Some err =>
            if match ye_Code err with Some code => code =? -17 | None => false end
            then ok ("/dev/mapper/" +:+ VolumeName luksCtx)
            else throw (EErrorf "activating %s luks device %s volumekey %s: %w"
              [AStr (Identifier newLuksDevice); AStr (VolumeName luksCtx);
               AStr (EncryptionKey luksCtx); AErr (ECrypt err)])
        | None => ok ("/dev/mapper/" +:+ VolumeName luksCtx)
        end
    end)
  (Crypt (Cryptsetup.Free dev)).

(** The error, if any. *)
Definition luksClose (volumeName : string) : prog (option goerror) :=
  let? newLuksDeviceByName := NewLuksDeviceByName volumeName else fun _ => Ret None in
  let dev := LuksDevice_Device newLuksDeviceByName in
  let* err := call (Crypt (Cryptsetup.Deactivate dev volumeName)) in
  match err with
  | Some err => Ret (Some (EErrorf "deactivating %s luks device: %w"
                             [AStr volumeName; AErr (ECrypt err)]))
  | None =>
      let* freed := call (Crypt (Cryptsetup.Free dev)) in
      if negb freed then Ret (Some (ENew "could not release/free the luks device"))
      else Ret None
  end.

Definition blkidValid (source : string) : eprog bool :=
  if String.eqb source "" then throw (ENew "invalid source")
  else
    let blkidCmd := "blkid" in
    let* err := call (Exec (Executor.LookPath blkidCmd)) in
    match err with
    | Some err =>
        if xe_NotFound err then throw (EErrorf "%q executable invalid" [AStr blkidCmd])
        else throw (EExec err)
    | None =>
        let blkidArgs := [source] in
        let* err := call (Exec (Executor.CmdRun blkidCmd blkidArgs)) in
        match err with
        | Some err =>
            match xe_ExitStatus err with
            | None => throw (EErrorf "checking blkdid failed: %w cmd: %q, args: %q"
                               [AErr (EExec err); AStr blkidCmd; AStrs blkidArgs])
            | Some exitCode =>
                if exitCode =? 2 then ok false else throw (ENew "checking blkdid failed")
            end
        | None => ok true
        end
    end.

#[export] Hint Unfold CryptSetup.Init CryptSetup.InitByName NewLuksDevice NewLuksDeviceByName
  luksFormat luksOpen luksClose blkidValid : prog.
