(* ===== verification/NodeServer.v ===== *)
(** internal/driver/nodeserver.go, nodeserver_helpers.go, nodeserver_all.go and
    nodeserver_windows.go: the Node service.  The file system, the mounter, commands, cryptsetup and the
    Linode client are the environment of the programs; the device utilities are
    an interface. *)
From S2P Require Import Prelude GoStrings Types Errors Metrics Effects LinodeVolumes Sizes Config.
From S2P Require Import DeviceManager Luks.

(** * nodeserver_helpers.go *)

Definition defaultFSType : string := "ext4".
Definition rwPermission : Z := 493.                     (* 0o755 *)
Definition ownerGroupReadWritePermissions : Z := 432.   (* 0o660 *)
(** [os.O_CREATE]. *)
Definition O_CREATE : Z := 64.

(** The validators return the error, if any. *)
Definition validateNodeStageVolumeRequest (req : NodeStageVolumeRequest) : option goerror :=
  if String.eqb (ns_VolumeId req) "" then Some errNoVolumeID
  else if String.eqb (ns_StagingTargetPath req) "" then Some errNoStagingTargetPath
  else if negb (bool_decide (is_Some (ns_VolumeCapability req))) then Some errNoVolumeCapability
  else None.

Definition validateNodeUnstageVolumeRequest (req : NodeUnstageVolumeRequest) : option goerror :=
  if String.eqb (nu_VolumeId req) "" then Some errNoVolumeID
  else if String.eqb (nu_StagingTargetPath req) "" then Some errNoStagingTargetPath
  else None.

Definition validateNodeExpandVolumeRequest (req : NodeExpandVolumeRequest) : option goerror :=
  if String.eqb (ne_VolumeId req) "" then Some errNoVolumeID
  else if String.eqb (ne_VolumePath req) "" then Some errNoVolumePath
  else None.

Definition validateNodePublishVolumeRequest (req : NodePublishVolumeRequest) : option goerror :=
  if String.eqb (np_VolumeId req) "" then Some errNoVolumeID
  else if String.eqb (np_StagingTargetPath req) "" then Some errNoStagingTargetPath
  else if String.eqb (np_TargetPath req) "" then Some errNoTargetPath
  else if negb (bool_decide (is_Some (np_VolumeCapability req))) then Some errNoVolumeCapability
  else None.

Definition validateNodeUnpublishVolumeRequest (req : NodeUnpublishVolumeRequest) : option goerror :=
  if String.eqb (nup_VolumeId req) "" then Some errNoVolumeID
  else if String.eqb (nup_TargetPath req) "" then Some errNoTargetPath
  else None.

(** Mount options are a slice, nil or empty alike. *)
Definition getFSTypeAndMountOptions (volumeCapability : option VolumeCapability)
    : string * list string :=
  let '(fsType, mountOptions) :=
    match GetMount volumeCapability with
    | Some mnt =>
        (if negb (String.eqb (FsType mnt) "") then FsType mnt else defaultFSType,
         match MountFlags mnt with Some flags => flags | None => [] end)
    | None => (defaultFSType, [])
    end in
  (fsType, if String.eqb fsType "xfs" then mountOptions ++ ["nouuid"] else mountOptions).

Section FindDevicePath.
Context {deviceutils : DeviceUtils}.

Definition findDevicePath (key : LinodeVolumeKey) (partition : string) : eprog string :=
  let deviceName := GetNormalizedLabel key in
  let devicePaths := GetDiskByIdPaths deviceName partition in
  let? devicePath := VerifyDevicePath devicePaths
    else fun err => throw (errInternal "Error verifying Linode Volume (%q) is attached: %v"
                             [AStr (Label key); AErr err]) in
  if String.eqb devicePath "" then
    throw (errInternal "Unable to find device path out of attempted paths: %v" [AStrs devicePaths])
  else ok devicePath.
End FindDevicePath.

(** The boolean returned next to an error is never used. *)
Definition ensureMountPoint (path : string) : eprog bool :=
  let* answer := call (Mnt (Mounter.IsLikelyNotMountPoint path)) in
  let notMnt := fst answer in
  match snd answer with
  | Some err =>
      if oe_IsNotExist err then
        let* err := call (Fs (FS.MkdirAll path rwPermission)) in
        match err with
        | Some err => throw (errInternal "Failed to create directory (%q): %v" [AStr path; AErr (EOs err)])
        | None => ok notMnt
        end
      else throw (errInternal "Unknown error when checking mount point (%q): %v"
                    [AStr path; AErr (EOs err)])
  | None => ok notMnt
  end.

Definition nodePublishVolumeBlock (req : NodePublishVolumeRequest) (mountOptions : list string)
    : eprog unit :=
  let targetPath := np_TargetPath req in
  let targetPathDir := Dir targetPath in
  let devicePath := map_get (np_PublishContext req) "devicePath" in
  if String.eqb devicePath "" then throw (errInternal "devicePath cannot be found" [])
  else
    let* err := call (Fs (FS.MkdirAll targetPathDir rwPermission)) in
    match err with
    | Some err => throw (errInternal "Failed to create directory %q: %v"
                           [AStr targetPathDir; AErr (EOs err)])
    | None =>
        let? file := call (Fs (FS.OpenFile targetPath O_CREATE ownerGroupReadWritePermissions))
          else fun err =>
            let* removeErr := call (Fs (FS.Remove targetPath)) in
            match removeErr with
            | Some _ => throw (errInternal "Failed remove mount target %q: %v"
                                 [AStr targetPath; AErr (EOs err)])
            | None => throw (errInternal "Failed to create file %s: %v"
                               [AStr targetPath; AErr (EOs err)])
            end in
        finally (
          let* err := call (Mnt (Mounter.Mount devicePath targetPath "" mountOptions)) in
          match err with
          | Some err =>
              let* removeErr := call (Fs (FS.Remove targetPath)) in
              match removeErr with
              | Some removeErr =>
                  throw (errInternal
                    "Failed to mount %q at %q: %v. Additionally, failed to remove mount target: %v"
                    [AStr devicePath; AStr targetPath; AErr (EMount err); AErr (EOs removeErr)])
              | None => throw (errInternal "Failed to mount %q at %q: %v"
                                 [AStr devicePath; AStr targetPath; AErr (EMount err)])
              end
          | None => ok tt
          end)
        (Fs (FS.Close file))
    end.

Definition formatLUKSVolume (devicePath : string) (luksContext : LuksContext) : eprog string :=
  let? formatted := blkidValid devicePath
    else fun err => throw (errInternal "Failed to validate blkid (%q): %v" [AStr devicePath; AErr err]) in
  match validate luksContext with
  | Some err => throw (errInternal "Failed to luks format validation (%q): %v"
                         [AStr devicePath; AErr err])
  | None =>
      if negb formatted then
        let? luksSource := luksFormat luksContext devicePath
          else fun err => throw (errInternal "Failed to luks format (%q): %v"
                                   [AStr devicePath; AErr err]) in
        ok luksSource
      else
        let? luksSource := luksOpen luksContext devicePath
          else fun err => throw (errInternal "Failed to luks open (%q): %v"
                                   [AStr devicePath; AErr err]) in
        ok luksSource
  end.

Definition mountVolume (devicePath : string) (req : NodeStageVolumeRequest) : eprog unit :=
  let stagingTargetPath := ns_StagingTargetPath req in
  let '(fsType, mountOptions) := getFSTypeAndMountOptions (ns_VolumeCapability req) in
  let luksContext := getLuksContext (ns_Secrets req) (ns_VolumeContext req)
                       VolumeLifecycleNodeStageVolume in
  let! fmtAndMountSource :=
    if EncryptionEnabled luksContext then formatLUKSVolume devicePath luksContext
    else ok devicePath in
  let* err := call (Mnt (Mounter.FormatAndMount fmtAndMountSource stagingTargetPath fsType mountOptions)) in
  match err with
  | Some err =>
      throw (errInternal
        "Failed to format and mount device from (%q)---(%q) to (%q) with fstype (%q) and options (%q): %v"
        [AStr fmtAndMountSource; AStr devicePath; AStr stagingTargetPath; AStr fsType;
         AStrs mountOptions; AErr (EMount err)])
  | None => ok tt
  end.

Definition getMountSource (input : string) : goerror + string :=
  match SplitN2 input "-" with
  | [_; result] => inr result
  | _ => inl (EErrorf "invalid input format: %s" [AStr input])
  end.

(** The error, if any. *)
Definition closeLuksMountSource (volumeID : string) : prog (option goerror) :=
  match getMountSource volumeID with
  | inl err => Ret (Some (errInternal "closeLuksMountSource failed to get mount source %s: %v"
                            [AStr volumeID; AErr err]))
  | inr volumeName =>
      let* err := luksClose volumeName in
      match err with
      | Some err => Ret (Some (errInternal "closeLuksMountSource failed to close luks mount %s: %v"
                                 [AStr volumeName; AErr err]))
      | None => Ret None
      end
  end.

(** * nodeserver.go *)

(** The fields of [NodeServer] that hold data. *)
Record NodeServer := {
  srv_driver : LinodeDriver;
  srv_metadata : Metadata;
}.

(** The arguments that may be nil are given as whether they are. *)
Definition NewNodeServer (linodeDriver : option LinodeDriver)
    (mounter_is_nil deviceUtils_is_nil client_is_nil : bool) (metadata : Metadata)
    : goerror + NodeServer :=
  match linodeDriver with
  | None => inl (EErrorf "linodeDriver is nil" [])
  | Some linodeDriver =>
      if mounter_is_nil then inl (EErrorf "mounter is nil" [])
      else if deviceUtils_is_nil then inl (EErrorf "deviceUtils is nil" [])
      else if client_is_nil then inl (EErrorf "linode client is nil" [])
      else inr {| srv_driver := linodeDriver; srv_metadata := metadata |}
  end.

(** [ns.mux.Lock(); defer ns.mux.Unlock()] around the rest of a handler. *)
Definition locked {A} (p : prog A) : prog A :=
  let* _ := call Lock in
  finally p Unlock.

(** [RecordMetrics(total, duration, Failed, start); return nil, err]. *)
Definition node_failed {A} (total : CounterVec) (duration : HistogramVec) (err : goerror) : eprog A :=
  let* _ := call (RecordMetrics total duration Failed) in
  throw err.

Definition NodePublishVolume (req : NodePublishVolumeRequest) : eprog unit :=
  let failed {A} := @node_failed A NodePublishTotal NodePublishDuration in
  let record := fun status => call (RecordMetrics NodePublishTotal NodePublishDuration status) in
  locked (
    match validateNodePublishVolumeRequest req with
    | Some err => failed err
    | None =>
        let options := ["bind"] ++ (if np_Readonly req then ["ro"] else []) in
        if GetBlock (np_VolumeCapability req) then
          let* response := nodePublishVolumeBlock req options in
          let* _ := match response with
                    | inl _ => record Failed
                    | inr _ => Ret tt
                    end in
          let* _ := record Completed in
          Ret response
        else
          let targetPath := np_TargetPath req in
          let? notMnt := ensureMountPoint targetPath else failed in
          if negb notMnt then
            let* _ := record Failed in
            ok tt
          else
            let stagingTargetPath := np_StagingTargetPath req in
            let* err := call (Mnt (Mounter.Mount stagingTargetPath targetPath "ext4" options)) in
            match err with
            | Some err =>
                failed (errInternal "NodePublishVolume could not mount %s at %s: %v"
                  [AStr stagingTargetPath; AStr targetPath; AErr (EMount err)])
            | None =>
                let* _ := record Completed in
                ok tt
            end
    end).

Definition NodeUnpublishVolume (req : NodeUnpublishVolumeRequest) : eprog unit :=
  let failed {A} := @node_failed A NodeUnpublishTotal NodeUnpublishDuration in
  let targetPath := nup_TargetPath req in
  locked (
    match validateNodeUnpublishVolumeRequest req with
    | Some err => failed err
    | None =>
        let* err := call (Mnt (Mounter.CleanupMountPoint targetPath true)) in
        match err with
        | Some err => failed (errInternal "NodeUnpublishVolume could not unmount %s: %v"
                                [AStr targetPath; AErr (EMount err)])
        | None =>
            let* _ := call (RecordMetrics NodeUnpublishTotal NodeUnpublishDuration Completed) in
            ok tt
        end
    end).

Section NodeStage.
Context {deviceutils : DeviceUtils}.

Definition NodeStageVolume (req : NodeStageVolumeRequest) : eprog unit :=
  let failed {A} := @node_failed A NodeStageVolumeTotal NodeStageVolumeDuration in
  let record := fun status => call (RecordMetrics NodeStageVolumeTotal NodeStageVolumeDuration status) in
  locked (
    match validateNodeStageVolumeRequest req with
    | Some err => failed err
    | None =>
        match ParseLinodeVolumeKey (ns_VolumeId req) with
        | inl err => failed err
        | inr key =>
            let partition := match ns_VolumeContext req !! "partition" with
                             | Some part => part
                             | None => ""
                             end in
            let? devicePath := findDevicePath key partition else failed in
            let? notMnt := ensureMountPoint (ns_StagingTargetPath req) else failed in
            if negb notMnt then
              let* _ := record Failed in
              ok tt
            else if GetBlock (ns_VolumeCapability req) then
              let* _ := record Failed in
              ok tt
            else
              let? _ := mountVolume devicePath req else failed in
              let* _ := record Completed in
              ok tt
        end
    end).
End NodeStage.

Definition NodeUnstageVolume (req : NodeUnstageVolumeRequest) : eprog unit :=
  let failed {A} := @node_failed A NodeUnstageVolumeTotal NodeUnstageVolumeDuration in
  let stagingTargetPath := nu_StagingTargetPath req in
  let volumeID := nu_VolumeId req in
  locked (
    match validateNodeUnstageVolumeRequest req with
    | Some err => failed err
    | None =>
        let* err := call (Mnt (Mounter.CleanupMountPoint stagingTargetPath true)) in
        match err with
        | Some err => failed (errInternal "NodeUnstageVolume failed to unmount at path %s: %v"
                                [AStr stagingTargetPath; AErr (EMount err)])
        | None =>
            let* err := closeLuksMountSource volumeID in
            match err with
            | Some err => failed (EErrorf "closing luks to unstage volume %s: %w"
                                    [AStr volumeID; AErr err])
            | None =>
                let* _ := call (RecordMetrics NodeUnstageVolumeTotal NodeUnstageVolumeDuration Completed) in
                ok tt
            end
        end
    end).

(** The answer is [CapacityBytes].  Marshalling a map of strings never fails. *)
Definition NodeExpandVolume (req : NodeExpandVolumeRequest) : eprog Z :=
  let failed {A} := @node_failed A NodeExpandTotal NodeExpandDuration in
  match validateNodeExpandVolumeRequest req with
  | Some err => failed err
  | None =>
      match ParseLinodeVolumeKey (ne_VolumeId req) with
      | inl err => failed (errNotFound "volume not found: %v" [AErr err])
      | inr key =>
          let jsonFilter := [("label", Label key)] in
          let? _ := api (Client.ListVolumes
              {| lo_Page := 0; lo_PageSize := 0; lo_Filter := Some jsonFilter |})
            else fun _ => failed (errVolumeNotFound (VolumeID key)) in
          let* _ := call (RecordMetrics NodeExpandTotal NodeExpandDuration Completed) in
          ok (match ne_CapacityRange req with Some range => RequiredBytes range | None => 0 end)
      end
  end.

Definition NodeGetCapabilities (ns : NodeServer) : eprog (list NodeServiceCapability_RPC_Type) :=
  ok (ld_nscap (srv_driver ns)).

Definition NodeGetInfo (ns : NodeServer) : eprog NodeGetInfoResponse :=
  let? disks := api (Client.ListInstanceDisks (md_ID (srv_metadata ns)))
    else fun err => throw (errInternal "list instance disks: %v" [AErr (EApi err)]) in
  let maxVolumes := wrap64 (maxVolumeAttachments (md_Memory (srv_metadata ns)) - Z.of_nat (length disks)) in
  ok {| ni_NodeId := Itoa (md_ID (srv_metadata ns));
        ni_MaxVolumesPerNode := maxVolumes;
        ni_AccessibleTopology :=
          {| Segments := {[ "topology.linode.com/region" := md_Region (srv_metadata ns) ]} |} |}.

(** * nodeserver_all.go *)

(** The message of a condition is a format and its arguments. *)
Record VolumeCondition := { Abnormal : bool; Message : string * list arg }.

Record NodeGetVolumeStatsResponse := {
  Usage : list VolumeUsage;
  vs_VolumeCondition : VolumeCondition;
}.

(** [Bsize] is signed, the other fields of [Statfs_t] are unsigned, of 64 bits. *)
Definition nodeGetVolumeStats (req : NodeGetVolumeStatsRequest) : eprog NodeGetVolumeStatsResponse :=
  if String.eqb (vs_VolumeId req) "" || String.eqb (vs_VolumePath req) "" then
    throw (status_Error InvalidArgument "volume ID or path empty")
  else
    let* answer := call (Host (Sys.Statfs (vs_VolumePath req))) in
    match answer with
    | inl EIO =>
        ok {| Usage := [];
              vs_VolumeCondition :=
                {| Abnormal := true; Message := ("failed to get stats: %v", [AErr (EErrno EIO)]) |} |}
    | inl ENOENT => throw (EStatus NotFound "volume path not found: %v" [AErr (EErrno ENOENT)])
    | inl err => throw (EStatus Internal "failed to get stats: %v" [AErr (EErrno err)])
    | inr statfs =>
        ok {| Usage := [
                {| vu_Available := wrap64 (wrap64 (Bavail statfs) * wrap64 (Bsize statfs));
                   vu_Total := wrap64 (wrap64 (Blocks statfs) * wrap64 (Bsize statfs));
                   vu_Used := wrap64 (wrap64 (wrapu64 (Blocks statfs - Bfree statfs)) * wrap64 (Bsize statfs));
                   vu_Unit := BYTES |};
                {| vu_Available := wrap64 (Ffree statfs);
                   vu_Total := wrap64 (Files statfs);
                   vu_Used := wrap64 (wrap64 (Files statfs) - wrap64 (Ffree statfs));
                   vu_Unit := INODES |}];
              vs_VolumeCondition := {| Abnormal := false; Message := ("healthy", []) |} |}
    end.

(** * nodeserver_windows.go *)

Definition nodeGetVolumeStats_windows (req : NodeGetVolumeStatsRequest)
    : eprog NodeGetVolumeStatsResponse :=
  throw (status_Error Unimplemented "NodeGetVolumeStats is not yet implemented on Windows").

(** * nodeserver.go, of the other platforms *)

Definition NodeGetVolumeStats (req : NodeGetVolumeStatsRequest) : eprog NodeGetVolumeStatsResponse :=
  nodeGetVolumeStats req.

#[export] Hint Unfold findDevicePath ensureMountPoint nodePublishVolumeBlock formatLUKSVolume
  mountVolume closeLuksMountSource locked node_failed NodePublishVolume NodeUnpublishVolume
  NodeStageVolume NodeUnstageVolume NodeExpandVolume NodeGetCapabilities NodeGetInfo
  nodeGetVolumeStats NodeGetVolumeStats index : prog.
