(* ===== verification/NodeProofs.v ===== *)
(** Properties of the Node service and of the LUKS operations. *)
From S2P Require Import Prelude GoStrings Types Errors Metrics Effects LinodeVolumes Sizes Config.
From S2P Require Import DeviceManager Luks NodeServer Controller ControllerProofs.

Ltac run_rest := wp_unfold; wp_run.

(** * Specifications of the parts *)

Section Parts.
Context (law : env_law) (guard : call_guard).

Lemma wp_locked {A} (p : prog A) Q tr :
  wp law guard (locked p) Q tr <->
  guard tr Lock /\
  forall r, law tr Lock r ->
    wp law guard p (fun tr o => guard tr Unlock /\
      forall r, law tr Unlock r -> Q (tr ++ [Event Unlock r]) o) (tr ++ [Event Lock r]).
Proof.
  unfold locked, call. cbn [bind wp].
  split; intros [Hg H]; (split; [done|]); intros r Hr; by apply wp_finally, H.
Qed.
End Parts.

(** The calls of a handler are made between one Lock and one Unlock. *)
Definition no_mutex (c : cmd) : Prop := c <> Lock /\ c <> Unlock.

Definition bracketed {A} (tr : trace) (_ : outcome A) : Prop :=
  exists mid, tr = Event Lock tt :: mid ++ [Event Unlock tt] /\
    Forall (fun e => no_mutex (event_cmd e)) mid.

Lemma locked_bracketed {A} (p : prog A) :
  wp any_env (fun _ => no_mutex) p (fun _ _ => True) [Event Lock tt] ->
  every_run (locked p) bracketed.
Proof.
  intros H. unfold every_run. apply wp_locked. split; [done|]. intros [] _.
  eapply wp_mono; [apply wp_trace, H|]. cbv beta. intros tr o [_ (mid & -> & Hmid)].
  split; [done|]. intros [] _. by exists mid.
Qed.

(** The calls of a search for a device and nothing else. *)
Definition device_trace (tr : trace) : Prop := Forall (fun e => device_call (event_cmd e) = true) tr.

Section Find.
Context {D : DeviceUtils} {HD : DeviceUtilsLaws D}.

(** The answer of [findDevicePath]. *)
Definition found_device (key : LinodeVolumeKey) (partition : string) (tr : trace)
    (r : goerror + string) : Prop :=
  match r with
  | inr path =>
      path <> "" /\ path ∈ GetDiskByIdPaths (GetNormalizedLabel key) partition /\
      Event (Fs (FS.Stat path)) None ∈ tr
  | inl err => status_code err = Some Internal
  end.

Lemma wp_findDevicePath law guard key partition Q tr :
  (forall tr c, device_call c = true -> guard tr c) ->
  (forall tr' r, device_trace tr' -> found_device key partition tr' r -> Q (tr ++ tr') (Done r)) ->
  wp law guard (findDevicePath key partition) Q tr.
Proof.
  intros Hg HQ. unfold findDevicePath, try_else. apply wp_bind, VerifyDevicePath_spec; [done|].
  intros tr' [err|path] Ht Hr; [by apply HQ|]. destruct (String.eqb_spec path "") as [->|Hp].
  - by apply HQ.
  - apply HQ; [done|]. by destruct Hr as [|[? ?]].
Qed.
End Find.

(** * NodeStageVolume *)

Section Stage.
Context {D : DeviceUtils} {HD : DeviceUtilsLaws D}.

Definition stage_context (req : NodeStageVolumeRequest) : LuksContext :=
  getLuksContext (ns_Secrets req) (ns_VolumeContext req) VolumeLifecycleNodeStageVolume.

(** A device of the volume of the request, seen to exist. *)
Definition stage_device (req : NodeStageVolumeRequest) (tr : trace) (path : string) : Prop :=
  path <> "" /\ Event (Fs (FS.Stat path)) None ∈ tr /\
  exists key, ParseLinodeVolumeKey (ns_VolumeId req) = inr key /\
    path ∈ GetDiskByIdPaths (GetNormalizedLabel key) (map_get (ns_VolumeContext req) "partition").

(** blkid found nothing on the device. *)
Definition saw_unformatted (tr : trace) (path : string) : Prop :=
  exists err, Event (Exec (Executor.CmdRun "blkid" [path])) (Some err) ∈ tr /\
    xe_ExitStatus err = Some 2.

(** cryptsetup opened the mapping of the context on the device, now or before. *)
Definition saw_active (tr : trace) (path : string) (ctx : LuksContext) : Prop :=
  exists d err,
    Event (Crypt (Cryptsetup.Init path)) (inr d) ∈ tr /\
    Event (Crypt (Cryptsetup.ActivateByPassphrase d (VolumeName ctx) 0 (EncryptionKey ctx) 0)) err ∈ tr /\
    (err = None \/ exists e, err = Some e /\ ye_Code e = Some (-17)).

Definition luks_complete (ctx : LuksContext) : Prop :=
  EncryptionEnabled ctx = true /\ VolumeName ctx <> "" /\ EncryptionKey ctx <> "" /\
  EncryptionCipher ctx <> "" /\ EncryptionKeySize ctx <> "".

Definition stage_guard (req : NodeStageVolumeRequest) : call_guard := fun tr c =>
  let ctx := stage_context req in
  match c with
  | Fs (FS.MkdirAll path _) => path = ns_StagingTargetPath req
  | Crypt (Cryptsetup.Format d _ params) =>
      exists path size,
        stage_device req tr path /\ saw_unformatted tr path /\
        Event (Crypt (Cryptsetup.Init path)) (inr d) ∈ tr /\ luks_complete ctx /\
        SplitN2 (EncryptionCipher ctx) "-" = [Cipher params; CipherMode params] /\
        VolumeKey params = EncryptionKey ctx /\
        Atoi (EncryptionKeySize ctx) = inr size /\ VolumeKeySize params = Z.quot size 8
  | Crypt (Cryptsetup.KeyslotAddByVolumeKey d _ _ key) =>
      key = EncryptionKey ctx /\
      exists sector params, Event (Crypt (Cryptsetup.Format d sector params)) None ∈ tr
  | Crypt (Cryptsetup.ActivateByPassphrase d name _ key _) =>
      name = VolumeName ctx /\ key = EncryptionKey ctx /\ luks_complete ctx /\
      exists path, stage_device req tr path /\ Event (Crypt (Cryptsetup.Init path)) (inr d) ∈ tr
  | Mnt (Mounter.FormatAndMount source target fsType options) =>
      target = ns_StagingTargetPath req /\
      (fsType, options) = getFSTypeAndMountOptions (ns_VolumeCapability req) /\
      GetBlock (ns_VolumeCapability req) = false /\
      (exists err, Event (Mnt (Mounter.IsLikelyNotMountPoint target)) (true, err) ∈ tr) /\
      (exists path, stage_device req tr path /\
        if EncryptionEnabled ctx then
          source = "/dev/mapper/" +:+ VolumeName ctx /\ saw_active tr path ctx
        else source = path)
  | Fs (FS.OpenFile _ _ _ | FS.Remove _) | Mnt (Mounter.Mount _ _ _ _ | Mounter.CleanupMountPoint _ _)
  | Crypt (Cryptsetup.Deactivate _ _ | Cryptsetup.InitByName _) | Api _ => False
  | _ => True
  end.

Lemma validate_complete ctx :
  EncryptionEnabled ctx = true -> validate ctx = None -> luks_complete ctx.
Proof.
  intros He. unfold validate, luks_complete. rewrite He. cbn [negb].
  destruct (String.eqb_spec (VolumeName ctx) ""), (String.eqb_spec (EncryptionKey ctx) ""),
    (String.eqb_spec (EncryptionCipher ctx) ""), (String.eqb_spec (EncryptionKeySize ctx) "");
    done.
Qed.

Lemma SplitN2_index s c a b :
  SplitN2 s c !! 0%nat = Some a -> SplitN2 s c !! 1%nat = Some b -> SplitN2 s c = [a; b].
Proof. unfold SplitN2. destruct (str_cut c s) as [[l r]|]; naive_solver. Qed.

Lemma device_call_stage req tr c : device_call c = true -> stage_guard req tr c.
Proof. by destruct c as [[]|[]|[]|[]|[]|[]|[]|[]| | |]. Qed.

Lemma stage_device_found req tr tr' key path :
  ParseLinodeVolumeKey (ns_VolumeId req) = inr key ->
  found_device key (map_get (ns_VolumeContext req) "partition") tr' (inr path) ->
  tr' ⊆ tr -> stage_device req tr path.
Proof. intros Hk (H1 & H2 & H3) Htr. split_and!; [done|by apply Htr|by eexists]. Qed.

Lemma stage_guard_mount req tr source fsType options r path :
  getFSTypeAndMountOptions (ns_VolumeCapability req) = (fsType, options) ->
  GetBlock (ns_VolumeCapability req) = false ->
  fst r = true ->
  Event (Mnt (Mounter.IsLikelyNotMountPoint (ns_StagingTargetPath req))) r ∈ tr ->
  stage_device req tr path ->
  (if EncryptionEnabled (stage_context req) then
     source = "/dev/mapper/" +:+ VolumeName (stage_context req) /\
     saw_active tr path (stage_context req)
   else source = path) ->
  stage_guard req tr
    (Mnt (Mounter.FormatAndMount source (ns_StagingTargetPath req) fsType options)).
Proof.
  intros Ho Hb Hr Hm Hd Hs. cbn [stage_guard]. destruct r as [b err]. cbn in Hr. subst b.
  split_and!; [done|by rewrite Ho|done|by exists err|by exists path].
Qed.

Lemma partition_get (m : gmap string string) :
  match m !! "partition" with Some part => part | None => "" end = map_get m "partition".
Proof. unfold map_get. by destruct (m !! "partition"). Qed.

(** All the runs of NodeStageVolume, with the search for the device as one step. *)

Local Ltac stage_body :=
  cbv zeta; rewrite partition_get;
  destruct (validateNodeStageVolumeRequest _) as [?|] eqn:?; [run_rest|
  destruct (ParseLinodeVolumeKey _) as [?|key] eqn:Hkey; [run_rest|
  apply wp_bind, wp_findDevicePath; [|
  intros trd [?|path] Hdev Hfound; [run_rest|
  unfold mountVolume, try_else;
  destruct (getFSTypeAndMountOptions _) as [fsType options] eqn:Hopts;
  run_rest]]]].
Local Ltac stage_run :=
  unfold NodeStageVolume; apply wp_locked; split; [|intros [] _; stage_body].

(** C16. NodeStageVolume touches only the volume it is asked for, and never
    destroys data it could have seen: it formats a device for LUKS only when the
    device was found for the volume of the request, blkid answered that nothing
    is on it (status 2), and the context and secret hold a name, a key, a cipher
    and a key size, which are the parameters used; it mounts only that device,
    or the LUKS mapping opened for it, only at the staging path, only after the
    mounter said that nothing is mounted there, and never for a block volume;
    it calls nothing of the Linode API and unmounts, removes and closes nothing. *)
Theorem stage_volume_calls (req : NodeStageVolumeRequest) :
  every_call (NodeStageVolume req) (stage_guard req).
Proof.
  unfold every_call. stage_run.
  all: try done; try by split.
  all: try (intros; by apply device_call_stage).
  all: cbn [LuksDevice_Device]; fold (stage_context req) in *; ptr_facts.
  all: pose proof (fun tr => stage_device_found req tr trd key path Hkey Hfound) as Hd.
  all: lazymatch goal with
       | |- stage_guard _ _ (Mnt _) =>
           eapply (stage_guard_mount _ _ _ _ _ _ path);
             [done|done|eassumption|in_app|apply Hd; intros ? ?; in_app|];
           destruct (EncryptionEnabled _) eqn:?; try done;
           (split; [done|do 2 eexists; split; [in_app|split; [in_app|]]; subst; by eauto])
       | |- _ => pose proof (validate_complete _ ltac:(eassumption) ltac:(eassumption)) as Hv
       end.
  all: cbn [stage_guard]; cbv zeta.
  all: lazymatch goal with
       | |- ex _ =>
           exists path; eexists; split; [apply Hd; intros ? ?; in_app|]; split_and!;
             [exists e; split; [in_app|congruence]|in_app|done|by apply SplitN2_index|done..]
       | |- _ /\ _ /\ _ =>
           split_and!; try done; exists path; split; [apply Hd; intros ? ?; in_app|in_app]
       | |- _ => idtac
       end.
  all: split; [done|]; do 2 eexists; in_app.
Qed.

(** A handler whose body leaves the mutex alone. *)
Definition under_mutex {A} (h : prog A) : Prop :=
  exists p, h = locked p /\ wp any_env (fun _ => no_mutex) p (fun _ _ => True) [Event Lock tt].

Lemma handlers_under_mutex :
  (forall req, under_mutex (NodePublishVolume req)) /\
  (forall req, under_mutex (NodeUnpublishVolume req)) /\
  (forall req, under_mutex (NodeStageVolume req)) /\
  (forall req, under_mutex (NodeUnstageVolume req)).
Proof.
  split_and!; intros req; (eexists; split; [reflexivity|]).
  1,2,4: by run_rest.
  stage_body; try done. intros _ c Hc. by destruct c.
Qed.

(** The node server's mutex: each of NodePublishVolume, NodeUnpublishVolume,
    NodeStageVolume and NodeUnstageVolume takes it before its first call and
    releases it after its last, whether it returns or panics, and does not take
    or release it in between. *)
Theorem node_mutex :
  (forall req, every_run (NodePublishVolume req) bracketed) /\
  (forall req, every_run (NodeUnpublishVolume req) bracketed) /\
  (forall req, every_run (NodeStageVolume req) bracketed) /\
  (forall req, every_run (NodeUnstageVolume req) bracketed).
Proof.
  destruct handlers_under_mutex as (H1 & H2 & H3 & H4).
  split_and!; intros req; [destruct (H1 req) as (p & -> & Hp)|destruct (H2 req) as (p & -> & Hp)
    |destruct (H3 req) as (p & -> & Hp)|destruct (H4 req) as (p & -> & Hp)]; by apply locked_bracketed.
Qed.

(** The cipher has no mode after a dash. *)
Definition no_mode (ctx : LuksContext) : Prop :=
  str_forall (fun a => negb (Ascii.eqb a "-")) (EncryptionCipher ctx) = true.

Definition stage_panic (req : NodeStageVolumeRequest) (tr : trace) (o : outcome (goerror + unit)) : Prop :=
  forall why, o = Panicked why ->
    why = IndexOutOfRange /\ luks_complete (stage_context req) /\ no_mode (stage_context req) /\
    exists path, stage_device req tr path /\ saw_unformatted tr path.

Lemma SplitN2_head s c : SplitN2 s c !! 0%nat <> None.
Proof. unfold SplitN2. by destruct (str_cut c s) as [[l r]|]. Qed.

Lemma SplitN2_short s c : SplitN2 s c !! 1%nat = None ->
  str_forall (fun a => negb (Ascii.eqb a c)) s = true.
Proof.
  unfold SplitN2. destruct (str_cut c s) as [[l r]|] eqn:H; [done|]. intros _.
  by apply str_cut_None in H.
Qed.

Lemma stage_never_panics_else (req : NodeStageVolumeRequest) :
  every_run (NodeStageVolume req) (stage_panic req).
Proof.
  unfold every_run, stage_panic. stage_run; try done.
  all: split; [done|intros [] _; cbv beta]; try done.
  all: intros why [= <-]; ptr_facts; try by destruct (SplitN2_head _ _ ltac:(eassumption)).
  all: split; [done|]; split; [by apply validate_complete|]; split; [by apply SplitN2_short|].
  all: exists path; split; [|exists e; split; [in_app|congruence]].
  all: apply (stage_device_found req _ trd key path Hkey Hfound); intros ? ?; in_app.
Qed.

Lemma luksFormat_panic (ctx : LuksContext) (source : string) :
  luksFormat ctx source = Panic IndexOutOfRange <->
  (exists size, Atoi (EncryptionKeySize ctx) = inr size) /\ no_mode ctx.
Proof.
  unfold luksFormat, no_mode, SplitN2.
  destruct (Atoi (EncryptionKeySize ctx)) as [e|size]; [split; [done|by intros [[? [=]] _]]|].
  destruct (str_cut "-" (EncryptionCipher ctx)) as [[l r]|] eqn:Hc.
  - split; [done|]. intros [_ Hn]. apply str_cut_inv in Hc as [Heq _].
    rewrite Heq, str_forall_app in Hn. apply andb_true_iff in Hn as [_ Hn]. done.
  - split; [|done]. intros _. split; [by eexists|]. by apply str_cut_None.
Qed.

Lemma others_never_panic :
  (forall req, every_run (NodePublishVolume req) no_panic) /\
  (forall req, every_run (NodeUnpublishVolume req) no_panic) /\
  (forall req, every_run (NodeUnstageVolume req) no_panic).
Proof. split_and!; intros x; unfold every_run, no_panic; run_rest; done. Qed.

(** C29. The one way the Node service can panic: NodeStageVolume indexes past the
    end of a slice exactly when it reaches luksFormat with a key size that is a
    number and a cipher without a dash, which happens only for an unformatted
    device and a complete LUKS context; the value comes from a StorageClass, and
    nothing in the driver recovers from the panic.  No other handler panics. *)
Theorem node_panics :
  (forall req, every_run (NodeStageVolume req) (stage_panic req)) /\
  (forall ctx source, luksFormat ctx source = Panic IndexOutOfRange <->
     (exists size, Atoi (EncryptionKeySize ctx) = inr size) /\ no_mode ctx) /\
  (forall req, every_run (NodePublishVolume req) no_panic) /\
  (forall req, every_run (NodeUnpublishVolume req) no_panic) /\
  (forall req, every_run (NodeUnstageVolume req) no_panic) /\
  (forall req, every_run (NodeExpandVolume req) no_panic) /\
  (forall ns, every_run (NodeGetInfo ns) no_panic) /\
  (forall req, every_run (NodeGetVolumeStats req) no_panic).
Proof.
  split; [exact stage_never_panics_else|]. split; [exact luksFormat_panic|].
  destruct others_never_panic as (H1 & H2 & H3). split_and!; [done..| | |];
    intros x; unfold every_run, no_panic; run_rest; done.
Qed.
Lemma recorded_app tr1 tr2 : recorded (tr1 ++ tr2) = recorded tr1 ++ recorded tr2.
Proof. apply omap_app. Qed.

Lemma recorded_cons e tr : recorded (e :: tr) = recorded [e] ++ recorded tr.
Proof. apply (recorded_app [e]). Qed.

Lemma recorded_device tr : device_trace tr -> recorded tr = [].
Proof.
  induction 1 as [|[c r] tr Hc Htr IH]; [done|]. rewrite recorded_cons, IH.
  by destruct c as [[]|[]|[]|[]|[]|[]|[]|[]| | |].
Qed.

(** A mount that the mounter answered without an error. *)
Definition mounted (e : event) : bool :=
  match e with
  | Event (Mnt m) r =>
      match m return Mounter.answer m -> bool with
      | Mounter.Mount _ _ _ _ | Mounter.FormatAndMount _ _ _ _ =>
          fun r => negb (bool_decide (is_Some r))
      | _ => fun _ => false
      end r
  | _ => false
  end.

Lemma mounted_device tr : device_trace tr -> existsb mounted tr = false.
Proof.
  induction 1 as [|[c r] tr Hc Htr IH]; [done|]. cbn [existsb]. rewrite IH.
  by destruct c as [[]|[]|[]|[]|[]|[]|[]|[]| | |].
Qed.

Definition publish_metrics (req : NodePublishVolumeRequest) (tr : trace)
    (o : outcome (goerror + unit)) : Prop :=
  let entry status := (NodePublishTotal, NodePublishDuration, status) in
  match o with
  | Done r =>
      match validateNodePublishVolumeRequest req, GetBlock (np_VolumeCapability req), r with
      | None, true, inl _ => recorded tr = [entry Failed; entry Completed]
      | None, true, inr _ => recorded tr = [entry Completed]
      | _, _, _ => recorded_once NodePublishTotal NodePublishDuration (existsb mounted) tr o
      end
  | Panicked _ => False
  end.

(** The metrics of the Node service: a call of NodeUnpublishVolume,
    NodeUnstageVolume or NodeExpandVolume records one observation on its own
    counter and histogram, Completed exactly when it succeeds; NodeStageVolume
    and NodePublishVolume of a file system record Completed exactly when they
    mount something, so that a block volume staged, or a path mounted already,
    is counted as Failed; and a block volume that fails to be published is
    counted twice, as Failed and as Completed. *)
Theorem node_metrics :
  (forall req, every_run (NodePublishVolume req) (publish_metrics req)) /\
  (forall req, every_run (NodeUnpublishVolume req)
     (recorded_once NodeUnpublishTotal NodeUnpublishDuration (fun _ => true))) /\
  (forall req, every_run (NodeStageVolume req)
     (recorded_once NodeStageVolumeTotal NodeStageVolumeDuration (existsb mounted))) /\
  (forall req, every_run (NodeUnstageVolume req)
     (recorded_once NodeUnstageVolumeTotal NodeUnstageVolumeDuration (fun _ => true))) /\
  (forall req, every_run (NodeExpandVolume req)
     (recorded_once NodeExpandTotal NodeExpandDuration (fun _ => true))).
Proof.
  split_and!; intros req; unfold every_run.
  - unfold publish_metrics. run_rest; try done.
  - run_rest; done.
  - stage_run; try done; (split; [done|intros [] _]; cbn [recorded_once]; try done).
    all: rewrite recorded_app, recorded_cons, !recorded_app, (recorded_device trd) by done;
           cbn [existsb app]; rewrite ?existsb_app; cbn [existsb];
           rewrite ?existsb_app, ?(mounted_device trd) by done; done.
  - run_rest; done.
  - run_rest; done.
Qed.

(** ** The text of errors *)

(** The error contains the argument [s] as it is. *)
Fixpoint says (s : string) (e : goerror) {struct e} : bool :=
  match e with
  | EStatus _ _ args | EErrorf _ args => existsb (arg_says s) args
  | EJoin errs => existsb (says s) errs
  | _ => false
  end
with arg_says (s : string) (a : arg) {struct a} : bool :=
  match a with
  | AStr t => String.eqb t s
  | AErr e => says s e
  | _ => false
  end.

(** cryptsetup fails to read the LUKS header or to open the mapping, for another
    reason than that it is open. *)
Definition luks_failure (e : event) : bool :=
  match e with
  | Event (Crypt y) r =>
      match y return Cryptsetup.answer y -> bool with
      | Cryptsetup.Load _ _ => fun r => bool_decide (is_Some r)
      | Cryptsetup.ActivateByPassphrase _ _ _ _ _ => fun r =>
          match r with
          | Some err => match ye_Code err with Some code => negb (code =? -17) | None => true end
          | None => false
          end
      | _ => fun _ => false
      end r
  | _ => false
  end.

Lemma luks_failure_device tr : device_trace tr -> existsb luks_failure tr = false.
Proof.
  induction 1 as [|[c r] tr Hc Htr IH]; [done|]. cbn [existsb]. rewrite IH.
  by destruct c as [[]|[]|[]|[]|[]|[]|[]|[]| | |].
Qed.

(** C34. The encryption key is in the error: when cryptsetup fails to read the
    header of a device or to open its mapping while a volume is staged, the
    error that NodeStageVolume answers with contains the key of the volume, a
    secret of the request, in clear. *)
Theorem luks_key_exposed (req : NodeStageVolumeRequest) :
  every_run (NodeStageVolume req) (fun tr o =>
    existsb luks_failure tr = true ->
    exists err, o = Done (inl err) /\ says (EncryptionKey (stage_context req)) err = true).
Proof.
  unfold every_run. stage_run; try done; (split; [done|intros [] _]).
  all: cbv beta; rewrite ?existsb_app; cbn [existsb];
    rewrite ?existsb_app, ?(luks_failure_device trd) by done; cbn; intros Hf; try done.
  all: try match goal with
       | Hc : ye_Code _ = Some _, Hz : (_ =? -17) = true |- _ => by rewrite Hc, Hz in Hf
       end.
  all: eexists; split; [reflexivity|]; cbn; fold (stage_context req) in *;
    by rewrite ?String.eqb_refl, ?orb_true_r.
Qed.
End Stage.

(** * Concrete runs *)

(** Staging a LUKS volume with the given cipher. *)
Definition ex_stage (cipher : string) : NodeStageVolumeRequest := {|
  ns_VolumeId := "7-pvc-1";
  ns_StagingTargetPath := "/staging";
  ns_VolumeCapability := Some ex_capability;
  ns_Secrets := {[LuksKeyAttribute := "secret"]};
  ns_VolumeContext :=
    <[LuksEncryptedAttribute := "true"]> (<[LuksCipherAttribute := cipher]>
    (<[LuksKeySizeAttribute := "512"]> {[PublishInfoVolumeName := "pvc-1"]})) |}.

Lemma stage_volume_calls_witness :
  every_call (NodeStageVolume (ex_stage "aes-xts-plain64")) (stage_guard (ex_stage "aes-xts-plain64")) /\
  (in_ex_world (NodeStageVolume (ex_stage "aes-xts-plain64"))).2 = Done (inr tt) /\
  Event (Mnt (Mounter.FormatAndMount "/dev/mapper/pvc-1" "/staging" "ext4" [])) None
    ∈ (in_ex_world (NodeStageVolume (ex_stage "aes-xts-plain64"))).1.
Proof.
  split; [apply (stage_volume_calls (ex_stage "aes-xts-plain64"))|].
  split; [vm_compute; reflexivity|]. vm_compute. in_trace.
Defined.

Lemma node_mutex_witness :
  every_run (NodeStageVolume (ex_stage "aes")) bracketed /\
  (in_ex_world (NodeStageVolume (ex_stage "aes"))).2 = Panicked IndexOutOfRange.
Proof. split; [apply node_mutex|vm_compute; reflexivity]. Defined.

Lemma node_panics_witness :
  every_run (NodeStageVolume (ex_stage "aes")) (stage_panic (ex_stage "aes")) /\
  (in_ex_world (NodeStageVolume (ex_stage "aes"))).2 = Panicked IndexOutOfRange /\
  no_mode (stage_context (ex_stage "aes")).
Proof. split; [apply node_panics|]. split; vm_compute; reflexivity. Defined.

Lemma node_metrics_witness :
  every_run (NodeStageVolume (ex_stage "aes-xts-plain64"))
    (recorded_once NodeStageVolumeTotal NodeStageVolumeDuration (existsb mounted)) /\
  recorded (in_ex_world (NodeStageVolume (ex_stage "aes-xts-plain64"))).1 =
    [(NodeStageVolumeTotal, NodeStageVolumeDuration, Completed)].
Proof. split; [apply node_metrics|vm_compute; reflexivity]. Defined.

(** Staging a formatted device whose header cannot be read. *)
Definition ex_broken_world (c : cmd) : resp c :=
  match c return resp c with
  | Exec (Executor.CmdRun _ _) => None
  | Crypt y =>
      match y return Cryptsetup.answer y with
      | Cryptsetup.Load _ _ => Some {| ye_Code := Some (-22); ye_Text := "invalid argument" |}
      | y => ex_world (Crypt y)
      end
  | c => ex_world c
  end.

Lemma luks_key_exposed_witness :
  let '(tr, o, _) := run (fun c (w : unit) => (ex_broken_world c, w))
                       (NodeStageVolume (ex_stage "aes-xts-plain64")) tt in
  existsb luks_failure tr = true /\
  exists err, o = Done (inl err) /\ says "secret" err = true.
Proof.
  pose proof (luks_key_exposed (ex_stage "aes-xts-plain64")) as H.
  apply (run_wp (fun c (w : unit) => (ex_broken_world c, w)) _ _ _ _ tt (fun _ _ _ => I)) in H.
  vm_compute in H |- *. destruct H as [H _]. exact (conj eq_refl (H eq_refl)).
Defined.
