(* ===== verification/NodePublish.v ===== *)
(** Properties of the Node service other than staging: publishing, unstaging,
    expansion, node information and volume statistics. *)
From S2P Require Import Prelude GoStrings Types Errors Metrics Effects LinodeVolumes Sizes Config.
From S2P Require Import DeviceManager Luks NodeServer Controller ControllerProofs NodeProofs.

(** * NodePublishVolume *)

Section NodePublish.
Definition node_publish_guard (req : NodePublishVolumeRequest) : call_guard := fun tr c =>
  let block := GetBlock (np_VolumeCapability req) in
  match c with
  | Mnt (Mounter.Mount source target fsType options) =>
      target = np_TargetPath req /\ target <> "" /\
      options = "bind" :: (if np_Readonly req then ["ro"] else []) /\
      if block then
        source = map_get (np_PublishContext req) "devicePath" /\ source <> "" /\ fsType = "" /\
        exists file, Event (Fs (FS.OpenFile target O_CREATE ownerGroupReadWritePermissions)) (inr file) ∈ tr
      else
        source = np_StagingTargetPath req /\ source <> "" /\ fsType = "ext4" /\
        exists err, Event (Mnt (Mounter.IsLikelyNotMountPoint target)) (true, err) ∈ tr
  | Fs (FS.MkdirAll path _) => path = if block then Dir (np_TargetPath req) else np_TargetPath req
  | Fs (FS.OpenFile path _ _) | Fs (FS.Remove path) => block = true /\ path = np_TargetPath req
  | Mnt (Mounter.FormatAndMount _ _ _ _ | Mounter.CleanupMountPoint _ _) => False
  | Crypt _ | Api _ | Exec _ => False
  | _ => True
  end.

(** The files opened and closed in a run. *)
Definition opened (tr : trace) : list File :=
  omap (fun e =>
    match e with
    | Event (Fs f) r =>
        match f return FS.answer f -> option File with
        | FS.OpenFile _ _ _ | FS.Open _ => fun r => match r with inr file => Some file | inl _ => None end
        | _ => fun _ => None
        end r
    | _ => None
    end) tr.

Definition closed (tr : trace) : list File :=
  omap (fun e => match e with Event (Fs (FS.Close file)) _ => Some file | _ => None end) tr.

(** Every file opened is closed; when the mount on it fails it is removed. *)
Definition node_publish_files (req : NodePublishVolumeRequest) (tr : trace)
    (o : outcome (goerror + unit)) : Prop :=
  closed tr = opened tr /\
  match o with
  | Done (inl _) => opened tr = [] \/ exists r, Event (Fs (FS.Remove (np_TargetPath req))) r ∈ tr
  | _ => True
  end.

Lemma publish_request_ok req : validateNodePublishVolumeRequest req = None ->
  np_TargetPath req <> "" /\ np_StagingTargetPath req <> "".
Proof.
  unfold validateNodePublishVolumeRequest. repeat case_if; try done. zify_bool. done.
Qed.

(** C17. NodePublishVolume mounts once, at the target path, with the option "ro"
    exactly for a read-only request: for a block volume the device path of the
    publish context on a file it has just made there, otherwise the staging
    path, after the mounter said that nothing is mounted at the target.  It
    makes only the target's directories and file, formats nothing and calls
    neither the API nor a command; every file it opens it closes, and it
    removes the file again when the mount fails. *)
Theorem node_publish_calls (req : NodePublishVolumeRequest) :
  wp any_env (node_publish_guard req) (NodePublishVolume req) (node_publish_files req) [].
Proof.
  unfold NodePublishVolume. apply wp_locked. split; [done|]. intros [] _. cbv zeta.
  destruct (validateNodePublishVolumeRequest req) as [err|] eqn:Hv.
  { run_rest; try done. split; [done|]. intros [] _. split; [done|by left]. }
  apply publish_request_ok in Hv as [Ht Hs].
  destruct (GetBlock (np_VolumeCapability req)) eqn:Hb; run_rest.
  all: cbn [node_publish_guard]; rewrite ?Hb; zify_bool; try done; try by split.
  all: try (split; [done|]; intros [] _; split; [done|]; first [by left|right; eexists; in_trace|done]).
  all: split_and!; try done.
  - eexists. in_trace.
  - destruct r as [b err]. ptr_facts. cbn in *. subst. eexists. in_trace.
  - destruct r as [b err]. ptr_facts. cbn in *. subst. eexists. in_trace.
Qed.
End NodePublish.

(** * Unstaging *)

Section Unstage.
Definition close_guard (name : string) : call_guard := fun tr c =>
  match c with
  | Crypt (Cryptsetup.InitByName n) => n = name
  | Crypt (Cryptsetup.Deactivate d n) =>
      n = name /\ Event (Crypt (Cryptsetup.InitByName name)) (inr d) ∈ tr
  | Crypt (Cryptsetup.Format _ _ _ | Cryptsetup.ActivateByPassphrase _ _ _ _ _) => False
  | _ => True
  end.

Lemma str_take_full n s : str_take n s = s <-> (String.length s <= n)%nat.
Proof.
  split; [|apply str_take_ge]. intros H. rewrite <- H, str_take_length. lia.
Qed.

Lemma prefixed_label_eq n prefix name :
  str_take n (prefix +:+ name) = name ->
  (String.length name <= n)%nat /\ (prefix = "" \/ String.length name = n).
Proof.
  intros H. assert (String.length name <= n)%nat as Hn.
  { rewrite <- H at 1. rewrite str_take_length. lia. }
  split; [done|]. destruct prefix as [|c prefix]; [by left|right].
  pose proof (f_equal String.length H) as Hlen.
  rewrite str_take_length, str_app_length in Hlen. cbn [String.length] in Hlen. lia.
Qed.

Lemma getMountSource_key key :
  0 <= VolumeID key -> getMountSource (GetVolumeKey key) = inr (GetNormalizedLabel key).
Proof.
  intros H. unfold getMountSource, GetVolumeKey.
  change ("-" +:+ GetNormalizedLabel key) with (String "-" (GetNormalizedLabel key)).
  by rewrite SplitN2_first_dash by (by apply digits_no_dash, Itoa_digits).
Qed.

(** The LUKS mapping of a volume is opened and closed by names that agree only
    by chance.  For a volume that CreateVolume made for a request, with the label
    it makes of the driver's prefix and the request's name: staging opens the
    mapping as the name of the request, unstaging closes the mapping named by the
    label.  These are equal if the prefix is empty and the name has at most 32
    bytes; they differ for every longer name, and, when there is a prefix, for
    every name shorter than that, so that unstaging leaves the mapping open. *)
Theorem luks_close_name (cs : ControllerServer) (req : CreateVolumeRequest) (vol : Volume)
  (secrets : gmap string string) (stagingTargetPath : string)
  (Hid : 0 <= v_ID vol)
  (Hluks : map_get (cv_Parameters req) LuksEncryptedAttribute = "true")
  (Hlabel : v_Label vol = request_label cs req) :
  let resp := prepareCreateVolumeResponse vol 0 (createVolumeContext req vol) None None in
  let opened_as := VolumeName (getLuksContext secrets (csi_VolumeContext resp)
                                 VolumeLifecycleNodeStageVolume) in
  let closed_as := v_Label vol in
  opened_as = cv_Name req /\
  every_call (NodeUnstageVolume {| nu_VolumeId := csi_VolumeId resp;
                                   nu_StagingTargetPath := stagingTargetPath |})
             (close_guard closed_as) /\
  (ld_volumeLabelPrefix (cs_driver cs) = "" -> (String.length (cv_Name req) <= 32)%nat ->
   closed_as = opened_as) /\
  (closed_as = opened_as ->
   (String.length (cv_Name req) <= 32)%nat /\
   (ld_volumeLabelPrefix (cs_driver cs) = "" \/ String.length (cv_Name req) = 32%nat)).
Proof.
  intros resp opened_as closed_as.
  assert (opened_as = cv_Name req) as Hopen.
  { unfold opened_as, resp, prepareCreateVolumeResponse, getLuksContext, createVolumeContext.
    cbn [csi_VolumeContext]. rewrite Hluks. cbn [True_ String.eqb]. autorewrite with go. done. }
  split; [done|]. unfold closed_as. rewrite Hopen, Hlabel. split.
  - assert (getMountSource (csi_VolumeId resp) = inr (request_label cs req)) as Hsrc.
    { unfold resp, prepareCreateVolumeResponse. cbn [csi_VolumeId].
      rewrite getMountSource_key by done. rewrite GetNormalizedLabel_take.
      cbn [Label CreateLinodeVolumeKey]. rewrite Hlabel. unfold request_label.
      by rewrite GetNormalizedLabelWithPrefix_take, str_take_take. }
    unfold every_call. wp_unfold. cbn [nu_VolumeId nu_StagingTargetPath]. rewrite Hsrc.
    wp_run; try done; try by split.
    cbn [close_guard LuksDevice_Device]. split; [done|in_trace].
  - unfold request_label. rewrite GetNormalizedLabelWithPrefix_take.
    cbn [Label CreateLinodeVolumeKey]. split; [|apply prefixed_label_eq].
    intros -> Hn. by apply str_take_full.
Qed.

Lemma luks_close_name_witness :
  let cs := {|
    cs_driver := ex_driver "prod-";
    cs_metadata := {| md_ID := 1; md_Label := ""; md_Region := "us-east"; md_Memory := 0 |} |} in
  let req := {|
    cv_Name := "pvc-0123456789abcdef"; cv_CapacityRange := None; cv_VolumeCapabilities := [];
    cv_Parameters := {[ LuksEncryptedAttribute := "true" ]};
    cv_VolumeContentSource := None; cv_AccessibilityRequirements := None |} in
  let vol := {|
    v_ID := 7; v_Label := "prod-pvc-0123456789abcdef"; v_Status := VolumeActive;
    v_Region := "us-east"; v_Size := 10; v_LinodeID := None; v_FilesystemPath := "" |} in
  v_Label vol = request_label cs req /\
  VolumeName (getLuksContext ∅ (createVolumeContext req vol) VolumeLifecycleNodeStageVolume)
    = "pvc-0123456789abcdef" /\
  every_call (NodeUnstageVolume {| nu_VolumeId := "7-prod-pvc-0123456789abcdef";
                                   nu_StagingTargetPath := "/staging" |})
             (close_guard "prod-pvc-0123456789abcdef").
Proof.
  intros cs req vol.
  destruct (luks_close_name cs req vol ∅ "/staging") as (H1 & H2 & _);
    [done|vm_compute; reflexivity|vm_compute; reflexivity|].
  split; [vm_compute; reflexivity|]. split; [exact H1|exact H2].
Defined.
End Unstage.

(** * cryptsetup devices *)

Section Handles.
(** The devices initialised and freed in a run. *)
Definition inited (tr : trace) : list Device :=
  omap (fun e =>
    match e with
    | Event (Crypt c) r =>
        match c return Cryptsetup.answer c -> option Device with
        | Cryptsetup.Init _ | Cryptsetup.InitByName _ => fun r =>
            match r with inr d => Some d | inl _ => None end
        | _ => fun _ => None
        end r
    | _ => None
    end) tr.

Definition freed (tr : trace) : list Device :=
  omap (fun e => match e with Event (Crypt (Cryptsetup.Free d)) _ => Some d | _ => None end) tr.

(** Formatting, adding the key slot or deactivating failed. *)
Definition early_failure (e : event) : bool :=
  match e with
  | Event (Crypt c) r =>
      match c return Cryptsetup.answer c -> bool with
      | Cryptsetup.Format _ _ _ | Cryptsetup.KeyslotAddByVolumeKey _ _ _ _
      | Cryptsetup.Deactivate _ _ => fun r => bool_decide (is_Some r)
      | _ => fun _ => false
      end r
  | _ => false
  end.

Definition freed_unless_early {A} (tr : trace) (_ : outcome A) : Prop :=
  freed tr = if existsb early_failure tr then [] else inited tr.

Definition open_outcome (ctx : LuksContext) (source : string) (tr : trace)
    (o : outcome (goerror + string)) : Prop :=
  let activate d := Crypt (Cryptsetup.ActivateByPassphrase d (VolumeName ctx) 0 (EncryptionKey ctx) 0) in
  match o with
  | Done (inr path) =>
      path = "/dev/mapper/" +:+ VolumeName ctx /\
      exists d err,
        Event (Crypt (Cryptsetup.Load d 512)) None ∈ tr /\ Event (activate d) err ∈ tr /\
        (err = None \/ exists e, err = Some e /\ ye_Code e = Some (-17))
  | Done (inl _) =>
      (exists e, Event (Crypt (Cryptsetup.Init source)) (inl e) ∈ tr) \/
      (exists d e, Event (Crypt (Cryptsetup.Load d 512)) (Some e) ∈ tr) \/
      (exists d e, Event (activate d) (Some e) ∈ tr /\ ye_Code e <> Some (-17))
  | Panicked _ => False
  end.

(** luksOpen frees the cryptsetup device it initialised on every path, once.
    luksFormat and luksClose free it too, except when formatting, adding the
    key slot or deactivating fails: the device is then never freed.  luksOpen
    succeeds, with the path of the mapping, exactly when the device loads and
    activation succeeds or answers that the mapping exists (code -17). *)
Theorem luks_device_freed (ctx : LuksContext) (source name : string) :
  every_run (luksOpen ctx source) (fun tr o => freed tr = inited tr /\ open_outcome ctx source tr o) /\
  every_run (luksFormat ctx source) freed_unless_early /\
  every_run (luksClose name) freed_unless_early.
Proof.
  split; [|split; unfold every_run, freed_unless_early; run_rest; done].
  unfold every_run. run_rest; try done; (split; [reflexivity|]);
    cbn [open_outcome LuksDevice_Device Identifier]; ptr_facts; subst; cbv zeta.
  - left. eexists. in_trace.
  - right; left. do 2 eexists. in_trace.
  - split; [done|]. do 2 eexists. split; [in_trace|]. split; [in_trace|]. eauto.
  - right; right. do 2 eexists. split; [in_trace|]. congruence.
  - right; right. do 2 eexists. split; [in_trace|]. congruence.
  - split; [done|]. do 2 eexists. split; [in_trace|]. split; [in_trace|]. by left.
Qed.
End Handles.

(** * Expansion, node information and statistics *)

(** NodeExpandVolume checks nothing but the form of its request: for a volume ID
    that parses it makes one call, listing the volumes of the ID's label, and
    whatever is listed, even nothing, it succeeds with the required size of the
    request; every error of that call is reported as NotFound.  It resizes no
    file system. *)
Theorem node_expand_volume (req : NodeExpandVolumeRequest) :
  every_run (NodeExpandVolume req) (fun tr o =>
    match o with
    | Done (inr size) =>
        size = match ne_CapacityRange req with Some range => RequiredBytes range | None => 0 end /\
        exists key volumes metrics,
          ParseLinodeVolumeKey (ne_VolumeId req) = inr key /\
          tr = [Event (Api (Client.ListVolumes (label_filter (Label key)))) (inr volumes); metrics]
    | Done (inl err) =>
        (err = errNoVolumeID /\ ne_VolumeId req = "") \/
        (err = errNoVolumePath /\ ne_VolumePath req = "") \/
        status_code err = Some NotFound
    | Panicked _ => False
    end).
Proof.
  unfold every_run. run_rest; try done.
  { unfold validateNodeExpandVolumeRequest in Heqo. repeat case_match; simplify_eq; zify_bool; auto. }
  all: first [by right; right | split; [done|]; do 3 eexists; by split].
Qed.

(** NodeGetInfo answers with the ID the controller resolves back to the instance,
    the region of the metadata as topology, and the number of volumes that still
    fit: the attachment limit of the instance's memory less its disks, the same
    sum the controller applies before attaching. *)
Theorem node_get_info (ns : NodeServer)
  (Hid : is_int64 (md_ID (srv_metadata ns))) (Hmem : is_uint64 (md_Memory (srv_metadata ns))) :
  every_run (NodeGetInfo ns) (fun tr o =>
    match o with
    | Done (inr resp) =>
        exists disks,
          tr = [Event (Api (Client.ListInstanceDisks (md_ID (srv_metadata ns)))) (inr disks)] /\
          (forall caller, NodeIdAsInt caller (ni_NodeId resp) = inr (md_ID (srv_metadata ns))) /\
          ni_AccessibleTopology resp =
            {| Segments := {[VolumeTopologyRegion := md_Region (srv_metadata ns)]} |} /\
          (Z.of_nat (length disks) <= max_int64 ->
           ni_MaxVolumesPerNode resp =
             Z.max 8 (Z.min 64 (md_Memory (srv_metadata ns) / 2 ^ 30)) - Z.of_nat (length disks))
    | Done (inl err) => status_code err = Some Internal
    | Panicked _ => False
    end).
Proof.
  unfold every_run. run_rest; try done. eexists. split; [done|].
  split; [intros; by apply NodeIdAsInt_Itoa|]. split; [done|].
  intros Hd. cbn [ni_MaxVolumesPerNode]. rewrite maxVolumeAttachments_clamp by done.
  apply wrap64_id. unfold is_int64, min_int64, max_int64 in *. lia.
Qed.

Lemma node_get_info_witness :
  let ns := {|
    srv_driver := ex_driver "";
    srv_metadata := {| md_ID := 42; md_Label := ""; md_Region := "us-east";
                       md_Memory := Z.shiftl 16384 20 |} |} in
  every_run (NodeGetInfo ns) (fun tr o =>
    match o with
    | Done (inr resp) =>
        exists disks,
          tr = [Event (Api (Client.ListInstanceDisks 42)) (inr disks)] /\
          (forall caller, NodeIdAsInt caller (ni_NodeId resp) = inr 42) /\
          ni_AccessibleTopology resp = {| Segments := {[VolumeTopologyRegion := "us-east"]} |} /\
          (Z.of_nat (length disks) <= max_int64 ->
           ni_MaxVolumesPerNode resp = 16 - Z.of_nat (length disks))
    | Done (inl err) => status_code err = Some Internal
    | Panicked _ => False
    end).
Proof.
  intros ns. apply (node_get_info ns); vm_compute; split; congruence.
Defined.

(** The fields of [Statfs_t] have their types, and the products fit. *)
Definition statfs_fits (s : Statfs_t) : Prop :=
  0 <= Bsize s <= max_int64 /\ 0 <= Bfree s <= Blocks s /\ 0 <= Bavail s <= Blocks s /\
  Blocks s * Bsize s <= max_int64 /\ Blocks s <= max_int64 /\
  0 <= Ffree s <= Files s /\ Files s <= max_int64.

Definition stats_answer (req : NodeGetVolumeStatsRequest) (answer : Errno + Statfs_t)
    (r : goerror + NodeGetVolumeStatsResponse) : Prop :=
  match answer, r with
  | inl EIO, inr resp => Usage resp = [] /\ Abnormal (vs_VolumeCondition resp) = true
  | inl ENOENT, inl err => status_code err = Some NotFound
  | inl (EOther _), inl err => status_code err = Some Internal
  | inr s, inr resp =>
      Abnormal (vs_VolumeCondition resp) = false /\
      (statfs_fits s ->
       Usage resp = [
         {| vu_Available := Bavail s * Bsize s; vu_Total := Blocks s * Bsize s;
            vu_Used := (Blocks s - Bfree s) * Bsize s; vu_Unit := BYTES |};
         {| vu_Available := Ffree s; vu_Total := Files s;
            vu_Used := Files s - Ffree s; vu_Unit := INODES |}])
  | _, _ => False
  end.

Lemma stats_usage s : statfs_fits s ->
  wrap64 (wrap64 (Bavail s) * wrap64 (Bsize s)) = Bavail s * Bsize s /\
  wrap64 (wrap64 (Blocks s) * wrap64 (Bsize s)) = Blocks s * Bsize s /\
  wrap64 (wrap64 (wrapu64 (Blocks s - Bfree s)) * wrap64 (Bsize s)) = (Blocks s - Bfree s) * Bsize s.
Proof.
  intros (H1 & H2 & H3 & H4 & H5 & _). unfold max_int64 in *.
  assert (forall z, 0 <= z <= Blocks s -> is_int64 z /\ is_int64 (z * Bsize s)) as Hfit.
  { intros z Hz. unfold is_int64, is_uint64, min_int64, max_int64. nia. }
  destruct (Hfit (Bavail s)), (Hfit (Blocks s)), (Hfit (Blocks s - Bfree s)); try lia.
  rewrite (wrapu64_id (Blocks s - Bfree s)) by (unfold is_uint64; lia).
  rewrite !(wrap64_id (Bsize s)) by (unfold is_int64, min_int64, max_int64; lia).
  by rewrite !(wrap64_id (Bavail s)), !(wrap64_id (Blocks s)), !(wrap64_id (Blocks s - Bfree s)),
    !wrap64_id.
Qed.

(** NodeGetVolumeStats asks the kernel once and reports what it says: a volume
    whose file system answers EIO is abnormal but no error, a path that does not
    exist is NotFound, any other failure Internal; otherwise the bytes and inodes
    available, in total and in use, exactly, as long as the sizes fit in 63 bits.
    An empty ID or path is refused before. *)
Theorem node_volume_stats (req : NodeGetVolumeStatsRequest) :
  every_run (NodeGetVolumeStats req) (fun tr o =>
    match o with
    | Done r =>
        (tr = [] /\ (vs_VolumeId req = "" \/ vs_VolumePath req = "") /\
         exists err, r = inl err /\ status_code err = Some InvalidArgument) \/
        (exists answer, tr = [Event (Host (Sys.Statfs (vs_VolumePath req))) answer] /\
         stats_answer req answer r)
    | Panicked _ => False
    end).
Proof.
  unfold every_run. run_rest.
  { left. split; [done|]. split; [|by eexists].
    apply orb_true_iff in Heqb as [H|H]; zify_bool; auto. }
  { done. }
  all: right; eexists; split; [done|]; try done. split; [done|].
  intros Hs. pose proof (stats_usage _ Hs) as (-> & -> & ->).
  destruct Hs as (_ & _ & _ & _ & _ & Hf & Hm). cbn [Usage].
  rewrite !wrap64_id; unfold is_int64, min_int64, max_int64 in *; try lia. done.
Qed.
