(* ===== verification/ErrorCodes.v ===== *)
(** The gRPC codes of the errors that the handlers answer with.

    A client gets the code of the first gRPC status in the chain of the error, or,
    when there is none, that of the error of a context; [GrpcCodes] states what the
    server relies on grpc-go for.  [rpc_codes] is the table of the codes of each
    call; [error_codes] shows that it is exact. *)
From S2P Require Import Prelude GoStrings Types Errors Metrics Effects LinodeVolumes Sizes Config.
From S2P Require Import DeviceManager Luks NodeServer Controller ControllerProofs NodeProofs.

(** * The code of an error *)

Definition first_of {A} (l : list (option A)) : option A :=
  foldr (fun o rest => match o with Some a => Some a | None => rest end) None l.

(** The code of the first gRPC status that [errors.As] finds: an error of
    [fmt.Errorf] wraps an argument only if the format has the verb %w. *)
Fixpoint status_in (e : goerror) : option Code :=
  match e with
  | EStatus c _ _ => Some c
  | EErrorf format args => if Contains format "%w" then first_of (map status_arg args) else None
  | EJoin errs => first_of (map status_in errs)
  | _ => None
  end
with status_arg (a : arg) : option Code :=
  match a with AErr e => status_in e | _ => None end.

(** [errors.Is], of an error of the package context: only the API client is given
    the context of the call. *)
Fixpoint Is_context (x : ContextError) (e : goerror) : bool :=
  match e with
  | EApi e => bool_decide (ae_Context e = Some x)
  | EErrorf format args => Contains format "%w" && existsb (arg_context x) args
  | EJoin errs => existsb (Is_context x) errs
  | _ => false
  end
with arg_context (x : ContextError) (a : arg) : bool :=
  match a with AErr e => Is_context x e | _ => false end.

(** The code of the error of a handler: the server of google.golang.org/grpc asks
    [status.FromError] for the status of the error and, when it has none,
    [status.FromContextError]. *)
Class GrpcCodes := {
  grpc_code : goerror -> Code;
  grpc_code_status : forall e c, status_in e = Some c -> grpc_code e = c;
  grpc_code_deadline : forall e, status_in e = None ->
    Is_context context_DeadlineExceeded e = true -> grpc_code e = DeadlineExceeded;
  grpc_code_canceled : forall e, status_in e = None ->
    Is_context context_DeadlineExceeded e = false -> Is_context context_Canceled e = true -> grpc_code e = Canceled;
  grpc_code_other : forall e, status_in e = None ->
    Is_context context_DeadlineExceeded e = false -> Is_context context_Canceled e = false -> grpc_code e = Unknown;
}.

Definition context_code (e : goerror) : Code :=
  if Is_context context_DeadlineExceeded e then DeadlineExceeded
  else if Is_context context_Canceled e then Canceled else Unknown.

Definition first_code (e : goerror) : Code := default (context_code e) (status_in e).

Lemma first_code_status e c : status_in e = Some c -> first_code e = c.
Proof. unfold first_code. by intros ->. Qed.

Lemma first_code_context e : status_in e = None -> first_code e = context_code e.
Proof. unfold first_code. by intros ->. Qed.

Lemma first_code_deadline e :
  status_in e = None -> Is_context context_DeadlineExceeded e = true -> first_code e = DeadlineExceeded.
Proof. intros He H1. rewrite (first_code_context e He). unfold context_code. by rewrite H1. Qed.

Lemma first_code_canceled e :
  status_in e = None -> Is_context context_DeadlineExceeded e = false -> Is_context context_Canceled e = true ->
  first_code e = Canceled.
Proof. intros He H1 H2. rewrite (first_code_context e He). unfold context_code. by rewrite H1, H2. Qed.

Lemma first_code_other e :
  status_in e = None -> Is_context context_DeadlineExceeded e = false -> Is_context context_Canceled e = false ->
  first_code e = Unknown.
Proof. intros He H1 H2. rewrite (first_code_context e He). unfold context_code. by rewrite H1, H2. Qed.

#[export] Instance FromError : GrpcCodes := {
  grpc_code := first_code;
  grpc_code_status := first_code_status;
  grpc_code_deadline := first_code_deadline;
  grpc_code_canceled := first_code_canceled;
  grpc_code_other := first_code_other;
}.

Lemma grpc_code_first `{GrpcCodes} e : grpc_code e = first_code e.
Proof.
  unfold first_code. destruct (status_in e) as [c|] eqn:He; [by apply grpc_code_status|]. cbn. unfold context_code.
  destruct (Is_context context_DeadlineExceeded e) eqn:Hd; [by apply grpc_code_deadline|].
  destruct (Is_context context_Canceled e) eqn:Hc; [by apply grpc_code_canceled|by apply grpc_code_other].
Qed.

(** * The calls *)

(** The calls of the CSI services that can fail. *)
Inductive Rpc :=
| RpcCreateVolume (cs : ControllerServer) (req : CreateVolumeRequest)
| RpcDeleteVolume (volumeId : string)
| RpcControllerPublishVolume (req : ControllerPublishVolumeRequest)
| RpcControllerUnpublishVolume (req : ControllerUnpublishVolumeRequest)
| RpcValidateVolumeCapabilities (req : ValidateVolumeCapabilitiesRequest)
| RpcListVolumes (req : ListVolumesRequest)
| RpcControllerExpandVolume (req : ControllerExpandVolumeRequest)
| RpcNodePublishVolume (req : NodePublishVolumeRequest)
| RpcNodeUnpublishVolume (req : NodeUnpublishVolumeRequest)
| RpcNodeStageVolume (req : NodeStageVolumeRequest)
| RpcNodeUnstageVolume (req : NodeUnstageVolumeRequest)
| RpcNodeExpandVolume (req : NodeExpandVolumeRequest)
| RpcNodeGetInfo (ns : NodeServer)
| RpcNodeGetVolumeStats (req : NodeGetVolumeStatsRequest).

(** The handler, with its answer left out. *)
Definition answer_left_out {A} (p : eprog A) : eprog unit := let! _ := p in ok tt.

Definition rpc_handler (f : Rpc) : eprog unit :=
  match f with
  | RpcCreateVolume cs req => answer_left_out (CreateVolume cs req)
  | RpcDeleteVolume volumeId => DeleteVolume volumeId
  | RpcControllerPublishVolume req => answer_left_out (ControllerPublishVolume req)
  | RpcControllerUnpublishVolume req => ControllerUnpublishVolume req
  | RpcValidateVolumeCapabilities req => answer_left_out (ValidateVolumeCapabilities req)
  | RpcListVolumes req => answer_left_out (ListVolumes req)
  | RpcControllerExpandVolume req => answer_left_out (ControllerExpandVolume req)
  | RpcNodePublishVolume req => NodePublishVolume req
  | RpcNodeUnpublishVolume req => NodeUnpublishVolume req
  | RpcNodeStageVolume req => NodeStageVolume req
  | RpcNodeUnstageVolume req => NodeUnstageVolume req
  | RpcNodeExpandVolume req => answer_left_out (NodeExpandVolume req)
  | RpcNodeGetInfo ns => answer_left_out (NodeGetInfo ns)
  | RpcNodeGetVolumeStats req => answer_left_out (NodeGetVolumeStats req)
  end.

Inductive Method :=
| MCreateVolume | MDeleteVolume | MControllerPublishVolume | MControllerUnpublishVolume
| MValidateVolumeCapabilities | MListVolumes | MControllerExpandVolume
| MNodePublishVolume | MNodeUnpublishVolume | MNodeStageVolume | MNodeUnstageVolume
| MNodeExpandVolume | MNodeGetInfo | MNodeGetVolumeStats.

#[export] Instance Method_eq_dec : EqDecision Method.
Proof. solve_decision. Defined.

Definition method (f : Rpc) : Method :=
  match f with
  | RpcCreateVolume _ _ => MCreateVolume
  | RpcDeleteVolume _ => MDeleteVolume
  | RpcControllerPublishVolume _ => MControllerPublishVolume
  | RpcControllerUnpublishVolume _ => MControllerUnpublishVolume
  | RpcValidateVolumeCapabilities _ => MValidateVolumeCapabilities
  | RpcListVolumes _ => MListVolumes
  | RpcControllerExpandVolume _ => MControllerExpandVolume
  | RpcNodePublishVolume _ => MNodePublishVolume
  | RpcNodeUnpublishVolume _ => MNodeUnpublishVolume
  | RpcNodeStageVolume _ => MNodeStageVolume
  | RpcNodeUnstageVolume _ => MNodeUnstageVolume
  | RpcNodeExpandVolume _ => MNodeExpandVolume
  | RpcNodeGetInfo _ => MNodeGetInfo
  | RpcNodeGetVolumeStats _ => MNodeGetVolumeStats
  end.

(** The table. *)
Definition rpc_codes (m : Method) : list Code :=
  match m with
  | MCreateVolume => [InvalidArgument; AlreadyExists; Internal; Unknown]
  | MDeleteVolume => [InvalidArgument; FailedPrecondition; Internal]
  | MControllerPublishVolume =>
      [InvalidArgument; NotFound; AlreadyExists; ResourceExhausted; Unavailable; Internal;
       DeadlineExceeded; Canceled; Unknown]
  | MControllerUnpublishVolume => [InvalidArgument; Internal]
  | MValidateVolumeCapabilities => [InvalidArgument; NotFound; Internal]
  | MListVolumes => [Aborted; Internal]
  | MControllerExpandVolume => [InvalidArgument; Internal]
  | MNodePublishVolume | MNodeUnpublishVolume | MNodeUnstageVolume => [InvalidArgument; Internal]
  | MNodeStageVolume => [InvalidArgument; Internal; Unknown]
  | MNodeExpandVolume => [InvalidArgument; NotFound]
  | MNodeGetInfo => [Internal]
  | MNodeGetVolumeStats => [InvalidArgument; NotFound; Internal]
  end.

(** ** Every error is in the table *)

Definition code_in (l : list Code) (e : goerror) : Prop := first_code e ∈ l.

Definition coded {A} (l : list Code) (_ : trace) (o : outcome (goerror + A)) : Prop :=
  match o with Done (inl e) => code_in l e | _ => True end.

Ltac in_list := cbn [rpc_codes]; solve [repeat first [by apply list_elem_of_here | apply list_elem_of_further]].

(** The errors of the functions that check requests. *)
Lemma capacity_code l range e : Unknown ∈ l -> getRequestCapacitySize range = inl e -> code_in l e.
Proof. unfold getRequestCapacitySize. intros Hl ?. repeat case_match; by simplify_eq. Qed.

Lemma volume_id_code l caller s e : InvalidArgument ∈ l -> VolumeIdAsInt caller s = inl e -> code_in l e.
Proof. intros Hl [_ H]%VolumeIdAsInt_inl. unfold code_in. by destruct e; simplify_eq/=. Qed.

Lemma node_id_code l caller s e : InvalidArgument ∈ l -> NodeIdAsInt caller s = inl e -> code_in l e.
Proof. intros Hl [_ H]%NodeIdAsInt_inl. unfold code_in. by destruct e; simplify_eq/=. Qed.

Lemma parse_key_code l vid e : Unknown ∈ l -> ParseLinodeVolumeKey vid = inl e -> code_in l e.
Proof. unfold ParseLinodeVolumeKey. intros Hl ?. repeat case_match; by simplify_eq. Qed.

Lemma publish_request_code l req e :
  InvalidArgument ∈ l -> validateControllerPublishVolumeRequest req = inl e -> code_in l e.
Proof.
  unfold validateControllerPublishVolumeRequest. intros Hl ?.
  repeat case_match; simplify_eq; eauto using volume_id_code, node_id_code; done.
Qed.

Lemma list_options_code l req e : Aborted ∈ l -> list_options req = inl e -> code_in l e.
Proof. unfold list_options. intros Hl ?. repeat case_match; by simplify_eq. Qed.

Lemma create_request_code l req e : InvalidArgument ∈ l -> validateCreateVolumeRequest req = Some e -> code_in l e.
Proof. unfold validateCreateVolumeRequest. intros Hl ?. repeat case_match; by simplify_eq. Qed.

Lemma node_request_code l :
  InvalidArgument ∈ l ->
  (forall req e, validateNodePublishVolumeRequest req = Some e -> code_in l e) /\
  (forall req e, validateNodeUnpublishVolumeRequest req = Some e -> code_in l e) /\
  (forall req e, validateNodeStageVolumeRequest req = Some e -> code_in l e) /\
  (forall req e, validateNodeUnstageVolumeRequest req = Some e -> code_in l e) /\
  (forall req e, validateNodeExpandVolumeRequest req = Some e -> code_in l e).
Proof.
  intros Hl. split_and!; intros req e;
    unfold validateNodePublishVolumeRequest, validateNodeUnpublishVolumeRequest, validateNodeStageVolumeRequest,
      validateNodeUnstageVolumeRequest, validateNodeExpandVolumeRequest; intros ?; repeat case_match; by simplify_eq.
Qed.

(** The error comes from a check of the request, or the handler makes it. *)
Local Ltac code :=
  repeat match goal with
  | |- any_call _ _ => exact I
  | |- _ /\ (forall r, any_env _ _ r -> _) => split; [exact I|intros ? _]
  end;
  cbn [coded]; try done;
  match goal with
  | H : VolumeIdAsInt _ _ = inl ?e |- code_in ?l ?e => apply (volume_id_code l _ _ _ ltac:(in_list) H)
  | H : NodeIdAsInt _ _ = inl ?e |- code_in ?l ?e => apply (node_id_code l _ _ _ ltac:(in_list) H)
  | H : ParseLinodeVolumeKey _ = inl ?e |- code_in ?l ?e => apply (parse_key_code l _ _ ltac:(in_list) H)
  | H : validateControllerPublishVolumeRequest _ = inl ?e |- code_in ?l ?e =>
      apply (publish_request_code l _ _ ltac:(in_list) H)
  | H : list_options _ = inl ?e |- code_in ?l ?e => apply (list_options_code l _ _ ltac:(in_list) H)
  | H : getRequestCapacitySize _ = inl ?e |- code_in ?l ?e => apply (capacity_code l _ _ ltac:(in_list) H)
  | H : validateCreateVolumeRequest _ = Some ?e |- code_in ?l ?e => apply (create_request_code l _ _ ltac:(in_list) H)
  | H : _ = Some ?e |- code_in ?l ?e =>
      destruct (node_request_code l ltac:(in_list)) as (? & ? & ? & ? & ?); by eauto
  | |- _ => unfold code_in, first_code, context_code; cbn; repeat case_match; in_list
  end.

Section Stage.
Context {D : DeviceUtils} {HD : DeviceUtilsLaws D}.

Lemma stage_codes req : every_run (NodeStageVolume req) (coded (rpc_codes MNodeStageVolume)).
Proof.
  unfold every_run, NodeStageVolume. apply wp_locked. split; [done|]. intros [] _.
  cbv zeta. rewrite partition_get.
  destruct (validateNodeStageVolumeRequest _) as [?|] eqn:?; [run_rest; code|].
  destruct (ParseLinodeVolumeKey _) as [?|key] eqn:Hkey; [run_rest; code|].
  apply wp_bind, wp_findDevicePath; [done|]. intros trd [err|path] Hdev Hfound.
  - cbn [found_device] in Hfound. destruct err; simplify_eq/=. run_rest; code.
  - unfold mountVolume, try_else. destruct (getFSTypeAndMountOptions _) as [fsType options] eqn:Hopts. run_rest; code.
Qed.

End Stage.

Lemma handler_codes f : every_run (rpc_handler f) (coded (rpc_codes (method f))).
Proof.
  destruct f; cbn [rpc_handler rpc_codes method]; try apply stage_codes; unfold every_run, answer_left_out;
    run_rest; code.
Qed.

(** ** Every code in the table is answered *)

(** The outcome in a world that answers a call always in the same way. *)
Definition outcome_in (world : forall c : cmd, resp c) (f : Rpc) : outcome (goerror + unit) :=
  (run (fun c (w : unit) => (world c, w)) (rpc_handler f) tt).1.2.

(** The calls of the API that [fails] names fail with [err]. *)
Definition api_error (err : ApiError) (a : Client.call) : Client.answer a :=
  match a return Client.answer a with
  | Client.DetachVolume _ | Client.DeleteVolume _ | Client.ResizeVolume _ _ => Some err
  | _ => inl err
  end.

Definition failing (fails : Client.call -> bool) (err : ApiError) (c : cmd) : resp c :=
  match c return resp c with
  | Api a => if fails a then api_error err a else ex_account a
  | c => ex_world c
  end.

Definition api_404 : ApiError := {| ae_IsNotFound := true; ae_Message := None; ae_Context := None; ae_Text := "[404] Not found" |}.
Definition api_500 : ApiError := {| ae_IsNotFound := false; ae_Message := None; ae_Context := None; ae_Text := "[500]" |}.
Definition api_attached : ApiError :=
  {| ae_IsNotFound := false; ae_Message := Some "Volume 7 is already attached"; ae_Context := None; ae_Text := "[400]" |}.

(** The context of the call ended while the client waited. *)
Definition api_context (x : ContextError) : ApiError :=
  {| ae_IsNotFound := false; ae_Message := None; ae_Context := Some x; ae_Text := "Error waiting for Volume 7" |}.

(** The volumes are attached to the instance 43, and listed. *)
Definition taken (c : cmd) : resp c :=
  match c return resp c with
  | Api a =>
      match a return Client.answer a with
      | Client.GetVolume id => inr (Some (ex_volume id (Some 43)))
      | Client.ListVolumes _ => inr [ex_volume 7 (Some 43)]
      | a => ex_account a
      end
  | c => ex_world c
  end.

(** The instance has as many volumes as fit. *)
Definition crowded (c : cmd) : resp c :=
  match c return resp c with
  | Api a =>
      match a return Client.answer a with
      | Client.ListInstanceVolumes _ => inr (repeat (ex_volume 8 (Some 42)) 8)
      | a => ex_account a
      end
  | c => ex_world c
  end.

(** The kernel has another error, and nothing can be unmounted. *)
Definition stuck_node (c : cmd) : resp c :=
  match c return resp c with
  | Mnt m =>
      match m return Mounter.answer m with
      | Mounter.IsLikelyNotMountPoint _ => (true, None)
      | _ => Some "busy"
      end
  | Host h =>
      match h return Sys.answer h with
      | Sys.Statfs _ => inl (EOther "EACCES")
      | Sys.NewMetadataClient => None
      | Sys.MetadataGetInstance => inr None
      end
  | c => ex_world c
  end.

(** A request and a world for each code of each call. *)
Definition example : Type := Code * ((forall c : cmd, resp c) * Rpc).

Definition ex_controller : ControllerServer :=
  {| cs_driver := ex_driver "";
     cs_metadata := {| md_ID := 42; md_Label := "node"; md_Region := "us-east"; md_Memory := 2 ^ 32 |} |}.

Definition ex_request (name : string) (required : Z) : CreateVolumeRequest :=
  {| cv_Name := name; cv_CapacityRange := Some {| RequiredBytes := required; LimitBytes := 0 |};
     cv_VolumeCapabilities := [Some ex_capability]; cv_Parameters := ∅;
     cv_VolumeContentSource := None; cv_AccessibilityRequirements := None |}.

Definition ex_publication (vid : string) : ControllerPublishVolumeRequest :=
  {| cp_VolumeId := vid; cp_NodeId := "42"; cp_VolumeCapability := Some ex_capability |}.

Definition any_api (a : Client.call) : bool := true.
Definition an_attach (a : Client.call) : bool := match a with Client.AttachVolume _ _ => true | _ => false end.
Definition a_wait (a : Client.call) : bool := match a with Client.WaitForVolumeLinodeID _ _ _ => true | _ => false end.

Definition examples (m : Method) : list example :=
  match m with
  | MCreateVolume =>
      let f name size := RpcCreateVolume ex_controller (ex_request name size) in
      [(InvalidArgument, (ex_world, f "" (2 ^ 34))); (AlreadyExists, (taken, f "pvc-1" (2 ^ 34)));
       (Internal, (failing any_api api_500, f "pvc-1" (2 ^ 34))); (Unknown, (ex_world, f "pvc-1" (-1)))]
  | MDeleteVolume =>
      [(InvalidArgument, (ex_world, RpcDeleteVolume "")); (FailedPrecondition, (taken, RpcDeleteVolume "7-pvc-1"));
       (Internal, (failing any_api api_500, RpcDeleteVolume "7-pvc-1"))]
  | MControllerPublishVolume =>
      let f vid := RpcControllerPublishVolume (ex_publication vid) in
      [(InvalidArgument, (ex_world, f "")); (NotFound, (failing any_api api_404, f "7-pvc-1"));
       (AlreadyExists, (taken, f "7-pvc-1")); (ResourceExhausted, (crowded, f "7-pvc-1"));
       (Unavailable, (failing an_attach api_attached, f "7-pvc-1"));
       (Internal, (failing any_api api_500, f "7-pvc-1"));
       (DeadlineExceeded, (failing a_wait (api_context context_DeadlineExceeded), f "7-pvc-1"));
       (Canceled, (failing a_wait (api_context context_Canceled), f "7-pvc-1"));
       (Unknown, (failing a_wait api_500, f "7-pvc-1"))]
  | MControllerUnpublishVolume =>
      let f vid := RpcControllerUnpublishVolume {| cu_VolumeId := vid; cu_NodeId := "42" |} in
      [(InvalidArgument, (ex_world, f "")); (Internal, (failing any_api api_500, f "7-pvc-1"))]
  | MValidateVolumeCapabilities =>
      let f vid := RpcValidateVolumeCapabilities
        {| vv_VolumeId := vid; vv_VolumeCapabilities := [Some ex_capability] |} in
      [(InvalidArgument, (ex_world, f "")); (NotFound, (failing any_api api_404, f "7-pvc-1"));
       (Internal, (failing any_api api_500, f "7-pvc-1"))]
  | MListVolumes =>
      let f token := RpcListVolumes {| lv_MaxEntries := 0; lv_StartingToken := token |} in
      [(Aborted, (ex_world, f "next")); (Internal, (failing any_api api_500, f ""))]
  | MControllerExpandVolume =>
      let f vid := RpcControllerExpandVolume
        {| ce_VolumeId := vid; ce_CapacityRange := Some {| RequiredBytes := 2 ^ 36; LimitBytes := 0 |} |} in
      [(InvalidArgument, (ex_world, f "")); (Internal, (failing any_api api_404, f "7-pvc-1"))]
  | MNodePublishVolume =>
      let f vid access := RpcNodePublishVolume
        {| np_VolumeId := vid; np_PublishContext := ∅; np_StagingTargetPath := "/staging"; np_TargetPath := "/target";
           np_VolumeCapability := Some {| vc_AccessType := access; vc_AccessMode := Some SINGLE_NODE_WRITER |};
           np_Readonly := false |} in
      [(InvalidArgument, (ex_world, f "" (AccessMount None))); (Internal, (stuck_node, f "7-pvc-1" (AccessMount None)))]
  | MNodeUnpublishVolume =>
      let f vid := RpcNodeUnpublishVolume {| nup_VolumeId := vid; nup_TargetPath := "/target" |} in
      [(InvalidArgument, (ex_world, f "")); (Internal, (stuck_node, f "7-pvc-1"))]
  | MNodeStageVolume =>
      let f vid := RpcNodeStageVolume
        {| ns_VolumeId := vid; ns_StagingTargetPath := "/staging"; ns_VolumeCapability := Some ex_capability;
           ns_Secrets := ∅; ns_VolumeContext := ∅ |} in
      [(InvalidArgument, (ex_world, f "")); (Internal, (stuck_node, f "7-pvc-1")); (Unknown, (ex_world, f "pvc"))]
  | MNodeUnstageVolume =>
      let f vid := RpcNodeUnstageVolume {| nu_VolumeId := vid; nu_StagingTargetPath := "/staging" |} in
      [(InvalidArgument, (ex_world, f "")); (Internal, (ex_world, f "pvc"))]
  | MNodeExpandVolume =>
      let f vid := RpcNodeExpandVolume {| ne_VolumeId := vid; ne_VolumePath := "/target"; ne_CapacityRange := None |} in
      [(InvalidArgument, (ex_world, f "")); (NotFound, (failing any_api api_500, f "7-pvc-1"))]
  | MNodeGetInfo =>
      [(Internal, (failing any_api api_500,
         RpcNodeGetInfo {| srv_driver := ex_driver ""; srv_metadata := cs_metadata ex_controller |}))]
  | MNodeGetVolumeStats =>
      let f path := RpcNodeGetVolumeStats {| vs_VolumeId := "7-pvc-1"; vs_VolumePath := path |} in
      [(InvalidArgument, (ex_world, f "")); (NotFound, (ex_world, f "/target")); (Internal, (stuck_node, f "/target"))]
  end.

Definition answers_code (m : Method) (x : example) : bool :=
  let '(c, (world, f)) := x in
  bool_decide (method f = m) &&
  match outcome_in world f with Done (inl e) => bool_decide (first_code e = c) | _ => false end.

Lemma examples_answer m : forallb (answers_code m) (examples m) = true /\ rpc_codes m = fst <$> examples m.
Proof. destruct m; split; vm_compute; reflexivity. Qed.

(** C22. The types of the errors: whatever the API, the node and the kernel answer,
    every error of a call of the Controller or the Node service reaches the client
    with one of the gRPC codes that [rpc_codes] lists for the call, and each of
    them is the code of some error of that call.  Unknown, the code of an error
    that is neither a gRPC status nor the error of a context, is there for
    CreateVolume, of a capacity range that is refused, for NodeStageVolume, of a
    volume ID that does not parse, and for ControllerPublishVolume, of a wait for
    the attachment that fails.  That error is returned with no status, so that a
    wait that the deadline or the cancelling of its context ends is answered
    DeadlineExceeded or Canceled; no other call answers these codes. *)
Theorem error_codes `{GrpcCodes} :
  (forall (f : Rpc) W (env : forall c : cmd, W -> resp c * W) (w : W),
     match (run env (rpc_handler f) w).1.2 with
     | Done (inl e) => grpc_code e ∈ rpc_codes (method f)
     | _ => True
     end) /\
  (forall (m : Method) (c : Code), c ∈ rpc_codes m ->
     exists f world e, method f = m /\ outcome_in world f = Done (inl e) /\ grpc_code e = c).
Proof.
  split.
  - intros f W env w. pose proof (run_wp env _ _ _ _ w (fun _ _ _ => I) (handler_codes f)) as Hrun.
    destruct (run env (rpc_handler f) w) as [[tr o] w']. destruct Hrun as [Hrun _]. cbn.
    destruct o as [[e|]|]; [|done..]. rewrite grpc_code_first. exact Hrun.
  - intros m c Hc. destruct (examples_answer m) as [Hall Hcodes]. rewrite Hcodes in Hc.
    apply list_elem_of_fmap in Hc as ([c' [world f]] & -> & Hin).
    rewrite forallb_forall in Hall. apply list_elem_of_In, Hall in Hin. unfold answers_code in Hin.
    apply andb_true_iff in Hin as [Hm%bool_decide_eq_true Ho].
    destruct (outcome_in world f) as [[e|]|] eqn:He; [|done..]. apply bool_decide_eq_true in Ho.
    exists f, world, e. by rewrite grpc_code_first.
Qed.

(** A volume that has the label in another size is reported as existing. *)
Lemma error_codes_witness :
  grpc_code errNoVolumeID = InvalidArgument /\ grpc_code (EApi (api_context context_Canceled)) = Canceled /\
  exists f world e, method f = MCreateVolume /\ outcome_in world f = Done (inl e) /\
    grpc_code e = AlreadyExists.
Proof.
  split; [reflexivity|]. split; [reflexivity|]. apply (proj2 error_codes MCreateVolume AlreadyExists). in_list.
Defined.
