(* ===== verification/Concurrency.v ===== *)
(** Handlers that run at the same time.

    gRPC serves every call in a goroutine of its own.  A configuration is the list
    of the running programs, the holder of the node server's mutex and the state
    of the world around them; a step is one call of one of them.  Handlers that
    keep the mutex from their first call to their last are serializable, and
    every schedule of them ends with all of them answered. *)
From S2P Require Import Prelude GoStrings Types Errors Metrics Effects LinodeVolumes Sizes Config.
From S2P Require Import DeviceManager Luks NodeServer Controller ControllerProofs NodeProofs.

(** * Configurations and steps *)

Section Pool.
Context {W A : Type} (env : forall c : cmd, W -> resp c * W).

Record Pool := { threads : list (prog A); holder : option nat; world : W }.

(** One call of one thread; a thread waits for a mutex that is held. *)
Inductive pstep : Pool -> Pool -> Prop :=
| step_call ts h w i c k :
    ts !! i = Some (Call c k) -> no_mutex c ->
    pstep {| threads := ts; holder := h; world := w |}
          {| threads := <[i := k (env c w).1]> ts; holder := h; world := (env c w).2 |}
| step_lock ts w i (k : resp Lock -> prog A) :
    ts !! i = Some (Call Lock k) ->
    pstep {| threads := ts; holder := None; world := w |}
          {| threads := <[i := k tt]> ts; holder := Some i; world := w |}
| step_unlock ts j w i (k : resp Unlock -> prog A) :
    ts !! i = Some (Call Unlock k) ->
    pstep {| threads := ts; holder := Some j; world := w |}
          {| threads := <[i := k tt]> ts; holder := None; world := w |}.

Definition start (ps : list (prog A)) (w : W) : Pool :=
  {| threads := ps; holder := None; world := w |}.

Definition ended (o : outcome A) : prog A :=
  match o with Done a => Ret a | Panicked why => Panic why end.

Definition finished (p : prog A) : bool := match p with Call _ _ => false | _ => true end.

(** Every handler has ended and the mutex is free. *)
Definition complete (c : Pool) : Prop :=
  forallb finished (threads c) = true /\ holder c = None.

(** What a program answers, and what it makes of the world, when it runs alone. *)
Definition alone (p : prog A) (w : W) : outcome A * W :=
  let '(_, o, w') := run env p w in (o, w').

(** The programs one after the other, in the given order. *)
Fixpoint serial (ps : list (prog A)) (order : list nat) (w : W) : list (nat * outcome A) * W :=
  match order with
  | [] => ([], w)
  | i :: order =>
      match ps !! i with
      | Some p =>
          let '(o, w1) := alone p w in
          let '(outs, w2) := serial ps order w1 in
          ((i, o) :: outs, w2)
      | None => serial ps order w
      end
  end.

(** * Every schedule ends *)

(** The rest of a program after its first call was answered. *)
Definition rest_of (p' p : prog A) : Prop := exists c k r, p = Call c k /\ p' = k r.

Lemma rest_of_wf p : Acc rest_of p.
Proof.
  induction p as [a|why|c k IH]; constructor; intros p' (c' & k' & r & H & ->); [done..|].
  pose proof (Call_inj_cmd _ _ _ _ H) as <-. by apply Call_inj in H as <-.
Qed.

Definition advances (ts' ts : list (prog A)) : Prop :=
  exists i p p', ts !! i = Some p /\ rest_of p' p /\ ts' = <[i := p']> ts.

Lemma advances_wf ts : Acc advances ts.
Proof.
  induction ts as [|p ts IH]; [by constructor; intros ? (i & ? & ? & ? & _)|].
  revert ts IH. induction (rest_of_wf p) as [p _ IHp]. intros ts Hts.
  induction Hts as [ts Hacc IHts].
  constructor. intros ts' ([|i] & q & q' & Hq & Hrest & ->); cbn in *.
  - injection Hq as <-. apply IHp; [done|]. by constructor.
  - apply IHts. by exists i, q, q'.
Qed.

Lemma pstep_advances c c' : pstep c c' -> advances (threads c') (threads c).
Proof. destruct 1; cbn; do 3 eexists; (split; [eassumption|]); split; try done; by do 3 eexists. Qed.

Lemma pstep_wf c : Acc (fun c' c => pstep c c') c.
Proof.
  remember (threads c) as ts eqn:Hts. revert c Hts.
  induction (advances_wf ts) as [ts _ IH]. intros c ->. constructor. intros c' Hstep.
  by eapply IH; [apply pstep_advances|].
Qed.
End Pool.
Arguments Pool : clear implicits.

(** * Handlers under the mutex *)

(** A program that leaves the mutex alone. *)
Fixpoint quiet {A} (p : prog A) : Prop :=
  match p with
  | Call c k => no_mutex c /\ forall r, quiet (k r)
  | _ => True
  end.

Lemma wp_quiet {A} (p : prog A) Q tr : wp any_env (fun _ => no_mutex) p Q tr -> quiet p.
Proof.
  revert tr. induction p as [a|why|c k IH]; intros tr; cbn; [done..|].
  intros [Hc H]. split; [done|]. intros r. by eapply IH, H.
Qed.

Lemma finally_goes_on {A} (q : prog A) c k :
  finally q Unlock = Call c k -> no_mutex c ->
  exists k', q = Call c k' /\ k = fun r => finally (k' r) Unlock.
Proof.
  intros H [_ Hc]. destruct q as [a|why|c1 k1]; cbn in H.
  1,2: by destruct Hc; apply Call_inj_cmd in H.
  pose proof (Call_inj_cmd _ _ _ _ H) as <-. apply Call_inj in H as <-. by exists k1.
Qed.

Lemma finally_ends {A} (q : prog A) (k : resp Unlock -> prog A) :
  finally q Unlock = Call Unlock k -> quiet q -> exists o, q = ended o /\ k tt = ended o.
Proof.
  intros H Hq. destruct q as [a|why|c1 k1]; cbn in H.
  - apply Call_inj in H as <-. by exists (Done a).
  - apply Call_inj in H as <-. by exists (Panicked why).
  - apply Call_inj_cmd in H as ->. by destruct Hq as [[_ Hc] _].
Qed.

Lemma finally_waits {A} (q : prog A) (k : resp Lock -> prog A) :
  finally q Unlock = Call Lock k -> quiet q -> False.
Proof.
  intros H Hq. destruct q as [a|why|c1 k1]; cbn in H; apply Call_inj_cmd in H; try done.
  subst. by destruct Hq as [[Hc _] _].
Qed.

Lemma locked_calls {A} (p : prog A) c k : locked p = Call c k -> c = Lock.
Proof. intros H. symmetry. exact (Call_inj_cmd _ _ _ _ H). Qed.

Lemma locked_starts {A} (p : prog A) (k : resp Lock -> prog A) :
  locked p = Call Lock k -> k tt = finally p Unlock.
Proof. intros H. by apply (Call_inj Lock (fun _ => finally p Unlock)) in H as <-. Qed.

Section Locked.
Context {W A : Type} (env : forall c : cmd, W -> resp c * W).
Context (bodies : list (prog A)) (w0 : W).
Hypothesis bodies_quiet : Forall quiet bodies.

Lemma alone_ended (o : outcome A) w : alone env (ended o) w = (o, w).
Proof. by destruct o. Qed.

Lemma alone_call c (k : resp c -> prog A) w : alone env (Call c k) w = alone env (k (env c w).1) (env c w).2.
Proof.
  unfold alone. cbn [run]. destruct (env c w) as [r w1]. cbn [fst snd].
  by destruct (run env (k r) w1) as [[tr o] w2].
Qed.

Lemma serial_snoc (ps : list (prog A)) order i p w outs w1 o w2 :
  serial env ps order w = (outs, w1) -> ps !! i = Some p -> alone env p w1 = (o, w2) ->
  serial env ps (order ++ [i]) w = (outs ++ [(i, o)], w2).
Proof.
  intros Hs Hp Ho. revert w outs Hs. induction order as [|j order IH]; intros w outs Hs; cbn in *.
  - injection Hs as <- <-. by rewrite Hp, Ho.
  - destruct (ps !! j) as [q|]; [|by apply IH]. destruct (alone env q w) as [oj wj].
    destruct (serial env ps order wj) as [outs' w'] eqn:E. injection Hs as <- <-.
    by rewrite (IH _ _ E).
Qed.

(** What holds of a thread: done in its turn, not begun, or in the middle with
    the mutex. *)
Record invariant (order : list nat) (c : Pool W A) : Prop := {
  inv_length : length (threads c) = length bodies;
  inv_order : NoDup order;
  inv_done : exists outs w1,
    serial env bodies order w0 = (outs, w1) /\ fst <$> outs = order /\
    (forall i o, (i, o) ∈ outs -> threads c !! i = Some (ended o)) /\
    match holder c with
    | None => world c = w1
    | Some i => (i ∉ order) /\ exists p q,
        bodies !! i = Some p /\ threads c !! i = Some (finally q Unlock) /\ quiet q /\
        alone env q (world c) = alone env p w1
    end;
  inv_waiting : forall i, i ∉ order -> holder c <> Some i -> threads c !! i = locked <$> bodies !! i;
}.

Lemma invariant_start : invariant [] (start (locked <$> bodies) w0).
Proof.
  split; cbn.
  - apply length_fmap.
  - constructor.
  - exists [], w0. split_and!; try done. by intros i o ?%elem_of_nil.
  - intros i _ _. apply list_lookup_fmap.
Qed.

(** A thread that makes a call has not been served yet. *)
Lemma calls_unserved order c i c' k :
  invariant order c -> threads c !! i = Some (Call c' k) -> i ∉ order.
Proof.
  intros [_ _ (outs & w1 & _ & <- & Hdone & _) _] Hi ([i' o] & -> & Ho)%list_elem_of_fmap.
  specialize (Hdone _ _ Ho). cbn in Hi. rewrite Hdone in Hi. by destruct o.
Qed.

(** The thread that makes a call other than Lock holds the mutex. *)
Lemma caller_holds order c i c' k :
  invariant order c -> threads c !! i = Some (Call c' k) -> c' <> Lock -> holder c = Some i.
Proof.
  intros Hinv Hi Hc. pose proof (calls_unserved _ _ _ _ _ Hinv Hi) as Hord.
  destruct (decide (holder c = Some i)) as [|Hh]; [done|].
  rewrite (inv_waiting _ _ Hinv i Hord Hh), fmap_Some in Hi. destruct Hi as (p & _ & Hp).
  by destruct Hc; apply eq_sym, locked_calls in Hp.
Qed.

Lemma step_keeps order c c' :
  invariant order c -> pstep env c c' -> exists order', invariant order' c'.
Proof.
  intros Hinv Hstep. destruct Hstep as [ts h w i c k Hi Hc|ts w i k Hi|ts j w i k Hi].
  - pose proof (caller_holds _ _ _ _ _ Hinv Hi ltac:(by destruct Hc)) as Hh. cbn in Hh. subst h.
    exists order. destruct Hinv as [Hlen Hnd (outs & w1 & Hs & Ho & Hdone & Hni & p & q & Hp & Hq & Hquiet & Hal) Hwait].
    cbn in *. rewrite Hi in Hq. injection Hq as Hq. symmetry in Hq.
    destruct (finally_goes_on _ _ _ Hq Hc) as (k' & -> & ->).
    split; cbn; [by rewrite length_insert|done| |].
    + exists outs, w1. split_and!; try done.
      * intros i' o Hin. rewrite list_lookup_insert_ne; [by apply Hdone|]. intros <-.
        apply Hni. rewrite <- Ho. apply list_elem_of_fmap. by exists (i, o).
      * exists p, (k' (env c w).1). split_and!; try done.
        -- apply list_lookup_insert_eq. by eapply lookup_lt_Some.
        -- apply Hquiet.
        -- by rewrite <- Hal, alone_call.
    + intros i' Hi' Hne. rewrite list_lookup_insert_ne by congruence. by apply Hwait.
  - exists order.
    pose proof (calls_unserved _ _ _ _ _ Hinv Hi) as Hni.
    destruct Hinv as [Hlen Hnd (outs & w1 & Hs & Ho & Hdone & Hw) Hwait]. cbn in *. subst w1.
    pose proof (Hwait i Hni ltac:(done)) as Hp. rewrite Hi in Hp. symmetry in Hp.
    apply fmap_Some in Hp as (p & Hp & Hk). symmetry in Hk. apply locked_starts in Hk.
    split; cbn; [by rewrite length_insert|done| |].
    + exists outs, w. split_and!; try done.
      * intros i' o Hin. rewrite list_lookup_insert_ne; [by apply Hdone|]. intros <-.
        apply Hni. rewrite <- Ho. apply list_elem_of_fmap. by exists (i, o).
      * exists p, p. split_and!; try done; [|by eapply Forall_lookup_1].
        rewrite Hk. apply list_lookup_insert_eq. by eapply lookup_lt_Some.
    + intros i' Hi' Hne. rewrite list_lookup_insert_ne by congruence. by apply Hwait.
  - pose proof (caller_holds _ _ _ _ _ Hinv Hi ltac:(done)) as Hh. cbn in Hh. injection Hh as ->.
    exists (order ++ [i]).
    destruct Hinv as [Hlen Hnd (outs & w1 & Hs & Ho & Hdone & Hni & p & q & Hp & Hq & Hquiet & Hal) Hwait].
    cbn in *. rewrite Hi in Hq. injection Hq as Hq. symmetry in Hq.
    destruct (finally_ends _ _ Hq Hquiet) as (o & -> & Hk). rewrite alone_ended in Hal.
    split; cbn.
    + by rewrite length_insert.
    + apply list.NoDup_app. split_and!; [done| |apply list.NoDup_singleton].
      intros i' Hi' ->%list_elem_of_singleton. done.
    + exists (outs ++ [(i, o)]), w. split_and!; [by eapply serial_snoc|by rewrite fmap_app, Ho| |done].
      intros i' o' [Hin|[= -> ->]%list_elem_of_singleton]%elem_of_app.
      * rewrite list_lookup_insert_ne; [by apply Hdone|]. intros <-.
        apply Hni. rewrite <- Ho. apply list_elem_of_fmap. by exists (i, o').
      * rewrite Hk. apply list_lookup_insert_eq. by eapply lookup_lt_Some.
    + intros i' Hi' _. rewrite not_elem_of_app, list_elem_of_singleton in Hi'. destruct Hi' as [Hi' Hne].
      rewrite list_lookup_insert_ne by congruence. by apply Hwait; congruence.
Qed.

Lemma steps_keep c :
  rtc (pstep env) (start (locked <$> bodies) w0) c -> exists order, invariant order c.
Proof.
  intros Hsteps. assert (exists order, invariant order (start (locked <$> bodies) w0)) as Hinv.
  { exists []. apply invariant_start. }
  revert Hinv. induction Hsteps as [c|c c1 c2 Hstep _ IH]; [done|].
  intros [order Hinv]. apply IH. by eapply step_keeps.
Qed.

(** No deadlock: a schedule stops only when every handler has ended. *)
Lemma stuck_complete order c : invariant order c -> nf (pstep env) c -> complete c.
Proof.
  intros Hinv Hnf. destruct c as [ts h w]. unfold complete. cbn.
  assert (h = None) as ->.
  { destruct h as [i|]; [|done]. destruct Hnf.
    destruct (inv_done _ _ Hinv) as (outs & w1 & _ & _ & _ & _ & p & q & _ & Hq & Hquiet & _). cbn in Hq.
    destruct q as [a|why|c k]; cbn in Hq; eexists.
    - by eapply (step_unlock _ _ _ _ i).
    - by eapply (step_unlock _ _ _ _ i).
    - eapply (step_call _ _ _ _ i); [exact Hq|apply Hquiet]. }
  split; [|done]. apply forallb_forall. intros p Hp%list_elem_of_In.
  apply list_elem_of_lookup in Hp as [i Hi]. destruct p as [a|why|c k]; [done..|].
  destruct Hnf. pose proof (calls_unserved _ _ _ _ _ Hinv Hi) as Hni.
  pose proof (inv_waiting _ _ Hinv i Hni ltac:(done)) as Hp. cbn in Hi, Hp. rewrite Hi in Hp.
  symmetry in Hp. apply fmap_Some in Hp as (p & _ & Hk). symmetry in Hk.
  pose proof (locked_calls _ _ _ Hk) as ->. eexists. by eapply (step_lock _ _ _ i).
Qed.

(** A complete schedule did what the programs do one after the other. *)
Lemma complete_serial order c :
  invariant order c -> complete c ->
  order ≡ₚ seq 0 (length bodies) /\
  exists outs, serial env bodies order w0 = (outs, world c) /\
    forall i o, (i, o) ∈ outs -> threads c !! i = Some (ended o).
Proof.
  intros Hinv [Hfin Hfree]. rewrite forallb_forall in Hfin.
  destruct Hinv as [Hlen Hnd (outs & w1 & Hs & Ho & Hdone & Hw) Hwait]. rewrite Hfree in Hw. subst w1.
  split; [|by exists outs].
  apply NoDup_Permutation; [done|apply NoDup_seq|]. intros i. rewrite elem_of_seq. split.
  - rewrite <- Ho. intros ([i' o] & -> & Hin)%list_elem_of_fmap.
    apply Hdone, lookup_lt_Some in Hin. cbn. lia.
  - intros Hi. destruct (decide (i ∈ order)) as [|Hni]; [done|]. exfalso.
    destruct (lookup_lt_is_Some_2 bodies i ltac:(lia)) as [p Hp].
    specialize (Hwait i Hni ltac:(by rewrite Hfree)). rewrite Hp in Hwait. cbn in Hwait.
    apply list_elem_of_lookup_2, list_elem_of_In in Hwait. by specialize (Hfin _ Hwait).
Qed.
End Locked.

(** * The Node service *)

(** The calls of the CSI protocol that mount and unmount. *)
Inductive NodeCall :=
| CallPublish (req : NodePublishVolumeRequest)
| CallUnpublish (req : NodeUnpublishVolumeRequest)
| CallStage (req : NodeStageVolumeRequest)
| CallUnstage (req : NodeUnstageVolumeRequest).

Section Node.
Context {D : DeviceUtils} {HD : DeviceUtilsLaws D}.

Definition node_handle (q : NodeCall) : eprog unit :=
  match q with
  | CallPublish req => NodePublishVolume req
  | CallUnpublish req => NodeUnpublishVolume req
  | CallStage req => NodeStageVolume req
  | CallUnstage req => NodeUnstageVolume req
  end.

Lemma node_bodies qs : exists bodies, node_handle <$> qs = locked <$> bodies /\ Forall quiet bodies.
Proof.
  destruct handlers_under_mutex as (H1 & H2 & H3 & H4).
  induction qs as [|q qs (bodies & Heq & Hquiet)]; [by exists []|].
  assert (under_mutex (node_handle q)) as (p & Hp & Hq) by (destruct q; [apply H1|apply H2|apply H3|apply H4]).
  exists (p :: bodies). cbn. rewrite Heq, Hp. split; [done|]. constructor; [by eapply wp_quiet|done].
Qed.

Section Schedules.
(** The mutex is the driver's own: taking it changes nothing of the world. *)
Context {W : Type} (env : forall c : cmd, W -> resp c * W).
Hypothesis mutex_inside : forall w, (env Lock w).2 = w /\ (env Unlock w).2 = w.

Lemma alone_locked {A} (p : prog A) w : alone env (locked p) w = alone env p w.
Proof.
  assert (forall q w, alone env (finally q Unlock) w = alone (A := A) env q w) as Hf.
  { induction q as [a|why|c k IH]; intros w'; cbn [finally]; rewrite alone_call; [| |by rewrite alone_call, IH];
      rewrite (proj2 (mutex_inside w')); done. }
  change (locked p) with (Call Lock (fun _ => finally p Unlock)).
  by rewrite alone_call, (proj1 (mutex_inside w)).
Qed.

Lemma serial_locked {A} (bodies : list (prog A)) order w :
  serial env (locked <$> bodies) order w = serial env bodies order w.
Proof.
  revert w. induction order as [|i order IH]; intros w; cbn; [done|].
  rewrite list_lookup_fmap. destruct (bodies !! i) as [p|]; cbn [fmap option_fmap option_map]; [|apply IH].
  rewrite alone_locked. destruct (alone env p w) as [o w1]. by rewrite IH.
Qed.

(** Schedules that can go no further give what some order gives. *)
Lemma calls_serializable (qs : list NodeCall) (w : W) (c : Pool W (goerror + unit))
  (Hsteps : rtc (pstep env) (start (node_handle <$> qs) w) c) (Hstop : nf (pstep env) c) :
  complete c /\
  exists order outs, order ≡ₚ seq 0 (length qs) /\
    serial env (node_handle <$> qs) order w = (outs, world c) /\
    forall i o, (i, o) ∈ outs -> threads c !! i = Some (ended o).
Proof.
  destruct (node_bodies qs) as (bodies & Heq & Hquiet). rewrite Heq in *.
  destruct (steps_keep env bodies w Hquiet c Hsteps) as [order Hinv].
  pose proof (stuck_complete env bodies w order c Hinv Hstop) as Hc. split; [done|].
  destruct (complete_serial env bodies w order c Hinv Hc) as [Hperm (outs & Hs & Hout)].
  exists order, outs. split; [|by rewrite serial_locked].
  replace (length qs) with (length bodies); [done|].
  apply (f_equal length) in Heq. by rewrite !length_fmap in Heq.
Qed.

(** C18. Calls of NodePublishVolume, NodeUnpublishVolume, NodeStageVolume and
    NodeUnstageVolume that run at the same time are serializable: when a
    schedule of them can go no further, all of them have ended with the mutex
    free, and there is an order of the calls in which, one after the other, they
    give the same answers and leave the world in the same state. *)
Theorem node_serializable (qs : list NodeCall) (w : W) (c : Pool W (goerror + unit))
  (Hsteps : rtc (pstep env) (start (node_handle <$> qs) w) c) (Hstop : nf (pstep env) c) :
  complete c /\
  exists order outs, order ≡ₚ seq 0 (length qs) /\
    serial env (node_handle <$> qs) order w = (outs, world c) /\
    forall i o, (i, o) ∈ outs -> threads c !! i = Some (ended o).
Proof. exact (calls_serializable qs w c Hsteps Hstop). Qed.

(** No schedule goes on for ever: from every configuration a schedule of these
    calls reaches, every sequence of further steps ends, and while a call has
    not ended some thread can take a step, so the mutex never deadlocks. *)
Theorem node_terminates (qs : list NodeCall) (w : W) (c : Pool W (goerror + unit))
  (Hsteps : rtc (pstep env) (start (node_handle <$> qs) w) c) :
  Acc (fun c2 c1 => pstep env c1 c2) c /\ (complete c \/ ~ nf (pstep env) c).
Proof.
  split; [apply pstep_wf|].
  destruct (node_bodies qs) as (bodies & Heq & Hquiet). rewrite Heq in *.
  destruct (steps_keep env bodies w Hquiet c Hsteps) as [order Hinv].
  destruct (forallb finished (threads c)) eqn:Hfin, (decide (holder c = None)) as [Hh|Hh];
    [by left|right..]; intros Hnf; destruct (stuck_complete env bodies w order c Hinv Hnf) as [H1 H2];
    congruence.
Qed.
End Schedules.
End Node.
