(* ===== verification/Linearizability.v ===== *)
(** Programs that run at the same time over one state without a lock.

    When every program takes effect at once under interference
    ([Interference.takes_effect_once]), and the steps of the others stay within
    what it relies on, every schedule of the programs did what their steps do
    one after the other, in the order in which the calls that write were
    answered ([pool_linearizable]).  *)
From S2P Require Import Prelude GoStrings Types Errors Metrics Effects LinodeVolumes Sizes Config.
From S2P Require Import DeviceManager Luks NodeServer Controller ControllerProofs Cloud Interference Concurrency.

(** * Many programs *)

Section Steps.
Context {S A : Type} (spec : nat -> S -> outcome A -> S -> Prop).

(** The steps of the programs, one after the other. *)
Inductive spec_run : S -> list (nat * outcome A) -> S -> Prop :=
| spec_nil s : spec_run s [] s
| spec_cons i s o s1 outs s' : spec i s o s1 -> spec_run s1 outs s' -> spec_run s ((i, o) :: outs) s'.

Lemma spec_run_app s outs s1 outs' s2 :
  spec_run s outs s1 -> spec_run s1 outs' s2 -> spec_run s (outs ++ outs') s2.
Proof. induction 1; cbn; [done|]. intros. econstructor; eauto. Qed.

(** What wrote, and what of it one program wrote. *)
Fixpoint linked (s : S) (hist : list (nat * (S * S))) (s' : S) : Prop :=
  match hist with
  | [] => s' = s
  | (_, (s1, s2)) :: hist => s1 = s /\ linked s2 hist s'
  end.

Definition written (i : nat) (hist : list (nat * (S * S))) : list (S * S) :=
  snd <$> filter (fun x => x.1 = i) hist.

Lemma linked_snoc s hist s1 i s2 : linked s hist s1 -> linked s (hist ++ [(i, (s1, s2))]) s2.
Proof.
  revert s. induction hist as [|[j [t1 t2]] hist IH]; intros s; cbn; [by intros ->|].
  intros [-> H]. auto.
Qed.

Lemma written_cons i j x hist : written i ((j, x) :: hist) = (if decide (j = i) then [x] else []) ++ written i hist.
Proof. unfold written. rewrite list.filter_cons. cbn. by case_decide. Qed.

Lemma written_snoc i hist j x : written i (hist ++ [(j, x)]) = written i hist ++ if decide (j = i) then [x] else [].
Proof.
  unfold written. rewrite list.filter_app, fmap_app. f_equal. rewrite list.filter_cons. cbn. by case_decide.
Qed.

Lemma written_elem i x hist : x ∈ written i hist -> i ∈ fst <$> hist.
Proof.
  intros ([j y] & -> & [Hj Hin]%list_elem_of_filter)%list_elem_of_fmap. cbn in Hj. subst j.
  apply list_elem_of_fmap. by exists (i, y).
Qed.

Lemma written_none i hist : written i hist = [] <-> i ∉ fst <$> hist.
Proof.
  split.
  - intros H ([j x] & -> & Hx)%list_elem_of_fmap. cbn in H.
    assert (x ∈ written j hist) as Hin; [|rewrite H in Hin; by apply elem_of_nil in Hin].
    apply list_elem_of_fmap. exists (j, x). split; [done|]. by apply list_elem_of_filter.
  - destruct (written i hist) as [|x l] eqn:E; [done|]. intros Hi. destruct Hi.
    apply (written_elem i x). rewrite E. constructor.
Qed.

(** The steps of those that wrote, in the order of what they wrote. *)
Lemma linked_run s hist s' (out : nat -> outcome A) :
  linked s hist s' -> NoDup (fst <$> hist) ->
  (forall i s1 s2, written i hist = [(s1, s2)] -> spec i s1 (out i) s2) ->
  spec_run s ((fun x => (x.1, out x.1)) <$> hist) s'.
Proof.
  revert s. induction hist as [|[i [s1 s2]] hist IH]; intros s; [intros -> _ _; constructor|].
  intros [-> Hl] Hnd Hspec. rewrite fmap_cons in *. apply list.NoDup_cons in Hnd as [Hi Hnd].
  apply written_none in Hi. econstructor.
  - apply Hspec. by rewrite written_cons, decide_True, Hi by done.
  - apply IH; [done..|]. intros j t1 t2 Hj. apply Hspec. rewrite written_cons.
    case_decide as Hij; [|done]. subst j. cbn in Hi. congruence.
Qed.

(** Steps that change nothing, at the end. *)
Lemma idle_run s is_ (out : nat -> outcome A) :
  (forall i, i ∈ is_ -> spec i s (out i) s) -> spec_run s ((fun i => (i, out i)) <$> is_) s.
Proof.
  induction is_ as [|i is_ IH]; intros H; cbn; [constructor|]. econstructor.
  - apply H. constructor.
  - apply IH. intros j Hj. apply H. by constructor.
Qed.
End Steps.

Section Pool.
Context {S W A : Type} (law : state_law S) (writes : cmd -> bool).
Context (env : forall c : cmd, W -> resp c * W) (view : W -> S).
Context (rely : nat -> S -> S -> Prop) (spec : nat -> S -> outcome A -> S -> Prop) (inv : S -> Prop).
Context (ps : list (prog A)) (w0 : W).

(** The environment obeys the law; a call can always be answered; a call that does
    not write changes nothing, and the mutex is not part of the state. *)
Hypothesis env_law : forall c w, law c (view w) (env c w).1 (view (env c w).2).
Hypothesis law_total : forall c s, exists r s', law c s r s'.
Hypothesis law_reads : forall c s r s', writes c = false -> law c s r s' -> s' = s.
Hypothesis law_mutex : forall s, (writes Lock = false /\ law Lock s tt s) /\ (writes Unlock = false /\ law Unlock s tt s).

(** What a program relies on is a preorder that leaves the steps alone which
    change nothing, and the steps of the others are within it. *)
Hypothesis rely_preorder : forall i, PreOrder (rely i).
Hypothesis rely_idle : forall i s o s', spec i s o s -> rely i s s' -> spec i s' o s'.
Hypothesis others_rely : forall i j s o s', i <> j -> (i < length ps)%nat -> (j < length ps)%nat -> inv s ->
  spec j s o s' -> (exists c r, law c s r s') -> rely i s s'.
Hypothesis inv_kept : forall i s o s', (i < length ps)%nat -> inv s -> spec i s o s' -> (exists c r, law c s r s') -> inv s'.

Hypothesis inv_start : inv (view w0).
Hypothesis each_once : forall i p, ps !! i = Some p -> takes_effect_once law writes (rely i) (spec i) p (view w0).

(** What holds of a schedule: every program goes on as it was proved to, from a
    state it saw, and what was written is known. *)
Record going (hist : list (nat * (S * S))) (c : Pool W A) : Prop := {
  go_length : length (threads c) = length ps;
  go_inv : inv (view (world c));
  go_linked : linked (view w0) hist (view (world c));
  go_nodup : NoDup (fst <$> hist);
  go_members : forall i, i ∈ fst <$> hist -> (i < length ps)%nat;
  go_threads : forall i p, threads c !! i = Some p ->
    exists s, rely i s (view (world c)) /\
      swp (amid law writes (rely i)) p (atomic (spec i)) (s, written i hist);
}.

Lemma going_start : going [] (start ps w0).
Proof.
  split; cbn; try done.
  - constructor.
  - by intros i ?%elem_of_nil.
  - intros i p Hp. exists (view w0). split; [reflexivity|]. by apply each_once.
Qed.

(** A thread takes a call that the law allows. *)
Lemma going_call hist ts h w i c (k : resp c -> prog A) r w' h' :
  going hist {| threads := ts; holder := h; world := w |} -> ts !! i = Some (Call c k) ->
  law c (view w) r (view w') ->
  exists hist', going hist' {| threads := <[i := k r]> ts; holder := h'; world := w' |}.
Proof.
  intros [Hlen Hinv Hlink Hnd Hmem Hth] Hi Hlaw. cbn in *.
  assert (i < length ps)%nat as Hips by (rewrite <- Hlen; by eapply lookup_lt_Some).
  destruct (Hth i _ Hi) as (s & Hs & Hwp). cbn [swp] in Hwp.
  specialize (Hwp r (view w', if writes c then written i hist ++ [(view w, view w')] else written i hist)
    ltac:(exists (view w); by split_and!)).
  destruct (writes c) eqn:Hw.
  - destruct (wrote_step _ _ _ _ _ _ _ _ _ (fun s => PreOrder_Reflexive s) law_total Hwp) as (Hnone & o & Ho).
    exists (hist ++ [(i, (view w, view w'))]). split; cbn.
    + by rewrite length_insert.
    + eapply inv_kept; eauto.
    + by apply linked_snoc.
    + rewrite fmap_app. apply list.NoDup_app. split_and!; [done| |apply list.NoDup_singleton].
      intros j Hj ->%list_elem_of_singleton. by eapply written_none.
    + intros j. rewrite fmap_app, elem_of_app. intros [?| ->%list_elem_of_singleton]; auto.
    + intros j p. rewrite list_lookup_insert_Some, written_snoc.
      intros [(<- & <- & _)|[Hne Hj]].
      * exists (view w'). split; [reflexivity|]. by rewrite decide_True.
      * rewrite decide_False, app_nil_r by done. destruct (Hth j p Hj) as (sj & Hsj & Hpj).
        exists sj. split; [|done]. etransitivity; [exact Hsj|].
        apply (others_rely j i _ o); [by apply not_eq_sym| |done..|by do 2 eexists].
        rewrite <- Hlen. by eapply lookup_lt_Some.
  - assert (view w' = view w) as Hsame by by eapply law_reads.
    exists hist. split; cbn; rewrite ?Hsame in *; [by rewrite length_insert|done..|].
    intros j p. rewrite list_lookup_insert_Some. intros [(<- & <- & _)|[Hne Hj]]; [|by apply Hth].
    exists (view w). by split; [reflexivity|].
Qed.

Lemma going_step hist c c' : going hist c -> pstep env c c' -> exists hist', going hist' c'.
Proof.
  intros Hgo Hstep. destruct Hstep.
  - eapply going_call; eauto.
  - eapply (going_call _ _ _ _ _ Lock); [exact Hgo|eassumption|apply law_mutex].
  - eapply (going_call _ _ _ _ _ Unlock); [exact Hgo|eassumption|apply law_mutex].
Qed.

Lemma going_steps c : rtc (pstep env) (start ps w0) c -> exists hist, going hist c.
Proof.
  intros Hsteps. assert (exists hist, going hist (start ps w0)) as Hgo by (exists []; apply going_start).
  revert Hgo. induction Hsteps as [c|c c1 c2 Hstep _ IH]; [done|].
  intros [hist Hgo]. apply IH. by eapply going_step.
Qed.

(** What a finished program ended with. *)
Definition ended_with (default : outcome A) (p : option (prog A)) : outcome A :=
  match p with
  | Some (Ret a) => Done a
  | Some (Panic why) => Panicked why
  | _ => default
  end.

(** Every schedule that ends did what the steps of the programs do in some order. *)
Theorem pool_linearizable c :
  rtc (pstep env) (start ps w0) c -> forallb finished (threads c) = true ->
  exists outs, spec_run spec (view w0) outs (view (world c)) /\
    (fst <$> outs) ≡ₚ seq 0 (length ps) /\
    forall i o, (i, o) ∈ outs -> threads c !! i = Some (ended o).
Proof.
  intros (hist & Hgo)%going_steps Hfin. rewrite forallb_forall in Hfin.
  set (out i := ended_with (Panicked NilDereference) (threads c !! i)).
  assert (forall i, (i < length ps)%nat ->
    threads c !! i = Some (ended (out i)) /\
    exists s, rely i s (view (world c)) /\ atomic (spec i) (s, written i hist) (out i)) as Hout.
  { intros i Hi. rewrite <- (go_length _ _ Hgo) in Hi. apply lookup_lt_is_Some_2 in Hi as [p Hp].
    destruct (go_threads _ _ Hgo i p Hp) as (s & Hs & Hwp).
    pose proof (Hfin p ltac:(apply list_elem_of_In; by eapply list_elem_of_lookup_2)) as Hf.
    unfold out. rewrite Hp. destruct p; [by split; [|exists s]..|done]. }
  set (idle := filter (fun i => i ∉ fst <$> hist) (seq 0 (length ps))).
  exists (((fun x => (x.1, out x.1)) <$> hist) ++ ((fun i => (i, out i)) <$> idle)). split_and!.
  - eapply spec_run_app; [apply (linked_run _ _ _ _ _ (go_linked _ _ Hgo) (go_nodup _ _ Hgo))|apply idle_run].
    + intros i s1 s2 Hi. destruct (Hout i) as (_ & s & _ & Hat).
      { apply (go_members _ _ Hgo), (written_elem i (s1, s2)). rewrite Hi. constructor. }
      unfold atomic in Hat. cbn in Hat. by rewrite Hi in Hat.
    + intros i [Hn Hi]%list_elem_of_filter. apply elem_of_seq in Hi.
      destruct (Hout i ltac:(lia)) as (_ & s & Hs & Hat). unfold atomic in Hat. cbn in Hat.
      apply written_none in Hn. rewrite Hn in Hat. by eapply rely_idle.
  - rewrite fmap_app, <- !list_fmap_compose.
    assert ((fst ∘ (fun x : nat * (S * S) => (x.1, out x.1))) <$> hist = fst <$> hist) as -> by done.
    assert ((fst ∘ (fun i => (i, out i))) <$> idle = idle) as -> by apply list_fmap_id.
    apply NoDup_Permutation.
    + apply list.NoDup_app. split_and!; [apply (go_nodup _ _ Hgo)| |apply list.NoDup_filter, NoDup_seq].
      by intros i Hi [Hn _]%list_elem_of_filter.
    + apply NoDup_seq.
    + intros i. rewrite elem_of_app. unfold idle. rewrite list_elem_of_filter, !elem_of_seq. split.
      * intros [Hi%(go_members _ _ Hgo)|[_ ?]]; lia.
      * intros Hi. destruct (decide (i ∈ fst <$> hist)); [by left|right; split; [done|lia]].
  - intros i o. rewrite elem_of_app. intros [([j x] & [= -> ->] & Hin)%list_elem_of_fmap|(j & [= -> ->] & Hin)%list_elem_of_fmap].
    + apply Hout, (go_members _ _ Hgo), list_elem_of_fmap. by exists (j, x).
    + apply list_elem_of_filter in Hin as [_ Hin]. apply elem_of_seq in Hin. apply Hout. lia.
Qed.
End Pool.
