(* ===== verification/Interleaving.v ===== *)
(** Requests to the Controller service that run at the same time.

    No lock keeps them apart, and in general they are not atomic ([create_race],
    [publish_race], in Races).  Requests that are about different volumes, make
    volumes of different labels and attach to different instances are: every
    schedule of them did what the abstract steps do in some order
    ([controller_linearizable]). *)
From S2P Require Import Prelude GoStrings Types Errors Metrics Effects LinodeVolumes Sizes Config.
From S2P Require Import DeviceManager Luks NodeServer Controller ControllerProofs Cloud Csi Interference Refinement Sequences.
From S2P Require Import NodeProofs Concurrency Linearizability.

Section Interleaving.
Context (instances : gmap Z InstInfo) (cs : ControllerServer).

(** * What a request is about *)

Definition parsed {E A B} (f : A -> B) (r : E + A) : option B :=
  match r with inr a => Some (f a) | inl _ => None end.

(** The volume it names; a creation names the volume to clone. *)
Definition named_volume (q : Request) : option Z :=
  match q with
  | ReqCreate req =>
      match cv_VolumeContentSource req with
      | Some (ContentVolume (Some srcid)) => parsed VolumeID (ParseLinodeVolumeKey srcid)
      | _ => None
      end
  | ReqDelete vid => parsed id (VolumeIdAsInt "DeleteVolume" vid)
  | ReqPublish req => parsed snd (validateControllerPublishVolumeRequest req)
  | ReqUnpublish req => parsed id (VolumeIdAsInt "ControllerUnpublishVolume" (cu_VolumeId req))
  | ReqExpand req => parsed id (VolumeIdAsInt "ControllerExpandVolume" (ce_VolumeId req))
  | ReqValidate _ | ReqList _ => None
  end.

(** A creation only reads the volume it names. *)
Definition changed_volume (q : Request) : option Z :=
  match q with ReqCreate _ => None | _ => named_volume q end.

Definition created_label (q : Request) : option string :=
  match q with ReqCreate req => Some (request_label cs req) | _ => None end.

(** The instance it attaches a volume to. *)
Definition target_instance (q : Request) : option Z :=
  match q with
  | ReqPublish req => parsed fst (validateControllerPublishVolumeRequest req)
  | _ => None
  end.

Abbreviation names q id := (named_volume q = Some id).
Abbreviation changes q id := (changed_volume q = Some id).
Abbreviation creates q label := (created_label q = Some label).
Abbreviation attaches q l := (target_instance q = Some l).

(** What a request names, from the way its arguments parse. *)
Ltac by_parsing := cbn; repeat match goal with H : _ = inr _ |- _ => rewrite H end; reflexivity.

Lemma changes_names q id : changes q id -> names q id.
Proof. by destruct q. Qed.

Definition differ {A} (o o' : option A) : Prop := forall x, o = Some x -> o' <> Some x.

#[export] Instance differ_dec `{EqDecision A} (o o' : option A) : Decision (differ o o').
Proof.
  refine match o, o' with
         | Some x, Some y => cast_if_not (decide (x = y))
         | _, _ => left _
         end; unfold differ; naive_solver.
Defined.

Definition independent (q q' : Request) : Prop :=
  differ (named_volume q) (changed_volume q') /\
  differ (created_label q) (created_label q') /\
  differ (target_instance q) (target_instance q').

#[export] Instance independent_dec q q' : Decision (independent q q').
Proof. unfold independent. apply _. Defined.

(** No volume that a request changes has a label that another asks to create. *)
Definition apart (qs : list Request) (a : Account) : Prop :=
  forall q q' label id i, q ∈ qs -> q' ∈ qs -> creates q label -> changes q' id ->
    a !! id = Some i -> vi_Label i <> label.

(** What a request relies on while it runs. *)
Definition relies (q : Request) (a a' : Account) : Prop :=
  (forall id, names q id -> same_at id a a') /\
  (forall l, attaches q l -> (attached_to l a' <= attached_to l a)%nat) /\
  (forall label id i, creates q label -> vi_Label i = label -> a !! id = Some i <-> a' !! id = Some i).

#[local] Instance relies_preorder q : PreOrder (relies q).
Proof.
  split.
  - intros a. by split_and!.
  - intros a1 a2 a3 (H1 & H2 & H3) (H1' & H2' & H3'). split_and!.
    + intros id Hid. unfold same_at in *. by rewrite H1', H1.
    + intros l Hl. specialize (H2 l Hl). specialize (H2' l Hl). lia.
    + intros label id i Hq Hi. by rewrite (H3 label), (H3' label).
Qed.

(** The handlers are atomic under it. *)
Lemma relies_atomic q : atomic_under instances cs (relies q) q.
Proof.
  destruct q as [req|vid|req|req|req|req|req].
  - intros a. eapply amid_rely; [|apply create_atomic]. intros a1 a2 (H1 & _ & H3). split.
    + intros srcid key Hs Hk. apply H1. cbn. by rewrite Hs, Hk.
    + intros id i Hi. by apply (H3 (request_label cs req)).
  - apply delete_atomic. intros id a1 a2 Hid (H1 & _). apply H1. cbn. by rewrite Hid.
  - apply publish_atomic. intros l id a1 a2 Hid (H1 & H2 & _). split.
    + apply H1. cbn. by rewrite Hid.
    + apply H2. cbn. by rewrite Hid.
  - apply unpublish_atomic. intros id a1 a2 Hid (H1 & _). apply H1. cbn. by rewrite Hid.
  - apply expand_atomic. intros id a1 a2 Hid (H1 & _). apply H1. cbn. by rewrite Hid.
  - apply validate_atomic.
  - apply list_atomic.
Qed.

(** A step that changes nothing can be taken later. *)
Lemma idle_step a q r a1 a' :
  csi instances cs a q r a1 -> a1 = a -> relies q a a' -> csi instances cs a' q r a'.
Proof.
  intros Hstep Hsame (Hn & Hl & Hlab).
  assert (forall id, names q id -> a' !! id = a !! id) as Hsm by exact Hn. clear Hn.
  destruct Hstep as [q e|req size id i r H1 H2 H3 H4 H5|req size id i H1 H2 H3 H4|vid id H1 H2|vid id i r H1 H2 H3 H4
    |req l id i H1 H2 H3|req l id i r H1 H2 H3 H4 H5|req l id H1 H2 H3|req l id i r H1 H2 H3 H4 H5
    |req id i size r H1 H2 H3 H4 H5|req r|req r].
  - apply Refused.
  - destruct H3 as (H3 & _). rewrite <- Hsame, lookup_insert_eq in H3. done.
  - assert (forall j i', vi_Label i' = request_label cs req -> a !! j = Some i' <-> a' !! j = Some i') as Hs.
    { intros j i' Hi'. apply (Hlab (request_label cs req)); [by eexists|done]. }
    eapply Create_again; try done.
    + intros id'. rewrite <- H2. unfold has_label. split; intros (i' & ? & ?); exists i'; (split; [by apply Hs|done]).
    + destruct (proj2 (H2 id) eq_refl) as (j & Hj & Hjl). apply Hs; congruence.
  - eapply Delete_gone; [done|]. by rewrite Hsm by by_parsing.
  - assert (delete id a !! id = None) as E by apply lookup_delete_eq. rewrite Hsame, H2 in E. done.
  - eapply Publish_again; [done| |done]. by rewrite Hsm by by_parsing.
  - assert (alter (set_LinodeID (Some l)) id a !! id = Some (set_LinodeID (Some l) i)) as E
      by by rewrite lookup_alter_eq, H2.
    rewrite Hsame, H2 in E. injection E as E. rewrite E in H3. done.
  - eapply Unpublish_gone; [done..|]. intros i Hi. apply H3. by rewrite <- Hsm by by_parsing.
  - assert (alter (set_LinodeID None) id a' = a') as Hid;
      [|rewrite <- Hid at 2; eapply Unpublish_detach; try done; by rewrite Hsm by by_parsing].
    apply alter_id. intros j Hj. rewrite Hsm in Hj by by_parsing. assert (j = i) as -> by congruence.
    assert (alter (set_LinodeID None) id a !! id = Some (set_LinodeID None i)) as E by by rewrite lookup_alter_eq, H3.
    rewrite Hsame, H3 in E. by injection E as <-.
  - assert (alter (set_Size (bytesToGB size)) id a' = a') as Hid;
      [|rewrite <- Hid at 2; eapply Expand_volume; try done; by rewrite Hsm by by_parsing].
    apply alter_id. intros j Hj. rewrite Hsm in Hj by by_parsing. assert (j = i) as -> by congruence.
    assert (alter (set_Size (bytesToGB size)) id a !! id = Some (set_Size (bytesToGB size) i)) as E
      by by rewrite lookup_alter_eq, H3.
    rewrite Hsame, H3 in E. by injection E as <-.
  - apply Read_validate.
  - apply Read_list.
Qed.

(** * What the others do *)

(** A step that changes one volume and leaves its label alone. *)
Lemma alter_relies q id f (a : Account) i :
  ~ names q id -> a !! id = Some i -> vi_Label (f i) = vi_Label i ->
  (forall label, creates q label -> vi_Label i <> label) ->
  (forall l, attaches q l -> vi_LinodeID (f i) = Some l -> vi_LinodeID i = Some l) ->
  relies q a (alter f id a).
Proof.
  intros Hn Hi Hf Hlab Hatt. split_and!.
  - intros id' Hid'. unfold same_at. apply lookup_alter_ne. by intros ->.
  - intros l Hl. rewrite (alter_present a f id i Hi), attached_insert, (attached_present l a id i Hi).
    specialize (Hatt l Hl). repeat case_decide; lia || tauto.
  - intros label id' j Hq Hj. specialize (Hlab label Hq). destruct (decide (id = id')) as [<-|Hne].
    + rewrite lookup_alter_eq, Hi. cbn. split; intros [= <-]; congruence.
    + by rewrite lookup_alter_ne.
Qed.

Lemma step_relies q q' a r a' :
  independent q q' -> csi instances cs a q' r a' ->
  (forall id, names q id -> a !! id = None -> a' !! id = None) ->
  (forall label id i, creates q label -> changes q' id -> a !! id = Some i -> vi_Label i <> label) ->
  relies q a a'.
Proof.
  intros (Hn & Hc & Hatt) Hstep Hids Hlab.
  destruct Hstep; try reflexivity.
  - destruct H1 as (Hnone & _ & Hl & _). destruct H2 as (Hlabel & _). split_and!.
    + intros id' Hid'. unfold same_at. apply lookup_insert_ne. intros ->.
      specialize (Hids id' Hid' Hnone). by rewrite lookup_insert_eq in Hids.
    + intros l Hq. by rewrite attached_insert, delete_id, Hl, decide_False, Nat.add_0_r by done.
    + intros label id' j Hq Hj. destruct (decide (id = id')) as [<-|Hne]; [|by rewrite lookup_insert_ne].
      rewrite lookup_insert_eq, Hnone. split; [done|]. intros [= ->].
      destruct (Hc label Hq). cbn. congruence.
  - split_and!.
    + intros id' Hid'. unfold same_at. apply lookup_delete_ne. intros ->. apply (Hn id'); [done|by_parsing].
    + intros l Hq. rewrite (attached_present l a id i) by done. lia.
    + intros label id' j Hq Hj. destruct (decide (id = id')) as [<-|Hne]; [|by rewrite lookup_delete_ne].
      rewrite lookup_delete_eq. split; [|done]. intros Hj'. by destruct (Hlab label id j Hq ltac:(by_parsing)).
  - eapply alter_relies; try done.
    + intros Hid. apply (Hn id Hid). by_parsing.
    + intros label Hq. apply (Hlab label id i Hq); [by_parsing|done].
    + intros l' Hl' [= <-]. destruct (Hatt l Hl'). by_parsing.
  - eapply alter_relies; try done.
    + intros Hid. apply (Hn id Hid). by_parsing.
    + intros label Hq. apply (Hlab label id i Hq); [by_parsing|done].
  - eapply alter_relies; try done.
    + intros Hid. apply (Hn id Hid). by_parsing.
    + intros label Hq. apply (Hlab label id i Hq); [by_parsing|done].
Qed.

(** Labels stay apart from those to be created. *)
Lemma step_apart qs q a r a' :
  apart qs a -> csi instances cs a q r a' ->
  (forall q' id, q' ∈ qs -> names q' id -> a !! id = None -> a' !! id = None) ->
  apart qs a'.
Proof.
  intros Hap Hstep Hids q1 q2 label id j Hq1 Hq2 Hc Hch Hj.
  pose proof (changes_names _ _ Hch) as Hnm.
  destruct (a !! id) as [i|] eqn:Hi; [|by rewrite (Hids q2 id Hq2 Hnm Hi) in Hj].
  assert (vi_Label j = vi_Label i) as ->; [|eapply Hap; [exact Hq1|exact Hq2|exact Hc|exact Hch|exact Hi]].
  destruct Hstep; try congruence.
  - destruct H1 as (Hnone & _). rewrite lookup_insert_ne in Hj by congruence. congruence.
  - apply lookup_delete_Some in Hj as [_ Hj]. congruence.
  - apply lookup_alter_Some in Hj as [(<- & ? & ? & ->)|[? ?]]; cbn; congruence.
  - apply lookup_alter_Some in Hj as [(<- & ? & ? & ->)|[? ?]]; cbn; congruence.
  - apply lookup_alter_Some in Hj as [(<- & ? & ? & ->)|[? ?]]; cbn; congruence.
Qed.

(** * Schedules *)

Lemma handle_quiet q : quiet (handle cs q).
Proof.
  apply (wp_quiet _ (fun _ _ => True) []).
  destruct q; cbn [handle]; wp_unfold; wp_run; done.
Qed.

Definition named (qs : list Request) (id : Z) : Prop := exists q, q ∈ qs /\ names q id.

(** The documented API, which does not give the IDs out that requests name. *)
Definition fresh_ids (qs : list Request) : state_law Account := fun c a r a' =>
  documented instances c a r a' /\ forall id, named qs id -> a !! id = None -> a' !! id = None.

Lemma fresh_ids_total qs c a : exists r a', fresh_ids qs c a r a'.
Proof.
  assert (exists r, documented instances c a r a) as [r Hr]; [|by exists r, a].
  pose (e := {| ae_IsNotFound := false; ae_Message := None; ae_Context := None; ae_Text := "" |}).
  destruct c as [q|f|m|x|y|h|n|o| | |]; [|by exists (ex_world _)..].
  destruct q; cbn [resp Client.answer]; first [exists (inl e : _ + _)|exists (Some e)]; cbn; unfold attempted; naive_solver.
Qed.

Lemma fresh_ids_reads qs c a r a' : is_mutating c = false -> fresh_ids qs c a r a' -> a' = a.
Proof. intros Hw [H _]. by eapply documented_reads. Qed.

(** Requests, their answers and the accounts between them. *)
Lemma spec_run_csi (qs : list Request) a outs a' :
  spec_run (fun i s o s' => exists q, qs !! i = Some q /\ does instances cs q s o s') a outs a' ->
  exists served : list (nat * Request * (goerror + Answer)),
    csi_run instances cs a (snd ∘ fst <$> served) (snd <$> served) a' /\
    fst ∘ fst <$> served = fst <$> outs /\
    forall i q r, (i, q, r) ∈ served -> qs !! i = Some q /\ (i, Done r) ∈ outs.
Proof.
  induction 1 as [a|i a o a1 outs a' (q & Hq & r & -> & Hstep) _ (served & Hrun & Hidx & Hin)].
  - exists []. split; [constructor|]. split; [done|]. by intros i q r ?%elem_of_nil.
  - exists ((i, q, r) :: served). split; [by econstructor|]. split; [cbn; by rewrite Hidx|].
    intros i' q' r' [[= -> -> ->]|H]%elem_of_cons; [split; [done|constructor]|].
    destruct (Hin _ _ _ H) as [? ?]. split; [done|by constructor].
Qed.

Context {W : Type} {Hapi : LinodeApi instances W}.

(** A schedule stops only when every handler has ended. *)
Lemma handlers_finish qs w c :
  rtc (pstep (la_env (instances := instances))) (start (handle cs <$> qs) w) c ->
  nf (pstep la_env) c -> forallb finished (threads c) = true.
Proof.
  intros Hsteps Hnf.
  assert (Forall quiet (threads c)) as Hquiet.
  { assert (Forall quiet (threads (start (handle cs <$> qs) w))) as Hq.
    { apply Forall_fmap, Forall_forall. intros q _. apply handle_quiet. }
    clear Hnf. revert Hq. induction Hsteps as [|c c1 c2 Hstep _ IH]; [done|]. intros Hq. apply IH.
    destruct Hstep as [ts h w1 i d k Hi Hd|ts w1 i k Hi|ts j w1 i k Hi]; cbn in *;
      apply Forall_insert; try done; destruct (Forall_lookup_1 _ _ _ _ Hq Hi) as [Hd' Hk]; apply Hk. }
  apply forallb_forall. intros p Hp%list_elem_of_In.
  apply list_elem_of_lookup in Hp as [i Hi]. pose proof (Forall_lookup_1 _ _ _ _ Hquiet Hi) as Hq.
  destruct p as [|why|d k]; [done..|]. destruct Hnf. destruct c as [ts h w1]. cbn in Hi.
  eexists. eapply (step_call _ ts h w1 i d k Hi). apply Hq.
Qed.

Lemma linearizable (qs : list Request) (w : W) (c : Pool W (goerror + Answer))
  (Hind : forall i j q q', i <> j -> qs !! i = Some q -> qs !! j = Some q' -> independent q q')
  (Hlabels : apart qs (la_account w))
  (Hids : forall d w id, named qs id -> la_account w !! id = None -> la_account (la_env d w).2 !! id = None)
  (Hsteps : rtc (pstep la_env) (start (handle cs <$> qs) w) c) (Hstop : nf (pstep la_env) c) :
  exists served : list (nat * Request * (goerror + Answer)),
    csi_run instances cs (la_account w) (snd ∘ fst <$> served) (snd <$> served) (la_account (world c)) /\
    fst ∘ fst <$> served ≡ₚ seq 0 (length qs) /\
    forall i q r, (i, q, r) ∈ served -> qs !! i = Some q /\ threads c !! i = Some (Ret r).
Proof.
  pose (spec i s o s' := exists q, qs !! i = Some q /\ does instances cs q s o s').
  pose (rely i := match qs !! i with Some q => relies q | None => eq end).
  destruct (pool_linearizable (fresh_ids qs) is_mutating la_env la_account rely spec (apart qs) (handle cs <$> qs) w)
    with (c := c) as (outs & Hrun & Hperm & Houts); try done.
  - intros d w1. split; [apply la_documented|]. intros id. by apply Hids.
  - intros d a. apply fresh_ids_total.
  - intros d a r a'. apply fresh_ids_reads.
  - intros i. unfold rely. destruct (qs !! i); apply _.
  - intros i a o a' (q & Hq & r & -> & Hstep) Hr. unfold rely in Hr. rewrite Hq in Hr.
    exists q. split; [done|]. exists r. split; [done|]. by eapply idle_step.
  - intros i j a o a' Hij Hi _ Hap (q & Hq & r & -> & Hstep) (d & r' & _ & Hnew). unfold rely.
    rewrite length_fmap in Hi. apply lookup_lt_is_Some_2 in Hi as [qi Hqi]. rewrite Hqi.
    pose proof (list_elem_of_lookup_2 _ _ _ Hqi) as Hqi'. pose proof (list_elem_of_lookup_2 _ _ _ Hq) as Hq'.
    eapply step_relies; [by eapply Hind|exact Hstep| |].
    + intros id Hid. apply Hnew. by exists qi.
    + intros label id v. by apply (Hap qi q label id v).
  - intros i a o a' _ Hap (q & Hq & r & -> & Hstep) (d & r' & _ & Hnew).
    eapply step_apart; [done|exact Hstep|]. intros q' id Hq' Hid. apply Hnew. by exists q'.
  - intros i p. rewrite list_lookup_fmap, fmap_Some. intros (q & Hq & ->). unfold takes_effect_once, rely.
    rewrite Hq. eapply swp_mono; [eapply swp_law; [|apply (relies_atomic q (la_account w))]|].
    + intros d s r s' (s1 & Hr & [Hd _] & Hlog). by exists s1.
    + cbv beta. intros [a [|[a1 a2] [|]]] o Ha; cbn in *; [by exists q..|done].
  - by eapply handlers_finish.
  - destruct (spec_run_csi qs _ _ _ Hrun) as (served & Hcsi & Hidx & Hin).
    exists served. split; [done|]. rewrite length_fmap in Hperm. split; [by rewrite Hidx|].
    intros i q r Hs. destruct (Hin _ _ _ Hs) as [Hq Ho]. split; [done|]. by apply Houts in Ho.
Qed.

(** C8. Requests at the same time: if no request names a volume that another
    changes, no two create volumes of one label or attach to one instance, and the
    API does not give out the ID of a volume that a request names, then every
    schedule that can go no further has answered every request, and there is an
    order of the requests in which their abstract steps, one after the other,
    give these answers and lead to this account, whatever calls failed. *)
Theorem controller_linearizable (qs : list Request) (w : W) (c : Pool W (goerror + Answer))
  (Hind : forall i j q q', i <> j -> qs !! i = Some q -> qs !! j = Some q' -> independent q q')
  (Hlabels : apart qs (la_account w))
  (Hids : forall d w id, named qs id -> la_account w !! id = None -> la_account (la_env d w).2 !! id = None)
  (Hsteps : rtc (pstep la_env) (start (handle cs <$> qs) w) c) (Hstop : nf (pstep la_env) c) :
  exists served : list (nat * Request * (goerror + Answer)),
    csi_run instances cs (la_account w) (snd ∘ fst <$> served) (snd <$> served) (la_account (world c)) /\
    fst ∘ fst <$> served ≡ₚ seq 0 (length qs) /\
    forall i q r, (i, q, r) ∈ served -> qs !! i = Some q /\ threads c !! i = Some (Ret r).
Proof. by apply linearizable. Qed.
(** The account is safe with independent requests at the same time: labels that
    were unique stay unique, no instance goes over its attachment limit, and every
    volume is still there, no smaller and attached as it was, unless one of the
    requests asks to delete or to detach it. *)
Theorem controller_concurrent_safe (qs : list Request) (w : W) (c : Pool W (goerror + Answer))
  (Hind : forall i j q q', i <> j -> qs !! i = Some q -> qs !! j = Some q' -> independent q q')
  (Hlabels : apart qs (la_account w))
  (Hids : forall d w id, named qs id -> la_account w !! id = None -> la_account (la_env d w).2 !! id = None)
  (Hsteps : rtc (pstep la_env) (start (handle cs <$> qs) w) c) (Hstop : nf (pstep la_env) c) :
  let a' := la_account (world c) in
  (labels_unique (la_account w) -> labels_unique a') /\
  (within_limits instances (la_account w) -> within_limits instances a') /\
  forall id i, la_account w !! id = Some i -> asked_away qs id i \/ kept qs id i a'.
Proof.
  destruct (linearizable qs w c Hind Hlabels Hids Hsteps Hstop) as (served & Hrun & _ & Hin).
  assert (forall q, q ∈ (snd ∘ fst <$> served) -> q ∈ qs) as Hqs.
  { intros q ([[i q'] r] & -> & H)%list_elem_of_fmap. destruct (Hin _ _ _ H) as [Hq _]. by eapply list_elem_of_lookup_2. }
  split_and!.
  - by eapply run_labels.
  - by eapply run_limits.
  - intros id i Hi. destruct (run_keeps _ _ _ _ _ _ id i Hrun Hi) as [H|H];
      [left; by eapply asked_away_more|right; by eapply kept_more].
Qed.
End Interleaving.
