(* ===== verification/Races.v ===== *)
(** Concrete schedules: a scheduler that can be computed, the schedules that show
    that the theorems of Concurrency apply, and the race of two creations, which
    no mutex excludes in the controller. *)
From S2P Require Import Prelude GoStrings Types Errors Metrics Effects LinodeVolumes Sizes Config.
From S2P Require Import DeviceManager Luks NodeServer Controller ControllerProofs NodeProofs.
From S2P Require Import Cloud Csi Interference Refinement Sequences Lifecycle MemoryApi Concurrency.

(** * A scheduler *)

Section Scheduler.
Context {W A : Type} (env : forall c : cmd, W -> resp c * W).

(** One step of the thread [i], if it can take one. *)
Definition advance (i : nat) (c : Pool W A) : option (Pool W A) :=
  match threads c !! i with
  | Some (Call d k) =>
      let go (p : prog A) h w := Some {| threads := <[i := p]> (threads c); holder := h; world := w |} in
      match d return (resp d -> prog A) -> option (Pool W A) with
      | Lock => fun k => match holder c with None => go (k tt) (Some i) (world c) | Some _ => None end
      | Unlock => fun k => match holder c with Some _ => go (k tt) None (world c) | None => None end
      | d => fun k => go (k (env d (world c)).1) (holder c) (env d (world c)).2
      end k
  | _ => None
  end.

Fixpoint advance_all (schedule : list nat) (c : Pool W A) : option (Pool W A) :=
  match schedule with
  | [] => Some c
  | i :: schedule =>
      match advance i c with
      | Some c' => advance_all schedule c'
      | None => None
      end
  end.

Lemma advance_step i c c' : advance i c = Some c' -> pstep env c c'.
Proof.
  unfold advance. destruct c as [ts h w]. cbn.
  destruct (ts !! i) as [[a|why|d k]|] eqn:Hi; [done..| |done].
  destruct d; intros H; simplify_eq; try (by eapply (step_call _ _ _ _ i _ k); [exact Hi|]).
  - destruct h; simplify_eq. by apply (step_lock _ _ _ i k).
  - destruct h; simplify_eq. by apply (step_unlock _ _ _ _ i k).
Qed.

Lemma advance_all_steps schedule c c' : advance_all schedule c = Some c' -> rtc (pstep env) c c'.
Proof.
  revert c. induction schedule as [|i schedule IH]; intros c; cbn; [by intros [= ->]|].
  destruct (advance i c) as [c1|] eqn:Hc; [|done]. intros H.
  eapply rtc_l; [by eapply advance_step|by apply IH].
Qed.

Lemma complete_stops (c : Pool W A) : forallb finished (threads c) = true -> nf (pstep env) c.
Proof.
  rewrite forallb_forall. intros H [c' Hstep].
  destruct Hstep as [ts h w i d k Hi _|ts w i k Hi|ts j w i k Hi]; cbn in H;
    apply list_elem_of_lookup_2, list_elem_of_In in Hi; by specialize (H _ Hi).
Qed.
End Scheduler.

(** * Two creations for one request *)

(** With two volumes of a label, no request for the label succeeds or changes
    anything any more. *)
Lemma csi_duplicates instances cs a req r a' id1 id2 :
  csi instances cs a (ReqCreate req) r a' -> id1 <> id2 ->
  has_label a (request_label cs req) id1 -> has_label a (request_label cs req) id2 ->
  a' = a /\ is_inl r = true.
Proof.
  intros H Hne H1 H2. inversion H; subst; [done|..]; exfalso.
  - match goal with Hno : forall _, ~ _ |- _ => by destruct (Hno id1) end.
  - match goal with Hone : forall id', _ <-> id' = ?id |- _ => apply Hone in H1, H2 end. congruence.
Qed.

Definition race_start : Pool Account (goerror + CsiVolume) :=
  start [CreateVolume ex_cs ex_create; CreateVolume ex_cs ex_create] ex_before.

(** The volume both of them make, and the account afterwards. *)
Definition race_info : VolInfo :=
  {| vi_Label := request_label ex_cs ex_create; vi_Size := 10; vi_Region := "us-east";
     vi_Encryption := "disabled"; vi_LinodeID := None; vi_Path := path_of "pvc-2" |}.
Definition race_account : Account := <[9 := race_info]> (<[8 := race_info]> ex_before).
Definition race_end : Pool Account (goerror + CsiVolume) :=
  {| threads := [Ret (inr (describe ex_create (10 * 2 ^ 30) 8 race_info));
                 Ret (inr (describe ex_create (10 * 2 ^ 30) 9 race_info))];
     holder := None; world := race_account |}.

Lemma race_schedule :
  advance_all (memory_env ex_instances) [0; 1; 0; 1; 0; 1; 0; 1]%nat race_start = Some race_end.
Proof. vm_compute. reflexivity. Qed.

Lemma race_labels id : id = 8 \/ id = 9 -> has_label race_account (request_label ex_cs ex_create) id.
Proof. intros [->| ->]; exists race_info; split; reflexivity. Qed.

(** C25. Creation is not atomic: nothing in the controller keeps two calls of
    CreateVolume for the same request apart, and there is a schedule in which
    both list no volume of the label, both create one, and both succeed, with
    different volume IDs, if the API accepts a label that is in use; from then on
    every call for that label fails and changes nothing. *)
Theorem create_race :
  rtc (pstep (memory_env ex_instances))
    (start [CreateVolume ex_cs ex_create; CreateVolume ex_cs ex_create] ex_before) race_end /\
  ~ labels_unique (world race_end) /\
  forall instances req, request_label ex_cs req = request_label ex_cs ex_create ->
    swp (documented instances) (handle ex_cs (ReqCreate req))
      (fun a' o => a' = world race_end /\ exists e, o = Done (inl e)) (world race_end).
Proof.
  split; [|split].
  - apply (advance_all_steps _ _ _ _ race_schedule).
  - intros H. discriminate (H 8 9 race_info race_info eq_refl eq_refl eq_refl).
  - intros instances req Hlabel. eapply swp_mono; [apply (all_refine instances ex_cs (ReqCreate req))|]. cbv beta.
    intros a' o (r & -> & Hstep).
    destruct (csi_duplicates _ _ _ _ _ _ 8 9 Hstep) as [-> Hr];
      [lia|rewrite Hlabel; apply race_labels; lia..|].
    split; [done|]. destruct r as [e|]; [by exists e|done].
Qed.

(** * Calls of the Node service at the same time *)

Definition ex_env (c : cmd) (w : unit) : resp c * unit := (ex_world c, w).

Definition ex_calls : list NodeCall :=
  [CallStage (ex_stage "aes-xts-plain64");
   CallUnpublish {| nup_VolumeId := "7-pvc-1"; nup_TargetPath := "/target" |}].

Definition ex_pool : Pool unit (goerror + unit) := start (node_handle <$> ex_calls) tt.

(** The second call first, then the first call to its end. *)
Definition ex_schedule : list nat := [1; 1; 1; 1]%nat ++ replicate 15 0%nat.

Definition ex_pool_end : Pool unit (goerror + unit) :=
  {| threads := [Ret (inr tt); Ret (inr tt)]; holder := None; world := tt |}.

Lemma ex_pool_runs : rtc (pstep ex_env) ex_pool ex_pool_end.
Proof. apply (advance_all_steps _ ex_schedule). vm_compute. reflexivity. Qed.

Lemma node_serializable_witness :
  rtc (pstep ex_env) ex_pool ex_pool_end /\ complete ex_pool_end /\
  exists order outs, order ≡ₚ seq 0 2 /\
    serial ex_env (node_handle <$> ex_calls) order tt = (outs, tt) /\
    forall i o, (i, o) ∈ outs -> threads ex_pool_end !! i = Some (ended o).
Proof.
  split; [exact ex_pool_runs|].
  apply (node_serializable ex_env (fun w => conj eq_refl eq_refl) ex_calls tt ex_pool_end ex_pool_runs).
  apply complete_stops. reflexivity.
Defined.

Lemma node_terminates_witness :
  Acc (fun c2 c1 => pstep ex_env c1 c2) ex_pool_end /\ (complete ex_pool_end \/ ~ nf (pstep ex_env) ex_pool_end).
Proof.
  apply (node_terminates ex_env ex_calls tt ex_pool_end ex_pool_runs).
Defined.
