(* ===== verification/Schedules.v ===== *)
(** Concrete schedules of requests to the Controller service: independent ones, and
    two publications to one instance that race for its last slot. *)
From S2P Require Import Prelude GoStrings Types Errors Metrics Effects LinodeVolumes Sizes Config.
From S2P Require Import DeviceManager Luks NodeServer Controller ControllerProofs NodeProofs.
From S2P Require Import Cloud Csi Interference Refinement Sequences Lifecycle MemoryApi.
From S2P Require Import Concurrency Linearizability Interleaving Races.

(** * An API that does not give out small IDs *)

Section Floor.
Context (instances : gmap Z InstInfo) (floor : Z).

(** The account in memory, which refuses to create a volume while it would get an
    ID up to [floor]. *)
Definition floor_env (c : cmd) (a : Account) : resp c * Account :=
  match c return resp c * Account with
  | Api q =>
      match q return Client.answer q * Account with
      | Client.CreateVolume o =>
          if last_id a <? floor then (inl refused, a) else memory_api instances (Client.CreateVolume o) a
      | Client.CloneVolume src label =>
          if last_id a <? floor then (inl refused, a) else memory_api instances (Client.CloneVolume src label) a
      | q => memory_api instances q a
      end
  | c => (ex_world c, a)
  end.

Lemma floor_documented c a : documented instances c a (floor_env c a).1 (floor_env c a).2.
Proof.
  pose proof (memory_documented instances c a) as H.
  destruct c as [q|?|?|?|?|?|?|?| | |]; try done.
  destruct q as [opts|l|l|reg|l|id|o|src label|id o|id|id l t|id st t|id|id size]; try exact H;
    cbn [floor_env]; case_if; try exact H; by left.
Qed.

Instance floor_LinodeApi : LinodeApi instances Account :=
  { la_env := floor_env; la_account := fun a => a; la_documented := floor_documented }.

Lemma floor_ids c (a : Account) id : id <= floor -> a !! id = None -> (floor_env c a).2 !! id = None.
Proof.
  intros Hid Ha. destruct c as [q|?|?|?|?|?|?|?| | |]; try done.
  destruct q as [opts|l|l|reg|l|id'|o|src label|id' o|id'|id' l t|id' st t|id'|id' size]; try done;
    cbn [floor_env memory_api]; unfold add.
  - repeat (case_if; try done). zify_bool. cbn. rewrite lookup_insert_ne by lia. done.
  - case_if; [done|]. destruct (a !! src); [|done]. repeat (case_if; try done). zify_bool. cbn.
    rewrite lookup_insert_ne by lia. done.
  - destruct (a !! id') as [[? ? ? ? [?|] ?]|]; try done. cbn.
    destruct (decide (id' = id)) as [->|]; [by rewrite lookup_alter_eq, Ha|by rewrite lookup_alter_ne].
  - destruct (a !! id') as [[? ? ? ? [?|] ?]|]; try done. cbn.
    destruct (decide (id' = id)) as [->|]; [by rewrite lookup_alter_eq, Ha|by rewrite lookup_alter_ne].
  - destruct (a !! id') as [[? ? ? ? [?|] ?]|]; try done. cbn.
    destruct (decide (id' = id)) as [->|]; [by rewrite lookup_delete_eq|by rewrite lookup_delete_ne].
  - destruct (a !! id') as [i|]; [case_if|]; try done. cbn.
    destruct (decide (id' = id)) as [->|]; [by rewrite lookup_alter_eq, Ha|by rewrite lookup_alter_ne].
Qed.
End Floor.

(** * Independent requests *)

Definition ex_volume (label : string) (attached : option Z) : VolInfo :=
  {| vi_Label := label; vi_Size := 20; vi_Region := "us-east"; vi_Encryption := "disabled";
     vi_LinodeID := attached; vi_Path := path_of label |}.

Definition ex_account : Account :=
  {[7 := ex_volume "pvc-7" None; 8 := ex_volume "pvc-8" (Some 42); 20 := ex_volume "pvc-20" None]}.

Definition ex_publish (vid : string) : ControllerPublishVolumeRequest :=
  {| cp_VolumeId := vid; cp_NodeId := "42"; cp_VolumeCapability := Some ex_capability |}.

Definition ex_independent : list Request :=
  [ReqDelete "7-pvc-7"; ReqUnpublish {| cu_VolumeId := "8-pvc-8"; cu_NodeId := "42" |};
   ReqCreate ex_create; ReqPublish (ex_publish "20-pvc-20")].

(** The four handlers in turn. *)
Definition ex_turns : list nat := ([3; 0; 1; 2] ++ [3; 0; 1; 2] ++ [3; 0; 1; 2] ++ [1; 2; 3; 3; 3; 3])%nat.

Definition ex_start : Pool Account (goerror + Answer) := start (handle ex_cs <$> ex_independent) ex_account.
Definition ex_done : Pool Account (goerror + Answer) :=
  default ex_start (advance_all (floor_env ex_instances 20) ex_turns ex_start).

Lemma ex_done_runs : rtc (pstep (floor_env ex_instances 20)) ex_start ex_done.
Proof. apply (advance_all_steps _ ex_turns). vm_compute. reflexivity. Qed.

Lemma ex_done_stops : nf (pstep (floor_env ex_instances 20)) ex_done.
Proof. apply complete_stops. vm_compute. reflexivity. Qed.

(** What the requests name and make. *)
Lemma ex_named q id : q ∈ ex_independent -> named_volume q = Some id -> id <= 20.
Proof.
  unfold ex_independent. intros Hq Hn.
  repeat (apply elem_of_cons in Hq as [->|Hq]); [..|by apply elem_of_nil in Hq].
  all: vm_compute in Hn; try discriminate; injection Hn as <-; lia.
Qed.

Lemma ex_requests_independent i j q q' :
  i <> j -> ex_independent !! i = Some q -> ex_independent !! j = Some q' -> independent ex_cs q q'.
Proof.
  intros Hij Hi Hj.
  destruct i as [|[|[|[|i]]]]; try done; destruct j as [|[|[|[|j]]]]; try done;
    injection Hi as <-; injection Hj as <-; apply (bool_decide_unpack _); vm_compute; exact I.
Qed.

Lemma ex_apart : apart ex_cs ex_independent ex_account.
Proof.
  unfold apart, ex_independent. intros q q' label id i Hq Hq' Hc Hch Hi.
  repeat (apply elem_of_cons in Hq as [->|Hq]); [..|by apply elem_of_nil in Hq]; try done.
  vm_compute in Hc. injection Hc as <-. unfold ex_account in Hi.
  repeat (apply lookup_insert_Some in Hi as [[_ <-]|[_ Hi]]; [by vm_compute|]).
  apply lookup_singleton_Some in Hi as [_ <-]. by vm_compute.
Qed.

Lemma controller_linearizable_witness :
  rtc (pstep (floor_env ex_instances 20)) ex_start ex_done /\
  exists served : list (nat * Request * (goerror + Answer)),
    csi_run ex_instances ex_cs ex_account (snd ∘ fst <$> served) (snd <$> served) (world ex_done) /\
    fst ∘ fst <$> served ≡ₚ seq 0 4 /\
    forall i q r, (i, q, r) ∈ served -> ex_independent !! i = Some q /\ threads ex_done !! i = Some (Ret r).
Proof.
  split; [exact ex_done_runs|].
  apply (controller_linearizable (Hapi := floor_LinodeApi ex_instances 20) ex_instances ex_cs ex_independent
    ex_account ex_done ex_requests_independent ex_apart).
  - intros c a id (q & Hq & Hn). apply (floor_ids ex_instances 20). exact (ex_named q id Hq Hn).
  - exact ex_done_runs.
  - exact ex_done_stops.
Defined.

Lemma controller_concurrent_safe_witness :
  labels_unique (world ex_done) /\ within_limits ex_instances (world ex_done).
Proof.
  destruct (controller_concurrent_safe (Hapi := floor_LinodeApi ex_instances 20) ex_instances ex_cs ex_independent
    ex_account ex_done ex_requests_independent ex_apart) as (H1 & H2 & _).
  - intros c a id (q & Hq & Hn). apply (floor_ids ex_instances 20). exact (ex_named q id Hq Hn).
  - exact ex_done_runs.
  - exact ex_done_stops.
  - split; [apply H1|apply H2].
    + intros id1 id2 i1 i2 Hi1 Hi2 Hl. cbn [la_account floor_LinodeApi] in *. unfold ex_account in *.
      repeat first [apply lookup_insert_Some in Hi1 as [[<- <-]|[_ Hi1]]|apply lookup_singleton_Some in Hi1 as [<- <-]];
      repeat first [apply lookup_insert_Some in Hi2 as [[<- <-]|[_ Hi2]]|apply lookup_singleton_Some in Hi2 as [<- <-]];
      done.
    + unfold ex_instances. intros l inst [<- <-]%lookup_singleton_Some. vm_compute. discriminate.
Defined.

(** * Two publications to one instance *)

(** Seven volumes fit beside the disk of the instance, six are attached. *)
Definition crowded : Account :=
  list_to_map ((7, ex_volume "pvc-7" None) :: (8, ex_volume "pvc-8" None) ::
    ((fun id => (id, ex_volume ("pvc-" +:+ Itoa id) (Some 42))) <$> [1; 2; 3; 4; 5; 6])).

Definition crowded_start : Pool Account (goerror + gmap string string) :=
  start [ControllerPublishVolume (ex_publish "7-pvc-7"); ControllerPublishVolume (ex_publish "8-pvc-8")] crowded.

Definition crowded_end : Pool Account (goerror + gmap string string) :=
  default crowded_start (advance_all (memory_env ex_instances) (concat (replicate 7 [0; 1]%nat)) crowded_start).

Lemma crowded_runs : rtc (pstep (memory_env ex_instances)) crowded_start crowded_end.
Proof. apply (advance_all_steps _ (concat (replicate 7 [0; 1]%nat))). vm_compute. reflexivity. Qed.

(** The count of attachments and the attachment are two calls with nothing to keep
    other requests out in between: there is a schedule of two publications to an
    instance with room for one more volume in which both count before either
    attaches, both succeed, and the instance is over the limit that the controller
    computes, if the API leaves that limit to the driver. *)
Theorem publish_race :
  within_limits ex_instances crowded /\
  rtc (pstep (memory_env ex_instances)) crowded_start crowded_end /\
  threads crowded_end = [Ret (inr {[devicePathKey := path_of "pvc-7"]}); Ret (inr {[devicePathKey := path_of "pvc-8"]})] /\
  ~ within_limits ex_instances (world crowded_end).
Proof.
  split_and!.
  - unfold ex_instances. intros l inst [<- <-]%lookup_singleton_Some. vm_compute. discriminate.
  - exact crowded_runs.
  - vm_compute. reflexivity.
  - intros H. specialize (H 42 _ eq_refl). vm_compute in H. by apply H.
Qed.
