(* ===== verification/Contention.v ===== *)
(** Any requests to the Controller service at the same time, independent or not:
    what no schedule of them can do, at any moment. *)
From S2P Require Import Prelude GoStrings Types Errors Metrics Effects LinodeVolumes Sizes Config.
From S2P Require Import DeviceManager Luks NodeServer Controller ControllerProofs NodeProofs Cloud Csi Refinement Sequences.
From S2P Require Import Interference Concurrency MemoryApi Interleaving Races Schedules.

(** * Programs and the calls they make *)

(** The program makes no other calls than [G] permits. *)
Fixpoint only (G : cmd -> Prop) {A} (p : prog A) : Prop :=
  match p with
  | Call c k => G c /\ forall r, only G (k r)
  | _ => True
  end.

Lemma wp_only (G : cmd -> Prop) {A} (p : prog A) (guard : call_guard) Q tr :
  (forall tr c, guard tr c -> G c) -> wp any_env guard p Q tr -> only G p.
Proof.
  intros HG. revert tr. induction p as [a|why|c k IH]; intros tr; cbn; [done..|].
  intros [Hc H]. split; [by eapply HG|]. intros r. by eapply IH, H.
Qed.

Lemma only_bind (G : cmd -> Prop) {A B} (p : prog A) (f : A -> prog B) :
  only G p -> (forall a, only G (f a)) -> only G (bind p f).
Proof.
  intros Hp Hf. induction p as [a|why|c k IH]; cbn in *; [auto..|]. destruct Hp as [Hc Hp]. split; [done|].
  intros r. by apply IH, Hp.
Qed.

Section Contention.
Context `{Hapi : LinodeApi instances W} (cs : ControllerServer).

(** * What the requests ask for *)

Definition asks_attach (q : Request) (id l : Z) : Prop :=
  exists req, q = ReqPublish req /\
    NodeIdAsInt "ControllerPublishVolume" (cp_NodeId req) = inr l /\
    VolumeIdAsInt "ControllerPublishVolume" (cp_VolumeId req) = inr id.

Definition asks_release (q : Request) (id : Z) : Prop :=
  exists req, q = ReqUnpublish req /\ VolumeIdAsInt "ControllerUnpublishVolume" (cu_VolumeId req) = inr id.

Definition asks_size (q : Request) (id gb : Z) : Prop :=
  exists req size, q = ReqExpand req /\ VolumeIdAsInt "ControllerExpandVolume" (ce_VolumeId req) = inr id /\
    getRequestCapacitySize (ce_CapacityRange req) = inr size /\ gb = bytesToGB size.

Definition asks_label (q : Request) (label : string) : Prop :=
  exists req, q = ReqCreate req /\ label = request_label cs req.

(** The calls that change the account which the request can lead to. *)
Definition may_call (q : Request) (c : cmd) : Prop :=
  is_mutating c = true ->
  match c with
  | Api (Client.CreateVolume o) => asks_label q (co_Label o)
  | Api (Client.CloneVolume _ label) => asks_label q label
  | Api (Client.DeleteVolume id) => asks_delete q id
  | Api (Client.AttachVolume id o) => asks_attach q id (ao_LinodeID o)
  | Api (Client.DetachVolume id) => asks_release q id
  | Api (Client.ResizeVolume id gb) => asks_size q id gb
  | _ => False
  end.

(** The handlers of the requests that only read. *)
Lemma reader_only {A} (p : prog A) q :
  every_call p (fun _ c => is_mutating c = false) -> only (may_call q) p.
Proof. intros H. eapply wp_only, H. intros tr c Hr Hc. congruence. Qed.

Lemma handle_only q : only (may_call q) (handle cs q).
Proof.
  destruct q as [req|vid|req|req|req|req|req]; cbn [handle]; unfold answering, ebind;
    (apply only_bind; [|by intros [e|a]]).
  - eapply wp_only, create_calls. intros tr c Hg Hc. destruct (Hg Hc) as (_ & _ & H).
    destruct c as [[]| | | | | | | | | |]; try done; cbn in H |- *;
      [destruct H as (_ & H & _)|destruct H as (H & _)]; by exists req.
  - eapply wp_only, delete_calls. intros tr c Hg Hc. destruct (Hg Hc) as (id & v & -> & H & _). by exists vid.
  - eapply wp_only, publish_calls. intros tr c Hg Hc.
    destruct (Hg Hc) as (l & id & i & v & -> & Hl & Hid & _). by exists req.
  - eapply wp_only, unpublish_calls. intros tr c Hg Hc. destruct (Hg Hc) as (l & id & v & -> & _ & Hid & _).
    by exists req.
  - eapply wp_only, expand_calls. intros tr c Hg Hc. destruct (Hg Hc) as (id & v & size & -> & Hid & Hs & _).
    by exists req, size.
  - apply reader_only. unfold every_call. wp_unfold. by wp_run.
  - apply reader_only. unfold every_call. wp_unfold. by wp_run.
Qed.

(** * What the account can have become *)

Section Altered.
Context (qs : list Request).

(** Some request asks for it. *)
Abbreviation asked f := (exists q, q ∈ qs /\ f q).

(** The same volume: its attachment and its size are as they were, or as a request
    asks. *)
Record altered (id : Z) (i i' : VolInfo) : Prop := {
  alt_label : vi_Label i' = vi_Label i;
  alt_region : vi_Region i' = vi_Region i;
  alt_encryption : vi_Encryption i' = vi_Encryption i;
  alt_path : vi_Path i' = vi_Path i;
  alt_attached : vi_LinodeID i' = vi_LinodeID i \/
    match vi_LinodeID i' with
    | Some l => asked (fun q => asks_attach q id l)
    | None => asked (fun q => asks_release q id)
    end;
  alt_size : vi_Size i' = vi_Size i \/ asked (fun q => asks_size q id (vi_Size i'));
}.

#[export] Instance altered_preorder id : PreOrder (altered id).
Proof.
  split; [intros i; by split; auto|]. intros i1 i2 i3 [L1 R1 E1 P1 A1 S1] [L2 R2 E2 P2 A2 S2].
  split; [congruence..| |].
  - destruct A2 as [A2|A2]; [|by right]. by rewrite A2.
  - destruct S2 as [S2|S2]; [|by right]. by rewrite S2.
Qed.

(** A volume that is gone was asked away, and one that is new has the label of a
    request to create; the others are altered at most. *)
Record asked_for (a a' : Account) : Prop := {
  af_gone : forall id i, a !! id = Some i ->
    (exists i', a' !! id = Some i' /\ altered id i i') \/ asked (fun q => asks_delete q id);
  af_new : forall id i', a' !! id = Some i' ->
    (exists i, a !! id = Some i /\ altered id i i') \/ asked (fun q => asks_label q (vi_Label i'));
}.

#[export] Instance asked_for_preorder : PreOrder asked_for.
Proof.
  split; [intros a; split; intros id i Hi; left; by exists i|].
  intros a1 a2 a3 [G1 N1] [G2 N2]. split.
  - intros id i Hi. destruct (G1 id i Hi) as [(i2 & H2 & Ha2)|?]; [|by right].
    destruct (G2 id i2 H2) as [(i3 & H3 & Ha3)|?]; [|by right]. left. exists i3. split; [done|by etransitivity].
  - intros id i3 Hi. destruct (N2 id i3 Hi) as [(i2 & H2 & Ha3)|?]; [|by right].
    destruct (N1 id i2 H2) as [(i & H1 & Ha2)|Hnew].
    + left. exists i. split; [done|by etransitivity].
    + right. by rewrite (alt_label _ _ _ Ha3).
Qed.

Lemma asked_for_alter (f : VolInfo -> VolInfo) id a :
  (forall i, altered id i (f i)) -> asked_for a (alter f id a).
Proof.
  intros Hf. split; intros id' i Hi; left; destruct (decide (id = id')) as [<-|Hne].
  - exists (f i). by rewrite lookup_alter_eq, Hi.
  - exists i. by rewrite lookup_alter_ne.
  - rewrite lookup_alter_eq in Hi. destruct (a !! id) as [i0|]; [|done]. injection Hi as <-. by exists i0.
  - rewrite lookup_alter_ne in Hi by done. by exists i.
Qed.

Lemma asked_for_insert id i a : a !! id = None -> asked (fun q => asks_label q (vi_Label i)) -> asked_for a (<[id := i]> a).
Proof.
  intros Hnone Hq. split; intros id' i' Hi; (destruct (decide (id = id')) as [<-|Hne]; [|left; exists i']).
  - congruence.
  - by rewrite lookup_insert_ne.
  - rewrite lookup_insert_eq in Hi. injection Hi as <-. by right.
  - by rewrite lookup_insert_ne in Hi.
Qed.

Lemma asked_for_delete id a : asked (fun q => asks_delete q id) -> asked_for a (delete id a).
Proof.
  intros Hq. split; intros id' i' Hi; (destruct (decide (id = id')) as [<-|Hne]; [|left; exists i']).
  - by right.
  - by rewrite lookup_delete_ne.
  - by rewrite lookup_delete_eq in Hi.
  - by rewrite lookup_delete_ne in Hi.
Qed.

(** A call that failed may have done nothing. *)
Lemma asked_for_attempted failed a a1 a' : attempted failed a a1 a' -> asked_for a a1 -> asked_for a a'.
Proof. by intros [->|[_ ->]]. Qed.

(** One call of a request. *)
Lemma call_asked_for q c a r a' : q ∈ qs -> may_call q c -> documented instances c a r a' -> asked_for a a'.
Proof.
  intros Hq Hm Hd. destruct (is_mutating c) eqn:Hc; [|by rewrite (documented_reads _ _ _ _ _ Hc Hd)].
  specialize (Hm Hc). destruct c as [[opts|l|l|reg|l|id|o|src label|id o|id|id l t|id st t|id|id gb]| | | | | | | | | |];
    try done; cbn in Hd, Hm.
  - destruct Hd as [[-> _]|(id & i & (Hn & _) & Hl & _ & _ & _ & -> & _)]; [done|].
    apply asked_for_insert; [done|]. exists q. by rewrite Hl.
  - destruct Hd as [[-> _]|(id & i & j & (Hn & _) & _ & Hl & _ & _ & _ & -> & _)]; [done|].
    apply asked_for_insert; [done|]. exists q. by rewrite Hl.
  - destruct Hd as [Hd _]. eapply asked_for_attempted; [exact Hd|]. apply asked_for_alter.
    intros i. split; cbn; eauto.
  - destruct Hd as [Hd _]. eapply asked_for_attempted; [exact Hd|]. apply asked_for_alter.
    intros i. split; cbn; eauto.
  - eapply asked_for_attempted; [exact Hd|]. apply asked_for_delete. eauto.
  - eapply asked_for_attempted; [exact Hd|]. apply asked_for_alter. intros i. split; cbn; eauto.
Qed.
End Altered.

(** * Schedules *)

(** Every thread runs what is left of a request. *)
Definition of_requests (qs : list Request) (c : Pool W (goerror + Answer)) : Prop :=
  Forall (fun p => exists q, q ∈ qs /\ only (may_call q) p) (threads c).

Lemma start_of_requests qs w : of_requests qs (start (handle cs <$> qs) w).
Proof.
  apply list.Forall_forall. intros p (q & -> & Hq)%list_elem_of_fmap. exists q. split; [done|apply handle_only].
Qed.

Lemma pstep_asked_for qs c c' :
  of_requests qs c -> pstep la_env c c' ->
  of_requests qs c' /\ asked_for qs (la_account (world c)) (la_account (world c')).
Proof.
  unfold of_requests. intros Hts Hstep. destruct Hstep as [ts h w i d k Hi Hd|ts w i k Hi|ts j w i k Hi]; cbn in *;
    pose proof (proj1 (Forall_lookup _ _) Hts i _ Hi) as (q & Hq & Hc & Hk);
    (split; [apply Forall_insert; eauto|]); [|reflexivity..].
  eapply call_asked_for; [exact Hq|exact Hc|apply la_documented].
Qed.

(** C21. Any requests at the same time, independent or not, under every schedule, at
    every moment and whatever calls fail: a volume is gone only if one of the
    requests asks to delete it, and there is a new one only if a request asks to
    create a volume of its label; every other volume keeps its label, its region,
    its encryption and its path, it is attached as it was or to an instance that a
    request asks to attach it to (or, if a request asks to detach it, to none), and
    it has the size it had or one that a request asks for. *)
Theorem controller_contention (qs : list Request) (w : W) (c : Pool W (goerror + Answer))
  (Hsteps : rtc (pstep la_env) (start (handle cs <$> qs) w) c) :
  asked_for qs (la_account w) (la_account (world c)).
Proof.
  change w with (world (start (handle cs <$> qs) w)) at 1.
  pose proof (start_of_requests qs w) as Hts. revert Hts Hsteps. generalize (start (handle cs <$> qs) w) as c0.
  intros c0 Hts Hsteps. induction Hsteps as [c|c c1 c2 Hstep _ IH]; [reflexivity|].
  destruct (pstep_asked_for _ _ _ Hts Hstep) as [Hts1 H1]. etransitivity; [exact H1|by apply IH].
Qed.
End Contention.

(** Requests that are not independent: two publications to an instance with room for
    one volume ([publish_race]), and a request to delete one of the volumes. *)
Definition ex_contending : list Request :=
  [ReqPublish (ex_publish "7-pvc-7"); ReqPublish (ex_publish "8-pvc-8"); ReqDelete "8-pvc-8"].

(** The deletion looks at its volume first, and goes on last. *)
Definition contending_turns : list nat := ([2] ++ concat (replicate 7 [0; 1]) ++ [2; 2])%nat.

Definition contending_start : Pool Account (goerror + Answer) := start (handle ex_cs <$> ex_contending) crowded.
Definition contending_end : Pool Account (goerror + Answer) :=
  default contending_start (advance_all (memory_env ex_instances) contending_turns contending_start).

Lemma contending_runs : rtc (pstep (memory_env ex_instances)) contending_start contending_end.
Proof. apply (advance_all_steps _ contending_turns). vm_compute. reflexivity. Qed.

Lemma controller_contention_witness :
  rtc (pstep (memory_env ex_instances)) contending_start contending_end /\
  ~ independent ex_cs (ReqPublish (ex_publish "8-pvc-8")) (ReqDelete "8-pvc-8") /\
  asked_for ex_cs ex_contending crowded (world contending_end).
Proof.
  split_and!; [exact contending_runs|apply (bool_decide_unpack _); vm_compute; exact I|].
  apply (controller_contention (Hapi := memory_LinodeApi ex_instances) ex_cs ex_contending crowded contending_end
    contending_runs).
Defined.
