(* ===== verification/NodeWorld.v ===== *)
(** The state of a node: what is on its devices, the LUKS mappings that are open,
    and what is mounted.

    [node_documented] relates a call, the node before it, the answer and the node
    after it, as k8s.io/mount-utils, cryptsetup and blkid document them.  A
    device is known by the path it was found at.  FormatAndMount formats only
    what blkid finds nothing on; that luksFormat does so too is for the driver
    to see to, and cryptsetup does not check it. *)
From S2P Require Import Prelude GoStrings Types Errors Metrics Effects LinodeVolumes Sizes Config.
From S2P Require Import DeviceManager Luks NodeServer Controller ControllerProofs Cloud NodeProofs.

(** * The state *)

(** What blkid finds: nothing, a file system or other data, or a LUKS header with
    its volume key and the passphrases of its slots, and what is inside. *)
Inductive Content :=
| Empty
| Known (what : string)
| LuksData (volumeKey : string) (slots : list string) (inner : option string).

#[export] Instance Content_eq_dec : EqDecision Content.
Proof. solve_decision. Defined.

Record MountPoint := { mp_source : string; mp_options : list string }.

Record Node := {
  disks : gmap string Content;
  maps : gmap string string;                (* open mappings, and the device of each *)
  mounts : gmap string (list MountPoint);   (* mounts on a path, the last one first *)
  handles : gmap Device string;             (* cryptsetup devices, and the path of each *)
}.

Definition set_disk (path : string) (c : Content) (n : Node) : Node :=
  {| disks := <[path := c]> (disks n); maps := maps n; mounts := mounts n; handles := handles n |}.
Definition set_maps (m : gmap string string) (n : Node) : Node :=
  {| disks := disks n; maps := m; mounts := mounts n; handles := handles n |}.
Definition set_mounts (path : string) (l : list MountPoint) (n : Node) : Node :=
  {| disks := disks n; maps := maps n; mounts := <[path := l]> (mounts n); handles := handles n |}.
Definition set_handles (h : gmap Device string) (n : Node) : Node :=
  {| disks := disks n; maps := maps n; mounts := mounts n; handles := h |}.

Definition content (n : Node) (path : string) : Content := default Empty (disks n !! path).
Definition mounted_at (n : Node) (path : string) : list MountPoint := default [] (mounts n !! path).

Lemma content_set_disk n path c path' :
  content (set_disk path c n) path' = if decide (path = path') then c else content n path'.
Proof. unfold content. cbn. by rewrite lookup_insert; case_decide. Qed.

Lemma mounted_set_mounts n path l path' :
  mounted_at (set_mounts path l n) path' = if decide (path = path') then l else mounted_at n path'.
Proof. unfold mounted_at. cbn. by rewrite lookup_insert; case_decide. Qed.

(** ** Mapped devices *)

Fixpoint strip_prefix (p s : string) : option string :=
  match p, s with
  | EmptyString, _ => Some s
  | String a p, String b s => if Ascii.eqb a b then strip_prefix p s else None
  | String _ _, EmptyString => None
  end.

Lemma strip_prefix_app p s : strip_prefix p (p +:+ s) = Some s.
Proof. induction p as [|a p IH]; [done|]. rewrite str_app_cons. cbn. by rewrite Ascii.eqb_refl. Qed.

(** The device of the mapping that [source] names, when it is open. *)
Definition backing (n : Node) (source : string) : option string :=
  match strip_prefix "/dev/mapper/" source with Some name => maps n !! name | None => None end.

(** Nothing is on what would be mounted from [source]. *)
Definition blank (n : Node) (source : string) : bool :=
  match backing n source with
  | Some path => match content n path with LuksData _ _ None => true | _ => false end
  | None => bool_decide (content n source = Empty)
  end.

(** Making a file system on [source]. *)
Definition format (fstype source : string) (n : Node) : Node :=
  match backing n source with
  | Some path =>
      match content n path with
      | LuksData key slots _ => set_disk path (LuksData key slots (Some fstype)) n
      | _ => n
      end
  | None => set_disk source (Known fstype) n
  end.

(** * The documented behaviour *)

Definition node_documented : state_law Node := fun c n =>
  match c return resp c -> Node -> Prop with
  | Fs f =>
      match f return FS.answer f -> Node -> Prop with
      (* Only devices are looked for. *)
      | FS.Stat path => fun r n' => n' = n /\ (r = None -> is_Some (disks n !! path))
      | _ => fun _ n' => n' = n
      end
  | Exec x =>
      match x return Executor.answer x -> Node -> Prop with
      | Executor.CmdRun "blkid" [path] => fun r n' =>
          n' = n /\
          match r with
          | None => content n path <> Empty
          | Some err => xe_ExitStatus err = Some 2 -> content n path = Empty
          end
      | _ => fun _ n' => n' = n
      end
  | Mnt m =>
      match m return Mounter.answer m -> Node -> Prop with
      | Mounter.IsLikelyNotMountPoint path => fun r n' =>
          n' = n /\
          match r with
          | (b, None) => b = bool_decide (mounted_at n path = [])
          | (b, Some err) => oe_IsNotExist err = true -> b = true /\ mounted_at n path = []
          end
      | Mounter.Mount source target _ options => fun r n' =>
          n' = if is_some r then n
               else set_mounts target ({| mp_source := source; mp_options := options |} :: mounted_at n target) n
      | Mounter.FormatAndMount source target fstype options => fun r n' =>
          exists n1, (n1 = n \/ blank n source = true /\ n1 = format fstype source n) /\
            if is_some r then n' = n1
            else blank n1 source = false /\
              n' = set_mounts target ({| mp_source := source; mp_options := options |} :: mounted_at n1 target) n1
      | Mounter.CleanupMountPoint path _ => fun r n' =>
          match r with
          | None => (length (mounted_at n path) <= 1)%nat /\ n' = set_mounts path [] n
          | Some _ => n' = n \/ n' = set_mounts path (tail (mounted_at n path)) n
          end
      end
  | Crypt y =>
      match y return Cryptsetup.answer y -> Node -> Prop with
      | Cryptsetup.Init path => fun r n' =>
          match r with
          | inr d => handles n !! d = None /\ n' = set_handles (<[d := path]> (handles n)) n
          | inl _ => n' = n
          end
      | Cryptsetup.InitByName name => fun r n' =>
          match r with
          | inr d => exists path, maps n !! name = Some path /\ handles n !! d = None /\
              n' = set_handles (<[d := path]> (handles n)) n
          | inl _ => n' = n
          end
      | Cryptsetup.Format d _ params => fun r n' =>
          match handles n !! d, r with
          | Some path, None => n' = set_disk path (LuksData (VolumeKey params) [] None) n
          | Some path, Some _ => n' = n \/ exists c, n' = set_disk path c n
          | None, _ => is_some r = true /\ n' = n
          end
      | Cryptsetup.KeyslotAddByVolumeKey d _ volumeKey passphrase => fun r n' =>
          if is_some r then n' = n
          else exists path key slots inner, handles n !! d = Some path /\
            content n path = LuksData key slots inner /\ (volumeKey = "" \/ volumeKey = key) /\
            n' = set_disk path (LuksData key (passphrase :: slots) inner) n
      | Cryptsetup.ActivateByPassphrase d name _ passphrase _ => fun r n' =>
          match r with
          | None => exists path key slots inner, handles n !! d = Some path /\ maps n !! name = None /\
              content n path = LuksData key slots inner /\ passphrase ∈ slots /\
              n' = set_maps (<[name := path]> (maps n)) n
          | Some err => n' = n /\ (ye_Code err = Some (-17) -> is_Some (maps n !! name))
          end
      | Cryptsetup.Load d _ => fun r n' =>
          n' = n /\
          (r = None -> exists path key slots inner, handles n !! d = Some path /\
             content n path = LuksData key slots inner)
      | Cryptsetup.Free d => fun _ n' => n' = set_handles (delete d (handles n)) n
      | Cryptsetup.Deactivate d name => fun r n' =>
          n' = if is_some r then n else set_maps (delete name (maps n)) n
      end
  | _ => fun _ n' => n' = n
  end.

(** A search for a device changes nothing. *)
Lemma device_call_documented c n r n' :
  device_call c = true -> node_documented c n r n' -> n' = n.
Proof.
  destruct c as [|[]| |[|cmd args|]| | | | | | |]; cbn; try done. by intros _ [-> _].
Qed.

(** ** Programs that only look *)

(** What holds under a law holds under a stronger one. *)
Lemma wp_stronger (law law' : env_law) (guard : call_guard) {A} (p : prog A) Q tr :
  (forall tr c r, law' tr c r -> law tr c r) -> wp law guard p Q tr -> wp law' guard p Q tr.
Proof.
  intros Hl. revert tr. induction p as [a|why|c k IH]; intros tr; cbn; [done..|].
  intros [Hg H]. split; [done|]. intros r Hr. by apply IH, H, Hl.
Qed.

Section Reads.
Context {S : Type} (law : state_law S).

(** An answer that the law allows in a state that the call leaves alone. *)
Definition read_in (s : S) (e : event) : Prop := match e with Event c r => law c s r s end.

(** What is proved of the calls and answers of a program holds of its runs over a
    state that these calls leave alone. *)
Lemma swp_reads {A} (p : prog A) (G : cmd -> Prop) Q s tr :
  (forall c r s', G c -> law c s r s' -> s' = s) -> Forall (read_in s) tr ->
  wp (fun _ c r => law c s r s) (fun _ => G) p Q tr ->
  swp law p (fun s' o => s' = s /\ exists tr', Q tr' o /\ Forall (read_in s) tr') s.
Proof.
  intros HG. revert tr. induction p as [a|why|c k IH]; intros tr Htr; cbn; [by eauto..|].
  intros [Hc H] r s' Hr. pose proof (HG _ _ _ Hc Hr) as ->. eapply IH, H; [|done].
  apply Forall_app. split; [done|]. by repeat constructor.
Qed.
End Reads.
