(* ===== verification/NodeSpec.v ===== *)
(** The Node service against an abstract specification.

    [nstep] says, in terms of the node alone, what each call of the four mounting
    handlers may do and answer; cryptsetup's device objects are not part of it.
    The handlers refine it ([node_refines]), and what holds of every sequence of
    abstract steps holds of every sequence of calls, and, calls being
    serializable, of calls at the same time. *)
From S2P Require Import Prelude GoStrings Types Errors Metrics Effects LinodeVolumes Sizes Config.
From S2P Require Import DeviceManager Luks NodeServer Controller ControllerProofs Cloud NodeProofs.
From S2P Require Import Concurrency NodeWorld.

(** * Nodes up to the device objects *)

#[export] Instance node_equiv : Equiv Node := fun n n' =>
  disks n = disks n' /\ maps n = maps n' /\ forall path, mounted_at n path = mounted_at n' path.

#[export] Instance node_equivalence : Equivalence (≡@{Node}).
Proof.
  split.
  - done.
  - intros n n' (H1 & H2 & H3). by split_and!.
  - intros n1 n2 n3 (? & ? & H) (? & ? & H'). split_and!; [congruence..|]. intros p. by rewrite H.
Qed.

#[export] Instance content_proper : Proper ((≡) ==> eq ==> eq) content.
Proof. intros n n' (H & _) p p' <-. unfold content. by rewrite H. Qed.

#[export] Instance maps_proper : Proper ((≡) ==> eq) maps.
Proof. by intros n n' (_ & H & _). Qed.

#[export] Instance mounted_proper : Proper ((≡) ==> eq ==> eq) mounted_at.
Proof. by intros n n' (_ & _ & H) p p' <-. Qed.

#[export] Instance set_disk_proper : Proper (eq ==> eq ==> (≡) ==> (≡)) set_disk.
Proof. intros p ? <- c ? <- n n' (Hd & Hm & Ht). split_and!; cbn; [by rewrite Hd|done|exact Ht]. Qed.

#[export] Instance set_maps_proper : Proper (eq ==> (≡) ==> (≡)) set_maps.
Proof. intros m ? <- n n' (Hd & Hm & Ht). by split_and!. Qed.

#[export] Instance set_mounts_proper : Proper (eq ==> eq ==> (≡) ==> (≡)) set_mounts.
Proof.
  intros p ? <- l ? <- n n' (Hd & Hm & Ht). split_and!; [done..|]. intros p'.
  by rewrite !mounted_set_mounts, Ht.
Qed.

#[export] Instance backing_proper : Proper ((≡) ==> eq ==> eq) backing.
Proof. intros n n' Hn s ? <-. unfold backing. by rewrite (maps_proper n n' Hn). Qed.

#[export] Instance blank_proper : Proper ((≡) ==> eq ==> eq) blank.
Proof.
  intros n n' Hn s ? <-. unfold blank. rewrite (backing_proper n n' Hn s s eq_refl).
  destruct (backing n' s) as [p|]; by rewrite (content_proper n n' Hn _ _ eq_refl).
Qed.

#[export] Instance format_proper : Proper (eq ==> eq ==> (≡) ==> (≡)) format.
Proof.
  intros fs ? <- s ? <- n n' Hn. unfold format. rewrite (backing_proper n n' Hn s s eq_refl).
  destruct (backing n' s) as [p|]; [|by rewrite Hn].
  rewrite (content_proper n n' Hn p p eq_refl). destruct (content n' p); by rewrite ?Hn.
Qed.

Lemma handles_equiv h n : set_handles h n ≡ n.
Proof. by split_and!. Qed.
#[export] Hint Rewrite handles_equiv : go.

(** * The specification *)

Section Spec.
Context {D : DeviceUtils}.

(** The names the device of the volume is looked for at. *)
Definition device_name (req : NodeStageVolumeRequest) (path : string) : Prop :=
  exists key, ParseLinodeVolumeKey (ns_VolumeId req) = inr key /\
    path ∈ GetDiskByIdPaths (GetNormalizedLabel key) (map_get (ns_VolumeContext req) "partition").

(** The device is made ready to be mounted: its source, and the node with it. *)
Inductive ready (ctx : LuksContext) (path : string) (n : Node) : string -> Node -> Prop :=
| Ready_plain n' :
    EncryptionEnabled ctx = false -> n' ≡ n ->
    ready ctx path n path n'
| Ready_formatted n' :
    luks_complete ctx -> content n path = Empty -> maps n !! VolumeName ctx = None ->
    n' ≡ set_maps (<[VolumeName ctx := path]> (maps n))
           (set_disk path (LuksData (EncryptionKey ctx) [EncryptionKey ctx] None) n) ->
    ready ctx path n ("/dev/mapper/" +:+ VolumeName ctx) n'
| Ready_opened key slots inner n' :
    luks_complete ctx -> content n path = LuksData key slots inner -> EncryptionKey ctx ∈ slots ->
    maps n !! VolumeName ctx = None ->
    n' ≡ set_maps (<[VolumeName ctx := path]> (maps n)) n ->
    ready ctx path n ("/dev/mapper/" +:+ VolumeName ctx) n'
(* The mapping is open already, for whichever device. *)
| Ready_open key slots inner n' :
    luks_complete ctx -> content n path = LuksData key slots inner ->
    is_Some (maps n !! VolumeName ctx) -> n' ≡ n ->
    ready ctx path n ("/dev/mapper/" +:+ VolumeName ctx) n'.

(** A file system may have been made on a blank source. *)
Definition may_format (fstype source : string) (n n' : Node) : Prop :=
  n' ≡ n \/ blank n source = true /\ n' ≡ format fstype source n.

Definition stage_mount (req : NodeStageVolumeRequest) (source : string) : MountPoint :=
  {| mp_source := source; mp_options := snd (getFSTypeAndMountOptions (ns_VolumeCapability req)) |}.

Definition publish_mount (req : NodePublishVolumeRequest) (source : string) : MountPoint :=
  {| mp_source := source; mp_options := "bind" :: if np_Readonly req then ["ro"] else [] |}.

(** The mapping that unstaging closes; cryptsetup may not know it. *)
Inductive closed (volumeID : string) (n : Node) : Node -> Prop :=
| Closed name path n' :
    getMountSource volumeID = inr name -> maps n !! name = Some path ->
    n' ≡ set_maps (delete name (maps n)) n -> closed volumeID n n'
| Not_found name n' : getMountSource volumeID = inr name -> n' ≡ n -> closed volumeID n n'.

(** The device may be that of the volume, it is there, and there is something to
    mount. *)
Definition can_stage (req : NodeStageVolumeRequest) (n : Node) (path : string) : Prop :=
  device_name req path /\ mounted_at n (ns_StagingTargetPath req) = [] /\
  GetBlock (ns_VolumeCapability req) = false /\ is_Some (disks n !! path).

Inductive nstep (n : Node) : NodeCall -> outcome (goerror + unit) -> Node -> Prop :=
| N_refused q e n' : n' ≡ n -> nstep n q (Done (inl e)) n'
| N_stage_panic req path n' :
    can_stage req n path -> content n path = Empty -> no_mode (stage_context req) -> n' ≡ n ->
    nstep n (CallStage req) (Panicked IndexOutOfRange) n'
| N_stage_idle req n' :
    mounted_at n (ns_StagingTargetPath req) <> [] \/ GetBlock (ns_VolumeCapability req) = true ->
    n' ≡ n -> nstep n (CallStage req) (Done (inr tt)) n'
| N_stage_formatting req e path c n' :
    can_stage req n path -> luks_complete (stage_context req) -> content n path = Empty ->
    n' ≡ set_disk path c n ->
    nstep n (CallStage req) (Done (inl e)) n'
| N_stage_unmounted req e path source n1 n' :
    can_stage req n path -> ready (stage_context req) path n source n1 ->
    may_format (fst (getFSTypeAndMountOptions (ns_VolumeCapability req))) source n1 n' ->
    nstep n (CallStage req) (Done (inl e)) n'
| N_stage req path source n1 n2 n' :
    can_stage req n path -> ready (stage_context req) path n source n1 ->
    may_format (fst (getFSTypeAndMountOptions (ns_VolumeCapability req))) source n1 n2 ->
    blank n2 source = false ->
    n' ≡ set_mounts (ns_StagingTargetPath req) [stage_mount req source] n2 ->
    nstep n (CallStage req) (Done (inr tt)) n'
| N_unstage req n1 n' :
    (length (mounted_at n (nu_StagingTargetPath req)) <= 1)%nat ->
    n1 ≡ set_mounts (nu_StagingTargetPath req) [] n -> closed (nu_VolumeId req) n1 n' ->
    nstep n (CallUnstage req) (Done (inr tt)) n'
| N_unstage_failed req e n1 n' :
    (n1 = mounted_at n (nu_StagingTargetPath req) \/ n1 = tail (mounted_at n (nu_StagingTargetPath req))) ->
    n' ≡ set_mounts (nu_StagingTargetPath req) n1 n -> nstep n (CallUnstage req) (Done (inl e)) n'
| N_unstage_open req e n1 n' :
    (length (mounted_at n (nu_StagingTargetPath req)) <= 1)%nat ->
    n1 ≡ set_mounts (nu_StagingTargetPath req) [] n -> n' ≡ n1 \/ closed (nu_VolumeId req) n1 n' ->
    nstep n (CallUnstage req) (Done (inl e)) n'
| N_publish_idle req n' :
    GetBlock (np_VolumeCapability req) = false -> mounted_at n (np_TargetPath req) <> [] -> n' ≡ n ->
    nstep n (CallPublish req) (Done (inr tt)) n'
| N_publish req n' :
    GetBlock (np_VolumeCapability req) = false -> mounted_at n (np_TargetPath req) = [] ->
    n' ≡ set_mounts (np_TargetPath req) [publish_mount req (np_StagingTargetPath req)] n ->
    nstep n (CallPublish req) (Done (inr tt)) n'
(* Whatever is mounted there already. *)
| N_publish_block req n' :
    GetBlock (np_VolumeCapability req) = true ->
    n' ≡ set_mounts (np_TargetPath req)
           (publish_mount req (map_get (np_PublishContext req) "devicePath") :: mounted_at n (np_TargetPath req)) n ->
    nstep n (CallPublish req) (Done (inr tt)) n'
| N_unpublish req n' :
    (length (mounted_at n (nup_TargetPath req)) <= 1)%nat ->
    n' ≡ set_mounts (nup_TargetPath req) [] n -> nstep n (CallUnpublish req) (Done (inr tt)) n'
| N_unpublish_failed req e n' :
    n' ≡ set_mounts (nup_TargetPath req) (tail (mounted_at n (nup_TargetPath req))) n ->
    nstep n (CallUnpublish req) (Done (inl e)) n'.
End Spec.
