(* ===== verification/NodeRefine.v ===== *)
(** The handlers of the Node service refine [nstep]. *)
From S2P Require Import Prelude GoStrings Types Errors Metrics Effects LinodeVolumes Sizes Config.
From S2P Require Import DeviceManager Luks NodeServer Controller ControllerProofs Cloud NodeProofs.
From S2P Require Import Concurrency NodeWorld NodeSpec.

(** Nodes made of the same changes. *)
Ltac same_node :=
  first [done | split_and!; cbn; [by rewrite ?insert_insert_eq|done|done]].

(** * Symbolic execution over the node *)

Ltac node_use H :=
  cbn [node_documented is_some] in H;
  lazymatch type of H with
  | ?n = _ => subst n
  | ?n = _ /\ _ => destruct H as [-> H]
  | _ => idtac
  end.

Ltac node_step :=
  lazymatch goal with
  | |- swp _ (Call _ _) _ _ =>
      let r := fresh "r" in let s := fresh "n" in let Hr := fresh "Hr" in
      intros r s Hr; resp_simpl r; node_use Hr; wp_simpl
  | |- swp _ (Ret ?a) ?Q ?s => change (Q s (Done a)); cbv beta
  | |- swp _ (Panic ?w) ?Q ?s => change (Q s (Panicked w)); cbv beta
  | |- swp _ ?p _ _ =>
      match p with
      | context [match ?x with _ => _ end] =>
          lazymatch x with
          | context [match ?y with _ => _ end] => fail
          | _ => destruct x eqn:?
          end
      end; wp_simpl
  end.

(** What the answers say of the node. *)
Lemma content_handles h n p : content (set_handles h n) p = content n p.
Proof. done. Qed.
Lemma content_maps m n p : content (set_maps m n) p = content n p.
Proof. done. Qed.
Lemma content_mounts q l n p : content (set_mounts q l n) p = content n p.
Proof. done. Qed.
Lemma mounted_handles h n p : mounted_at (set_handles h n) p = mounted_at n p.
Proof. done. Qed.
Lemma mounted_maps m n p : mounted_at (set_maps m n) p = mounted_at n p.
Proof. done. Qed.
Lemma mounted_disk q c n p : mounted_at (set_disk q c n) p = mounted_at n p.
Proof. done. Qed.
Lemma content_set_eq p c n : content (set_disk p c n) p = c.
Proof. by rewrite content_set_disk, decide_True. Qed.
Lemma mounted_set_eq p l n : mounted_at (set_mounts p l n) p = l.
Proof. by rewrite mounted_set_mounts, decide_True. Qed.

Ltac node_cbn :=
  cbn [handles disks maps mounts set_handles set_disk set_maps set_mounts is_some
       VolumeKey LuksDevice_Device] in *;
  rewrite ?lookup_insert_eq in *; 
  rewrite ?content_handles, ?content_maps, ?content_mounts, ?content_set_eq,
    ?mounted_handles, ?mounted_maps, ?mounted_disk, ?mounted_set_eq in *.

Ltac node_facts :=
  repeat (match goal with
  | H : True |- _ => clear H
  | H : False |- _ => destruct H
  | H : _ /\ _ |- _ => destruct H
  | H : exists _, _ |- _ => destruct H
  | H : None = None -> _ |- _ => specialize (H eq_refl)
  | H : Some _ = None -> _ |- _ => clear H
  | H : Some _ = Some _ |- _ => progress simplify_eq
  | H : LuksData _ _ _ = LuksData _ _ _ |- _ => progress simplify_eq
  | H : inr _ = inr _ |- _ => progress simplify_eq
  | H : ?n = set_handles _ _ |- _ => subst n
  | H : ?n = set_disk _ _ _ |- _ => subst n
  | H : ?n = set_maps _ _ |- _ => subst n
  | H : match ?o with Some _ => _ | None => _ = true /\ _ end |- _ => destruct o eqn:?
  | H : match ?o with Some _ => _ | None => False end |- _ => destruct o eqn:?
  | H : _ \/ _ |- _ => destruct H
  end; node_cbn); simplify_eq.

Ltac node_run := wp_simpl; repeat (node_step; try done).

Section Luks.

(** Formatting a device on which nothing is. *)
Definition formatted (ctx : LuksContext) (path : string) (n n' : Node) (o : outcome (goerror + string)) : Prop :=
  match o with
  | Panicked why => why = IndexOutOfRange /\ no_mode ctx /\ n' ≡ n
  | Done (inl _) => n' ≡ n \/ exists c, n' ≡ set_disk path c n
  | Done (inr source) =>
      source = "/dev/mapper/" +:+ VolumeName ctx /\ maps n !! VolumeName ctx = None /\
      n' ≡ set_maps (<[VolumeName ctx := path]> (maps n))
             (set_disk path (LuksData (EncryptionKey ctx) [EncryptionKey ctx] None) n)
  end.

Lemma luksFormat_node ctx path n :
  swp node_documented (luksFormat ctx path) (formatted ctx path n) n.
Proof.
  unfold luksFormat. wp_unfold. node_run.
  all: cbn [formatted LuksDevice_Device VolumeKey] in *; node_facts.
  all: try (left; by rewrite ?handles_equiv).
  all: try (right; eexists; same_node).
  all: try by destruct (SplitN2_head _ _ ltac:(eassumption)).
  all: split_and!; try done; try same_node.
  by apply SplitN2_short.
Qed.

(** Opening a device. *)
Definition opened (ctx : LuksContext) (path : string) (n n' : Node) (o : outcome (goerror + string)) : Prop :=
  match o with
  | Panicked _ => False
  | Done (inl _) => n' ≡ n
  | Done (inr source) =>
      source = "/dev/mapper/" +:+ VolumeName ctx /\
      exists key slots inner, content n path = LuksData key slots inner /\
        (is_Some (maps n !! VolumeName ctx) /\ n' ≡ n \/
         maps n !! VolumeName ctx = None /\ EncryptionKey ctx ∈ slots /\
         n' ≡ set_maps (<[VolumeName ctx := path]> (maps n)) n)
  end.

Lemma luksOpen_node ctx path n :
  swp node_documented (luksOpen ctx path) (opened ctx path n) n.
Proof.
  unfold luksOpen. wp_unfold. node_run.
  all: cbn [opened LuksDevice_Device] in *; node_facts; try by rewrite ?handles_equiv.
  all: split; [done|]; do 3 eexists; (split; [eassumption|]).
  - left. split; [|by rewrite !handles_equiv].
    zify_bool. subst. auto.
  - right. by split_and!.
Qed.

Lemma blkidValid_node path n :
  swp node_documented (blkidValid path) (fun n' o => exists r, o = Done r /\ n' = n /\
    match r with inr b => b = bool_decide (content n path <> Empty) | inl _ => True end) n.
Proof.
  unfold blkidValid. wp_unfold. node_run.
  all: eexists; split; [done|]; split; [done|]; try done; ptr_facts.
  - zify_bool. subst. rewrite bool_decide_false; [done|]. intros H. auto.
  - by rewrite bool_decide_true.
Qed.

(** [formatLUKSVolume] formats only what is empty. *)
Definition luks_source (ctx : LuksContext) (path : string) (n n' : Node)
    (o : outcome (goerror + string)) : Prop :=
  match o with
  | Panicked why => why = IndexOutOfRange /\ no_mode ctx /\ content n path = Empty /\ n' ≡ n
  | Done (inl _) => n' ≡ n \/ luks_complete ctx /\ content n path = Empty /\ exists c, n' ≡ set_disk path c n
  | Done (inr source) => ready ctx path n source n'
  end.

Lemma formatLUKSVolume_node ctx path n :
  EncryptionEnabled ctx = true ->
  swp node_documented (formatLUKSVolume path ctx) (luks_source ctx path n) n.
Proof.
  intros Henc. unfold formatLUKSVolume. eapply swp_try; [apply blkidValid_node|cbv beta|cbv beta].
  { intros n0 e [-> _]. wp_unfold. by left. }
  intros n0 b [-> ->]. destruct (validate ctx) as [err|] eqn:Hv; [by left|].
  pose proof (validate_complete ctx Henc Hv) as Hok.
  case_bool_decide as Hc; cbn [negb].
  - eapply swp_seq; [apply luksOpen_node| |done]. intros n1 [e|source]; [by left|].
    intros (-> & key & slots & inner & Hin & [[Hopen Hn]|(Hnone & Hslot & Hn)]).
    + by eapply Ready_open.
    + by eapply Ready_opened.
  - eapply swp_seq; [apply luksFormat_node| |].
    + intros n1 [e|source]; cbn [formatted].
      * intros [Hn|[c Hn]]; [by left|right; eauto].
      * intros (-> & Hnone & Hn). by apply Ready_formatted.
    + by intros n1 why (-> & Hmode & Hn).
Qed.
End Luks.

Lemma ensureMountPoint_node path n :
  swp node_documented (ensureMountPoint path) (fun n' o => exists r, o = Done r /\ n' = n /\
    match r with inr b => b = bool_decide (mounted_at n path = []) | inl _ => True end) n.
Proof.
  unfold ensureMountPoint. wp_unfold. node_run.
  all: eexists; split; [done|]; split; [done|]; try done.
  all: destruct r as [b [e'|]]; cbn in *; simplify_eq; try done.
  destruct Hr as [-> Hm]; [done|]. by rewrite bool_decide_true.
Qed.

Section Refine.
Context {D : DeviceUtils} {HD : DeviceUtilsLaws D}.

(** The device found is one of the volume's names, and there. *)
Lemma findDevicePath_node key partition n :
  swp node_documented (findDevicePath key partition) (fun n' o => exists r, o = Done r /\ n' = n /\
    match r with
    | inr path => path ∈ GetDiskByIdPaths (GetNormalizedLabel key) partition /\ is_Some (disks n !! path)
    | inl _ => True
    end) n.
Proof.
  eapply swp_mono; [apply (swp_reads _ _ (fun c => device_call c = true)
    (fun tr o => exists r, o = Done r /\
       match r with
       | inr path => path ∈ GetDiskByIdPaths (GetNormalizedLabel key) partition /\ Event (Fs (FS.Stat path)) None ∈ tr
       | inl _ => True
       end)
    n [])|].
  - intros c r n'. apply device_call_documented.
  - constructor.
  - apply wp_findDevicePath; [done|]. intros tr' [e|path] _ Hr; eexists; (split; [done|]); [done|].
    split; apply Hr.
  - cbv beta. intros n' o [-> (tr & (r & -> & Hr) & Htr)]. exists r. split_and!; [done..|].
    destruct r as [|path]; [done|]. destruct Hr as [Hpath Hev]. split; [done|].
    apply list_elem_of_lookup in Hev as [i Hi]. by apply (Forall_lookup_1 _ _ _ _ Htr Hi).
Qed.

Lemma mounted_format fstype source n path :
  mounted_at (format fstype source n) path = mounted_at n path.
Proof. unfold format. destruct (backing n source) as [p|]; [|done]. by destruct (content n p). Qed.

Lemma mounted_ready ctx path n source n1 target :
  ready ctx path n source n1 -> mounted_at n1 target = mounted_at n target.
Proof.
  destruct 1 as [n1 ? H|n1 ? ? ? H|? ? ? n1 ? ? ? ? H|? ? ? n1 ? ? ? H]; apply (mounted_proper _ _ H target target eq_refl).
Qed.

(** The body of NodeStageVolume from the mount on. *)
Lemma mountVolume_node req path n :
  can_stage req n path ->
  swp node_documented (mountVolume path req) (fun n' o => nstep n (CallStage req) o n') n.
Proof.
  intros Hcan. pose proof Hcan as (Hdev & Hfree & Hblock & _). unfold mountVolume.
  destruct (getFSTypeAndMountOptions (ns_VolumeCapability req)) as [fstype options] eqn:Hopts.
  fold (stage_context req).
  assert (forall source n1, ready (stage_context req) path n source n1 ->
    mounted_at n1 (ns_StagingTargetPath req) = [] ->
    swp node_documented
      (let* err := call (Mnt (Mounter.FormatAndMount source (ns_StagingTargetPath req) fstype options)) in
       match err with
       | Some err => throw (errInternal
           "Failed to format and mount device from (%q)---(%q) to (%q) with fstype (%q) and options (%q): %v"
           [AStr source; AStr path; AStr (ns_StagingTargetPath req); AStr fstype; AStrs options; AErr (EMount err)])
       | None => ok tt
       end)
      (fun n' o => nstep n (CallStage req) o n') n1) as Hmount.
  { intros source n1 Hready Hfree1. unfold call, throw, ok. cbn [bind swp].
    intros r n' (n2 & Hf & Hr). resp_simpl r.
    assert (may_format (fst (getFSTypeAndMountOptions (ns_VolumeCapability req))) source n1 n2) as Hmay.
    { rewrite Hopts. destruct Hf as [->|[? ->]]; [by left|by right]. }
    destruct r as [err|]; cbn in Hr |- *.
    - subst n'. by eapply N_stage_unmounted.
    - destruct Hr as [Hblank ->]. eapply N_stage; try done. cbn. unfold stage_mount. rewrite Hopts.
      replace (mounted_at n2 _) with (@nil MountPoint); [done|].
      rewrite <- Hfree, <- (mounted_ready _ _ _ _ _ _ Hready).
      destruct Hf as [->|[_ ->]]; [done|]. by rewrite mounted_format. }
  destruct (EncryptionEnabled (stage_context req)) eqn:Henc.
  - eapply swp_seq; [by apply formatLUKSVolume_node| |].
    + intros n1 [e|source]; cbn [luks_source].
      * intros [Hn|(Hok & Hempty & c & Hn)]; [by apply N_refused|by eapply N_stage_formatting].
      * intros Hready. apply Hmount; [done|]. by rewrite (mounted_ready _ _ _ _ _ _ Hready).
    + intros n1 why (-> & Hmode & Hempty & Hn). by eapply N_stage_panic.
  - by apply (Hmount path n); [apply Ready_plain|].
Qed.

(** A handler whose first call takes the mutex and whose last releases it. *)
Lemma swp_locked {A} (p : prog A) Q n :
  swp node_documented p Q n -> swp node_documented (locked p) Q n.
Proof.
  intros H. unfold locked, call. cbn [bind swp]. intros [] n0 Hn. cbn in Hn. subst n0.
  revert n H. induction p as [a|why|c k IH]; intros n H; cbn [finally swp].
  - intros [] n' Hn. cbn in Hn. by subst.
  - intros [] n' Hn. cbn in Hn. by subst.
  - intros r n' Hr. by apply IH, H.
Qed.

Definition node_refined (q : NodeCall) : Prop := forall n,
  swp node_documented (node_handle q) (fun n' o => nstep n q o n') n.

Lemma stage_refines req : node_refined (CallStage req).
Proof.
  intros n. cbn [node_handle]. unfold NodeStageVolume. apply swp_locked. cbv zeta. rewrite partition_get.
  destruct (validateNodeStageVolumeRequest req) as [e|]; [wp_unfold; node_run; by apply N_refused|].
  destruct (ParseLinodeVolumeKey (ns_VolumeId req)) as [e|key] eqn:Hkey; [wp_unfold; node_run; by apply N_refused|].
  eapply swp_try; [apply findDevicePath_node|cbv beta..].
  { intros n0 e [-> _]. wp_unfold. node_run. by apply N_refused. }
  intros n0 path [-> [Hpath Hthere]]. assert (device_name req path) as Hdev by by exists key.
  eapply swp_try; [apply ensureMountPoint_node|cbv beta..].
  { intros n0 e [-> _]. wp_unfold. node_run. by apply N_refused. }
  intros n0 b [-> ->]. case_bool_decide as Hfree; cbn [negb].
  2:{ wp_unfold. node_run. apply N_stage_idle; [by left|done]. }
  destruct (GetBlock (ns_VolumeCapability req)) eqn:Hblock.
  { wp_unfold. node_run. apply N_stage_idle; [by right|done]. }
  unfold try_else. eapply swp_seq; [apply mountVolume_node; by split_and!| |done].
  cbv beta. intros n1 [e|[]] Hstep; wp_unfold; by node_run.
Qed.

Lemma node_publish_refines req : node_refined (CallPublish req).
Proof.
  intros n. cbn [node_handle]. unfold NodePublishVolume. apply swp_locked. cbv zeta.
  destruct (validateNodePublishVolumeRequest req) as [e|]; [wp_unfold; node_run; by apply N_refused|].
  destruct (GetBlock (np_VolumeCapability req)) eqn:Hblock.
  - wp_unfold. node_run; try (by apply N_refused). by apply N_publish_block.
  - eapply swp_try; [apply ensureMountPoint_node|cbv beta..].
    { intros n0 e [-> _]. wp_unfold. node_run. by apply N_refused. }
    intros n0 b [-> ->]. case_bool_decide as Hfree; cbn [negb].
    2:{ wp_unfold. node_run. by apply N_publish_idle. }
    wp_unfold. node_run; [by apply N_refused|]. apply N_publish; [done..|]. by rewrite Hfree.
Qed.

Lemma node_unpublish_refines req : node_refined (CallUnpublish req).
Proof.
  intros n. cbn [node_handle]. unfold NodeUnpublishVolume. apply swp_locked.
  wp_unfold. node_run; try (by apply N_refused).
  - destruct Hr as [->| ->]; [by apply N_refused|by apply N_unpublish_failed].
  - destruct Hr as [Hlen ->]. by apply N_unpublish.
Qed.

(** What closing the mapping leaves. *)
Definition closing (volumeID : string) (n n' : Node) (err : option goerror) : Prop :=
  match err with None => closed volumeID n n' | Some _ => n' ≡ n \/ closed volumeID n n' end.

Lemma luksClose_node volumeID name n :
  getMountSource volumeID = inr name ->
  swp node_documented (luksClose name) (fun n' o => exists r, o = Done r /\ closing volumeID n n' r) n.
Proof.
  intros Hname. unfold luksClose. wp_unfold. node_run.
  all: eexists; split; [done|]; cbn [closing LuksDevice_Device] in *; node_facts.
  - by eapply Not_found.
  - by left.
  - right. by eapply Closed.
  - by eapply Closed.
Qed.

Lemma closeLuksMountSource_node volumeID n :
  swp node_documented (closeLuksMountSource volumeID)
    (fun n' o => exists r, o = Done r /\ closing volumeID n n' r) n.
Proof.
  unfold closeLuksMountSource. destruct (getMountSource volumeID) as [e|name] eqn:Hname.
  { eexists. split; [done|]. by left. }
  eapply swp_seq; [by apply luksClose_node| |by intros ? ? (? & [=] & _)].
  intros n1 r (? & [= <-] & Hr). by destruct r; eexists.
Qed.

Lemma unstage_refines req : node_refined (CallUnstage req).
Proof.
  intros n. cbn [node_handle]. unfold NodeUnstageVolume. apply swp_locked. cbv zeta.
  destruct (validateNodeUnstageVolumeRequest req) as [e|]; [wp_unfold; node_run; by apply N_refused|].
  unfold call at 1. cbn [bind swp]. intros [e|] n1 Hr; cbn in Hr.
  { wp_unfold. node_run. destruct Hr as [->| ->]; [by apply N_refused|].
    eapply N_unstage_failed; [by right|done]. }
  destruct Hr as [Hlen ->].
  eapply swp_seq; [apply closeLuksMountSource_node| |by intros ? ? (? & [=] & _)].
  intros n1 r (? & [= <-] & Hr). destruct r as [e|]; wp_unfold; node_run.
  - by eapply N_unstage_open.
  - by eapply N_unstage.
Qed.

Lemma all_node_refine q : node_refined q.
Proof.
  destruct q; [apply node_publish_refines|apply node_unpublish_refines|apply stage_refines|apply unstage_refines].
Qed.

(** C2. The Node service refines its abstract specification: on a node whose
    mounter, cryptsetup and blkid keep to their documentation, whichever calls
    fail, every call of the four mounting handlers ends, and its answer and the
    node it leaves are those of one step of [nstep], up to cryptsetup's device
    objects: a device is formatted for LUKS only when it is empty, a mapping is
    opened only for a device of the volume or used when it is open, a file system
    is mounted only where nothing is, and an error leaves nothing mounted. *)
Theorem node_refines (q : NodeCall) (n : Node) :
  swp node_documented (node_handle q) (fun n' o => nstep n q o n') n.
Proof. apply all_node_refine. Qed.
End Refine.
