(* ===== verification/NodeSafety.v ===== *)
(** What sequences of calls to the Node service do to a node: data is kept, and
    only what the calls name is mounted, unmounted and closed. *)
From S2P Require Import Prelude GoStrings Types Errors Metrics Effects LinodeVolumes Sizes Config.
From S2P Require Import DeviceManager Luks NodeServer Controller ControllerProofs Cloud NodeProofs.
From S2P Require Import Concurrency NodeWorld NodeSpec NodeRefine.

(** * Data *)

(** Nothing that was on the device is lost: slots may be added, and a file system
    may be made where there was none. *)
Definition preserved (c c' : Content) : Prop :=
  match c with
  | Empty => True
  | Known what => c' = Known what
  | LuksData key slots inner =>
      exists slots' inner', c' = LuksData key slots' inner' /\ slots ⊆ slots' /\
        forall what, inner = Some what -> inner' = Some what
  end.

#[export] Instance preserved_preorder : PreOrder preserved.
Proof.
  split.
  - intros [|what|key slots inner]; cbn; [done..|]. by exists slots, inner.
  - intros [|what|key slots inner] c2 c3; cbn; [done|by intros ->|].
    intros (s2 & i2 & -> & Hs & Hi) (s3 & i3 & -> & Hs' & Hi'). exists s3, i3.
    split_and!; [done|by etransitivity|auto].
Qed.

Definition data_kept (n n' : Node) : Prop := forall path, preserved (content n path) (content n' path).

#[export] Instance data_kept_preorder : PreOrder data_kept.
Proof.
  split; [by intros n path|]. intros n1 n2 n3 H H' path. by etransitivity; [apply H|apply H'].
Qed.

#[export] Instance data_kept_proper : Proper ((≡) ==> (≡) ==> iff) data_kept.
Proof.
  intros n1 n1' H1 n2 n2' H2. unfold data_kept.
  split; intros H path; specialize (H path);
    by rewrite ?(content_proper _ _ H1 path path eq_refl), ?(content_proper _ _ H2 path path eq_refl) in *.
Qed.

Lemma data_kept_same n n' : n' ≡ n -> data_kept n n'.
Proof. by intros ->. Qed.

Lemma kept_set_disk n path c : preserved (content n path) c -> data_kept n (set_disk path c n).
Proof. intros H p. rewrite content_set_disk. by case_decide; subst. Qed.

Lemma kept_mounts n n' path l : data_kept n n' -> data_kept n (set_mounts path l n').
Proof. done. Qed.

Lemma kept_maps n m : data_kept n (set_maps m n).
Proof. by intros path. Qed.

Lemma kept_format n fstype source : blank n source = true -> data_kept n (format fstype source n).
Proof.
  unfold blank, format. destruct (backing n source) as [path|].
  - destruct (content n path) as [| |key slots [|]] eqn:Hc; try done. intros _. apply kept_set_disk.
    rewrite Hc. by exists slots, (Some fstype).
  - rewrite bool_decide_eq_true. intros Hc. apply kept_set_disk. by rewrite Hc.
Qed.

Lemma kept_may_format n n' fstype source : may_format fstype source n n' -> data_kept n n'.
Proof. intros [->|[Hb ->]]; [done|by apply kept_format]. Qed.

Lemma kept_ready ctx path n source n' : ready ctx path n source n' -> data_kept n n'.
Proof.
  destruct 1 as [n1 _ Hn|n1 _ Hc _ Hn|? ? ? n1 _ _ _ _ Hn|? ? ? n1 _ _ _ Hn]; rewrite Hn; try reflexivity.
  - apply (kept_set_disk n path). by rewrite Hc.
  - apply kept_maps.
Qed.

Lemma kept_closed volumeID n n' : closed volumeID n n' -> data_kept n n'.
Proof. destruct 1 as [? ? ? _ _ ->|? ? _ ->]; [apply kept_maps|done]. Qed.

Lemma kept_set_mounts n n1 n' path l : n' ≡ set_mounts path l n1 -> data_kept n n1 -> data_kept n n'.
Proof. by intros ->. Qed.

(** * Devices *)

(** The same devices are there. *)
Definition same_devices (n n' : Node) : Prop := forall path, is_Some (disks n' !! path) <-> is_Some (disks n !! path).

#[export] Instance same_devices_preorder : PreOrder same_devices.
Proof. split; [by intros n path|]. intros n1 n2 n3 H H' path. by etransitivity; [apply H'|apply H]. Qed.

#[export] Instance same_devices_proper : Proper ((≡) ==> (≡) ==> iff) same_devices.
Proof. intros n1 n1' (H1 & _) n2 n2' (H2 & _). unfold same_devices. by rewrite H1, H2. Qed.

Lemma devices_set_disk n path c : is_Some (disks n !! path) -> same_devices n (set_disk path c n).
Proof.
  intros Hp p. cbn. destruct (decide (path = p)) as [<-|]; [rewrite lookup_insert_eq|by rewrite lookup_insert_ne].
  split; [done|by eexists].
Qed.

Lemma devices_format n fstype source :
  (backing n source = None -> is_Some (disks n !! source)) -> same_devices n (format fstype source n).
Proof.
  intros Hs. unfold format. destruct (backing n source) as [path|]; [|by apply devices_set_disk, Hs].
  destruct (content n path) eqn:Hc; try done. apply devices_set_disk.
  unfold content in Hc. destruct (disks n !! path); [by eexists|done].
Qed.

Lemma ready_devices ctx path n source n' :
  ready ctx path n source n' -> is_Some (disks n !! path) ->
  same_devices n n' /\ (backing n' source = None -> is_Some (disks n' !! source)).
Proof.
  assert (forall n name p, maps n !! name = Some p -> backing n ("/dev/mapper/" +:+ name) <> None) as Hb.
  { intros n0 name p Hm. unfold backing. by rewrite strip_prefix_app, Hm. }
  intros Hr Hp. destruct Hr as [n1 _ Hn|n1 _ Hc _ Hn|? ? ? n1 _ _ _ _ Hn|? ? ? n1 _ _ [p Hm] Hn]; split.
  - by rewrite Hn.
  - intros _. by destruct Hn as (-> & _).
  - rewrite Hn. by apply (devices_set_disk n path).
  - intros Hnone. destruct (Hb n1 (VolumeName ctx) path); [|done]. rewrite Hn. apply lookup_insert_eq.
  - by rewrite Hn.
  - intros Hnone. destruct (Hb n1 (VolumeName ctx) path); [|done]. rewrite Hn. apply lookup_insert_eq.
  - by rewrite Hn.
  - intros Hnone. destruct (Hb n1 (VolumeName ctx) p); [|done]. by rewrite Hn.
Qed.

Lemma may_format_devices n n' fstype source :
  may_format fstype source n n' -> (backing n source = None -> is_Some (disks n !! source)) -> same_devices n n'.
Proof. intros [->|[_ ->]] H; [done|by apply devices_format]. Qed.

Lemma closed_devices volumeID n n' : closed volumeID n n' -> same_devices n n'.
Proof. by destruct 1 as [? ? ? _ _ ->|? ? _ ->]. Qed.

(** * Mounts and mappings *)

(** What making a device ready does to the mappings. *)
Lemma ready_maps ctx path n source n' :
  ready ctx path n source n' ->
  maps n' = maps n \/
  maps n !! VolumeName ctx = None /\ maps n' = <[VolumeName ctx := path]> (maps n).
Proof.
  destruct 1 as [n1 _ Hn|n1 _ Hc ? Hn|? ? ? n1 _ _ _ ? Hn|? ? ? n1 _ _ _ Hn]; rewrite Hn; auto.
Qed.

Lemma format_maps fstype source n : maps (format fstype source n) = maps n.
Proof. unfold format. destruct (backing n source) as [path|]; [|done]. by destruct (content n path). Qed.

Lemma may_format_maps fstype source n n' : may_format fstype source n n' -> maps n' = maps n.
Proof. intros [->|[_ ->]]; [done|apply format_maps]. Qed.

Lemma may_format_mounted fstype source n n' path :
  may_format fstype source n n' -> mounted_at n' path = mounted_at n path.
Proof. intros [->|[_ ->]]; [done|apply mounted_format]. Qed.

Lemma closed_mounted volumeID n n' path : closed volumeID n n' -> mounted_at n' path = mounted_at n path.
Proof. by destruct 1 as [? ? ? _ _ ->|? ? _ ->]. Qed.

(** The path a call may mount at or unmount. *)
Definition target (q : NodeCall) : string :=
  match q with
  | CallPublish req => np_TargetPath req
  | CallUnpublish req => nup_TargetPath req
  | CallStage req => ns_StagingTargetPath req
  | CallUnstage req => nu_StagingTargetPath req
  end.

Definition asks_close (q : NodeCall) (name : string) : Prop :=
  exists req, q = CallUnstage req /\ getMountSource (nu_VolumeId req) = inr name.

Section Steps.
Context {D : DeviceUtils} {HD : DeviceUtilsLaws D}.

Definition asks_open (q : NodeCall) (name path : string) : Prop :=
  exists req, q = CallStage req /\ name = VolumeName (stage_context req) /\ device_name req path.

Lemma nstep_kept n q o n' : nstep n q o n' -> data_kept n n'.
Proof.
  destruct 1 as [| | |req e path c n' ? ? Hc ->|req e path source n1 n' ? Hr Hf
    |req path source n1 n2 n' ? Hr Hf _ Hn|req n1 n' _ Hn Hc|req e l n' _ ->|req e n1 n' _ Hn [->|Hc]
    | |req n' ? ? ->|req n' ? ->|req n' ? ->|req e n' ->];
    try (by apply data_kept_same); try by apply kept_mounts.
  - apply kept_set_disk. by rewrite Hc.
  - etransitivity; [by eapply kept_ready|by eapply kept_may_format].
  - eapply kept_set_mounts; [done|]. etransitivity; [by eapply kept_ready|by eapply kept_may_format].
  - etransitivity; [by eapply kept_set_mounts|by eapply kept_closed].
  - by eapply kept_set_mounts.
  - etransitivity; [by eapply kept_set_mounts|by eapply kept_closed].
Qed.

Lemma nstep_devices n q o n' : nstep n q o n' -> same_devices n n'.
Proof.
  assert (forall ctx path source fstype n n1 n2, ready ctx path n source n1 -> may_format fstype source n1 n2 ->
    is_Some (disks n !! path) -> same_devices n n2) as Hmade.
  { intros ctx path source fstype m m1 m2 Hr Hf Hp. destruct (ready_devices _ _ _ _ _ Hr Hp) as [Hd Hs].
    etransitivity; [exact Hd|by eapply may_format_devices]. }
  destruct 1 as [? ? ? ->|? ? ? ? ? ? ->|? ? ? ->|req e path c n' (_ & _ & _ & Hp) ? Hc ->
    |req e path source n1 n' (_ & _ & _ & Hp) Hr Hf
    |req path source n1 n2 n' (_ & _ & _ & Hp) Hr Hf _ Hn|req n1 n' _ Hn Hc|req e l n' _ ->|req e n1 n' _ Hn [->|Hc]
    |? ? ? ? ->|req n' ? ? ->|req n' ? ->|req n' ? ->|req e n' ->]; try done.
  - by apply devices_set_disk.
  - by eapply Hmade.
  - rewrite Hn. by apply (Hmade _ path source _ n n1 n2 Hr Hf).
  - etransitivity; [|by eapply closed_devices]. by rewrite Hn.
  - by rewrite Hn.
  - etransitivity; [|by eapply closed_devices]. by rewrite Hn.
Qed.

Lemma nstep_elsewhere n q o n' path :
  nstep n q o n' -> path <> target q -> mounted_at n' path = mounted_at n path.
Proof.
  intros Hstep Hne.
  assert (forall n0 l, mounted_at (set_mounts (target q) l n0) path = mounted_at n0 path) as Helse.
  { intros n0 l. rewrite mounted_set_mounts. by case_decide. }
  destruct Hstep as [? ? ? Hn|? ? ? ? ? ? Hn|? ? ? Hn|req e p c n' ? ? Hc Hn|req e p source n1 n' [Hd _] Hr Hf
    |req p source n1 n2 n' [Hd _] Hr Hf _ Hn|req n1 n' _ Hn Hc|req e l n' _ Hn|req e n1 n' _ Hn [Hc|Hc]
    |? ? ? ? Hn|req n' ? ? Hn|req n' ? Hn|req n' ? Hn|req e n' Hn]; cbn [target] in Helse.
  5:{ by rewrite (may_format_mounted _ _ _ _ _ Hf), (mounted_ready _ _ _ _ _ _ Hr). }
  5:{ by rewrite Hn, Helse, (may_format_mounted _ _ _ _ _ Hf), (mounted_ready _ _ _ _ _ _ Hr). }
  5:{ by rewrite (closed_mounted _ _ _ _ Hc), Hn. }
  6:{ by rewrite Hc, Hn. }
  6:{ by rewrite (closed_mounted _ _ _ _ Hc), Hn. }
  all: by rewrite Hn.
Qed.

Lemma nstep_maps n q o n' name :
  nstep n q o n' ->
  maps n' !! name = maps n !! name \/
  maps n' !! name = None /\ asks_close q name \/
  maps n !! name = None /\ exists path, maps n' !! name = Some path /\ asks_open q name path.
Proof.
  assert (forall volumeID n1 n2, closed volumeID n1 n2 ->
    maps n2 !! name = maps n1 !! name \/ maps n2 !! name = None /\ getMountSource volumeID = inr name) as Hcl.
  { intros volumeID n1 n2 [name' path n2' Hname _ Hn|? ? _ Hn]; rewrite Hn; [|by left]. cbn.
    destruct (decide (name' = name)) as [->|]; [right|left].
    - by rewrite lookup_delete_eq.
    - by rewrite lookup_delete_ne. }
  assert (forall req path source n1, device_name req path -> ready (stage_context req) path n source n1 ->
    maps n1 !! name = maps n !! name \/
    maps n !! name = None /\ exists path, maps n1 !! name = Some path /\ asks_open (CallStage req) name path) as Hop.
  { intros req path source n1 Hd [Hm|[Hnone Hm]]%ready_maps; rewrite Hm; [by left|].
    destruct (decide (VolumeName (stage_context req) = name)) as [<-|]; [right|left].
    - split; [done|]. exists path. rewrite lookup_insert_eq. split; [done|]. by exists req.
    - by rewrite lookup_insert_ne. }
  destruct 1 as [? ? ? Hn|? ? ? ? ? ? Hn|? ? ? Hn|req e p c n' ? ? Hc Hn|req e p source n1 n' [Hd _] Hr Hf
    |req p source n1 n2 n' [Hd _] Hr Hf _ Hn|req n1 n' _ Hn Hc|req e l n' _ Hn|req e n1 n' _ Hn [Hc|Hc]
    |? ? ? ? Hn|req n' ? ? Hn|req n' ? Hn|req n' ? Hn|req e n' Hn].
  5:{ rewrite (may_format_maps _ _ _ _ Hf). destruct (Hop _ _ _ _ ltac:(done) Hr) as [?|?]; [by left|right; by right]. }
  5:{ assert (maps n' = maps n1) as -> by (rewrite Hn; apply (may_format_maps _ _ _ _ Hf)).
      destruct (Hop _ _ _ _ ltac:(done) Hr) as [?|?]; [by left|right; by right]. }
  5:{ destruct (Hcl _ _ _ Hc) as [->|[-> ?]]; [left; by rewrite Hn|right; left; split; [done|by exists req]]. }
  6:{ left. by rewrite Hc, Hn. }
  6:{ destruct (Hcl _ _ _ Hc) as [->|[-> ?]]; [left; by rewrite Hn|right; left; split; [done|by exists req]]. }
  all: left; by rewrite Hn.
Qed.

(** * Sequences of calls *)

(** What the calls [qs] may do to a node, in any order: data is kept; only the
    targets of the calls are mounted at or unmounted; a mapping is closed only if
    an unstaging names it, and opened only for a staging that names it, on a
    device of its volume. *)
Definition within (qs : list NodeCall) (n n' : Node) : Prop :=
  data_kept n n' /\
  (forall path, (forall q, q ∈ qs -> path <> target q) -> mounted_at n' path = mounted_at n path) /\
  (forall name path, maps n !! name = Some path ->
     maps n' !! name = Some path \/ exists q, q ∈ qs /\ asks_close q name) /\
  (forall name path, maps n' !! name = Some path ->
     maps n !! name = Some path \/ exists q, q ∈ qs /\ asks_open q name path).

#[local] Instance within_preorder qs : PreOrder (within qs).
Proof.
  split.
  - intros n. split_and!; try done; auto.
  - intros n1 n2 n3 (Hd & Hm & Hc & Ho) (Hd' & Hm' & Hc' & Ho'). split_and!.
    + by etransitivity.
    + intros path Hp. by rewrite Hm', Hm.
    + intros name path Hn. destruct (Hc _ _ Hn) as [H2|?]; [by apply Hc'|by right].
    + intros name path Hn. destruct (Ho' _ _ Hn) as [H2|?]; [by apply Ho|by right].
Qed.

Lemma nstep_within qs n q o n' : q ∈ qs -> nstep n q o n' -> within qs n n'.
Proof.
  intros Hq Hstep. split_and!.
  - by eapply nstep_kept.
  - intros path Hp. by eapply nstep_elsewhere, Hp.
  - intros name path Hn.
    destruct (nstep_maps _ _ _ _ name Hstep) as [E|[[_ H]|[E _]]]; [left; congruence|right; eauto|congruence].
  - intros name path Hn.
    destruct (nstep_maps _ _ _ _ name Hstep) as [E|[[E _]|(E & p & Hp & H)]]; [left; congruence|congruence|].
    right. exists q. split; [done|]. by simplify_eq.
Qed.

(** Calls one after the other; a panic ends the process. *)
Fixpoint node_serve (qs : list NodeCall) : prog (list (goerror + unit)) :=
  match qs with
  | [] => Ret []
  | q :: qs =>
      let* r := node_handle q in
      let* rs := node_serve qs in
      Ret (r :: rs)
  end.

Lemma serve_within qs0 qs n :
  qs ⊆ qs0 -> swp node_documented (node_serve qs) (fun n' _ => within qs0 n n') n.
Proof.
  revert n. induction qs as [|q qs IH]; intros n Hqs; cbn [node_serve]; [cbn; reflexivity|].
  assert (q ∈ qs0) as Hq by apply Hqs, list_elem_of_here.
  eapply swp_seq; [apply all_node_refine| |].
  - intros n1 r Hstep. eapply swp_seq; [apply IH; intros q' Hq'; by apply Hqs, list_elem_of_further| |].
    + intros n2 rs Hw. cbn. etransitivity; [exact (nstep_within _ _ _ _ _ Hq Hstep)|done].
    + intros n2 why Hw. etransitivity; [exact (nstep_within _ _ _ _ _ Hq Hstep)|done].
  - intros n1 why Hstep. exact (nstep_within _ _ _ _ _ Hq Hstep).
Qed.

(** C9. Data on a node is safe: whatever sequence of calls of the four mounting
    handlers a node gets, whatever fails in them, and even if one panics, what
    was on a device, in the clear or inside a LUKS volume, is still there, and no
    LUKS slot is lost; nothing is mounted or unmounted but at the targets of the
    calls; and a mapping is closed only if an unstaging names it, and opened only
    for a staging that names it, on a device of its volume. *)
Theorem node_data_safe (qs : list NodeCall) (n : Node) :
  swp node_documented (node_serve qs) (fun n' _ => within qs n n') n.
Proof. by apply serve_within. Qed.

(** * Calls at the same time *)

(** A node as the handlers rely on it: an environment, what the node is in each of
    its states, and the documented behaviour. *)
Class NodeApi (W : Type) := {
  na_env : forall c : cmd, W -> resp c * W;
  na_node : W -> Node;
  na_documented : forall c w, node_documented c (na_node w) (na_env c w).1 (na_node (na_env c w).2);
  na_mutex : forall w, (na_env Lock w).2 = w /\ (na_env Unlock w).2 = w;
}.

Lemma alone_within `{NodeApi W} q qs w o w' :
  q ∈ qs -> alone na_env (node_handle q) w = (o, w') -> within qs (na_node w) (na_node w').
Proof.
  unfold alone. intros Hq.
  pose proof (swp_run_env node_documented na_env na_node na_documented _ _ w (all_node_refine q (na_node w))) as Hrun.
  destruct (run na_env (node_handle q) w) as [[tr o'] w1]. intros [= <- <-].
  exact (nstep_within _ _ _ _ _ Hq Hrun).
Qed.

Lemma serial_within `{NodeApi W} qs order w outs w' :
  serial na_env (node_handle <$> qs) order w = (outs, w') -> within qs (na_node w) (na_node w').
Proof.
  revert w outs. induction order as [|i order IH]; intros w outs; cbn; [intros [= <- <-]; reflexivity|].
  rewrite list_lookup_fmap. destruct (qs !! i) as [q|] eqn:Hq; cbn [fmap option_fmap option_map]; [|by apply IH].
  destruct (alone na_env (node_handle q) w) as [o w1] eqn:Ha.
  destruct (serial na_env (node_handle <$> qs) order w1) as [outs2 w2] eqn:Hs. intros [= <- <-].
  etransitivity; [eapply alone_within, Ha; by eapply list_elem_of_lookup_2|by eapply IH].
Qed.

(** The same holds of calls at the same time: when a schedule of them can go no
    further, the node they leave is within what the calls may do. *)
Theorem node_concurrent_safe `{NodeApi W} (qs : list NodeCall) (w : W) (c : Pool W (goerror + unit))
  (Hsteps : rtc (pstep na_env) (start (node_handle <$> qs) w) c) (Hstop : nf (pstep na_env) c) :
  within qs (na_node w) (na_node (world c)).
Proof.
  destruct (calls_serializable na_env na_mutex qs w c Hsteps Hstop) as (_ & order & outs & _ & Hs & _).
  by eapply serial_within.
Qed.
End Steps.
