(* ===== verification/NodeContention.v ===== *)
(** The calls that the mounting handlers of the Node service make, one by one: what
    each call may do to the node at the moment it is made, whatever the controller
    and other nodes do to the system in between.

    [node_guard] says which calls a handler makes, and after which others; it holds
    for every answer.  The one call that destroys what is on a device is the
    formatting of LUKS: it comes right after blkid found nothing on the device and
    after cryptsetup opened it ([node_calls]), and what these two answered is still
    true if the device is left alone in between ([looked]).  Every other call keeps
    all data in whatever state of the node it is made ([call_effect]). *)
From S2P Require Import Prelude GoStrings Types Errors Metrics Effects LinodeVolumes Sizes Config.
From S2P Require Import DeviceManager Luks NodeServer Controller ControllerProofs Cloud NodeProofs.
From S2P Require Import Concurrency NodeWorld NodeSpec NodeSafety.

(** blkid answered with an error; cryptsetup opened the device. *)
Abbreviation blkid_failed path err := (Event (Exec (Executor.CmdRun "blkid" [path])) (Some err)).
Abbreviation opened path d := (Event (Crypt (Cryptsetup.Init path)) (inr d)).

Section Calls.
Context {D : DeviceUtils} {HD : DeviceUtilsLaws D}.

(** * The calls of the handlers *)

(** The call stages a volume whose device may be found at the path. *)
Definition stages (q : NodeCall) (path : string) : Prop :=
  exists req, q = CallStage req /\ device_name req path.

Definition asks_name (q : NodeCall) (name : string) : Prop :=
  exists req, q = CallStage req /\ name = VolumeName (stage_context req).

Definition node_guard (q : NodeCall) : call_guard := fun tr c =>
  match c with
  | Crypt (Cryptsetup.Format d _ _) =>
      exists path err, stages q path /\ xe_ExitStatus err = Some 2 /\
        [blkid_failed path err; opened path d] `suffix_of` tr
  | Crypt (Cryptsetup.ActivateByPassphrase _ name _ _ _) => asks_name q name
  | Crypt (Cryptsetup.Deactivate _ name) => asks_close q name
  | Mnt (Mounter.Mount _ path _ _ | Mounter.FormatAndMount _ path _ _ | Mounter.CleanupMountPoint path _) =>
      path = target q
  | _ => True
  end.

Lemma device_call_allowed q tr c : device_call c = true -> node_guard q tr c.
Proof. by destruct c as [[]|[]|[]|[]|[]|[]|[]|[]| | |]. Qed.

Local Ltac suffix := rewrite <- ?app_assoc; cbn [app]; solve_suffix.

Lemma publish_guarded req : every_call (NodePublishVolume req) (node_guard (CallPublish req)).
Proof. unfold every_call. run_rest; done. Qed.

Lemma unpublish_guarded req : every_call (NodeUnpublishVolume req) (node_guard (CallUnpublish req)).
Proof. unfold every_call. run_rest; done. Qed.

Lemma unstage_guarded req : every_call (NodeUnstageVolume req) (node_guard (CallUnstage req)).
Proof. unfold every_call. run_rest; try done; by exists req. Qed.

Lemma stage_guarded req : every_call (NodeStageVolume req) (node_guard (CallStage req)).
Proof.
  unfold every_call, NodeStageVolume. apply wp_locked. split; [done|]. intros [] _.
  destruct (validateNodeStageVolumeRequest _) as [?|]; [by run_rest|].
  destruct (ParseLinodeVolumeKey _) as [?|key] eqn:Hkey; [by run_rest|].
  cbv zeta. rewrite partition_get.
  apply wp_bind, wp_findDevicePath; [intros; by apply device_call_allowed|].
  intros trd [?|path] _ Hfound; [by run_rest|].
  assert (stages (CallStage req) path) as Hpath.
  { exists req. split; [done|]. exists key. split; [done|apply Hfound]. }
  unfold mountVolume, try_else. destruct (getFSTypeAndMountOptions _) as [fsType options].
  run_rest; try done; cbn [node_guard LuksDevice_Device].
  all: ptr_facts; lazymatch goal with |- asks_name _ _ => by exists req | |- _ => idtac end.
  all: exists path, e; split_and!; [done|congruence|suffix].
Qed.

Lemma node_calls q : every_call (node_handle q) (node_guard q).
Proof. destruct q; [apply publish_guarded|apply unpublish_guarded|apply stage_guarded|apply unstage_guarded]. Qed.

(** What runs under the mutex. *)
Lemma node_body q :
  exists p, node_handle q = locked p /\ quiet p /\ wp any_env (node_guard q) p (fun _ _ => True) [Event Lock tt].
Proof.
  destruct (node_bodies [q]) as (bodies & Heq & Hquiet). destruct bodies as [|p [|]]; try done. cbn in Heq.
  injection Heq as Heq. exists p. split_and!; [done|by inversion_clear Hquiet|].
  pose proof (node_calls q) as H. unfold every_call in H. rewrite Heq in H. apply wp_locked in H as [_ H].
  eapply wp_mono; [apply (H tt I)|done].
Qed.

(** * What was looked at is still so *)

(** What the last calls answered of the device is true of the node. *)
Definition looked (q : NodeCall) (n : Node) (tr : trace) : Prop :=
  forall path err, stages q path -> xe_ExitStatus err = Some 2 ->
    ([blkid_failed path err] `suffix_of` tr -> content n path = Empty) /\
    forall d, [blkid_failed path err; opened path d] `suffix_of` tr ->
      content n path = Empty /\ handles n !! d = Some path.

Lemma looked_begin q n : looked q n [Event Lock tt].
Proof.
  intros path err _ _. split.
  - intros H%(suffix_snoc_inv_1 _ _ [] []). by apply Event_inj_cmd in H.
  - intros d H%(suffix_snoc_inv_1 _ _ [blkid_failed path err] []). by apply Event_inj_cmd in H.
Qed.

(** It stays true while the device is left alone. *)
Lemma looked_stable q n n' tr :
  looked q n tr -> handles n' = handles n ->
  (forall path, stages q path -> content n path = Empty -> content n' path = Empty) -> looked q n' tr.
Proof.
  intros H Hh Hc path err Hp He. destruct (H path err Hp He) as [H1 H2]. split; [auto|].
  intros d Hd. rewrite Hh. destruct (H2 d Hd). auto.
Qed.

Lemma looked_step q n tr c r n' :
  looked q n tr -> node_documented c n r n' -> looked q n' (tr ++ [Event c r]).
Proof.
  intros H Hd path err Hp He. destruct (H path err Hp He) as [H1 _]. split.
  - intros Hs. pose proof (suffix_snoc_inv_1 _ _ [] tr Hs) as Heq.
    pose proof (Event_inj_cmd _ _ _ _ Heq) as <-. apply Event_inj in Heq as <-.
    destruct Hd as [-> Hd]. by apply Hd.
  - intros d Hs. change [blkid_failed path err; opened path d] with ([blkid_failed path err] ++ [opened path d]) in Hs.
    pose proof (suffix_snoc_inv_1 _ _ _ _ Hs) as Heq. apply suffix_snoc_inv_2 in Hs.
    pose proof (Event_inj_cmd _ _ _ _ Heq) as <-. apply Event_inj in Heq as <-.
    destruct Hd as [_ ->]. cbn. rewrite lookup_insert_eq. split; [by apply H1|done].
Qed.

(** * One call *)

Lemma exec_reads (x : Executor.call) n r n' : node_documented (Exec x) n r n' -> n' = n.
Proof.
  destruct x as [cmd|cmd args|cmd args]; [by intros ->| |by intros ->].
  do 6 (destruct cmd as [|[[] [] [] [] [] [] [] []] cmd]; try (by intros ->)).
  destruct args as [|path [|]]; try (by intros ->). by intros [-> _].
Qed.

(** What a call of [q] does to the node. *)
Inductive effect (q : NodeCall) (n n' : Node) : Prop :=
| E_idle : n' ≡ n -> effect q n n'
| E_mounts fstype source n1 l :
    may_format fstype source n n1 -> n' ≡ n1 \/ n' ≡ set_mounts (target q) l n1 -> effect q n n'
| E_disk path c : preserved (content n path) c -> n' ≡ set_disk path c n -> effect q n n'
| E_open name path :
    asks_name q name -> maps n !! name = None -> n' ≡ set_maps (<[name := path]> (maps n)) n -> effect q n n'
| E_close name : asks_close q name -> n' ≡ set_maps (delete name (maps n)) n -> effect q n n'.

Lemma call_effect q n tr c r n' :
  node_guard q tr c -> looked q n tr -> node_documented c n r n' -> effect q n n'.
Proof.
  intros Hguard Hl Hcall.
  destruct c as [?|f|m|x|y|?|?|?| | |]; try (apply E_idle; by rewrite Hcall).
  - apply E_idle. destruct f; try (by rewrite Hcall). by destruct Hcall as [-> _].
  - destruct m as [path|source path fstype options|path ext|source path fstype options]; cbn in Hcall, Hguard.
    + apply E_idle. by destruct Hcall as [-> _].
    + subst path. destruct (is_some r); [apply E_idle; by rewrite Hcall|].
      eapply (E_mounts _ _ _ fstype source n); [by left|right; by rewrite Hcall].
    + subst path. destruct r; [destruct Hcall as [->| ->]|destruct Hcall as [_ ->]]; [by apply E_idle|..];
        (eapply (E_mounts _ _ _ "" "" n); [by left|by right]).
    + subst path. destruct Hcall as (n1 & Hf & Hr).
      eapply (E_mounts _ _ _ fstype source n1); [destruct Hf as [->|[? ->]]; [by left|by right]|].
      destruct (is_some r); [left; by subst|right; by destruct Hr as [_ ->]].
  - apply E_idle. by rewrite (exec_reads _ _ _ _ Hcall).
  - destruct y as [path|name|d size params|d slot key pass|d name slot pass fl|d size|d|d name]; cbn in Hcall, Hguard.
    + apply E_idle. destruct r; [by subst|]. by destruct Hcall as [_ ->].
    + apply E_idle. destruct r; [by subst|]. by destruct Hcall as (? & _ & _ & ->).
    + destruct Hguard as (path & err & Hp & He & Hs). destruct (Hl path err Hp He) as [_ H].
      destruct (H _ Hs) as [Hc Hh]. rewrite Hh in Hcall.
      assert (forall c', effect q n (set_disk path c' n)) as Hset by (intros c'; apply (E_disk _ _ _ path c'); by rewrite ?Hc).
      destruct r; [destruct Hcall as [->|[c' ->]]; [by apply E_idle|done]|by rewrite Hcall].
    + destruct (is_some r); [apply E_idle; by subst|].
      destruct Hcall as (path & vk & slots & inner & _ & Hc & _ & ->).
      eapply (E_disk _ _ _ path); [|reflexivity]. rewrite Hc. do 2 eexists. split_and!; [done|set_solver|done].
    + destruct r; [apply E_idle; by destruct Hcall as [-> _]|].
      destruct Hcall as (path & ? & ? & ? & _ & Hn & _ & _ & ->). by apply (E_open _ _ _ name path).
    + apply E_idle. by destruct Hcall as [-> _].
    + apply E_idle. by subst.
    + destruct (is_some r); subst; [by apply E_idle|by apply (E_close _ _ _ name)].
Qed.

(** It keeps the data on all devices. *)
Lemma effect_kept q n n' : effect q n n' -> data_kept n n'.
Proof.
  destruct 1 as [Hn|fs src n1 l Hf [Hn|Hn]|path c Hc Hn|name path _ _ Hn|name _ Hn]; rewrite Hn.
  - done.
  - by eapply kept_may_format.
  - by eapply kept_mounts, kept_may_format.
  - by apply kept_set_disk.
  - apply kept_maps.
  - apply kept_maps.
Qed.

(** It mounts and unmounts nothing elsewhere. *)
Lemma effect_mounted q n n' path : effect q n n' -> path <> target q -> mounted_at n' path = mounted_at n path.
Proof.
  intros H Hne. destruct H as [Hn|fs src n1 l Hf [Hn|Hn]|p c _ Hn|name p _ _ Hn|name _ Hn]; rewrite Hn; try done.
  - by eapply may_format_mounted.
  - rewrite mounted_set_mounts, decide_False by done. by eapply may_format_mounted.
Qed.

(** It closes and opens no other mappings than those the call names. *)
Lemma effect_maps q n n' name :
  effect q n n' ->
  maps n' !! name = maps n !! name \/
  maps n' !! name = None /\ asks_close q name \/
  maps n !! name = None /\ asks_name q name.
Proof.
  destruct 1 as [Hn|fs src n1 l Hf [Hn|Hn]|p c _ Hn|name' p Hq Hno Hn|name' Hq Hn]; rewrite Hn;
    try (left; done); try (left; cbn; by rewrite (may_format_maps _ _ _ _ Hf)).
  - cbn. destruct (decide (name' = name)) as [->|]; [by right; right|left; by rewrite lookup_insert_ne].
  - cbn. destruct (decide (name' = name)) as [->|]; [right; left; by rewrite lookup_delete_eq|left; by rewrite lookup_delete_ne].
Qed.
End Calls.
