(* ===== verification/NodeLifecycle.v ===== *)
(** Progress of the Node service on a reliable node: a volume can be staged,
    published, unpublished and unstaged, and what that leaves of it. *)
From S2P Require Import Prelude GoStrings Types Errors Metrics Effects LinodeVolumes Sizes Config.
From S2P Require Import DeviceManager Luks NodeServer Controller ControllerProofs Cloud NodeProofs.
From S2P Require Import Concurrency NodeWorld NodeSpec NodeRefine NodeSafety.

(** * A reliable node *)

Definition not_found : OsError := {| oe_IsNotExist := true; oe_Text := "no such file or directory" |}.

Definition node_stat (n : Node) (path : string) : option OsError :=
  if decide (is_Some (disks n !! path)) then None else Some not_found.

(** There is a device at [source], or a mapping. *)
Definition source_there (n : Node) (source : string) : Prop :=
  is_Some (backing n source) \/ is_Some (disks n !! source).

(** A file system of the type is on [source]. *)
Definition holds (n : Node) (source fstype : string) : Prop :=
  match backing n source with
  | Some path => exists key slots, content n path = LuksData key slots (Some fstype)
  | None => content n source = Known fstype
  end.

(** The calls that are documented to succeed do. *)
Definition node_succeeds (c : cmd) (n : Node) : resp c -> Prop :=
  match c return resp c -> Prop with
  | Fs f =>
      match f return FS.answer f -> Prop with
      | FS.Stat path => fun r => r = node_stat n path
      | FS.MkdirAll _ _ => fun r => r = None
      | FS.OpenFile _ _ _ => fun r => is_inl r = false
      | _ => fun _ => True
      end
  | Exec x =>
      match x return Executor.answer x -> Prop with
      | Executor.LookPath _ => fun r => r = None
      | Executor.CmdRun "blkid" [path] => fun r =>
          match content n path with
          | Empty => exists err, r = Some err /\ xe_ExitStatus err = Some 2
          | _ => r = None
          end
      | _ => fun _ => True
      end
  | Mnt m =>
      match m return Mounter.answer m -> Prop with
      | Mounter.IsLikelyNotMountPoint _ => fun r =>
          match snd r with Some err => oe_IsNotExist err = true | None => True end
      | Mounter.Mount _ _ _ _ => fun r => r = None
      | Mounter.FormatAndMount source _ fstype _ => fun r =>
          source_there n source -> blank n source = true \/ holds n source fstype -> r = None
      | Mounter.CleanupMountPoint path _ => fun r => (length (mounted_at n path) <= 1)%nat -> r = None
      end
  | Crypt y =>
      match y return Cryptsetup.answer y -> Prop with
      | Cryptsetup.Init path => fun r => is_Some (disks n !! path) -> is_inl r = false
      | Cryptsetup.InitByName name => fun r => is_Some (maps n !! name) -> is_inl r = false
      | Cryptsetup.Format d _ _ => fun r =>
          forall path, handles n !! d = Some path -> content n path = Empty -> r = None
      | Cryptsetup.KeyslotAddByVolumeKey d _ volumeKey _ => fun r =>
          forall path, handles n !! d = Some path -> forall key slots inner,
            content n path = LuksData key slots inner -> volumeKey = "" -> r = None
      | Cryptsetup.Load d _ => fun r =>
          forall path, handles n !! d = Some path -> forall key slots inner,
            content n path = LuksData key slots inner -> r = None
      | Cryptsetup.ActivateByPassphrase d name _ passphrase _ => fun r =>
          forall path, handles n !! d = Some path -> forall key slots inner,
            content n path = LuksData key slots inner -> passphrase ∈ slots ->
            maps n !! name = None -> r = None
      | Cryptsetup.Deactivate _ name => fun r => is_Some (maps n !! name) -> r = None
      | Cryptsetup.Free _ => fun r => r = true
      end
  | _ => fun _ => True
  end.

Definition node_reliable : state_law Node := fun c n r n' =>
  node_documented c n r n' /\ node_succeeds c n r.

(** * Symbolic execution on a reliable node *)

Ltac rel_step :=
  lazymatch goal with
  | |- swp _ (Call _ _) _ _ =>
      let r := fresh "r" in let s := fresh "n" in let Hr := fresh "Hr" in let Hs := fresh "Hs" in
      intros r s [Hr Hs]; resp_simpl r; cbn [node_succeeds] in Hs; node_use Hr; wp_simpl
  | |- _ => node_step
  end.

Ltac rel_run := wp_simpl; repeat (rel_step; try done).

Ltac use_success :=
  node_facts;
  repeat (match goal with
  | H : forall path, Some ?p = Some path -> _ |- _ => specialize (H _ eq_refl)
  | H : forall key slots inner, content _ _ = LuksData key slots inner -> _ |- _ =>
      first [specialize (H _ _ _ (content_set_eq _ _ _))|specialize (H _ _ _ ltac:(eassumption))]
  | H : ?a = ?b -> _ |- _ => specialize (H ltac:(first [reflexivity|assumption|congruence]))
  | H : is_Some ?x -> _, E : ?x = Some _ |- _ => specialize (H (mk_is_Some _ _ E))
  | H : is_Some (Some _) -> _ |- _ => specialize (H (mk_is_Some _ _ eq_refl))
  | H : ?P -> _, H' : ?P |- _ => lazymatch type of P with Prop => specialize (H H') end
  | H : _ ∈ [_] -> _ |- _ => specialize (H ltac:(by apply list_elem_of_here))
  | H : is_inl (inl _) = false |- _ => discriminate H
  | E : content ?n ?p = _, H : context [content ?n ?p] |- _ => rewrite E in H
  end; node_facts).

Lemma blkidValid_ok path n :
  path <> "" ->
  swp node_reliable (blkidValid path)
    (fun n' o => o = Done (inr (bool_decide (content n path <> Empty))) /\ n' = n) n.
Proof.
  intros Hp. unfold blkidValid. wp_unfold. rewrite (proj2 (String.eqb_neq path "") Hp). rel_run.
  all: destruct (content n path); node_facts; simplify_eq; try done; split; try done.
Qed.

(** The context can be used to format. *)
Definition can_format (ctx : LuksContext) : Prop :=
  (exists size, Atoi (EncryptionKeySize ctx) = inr size) /\ is_Some (SplitN2 (EncryptionCipher ctx) "-" !! 1%nat).

Lemma luksFormat_ok ctx path n :
  can_format ctx -> is_Some (disks n !! path) -> content n path = Empty -> maps n !! VolumeName ctx = None ->
  swp node_reliable (luksFormat ctx path)
    (fun _ o => o = Done (inr ("/dev/mapper/" +:+ VolumeName ctx))) n.
Proof.
  intros [[size Hsize] [mode Hmode]] Hdisk Hempty Hname. unfold luksFormat, index. rewrite Hsize.
  destruct (SplitN2 (EncryptionCipher ctx) "-" !! 0%nat) as [cipher|] eqn:Hc; [|by destruct (SplitN2_head _ _ Hc)].
  rewrite Hmode. wp_unfold. rel_run.
  all: exfalso; use_success.
Qed.

Lemma luksOpen_ok ctx path n key slots inner :
  is_Some (disks n !! path) -> content n path = LuksData key slots inner -> EncryptionKey ctx ∈ slots ->
  maps n !! VolumeName ctx = None ->
  swp node_reliable (luksOpen ctx path)
    (fun _ o => o = Done (inr ("/dev/mapper/" +:+ VolumeName ctx))) n.
Proof.
  intros Hdisk Hcont Hslot Hname. unfold luksOpen. wp_unfold. rel_run.
  all: exfalso; use_success.
Qed.

(** The volume can be staged: its content, its key and the names are right. *)
Definition stageable (req : NodeStageVolumeRequest) (n : Node) (path : string) : Prop :=
  let ctx := stage_context req in
  let fstype := fst (getFSTypeAndMountOptions (ns_VolumeCapability req)) in
  is_Some (disks n !! path) /\ strip_prefix "/dev/mapper/" path = None /\
  if EncryptionEnabled ctx then
    luks_complete ctx /\ can_format ctx /\ maps n !! VolumeName ctx = None /\
    (content n path = Empty \/ exists key slots inner, content n path = LuksData key slots inner /\
       EncryptionKey ctx ∈ slots /\ (inner = None \/ inner = Some fstype))
  else content n path = Empty \/ content n path = Known fstype.

Lemma complete_valid ctx : luks_complete ctx -> validate ctx = None.
Proof.
  intros (He & H1 & H2 & H3 & H4). unfold validate. rewrite He. cbn [negb].
  by rewrite !(proj2 (String.eqb_neq _ _)) by done.
Qed.

Lemma backing_mapper n name : backing n ("/dev/mapper/" +:+ name) = maps n !! name.
Proof. unfold backing. by rewrite strip_prefix_app. Qed.

(** What can be mounted from the mapping of a device. *)
Lemma mapping_mountable n name path key slots inner fstype :
  maps n !! name = Some path -> content n path = LuksData key slots inner ->
  (inner = None \/ inner = Some fstype) ->
  source_there n ("/dev/mapper/" +:+ name) /\
  (blank n ("/dev/mapper/" +:+ name) = true \/ holds n ("/dev/mapper/" +:+ name) fstype).
Proof.
  intros Hm Hc Hi. unfold source_there, blank, holds. rewrite backing_mapper, Hm, Hc.
  split; [left; by eexists|]. destruct Hi as [->| ->]; [by left|right; eauto].
Qed.

Lemma ready_mountable req n path source n1 :
  stageable req n path -> ready (stage_context req) path n source n1 ->
  source_there n1 source /\
  (blank n1 source = true \/ holds n1 source (fst (getFSTypeAndMountOptions (ns_VolumeCapability req)))).
Proof.
  intros (Hdisk & Hpath & Hstage). destruct 1 as [n1 He Hn|n1 [He _] Hc Hm Hn|k sl i n1 [He _] Hc Hk Hm Hn|k sl i n1 [He _] Hc Hm Hn];
    rewrite He in Hstage.
  - assert (backing n1 path = None) as Hb by (unfold backing; by rewrite Hpath).
    unfold source_there, blank, holds. rewrite Hb. destruct Hn as (Hd & _ & _). unfold content in *. rewrite Hd.
    split; [by right|]. destruct Hstage as [->| ->]; [by left|by right].
  - eapply mapping_mountable; [rewrite Hn; apply lookup_insert_eq| |left; reflexivity].
    rewrite Hn. apply content_set_eq.
  - destruct Hstage as (_ & _ & _ & [?|(k' & sl' & i' & ? & _ & Hi)]); [congruence|]. simplify_eq.
    eapply mapping_mountable; [rewrite Hn; apply lookup_insert_eq|rewrite Hn; exact Hc|]. congruence.
  - destruct Hstage as (_ & _ & Hnone & _). destruct Hm as [? ?]. congruence.
Qed.

(** A run of a reliable node is a run of a documented one. *)
Lemma reliable_documented {A} (p : prog A) Q n : swp node_documented p Q n -> swp node_reliable p Q n.
Proof. apply swp_law. by intros c s r s' [H _]. Qed.

Lemma formatLUKSVolume_ok req n path :
  EncryptionEnabled (stage_context req) = true -> path <> "" -> stageable req n path ->
  swp node_reliable (formatLUKSVolume path (stage_context req))
    (fun n' o => exists source, o = Done (inr source) /\ ready (stage_context req) path n source n') n.
Proof.
  intros He Hp (Hdisk & _ & Hstage). rewrite He in Hstage. destruct Hstage as (Hok & Hfmt & Hname & Hcont).
  eapply swp_mono; [apply swp_and; [|by apply reliable_documented, formatLUKSVolume_node]|].
  - unfold formatLUKSVolume. unfold try_else at 1. eapply swp_seq; [by apply blkidValid_ok| |by intros ? ? [[=] _]].
    intros n0 r [[= ->] ->]. rewrite (complete_valid _ Hok).
    instantiate (1 := fun _ o => o = Done (inr ("/dev/mapper/" +:+ VolumeName (stage_context req)))).
    destruct Hcont as [Hempty|(key & slots & inner & Hcont & Hslot & _)].
    + rewrite bool_decide_false by (intros H; by apply H). cbn [negb].
      eapply swp_seq; [by apply luksFormat_ok| |done]. by intros n1 r [= ->].
    + rewrite bool_decide_true by (by rewrite Hcont). cbn [negb].
      eapply swp_seq; [by eapply luksOpen_ok| |done]. by intros n1 r [= ->].
  - intros n' o [-> Hready]. by eexists.
Qed.

Lemma mountVolume_ok req n path :
  path <> "" -> stageable req n path ->
  swp node_reliable (mountVolume path req) (fun _ o => o = Done (inr tt)) n.
Proof.
  intros Hp Hstage. unfold mountVolume.
  destruct (getFSTypeAndMountOptions (ns_VolumeCapability req)) as [fstype options] eqn:Hopts.
  fold (stage_context req).
  assert (forall source n1, ready (stage_context req) path n source n1 ->
    forall r n', node_reliable (Mnt (Mounter.FormatAndMount source (ns_StagingTargetPath req) fstype options)) n1 r n' ->
    r = None) as Hmount.
  { intros source n1 Hready r n' [_ Hs]. destruct (ready_mountable _ _ _ _ _ Hstage Hready) as [Hthere Hfs].
    rewrite Hopts in Hfs. by apply Hs. }
  destruct (EncryptionEnabled (stage_context req)) eqn:He.
  - eapply swp_seq; [by apply formatLUKSVolume_ok| |by intros ? ? (? & [=] & _)].
    intros n1 r (source & [= ->] & Hready). cbn [bind swp call].
    intros r n' Hr. by rewrite (Hmount _ _ Hready r n' Hr).
  - cbn [bind swp call]. intros r n' Hr.
    by rewrite (Hmount path n (Ready_plain _ _ _ _ He (reflexivity _)) r n' Hr).
Qed.

(** The search for the device, when it is there. *)
Section Handlers.
Context {D : DeviceUtils} {HD : DeviceUtilsLaws D}.

Lemma VerifyDevicePath_ok paths n path :
  search (node_stat n) paths = inr path ->
  swp node_reliable (VerifyDevicePath paths) (fun n' o => o = Done (inr path) /\ n' = n) n.
Proof.
  intros Hsearch. eapply swp_mono.
  - apply (swp_reads _ _ (fun c => device_call c = true) (fun _ o => o = Done (inr path)) n []).
    + intros c r n' Hc [Hr _]. by eapply device_call_documented.
    + constructor.
    + rewrite <- Hsearch. eapply wp_stronger; [|apply VerifyDevicePath_search].
      intros tr c r [_ Hs]. destruct c as [|[]| | | | | | | | |]; done.
  - cbv beta. intros n' o [-> (_ & -> & _)]. done.
Qed.

Lemma ensureMountPoint_ok path n :
  swp node_reliable (ensureMountPoint path)
    (fun n' o => o = Done (inr (bool_decide (mounted_at n path = []))) /\ n' = n) n.
Proof.
  unfold ensureMountPoint. wp_unfold. rel_run.
  all: destruct r as [b [e'|]]; cbn in *; simplify_eq; split; try done; try congruence.
  destruct Hr as [-> ->]; [done|]. by rewrite bool_decide_true.
Qed.

Lemma rel_locked {A} (p : prog A) Q n :
  swp node_reliable p Q n -> swp node_reliable (locked p) Q n.
Proof.
  intros H. unfold locked, call. cbn [bind swp]. intros [] n0 [Hn _]. cbn in Hn. subst n0.
  revert n H. induction p as [a|why|c k IH]; intros n H; cbn [finally swp].
  - intros [] n' [Hn _]. cbn in Hn. by subst.
  - intros [] n' [Hn _]. cbn in Hn. by subst.
  - intros r n' Hr. by apply IH, H.
Qed.

(** The call succeeds, and takes the step it is specified to. *)
Definition node_ok (q : NodeCall) (n : Node) : Prop :=
  swp node_reliable (node_handle q) (fun n' o => o = Done (inr tt) /\ nstep n q (Done (inr tt)) n') n.

Lemma node_ok_intro q n :
  swp node_reliable (node_handle q) (fun _ o => o = Done (inr tt)) n -> node_ok q n.
Proof.
  intros H. eapply swp_mono; [apply swp_and; [exact H|apply reliable_documented, all_node_refine]|].
  by intros n' o [-> Hstep].
Qed.

Lemma stage_ok req key path n :
  validateNodeStageVolumeRequest req = None -> ParseLinodeVolumeKey (ns_VolumeId req) = inr key ->
  search (node_stat n) (GetDiskByIdPaths (GetNormalizedLabel key) (map_get (ns_VolumeContext req) "partition")) = inr path ->
  path <> "" -> mounted_at n (ns_StagingTargetPath req) = [] -> GetBlock (ns_VolumeCapability req) = false ->
  stageable req n path -> node_ok (CallStage req) n.
Proof.
  intros Hval Hkey Hsearch Hp Hfree Hblock Hstage. apply node_ok_intro. cbn [node_handle].
  unfold NodeStageVolume. apply rel_locked. cbv zeta. rewrite partition_get, Hval, Hkey.
  unfold findDevicePath, try_else at 1. eapply swp_seq with (R := fun n' o => o = Done (inr path) /\ n' = n); [| |by intros ? ? [[=] _]].
  { unfold try_else. eapply swp_seq; [by apply VerifyDevicePath_ok| |by intros ? ? [[=] _]].
    intros n0 r [[= ->] ->]. by rewrite (proj2 (String.eqb_neq path "") Hp). }
  intros n0 r [[= ->] ->]. unfold try_else at 1.
  eapply swp_seq; [apply ensureMountPoint_ok| |by intros ? ? [[=] _]].
  intros n0 r [[= ->] ->]. rewrite bool_decide_true, Hblock by done. cbn [negb]. unfold try_else.
  eapply swp_seq; [by eapply mountVolume_ok| |done]. intros n1 r [= ->]. wp_unfold. by rel_run.
Qed.

Lemma publish_ok req n :
  validateNodePublishVolumeRequest req = None -> GetBlock (np_VolumeCapability req) = false ->
  node_ok (CallPublish req) n.
Proof.
  intros Hval Hblock. apply node_ok_intro. cbn [node_handle]. unfold NodePublishVolume. apply rel_locked.
  cbv zeta. rewrite Hval, Hblock. unfold try_else.
  eapply swp_seq; [apply ensureMountPoint_ok| |by intros ? ? [[=] _]].
  intros n0 r [[= ->] ->]. wp_unfold. by rel_run.
Qed.

Lemma unpublish_ok req n :
  validateNodeUnpublishVolumeRequest req = None -> (length (mounted_at n (nup_TargetPath req)) <= 1)%nat ->
  node_ok (CallUnpublish req) n.
Proof.
  intros Hval Hlen. apply node_ok_intro. cbn [node_handle]. unfold NodeUnpublishVolume. apply rel_locked.
  rewrite Hval. wp_unfold. rel_run. by specialize (Hs Hlen).
Qed.

(** Unstaging closes the mapping named by the volume ID, if it is open. *)
Definition unstaged (staging name : string) (n : Node) : Node :=
  set_maps (delete name (maps n)) (set_mounts staging [] n).

Lemma unstage_ok req name n :
  validateNodeUnstageVolumeRequest req = None -> getMountSource (nu_VolumeId req) = inr name ->
  (length (mounted_at n (nu_StagingTargetPath req)) <= 1)%nat ->
  swp node_reliable (NodeUnstageVolume req)
    (fun n' o => o = Done (inr tt) /\ n' ≡ unstaged (nu_StagingTargetPath req) name n) n.
Proof.
  intros Hval Hname Hlen. unfold NodeUnstageVolume. apply rel_locked.
  rewrite Hval. unfold closeLuksMountSource, unstaged. rewrite Hname. wp_unfold. rel_run.
  all: try (by specialize (Hs Hlen)); destruct Hr as [_ ->].
  - subst n1. split; [done|]. cbn in Hs0.
    destruct (maps n !! name) as [path|] eqn:Hm; [by specialize (Hs0 (mk_is_Some _ _ eq_refl))|].
    by rewrite delete_id.
  - exfalso. use_success.
  - exfalso. use_success.
  - split; [done|]. destruct Hr0 as (path & _ & _ & ->). by rewrite handles_equiv.
Qed.

(** ** A volume on a node *)

(** Staged, published, unpublished and unstaged. *)
Definition node_lifecycle (stage : NodeStageVolumeRequest) (publish : NodePublishVolumeRequest)
    (unpublish : NodeUnpublishVolumeRequest) (unstage : NodeUnstageVolumeRequest) : eprog unit :=
  let! _ := NodeStageVolume stage in
  let! _ := NodePublishVolume publish in
  let! _ := NodeUnpublishVolume unpublish in
  NodeUnstageVolume unstage.

Lemma ok_step q (k : unit -> eprog unit) Q n :
  node_ok q n -> (forall n', nstep n q (Done (inr tt)) n' -> swp node_reliable (k tt) Q n') ->
  swp node_reliable (ebind (node_handle q) k) Q n.
Proof.
  intros Hq Hk. unfold ebind. eapply swp_seq; [exact Hq| |by intros ? ? [[=] _]].
  intros n' r [[= ->] Hstep]. by apply Hk.
Qed.

Lemma parse_mount_source vid key : ParseLinodeVolumeKey vid = inr key -> getMountSource vid = inr (Label key).
Proof.
  unfold ParseLinodeVolumeKey, getMountSource. destruct (SplitN2 vid "-") as [|a [|b [|]]]; try done.
  destruct (Atoi a); [done|]. by intros [= <-].
Qed.

(** The mappings once a volume is staged that was not. *)
Definition opened_maps (stage : NodeStageVolumeRequest) (path : string) (n : Node) : gmap string string :=
  if EncryptionEnabled (stage_context stage) then <[VolumeName (stage_context stage) := path]> (maps n)
  else maps n.

Lemma staged_once stage path n n' :
  nstep n (CallStage stage) (Done (inr tt)) n' ->
  mounted_at n (ns_StagingTargetPath stage) = [] -> GetBlock (ns_VolumeCapability stage) = false ->
  stageable stage n path ->
  exists p m, device_name stage p /\ maps n' = opened_maps stage p n /\
    forall target, mounted_at n' target =
      if decide (ns_StagingTargetPath stage = target) then [m] else mounted_at n target.
Proof.
  intros Hstep Hfree Hblock (_ & _ & Hs). unfold opened_maps. inversion Hstep as [| |? ? Hidle| | |? p src m1 m2 ? (Hdev & _) Hready Hfmt _ Hmount| | | | | | | |]; subst;
    [by destruct Hidle; congruence|].
  exists p, (stage_mount stage src). pose proof (may_format_maps _ _ _ _ Hfmt) as Hm.
  split; [done|]. split.
  - rewrite Hmount. cbn. rewrite Hm.
    destruct Hready as [n1 He Hn|n1 [He _] _ _ Hn|? ? ? n1 [He _] _ _ _ Hn|? ? ? n1 [He _] _ [? Hopen] _]; rewrite He in *.
    + by rewrite Hn.
    + by rewrite Hn.
    + by rewrite Hn.
    + destruct Hs as (_ & _ & Hnone & _). congruence.
  - intros target. rewrite Hmount, mounted_set_mounts. case_decide; [done|].
    by rewrite (may_format_mounted _ _ _ _ _ Hfmt), (mounted_ready _ _ _ _ _ _ Hready).
Qed.

Lemma node_life_ok (stage : NodeStageVolumeRequest) (publish : NodePublishVolumeRequest)
  (unpublish : NodeUnpublishVolumeRequest) (unstage : NodeUnstageVolumeRequest)
  (key : LinodeVolumeKey) (path : string) (n : Node)
  (Hvalid : validateNodeStageVolumeRequest stage = None /\ validateNodePublishVolumeRequest publish = None /\
     validateNodeUnpublishVolumeRequest unpublish = None /\ validateNodeUnstageVolumeRequest unstage = None)
  (Hsame : nu_VolumeId unstage = ns_VolumeId stage /\
     nu_StagingTargetPath unstage = ns_StagingTargetPath stage /\ nup_TargetPath unpublish = np_TargetPath publish)
  (Hkey : ParseLinodeVolumeKey (ns_VolumeId stage) = inr key)
  (Hmode : GetBlock (ns_VolumeCapability stage) = false /\ GetBlock (np_VolumeCapability publish) = false)
  (Hpaths : ns_StagingTargetPath stage <> np_TargetPath publish)
  (Hfree : mounted_at n (ns_StagingTargetPath stage) = [] /\ mounted_at n (np_TargetPath publish) = [])
  (Hfound : search (node_stat n) (GetDiskByIdPaths (GetNormalizedLabel key)
     (map_get (ns_VolumeContext stage) "partition")) = inr path /\ path <> "")
  (Hstage : stageable stage n path) (Hlabel : maps n !! Label key = None) :
  let ctx := stage_context stage in
  swp node_reliable (node_lifecycle stage publish unpublish unstage) (fun n' o =>
    o = Done (inr tt) /\ data_kept n n' /\ (forall p, mounted_at n' p = mounted_at n p) /\
    if EncryptionEnabled ctx && negb (String.eqb (VolumeName ctx) (Label key)) then
      exists p, device_name stage p /\ maps n' = <[VolumeName ctx := p]> (maps n)
    else maps n' = maps n) n.
Proof.
  destruct Hvalid as (Hv1 & Hv2 & Hv3 & Hv4), Hsame as (Hid & Hst & Htg), Hmode as [Hb1 Hb2],
    Hfree as [Hf1 Hf2], Hfound as [Hsearch Hp]. intros ctx. unfold node_lifecycle.
  apply (ok_step (CallStage stage)); [by eapply stage_ok|]. intros n1 H1.
  destruct (staged_once _ _ _ _ H1 Hf1 Hb1 Hstage) as (p & m & Hdev & Hm1 & Hmt1).
  apply (ok_step (CallPublish publish)); [by apply publish_ok|]. intros n2 H2.
  assert (n2 ≡ set_mounts (np_TargetPath publish) [publish_mount publish (np_StagingTargetPath publish)] n1) as Hn2.
  { inversion H2; subst; [|done|congruence]. match goal with H : _ <> [] |- _ => destruct H end.
    by rewrite Hmt1, decide_False. }
  apply (ok_step (CallUnpublish unpublish)).
  { apply unpublish_ok; [done|]. rewrite Htg, Hn2, mounted_set_eq. cbn. lia. }
  intros n3 H3. assert (n3 ≡ set_mounts (np_TargetPath publish) [] n2) as Hn3.
  { rewrite <- Htg. by inversion H3; subst. }
  eapply swp_mono; [apply swp_and; [|apply reliable_documented, (all_node_refine (CallUnstage unstage))]|].
  { eapply unstage_ok; [done|rewrite Hid; by apply parse_mount_source|].
    rewrite Hst, Hn3, mounted_set_mounts, decide_False, Hn2, mounted_set_mounts, decide_False, Hmt1, decide_True by done.
    cbn. lia. }
  cbv beta. intros n' o [[-> Hn'] H4]. split; [done|]. split_and!.
  - etransitivity; [eapply nstep_kept, H1|]. etransitivity; [eapply nstep_kept, H2|].
    etransitivity; [eapply nstep_kept, H3|eapply nstep_kept, H4].
  - intros q. rewrite Hn'. unfold unstaged. rewrite mounted_maps, mounted_set_mounts, Hst.
    rewrite (mounted_proper _ _ Hn3 q q eq_refl), mounted_set_mounts, (mounted_proper _ _ Hn2 q q eq_refl),
      mounted_set_mounts, Hmt1. repeat case_decide; congruence.
  - assert (maps n' = delete (Label key) (opened_maps stage p n)) as ->.
    { rewrite Hn'. unfold unstaged. cbn. by rewrite Hn3; cbn; rewrite Hn2; cbn; rewrite Hm1. }
    unfold opened_maps. fold ctx. destruct (EncryptionEnabled ctx); cbn [andb]; [|by rewrite delete_id].
    destruct (String.eqb_spec (VolumeName ctx) (Label key)) as [->|Hne]; cbn [negb].
    + by rewrite delete_insert_eq, delete_id.
    + exists p. split; [done|]. by rewrite delete_insert_ne, delete_id by done.
Qed.

(** C11. On a reliable node a volume goes through its life there: staged, published,
    unpublished and unstaged by requests that agree on it, on a node where it can
    be staged and nothing is mounted at its paths, every call succeeds, all data
    is kept, and what is mounted is as it was.  So are the LUKS mappings, if the
    volume is not encrypted, or the name of its mapping is the label in its volume
    ID; otherwise the mapping is left open. *)
Theorem node_lifecycle_completes (stage : NodeStageVolumeRequest) (publish : NodePublishVolumeRequest)
  (unpublish : NodeUnpublishVolumeRequest) (unstage : NodeUnstageVolumeRequest)
  (key : LinodeVolumeKey) (path : string) (n : Node)
  (Hvalid : validateNodeStageVolumeRequest stage = None /\ validateNodePublishVolumeRequest publish = None /\
     validateNodeUnpublishVolumeRequest unpublish = None /\ validateNodeUnstageVolumeRequest unstage = None)
  (Hsame : nu_VolumeId unstage = ns_VolumeId stage /\
     nu_StagingTargetPath unstage = ns_StagingTargetPath stage /\ nup_TargetPath unpublish = np_TargetPath publish)
  (Hkey : ParseLinodeVolumeKey (ns_VolumeId stage) = inr key)
  (Hmode : GetBlock (ns_VolumeCapability stage) = false /\ GetBlock (np_VolumeCapability publish) = false)
  (Hpaths : ns_StagingTargetPath stage <> np_TargetPath publish)
  (Hfree : mounted_at n (ns_StagingTargetPath stage) = [] /\ mounted_at n (np_TargetPath publish) = [])
  (Hfound : search (node_stat n) (GetDiskByIdPaths (GetNormalizedLabel key)
     (map_get (ns_VolumeContext stage) "partition")) = inr path /\ path <> "")
  (Hstage : stageable stage n path) (Hlabel : maps n !! Label key = None) :
  let ctx := stage_context stage in
  swp node_reliable (node_lifecycle stage publish unpublish unstage) (fun n' o =>
    o = Done (inr tt) /\ data_kept n n' /\ (forall p, mounted_at n' p = mounted_at n p) /\
    if EncryptionEnabled ctx && negb (String.eqb (VolumeName ctx) (Label key)) then
      exists p, device_name stage p /\ maps n' = <[VolumeName ctx := p]> (maps n)
    else maps n' = maps n) n.
Proof. by apply (node_life_ok stage publish unpublish unstage key path). Qed.
End Handlers.
