(* ===== verification/MemoryNode.v ===== *)
(** A node in memory: an environment that behaves as [NodeWorld] documents and
    [NodeLifecycle] relies on, and concrete runs of the Node service on it. *)
From S2P Require Import Prelude GoStrings Types Errors Metrics Effects LinodeVolumes Sizes Config.
From S2P Require Import DeviceManager Luks NodeServer Controller ControllerProofs Cloud NodeProofs.
From S2P Require Import Concurrency Races NodeWorld NodeSpec NodeRefine NodeSafety NodeLifecycle.

Definition new_handle (n : Node) : Device := fresh (dom (handles n) : gset Z).

Definition crypt_error (code : Z) : CryptError := {| ye_Code := Some code; ye_Text := "" |}.

Definition memory_mounter (m : Mounter.call) (n : Node) : Mounter.answer m * Node :=
  match m return Mounter.answer m * Node with
  | Mounter.IsLikelyNotMountPoint path => ((bool_decide (mounted_at n path = []), None), n)
  | Mounter.Mount source target _ options =>
      (None, set_mounts target ({| mp_source := source; mp_options := options |} :: mounted_at n target) n)
  | Mounter.CleanupMountPoint path _ =>
      if bool_decide (length (mounted_at n path) <= 1)%nat then (None, set_mounts path [] n)
      else (Some "still mounted", set_mounts path (tail (mounted_at n path)) n)
  | Mounter.FormatAndMount source target fstype options =>
      let n1 := if blank n source then format fstype source n else n in
      if blank n1 source then (Some "no file system", n1)
      else (None, set_mounts target ({| mp_source := source; mp_options := options |} :: mounted_at n1 target) n1)
  end.

Definition memory_crypt (y : Cryptsetup.call) (n : Node) : Cryptsetup.answer y * Node :=
  match y return Cryptsetup.answer y * Node with
  | Cryptsetup.Init path => (inr (new_handle n), set_handles (<[new_handle n := path]> (handles n)) n)
  | Cryptsetup.InitByName name =>
      match maps n !! name with
      | Some path => (inr (new_handle n), set_handles (<[new_handle n := path]> (handles n)) n)
      | None => (inl (crypt_error (-19)), n)
      end
  | Cryptsetup.Format d _ params =>
      match handles n !! d with
      | Some path => (None, set_disk path (LuksData (VolumeKey params) [] None) n)
      | None => (Some (crypt_error (-22)), n)
      end
  | Cryptsetup.KeyslotAddByVolumeKey d _ volumeKey passphrase =>
      match handles n !! d with
      | Some path =>
          match content n path with
          | LuksData key slots inner =>
              if String.eqb volumeKey "" || String.eqb volumeKey key then
                (None, set_disk path (LuksData key (passphrase :: slots) inner) n)
              else (Some (crypt_error (-1)), n)
          | _ => (Some (crypt_error (-22)), n)
          end
      | None => (Some (crypt_error (-22)), n)
      end
  | Cryptsetup.ActivateByPassphrase d name _ passphrase _ =>
      match maps n !! name with
      | Some _ => (Some (crypt_error (-17)), n)
      | None =>
          match handles n !! d with
          | Some path =>
              match content n path with
              | LuksData key slots inner =>
                  if bool_decide (passphrase ∈ slots) then (None, set_maps (<[name := path]> (maps n)) n)
                  else (Some (crypt_error (-1)), n)
              | _ => (Some (crypt_error (-22)), n)
              end
          | None => (Some (crypt_error (-22)), n)
          end
      end
  | Cryptsetup.Load d _ =>
      match handles n !! d with
      | Some path =>
          (match content n path with LuksData _ _ _ => None | _ => Some (crypt_error (-22)) end, n)
      | None => (Some (crypt_error (-22)), n)
      end
  | Cryptsetup.Free d => (true, set_handles (delete d (handles n)) n)
  | Cryptsetup.Deactivate _ name => (None, set_maps (delete name (maps n)) n)
  end.

Definition memory_node (c : cmd) (n : Node) : resp c * Node :=
  match c return resp c * Node with
  | Fs (FS.Stat path) => (node_stat n path, n)
  | Exec (Executor.CmdRun "blkid" [path]) =>
      (match content n path with
       | Empty => Some {| xe_NotFound := false; xe_ExitStatus := Some 2; xe_Text := "" |}
       | _ => None
       end, n)
  | Mnt m => memory_mounter m n
  | Crypt y => memory_crypt y n
  | c => (ex_world c, n)
  end.

Lemma new_handle_fresh n : handles n !! new_handle n = None.
Proof. apply not_elem_of_dom, (is_fresh (dom (handles n) : gset Z)). Qed.

Lemma memory_node_documented c n : node_documented c n (memory_node c n).1 (memory_node c n).2.
Proof.
  destruct c as [a|f|m|x|y|h|e|o| | |]; try done.
  - destruct f; try done. cbn. split; [done|]. unfold node_stat. by case_decide.
  - destruct m as [path|source target fstype options|path ext|source target fstype options]; cbn; try done.
    + case_bool_decide; cbn; auto.
    + destruct (blank n source) eqn:Hb.
      * exists (format fstype source n). split; [by right|]. by destruct (blank (format _ _ _) _) eqn:Hb'.
      * exists n. split; [by left|]. by rewrite Hb.
  - destruct x as [cmd|cmd args|cmd args]; try done.
    do 6 (destruct cmd as [|[[] [] [] [] [] [] [] []] cmd]; try done).
    destruct args as [|path [|]]; try done. cbn. destruct (content n path) eqn:Hc; by rewrite ?Hc.
  - destruct y; cbn.
    + by split; [apply new_handle_fresh|].
    + destruct (maps n !! name) as [path|] eqn:Hm; [|done]. cbn. exists path.
      by split_and!; [|apply new_handle_fresh|].
    + by destruct (handles n !! d).
    + destruct (handles n !! d) as [path|] eqn:Hd; [|done].
      destruct (content n path) as [| |key slots inner] eqn:Hc; try done.
      destruct (String.eqb_spec volumeKey ""), (String.eqb_spec volumeKey key); cbn; try done; eauto 10.
    + destruct (maps n !! name) as [p|] eqn:Hm; [by cbn; split; [|eexists]|].
      destruct (handles n !! d) as [path|] eqn:Hd; [|by split].
      destruct (content n path) as [| |key slots inner] eqn:Hc; try by split.
      case_bool_decide; [|by split]. cbn. eauto 10.
    + destruct (handles n !! d) as [path|] eqn:Hd; [|by split].
      destruct (content n path) as [| |key slots inner] eqn:Hc; cbn; split; try done. intros _. by exists path, key, slots, inner.
    + done.
    + done.
Qed.

#[export] Instance memory_NodeApi : NodeApi Node := {
  na_env := memory_node;
  na_node := fun n => n;
  na_documented := memory_node_documented;
  na_mutex := fun n => conj eq_refl eq_refl;
}.

Lemma blank_format fstype source n : blank n source = true -> blank (format fstype source n) source = false.
Proof.
  unfold blank, format. destruct (backing n source) as [path|] eqn:Hb.
  - destruct (content n path) as [| |key slots [|]] eqn:Hc; try done. intros _.
    assert (backing (set_disk path (LuksData key slots (Some fstype)) n) source = Some path) as -> by exact Hb.
    by rewrite content_set_eq.
  - intros _. assert (backing (set_disk source (Known fstype) n) source = None) as -> by exact Hb.
    by rewrite content_set_eq.
Qed.

Lemma holds_blank n source fstype : holds n source fstype -> blank n source = false.
Proof.
  unfold holds, blank. destruct (backing n source); [by intros (? & ? & ->)|by intros ->].
Qed.

Lemma memory_node_succeeds c n : node_succeeds c n (memory_node c n).1.
Proof.
  destruct c as [a|f|m|x|y|h|e|o| | |]; try done.
  - by destruct f.
  - destruct m as [path|source target fstype options|path ext|source target fstype options]; cbn; try done.
    + intros Hlen. by rewrite bool_decide_true.
    + intros _ [Hb|Hh%holds_blank].
      * by rewrite Hb, blank_format.
      * by rewrite Hh, Hh.
  - destruct x as [cmd|cmd args|cmd args]; try done.
    do 6 (destruct cmd as [|[[] [] [] [] [] [] [] []] cmd]; try done).
    destruct args as [|path [|]]; try done. cbn. destruct (content n path) eqn:Hc; cbn; eauto.
  - destruct y; cbn; try done.
    + by intros [path ->].
    + by intros path -> _.
    + intros path -> key slots inner -> ->. done.
    + intros path Hd key slots inner Hc Hs Hm. rewrite Hm, Hd, Hc. by rewrite bool_decide_true.
    + by intros path -> key slots inner ->.
Qed.

Lemma memory_node_reliable c n : node_reliable c n (memory_node c n).1 (memory_node c n).2.
Proof. split; [apply memory_node_documented|apply memory_node_succeeds]. Qed.
