(* ===== verification/NodeRetries.v ===== *)
(** Repeating calls of the Node service, and what a failure in the middle of one
    leaves for the next. *)
From S2P Require Import Prelude GoStrings Types Errors Metrics Effects LinodeVolumes Sizes Config.
From S2P Require Import DeviceManager Luks NodeServer Controller ControllerProofs Cloud NodeProofs.
From S2P Require Import Concurrency NodeWorld NodeSpec NodeRefine NodeSafety NodeLifecycle MemoryNode.

Section Retries.
Context {D : DeviceUtils} {HD : DeviceUtilsLaws D}.

(** * Repeated calls *)

(** Calls that leave nothing to do: not a block volume published, which is mounted
    again, nor an unstaging, which may close the mapping at the next attempt. *)
Definition repeatable (q : NodeCall) : Prop :=
  match q with
  | CallPublish req => GetBlock (np_VolumeCapability req) = false
  | CallUnstage _ => False
  | _ => True
  end.

(** What a call that succeeded leaves to do. *)
Definition nothing_left (q : NodeCall) (n : Node) : Prop :=
  match q with
  | CallPublish req => mounted_at n (np_TargetPath req) <> []
  | CallUnpublish req => mounted_at n (nup_TargetPath req) = []
  | CallStage req => mounted_at n (ns_StagingTargetPath req) <> [] \/ GetBlock (ns_VolumeCapability req) = true
  | CallUnstage _ => False
  end.

Lemma done_nothing_left q n n' :
  repeatable q -> nstep n q (Done (inr tt)) n' -> nothing_left q n'.
Proof.
  intros Hq Hstep. inversion Hstep as [| |? ? Hidle Hn| | |? ? ? ? ? ? _ _ _ _ Hn| | | |? ? _ Hm Hn|? ? _ _ Hn|? ? Hb|? ? _ Hn|];
    subst; cbn in *; try done.
  - destruct Hidle; [left|by right]. by rewrite Hn.
  - left. by rewrite Hn, mounted_set_eq.
  - by rewrite Hn.
  - by rewrite Hn, mounted_set_eq.
  - congruence.
  - by rewrite Hn, mounted_set_eq.
Qed.

Lemma unmounted_same n path : mounted_at n path = [] -> set_mounts path [] n ≡ n.
Proof. intros H. split_and!; [done..|]. intros p. rewrite mounted_set_mounts. case_decide; congruence. Qed.

Lemma nothing_left_step q n o n' :
  repeatable q -> nothing_left q n -> nstep n q o n' -> n' ≡ n.
Proof.
  intros Hq Hn. destruct 1 as [? ? ? Hs|? ? ? (_ & Hm & Hb & _) _ _ Hs|? ? _ Hs|? ? ? ? ? (_ & Hm & Hb & _)
    |? ? ? ? ? ? (_ & Hm & Hb & _)|? ? ? ? ? ? (_ & Hm & Hb & _)| | | |? ? _ _ Hs|? ? _ Hm|? ? Hb|? ? _ Hs|? ? ? Hs];
    cbn in *; try done; try (by intuition congruence); try congruence.
  - rewrite Hs. by apply unmounted_same.
  - rewrite Hs, Hn. by apply unmounted_same.
Qed.

(** C20. Retrying is safe on a node too: when a call that stages a volume, publishes
    a file system or unpublishes succeeds and is repeated, the repetition changes
    nothing, whatever it answers: the node is as one successful call left it. *)
Theorem node_retry (q : NodeCall) (n : Node) (Hq : repeatable q) :
  swp node_documented
    (let* r1 := node_handle q in let* r2 := node_handle q in Ret (r1, r2))
    (fun n' o => forall r2, o = Done (inr tt, r2) ->
       exists n1, nstep n q (Done (inr tt)) n1 /\ n' ≡ n1) n.
Proof.
  eapply swp_seq; [apply all_node_refine| |by intros ? ? _ ? [=]]. intros n1 r1 H1.
  eapply swp_seq; [apply all_node_refine| |by intros ? ? _ ? [=]]. intros n2 r2 H2.
  intros r [= -> <-]. exists n1. split; [done|].
  eapply nothing_left_step; [done| |exact H2]. by eapply done_nothing_left.
Qed.

(** * Block volumes *)

(** What a block volume is mounted by. *)
Definition block_mount (req : NodePublishVolumeRequest) : MountPoint :=
  publish_mount req (map_get (np_PublishContext req) "devicePath").

Lemma block_step req n n' :
  GetBlock (np_VolumeCapability req) = true -> nstep n (CallPublish req) (Done (inr tt)) n' ->
  n' ≡ set_mounts (np_TargetPath req) (block_mount req :: mounted_at n (np_TargetPath req)) n.
Proof. intros Hblock Hstep. by inversion Hstep; subst; congruence || done. Qed.

Lemma set_mounts_twice path l1 l2 n : set_mounts path l2 (set_mounts path l1 n) ≡ set_mounts path l2 n.
Proof. split_and!; [done..|]. intros p. rewrite !mounted_set_mounts. by case_decide. Qed.

(** The device is mounted once more by each of two calls. *)
Lemma block_steps req n n1 n2 :
  GetBlock (np_VolumeCapability req) = true ->
  nstep n (CallPublish req) (Done (inr tt)) n1 -> nstep n1 (CallPublish req) (Done (inr tt)) n2 ->
  n2 ≡ set_mounts (np_TargetPath req)
         (block_mount req :: block_mount req :: mounted_at n (np_TargetPath req)) n.
Proof.
  intros Hblock H1%block_step H2%block_step; [|done..].
  by rewrite H2, H1, mounted_set_eq, set_mounts_twice.
Qed.

(** Unmounting once does not clear a path with two mounts. *)
Lemma unpublish_two req n n' m1 m2 rest o :
  mounted_at n (nup_TargetPath req) = m1 :: m2 :: rest -> nstep n (CallUnpublish req) o n' ->
  (exists e, o = Done (inl e)) /\
  (mounted_at n' (nup_TargetPath req) = m1 :: m2 :: rest \/ mounted_at n' (nup_TargetPath req) = m2 :: rest).
Proof.
  intros Hm Hstep.
  inversion Hstep as [? e ? Hn| | | | | | | | | | | |? ? Hlen|? e ? Hn]; subst; rewrite ?Hm in *; cbn in *.
  - split; [by eexists|left]. by rewrite Hn.
  - lia.
  - split; [by eexists|right]. by rewrite Hn, mounted_set_eq.
Qed.

Lemma publish_block_ok req n :
  validateNodePublishVolumeRequest req = None -> GetBlock (np_VolumeCapability req) = true ->
  map_get (np_PublishContext req) "devicePath" <> "" -> node_ok (CallPublish req) n.
Proof.
  intros Hval Hblock Hpath. apply node_ok_intro. cbn [node_handle]. unfold NodePublishVolume. apply rel_locked.
  cbv zeta. rewrite Hval, Hblock. unfold nodePublishVolumeBlock. cbv zeta.
  rewrite (proj2 (String.eqb_neq _ "") Hpath). wp_unfold. rel_run.
Qed.

(** Publishing twice and unpublishing. *)
Definition twice_and_back (publish : NodePublishVolumeRequest) (unpublish : NodeUnpublishVolumeRequest) :
    prog ((goerror + unit) * (goerror + unit) * (goerror + unit)) :=
  let* r1 := NodePublishVolume publish in
  let* r2 := NodePublishVolume publish in
  let* r3 := NodeUnpublishVolume unpublish in
  Ret (r1, r2, r3).

(** C27. Publishing a block volume is not idempotent: it does not look whether the
    volume is published already.  When two calls of one request succeed, the device
    is mounted twice at the target, over what was mounted there, and nothing else
    of the node has changed; a call of NodeUnpublishVolume then fails, whatever the
    node answers, and the device is still mounted at the target.  And the second
    call is not refused: on a node where the calls that are documented to succeed
    do, both calls of a valid request succeed, so that all of this happens. *)
Theorem publish_block_twice (publish : NodePublishVolumeRequest) (unpublish : NodeUnpublishVolumeRequest) (n : Node)
  (Hblock : GetBlock (np_VolumeCapability publish) = true)
  (Hsame : nup_TargetPath unpublish = np_TargetPath publish) :
  let target := np_TargetPath publish in
  let m := block_mount publish in
  let left n' := mounted_at n' target = m :: m :: mounted_at n target \/ mounted_at n' target = m :: mounted_at n target in
  swp node_documented
    (let* r1 := NodePublishVolume publish in let* r2 := NodePublishVolume publish in Ret (r1, r2))
    (fun n' o => o = Done (inr tt, inr tt) -> n' ≡ set_mounts target (m :: m :: mounted_at n target) n) n /\
  swp node_documented (twice_and_back publish unpublish)
    (fun n' o => forall r3, o = Done (inr tt, inr tt, r3) -> (exists e, r3 = inl e) /\ left n') n /\
  (validateNodePublishVolumeRequest publish = None -> map_get (np_PublishContext publish) "devicePath" <> "" ->
   swp node_reliable (twice_and_back publish unpublish)
     (fun n' o => exists e, o = Done (inr tt, inr tt, inl e) /\ left n') n).
Proof.
  cbv zeta.
  assert (forall n1 n2 n3 o, nstep n (CallPublish publish) (Done (inr tt)) n1 ->
    nstep n1 (CallPublish publish) (Done (inr tt)) n2 -> nstep n2 (CallUnpublish unpublish) o n3 ->
    (exists e, o = Done (inl e)) /\
    (mounted_at n3 (np_TargetPath publish) = block_mount publish :: block_mount publish :: mounted_at n (np_TargetPath publish) \/
     mounted_at n3 (np_TargetPath publish) = block_mount publish :: mounted_at n (np_TargetPath publish))) as Hthree.
  { intros n1 n2 n3 o H1 H2 H3. pose proof (block_steps _ _ _ _ Hblock H1 H2) as Hn2. rewrite <- Hsame.
    eapply unpublish_two; [|exact H3]. by rewrite Hn2, Hsame, mounted_set_eq. }
  split_and!.
  - eapply swp_seq; [apply (all_node_refine (CallPublish publish))| |by intros ? ? _ [=]]. intros n1 r1 H1.
    eapply swp_seq; [apply (all_node_refine (CallPublish publish))| |by intros ? ? _ [=]]. intros n2 r2 H2 [= -> ->].
    by eapply block_steps.
  - eapply swp_seq; [apply (all_node_refine (CallPublish publish))| |by intros ? ? _ ? [=]]. intros n1 r1 H1.
    eapply swp_seq; [apply (all_node_refine (CallPublish publish))| |by intros ? ? _ ? [=]]. intros n2 r2 H2.
    eapply swp_seq; [apply (all_node_refine (CallUnpublish unpublish))| |by intros ? ? _ ? [=]]. intros n3 r3 H3 ? [= -> -> <-].
    destruct (Hthree _ _ _ _ H1 H2 H3) as [(e & [= ->]) Hleft]. split; [by exists e|exact Hleft].
  - intros Hval Hpath.
    eapply swp_seq; [by apply publish_block_ok| |by intros ? ? [[=] _]]. intros n1 r1 [[= ->] H1].
    eapply swp_seq; [by apply publish_block_ok| |by intros ? ? [[=] _]]. intros n2 r2 [[= ->] H2].
    eapply swp_seq; [apply reliable_documented, (all_node_refine (CallUnpublish unpublish))| |].
    + intros n3 r3 H3. destruct (Hthree _ _ _ _ H1 H2 H3) as [(e & [= ->]) Hleft]. by exists e.
    + intros n3 why H3. by destruct (Hthree _ _ _ _ H1 H2 H3) as [(e & [=]) _].
Qed.

(** * A volume half formatted *)

(** A LUKS header without a passphrase. *)
Definition no_slot (n : Node) (path : string) : Prop := exists key inner, content n path = LuksData key [] inner.

Lemma no_slot_fails req n :
  EncryptionEnabled (stage_context req) = true -> maps n !! VolumeName (stage_context req) = None ->
  mounted_at n (ns_StagingTargetPath req) = [] -> GetBlock (ns_VolumeCapability req) = false ->
  (forall path, device_name req path -> no_slot n path) ->
  swp node_documented (NodeStageVolume req) (fun n' o => n' ≡ n /\ exists e, o = Done (inl e)) n.
Proof.
  intros Henc Hname Hfree Hblock Hslot.
  assert (forall path source n1, can_stage req n path -> ~ ready (stage_context req) path n source n1) as Hnot.
  { intros path source n1 [(key & inner & Hc)%Hslot _] Hready.
    destruct Hready as [? He|? _ Hc' _ _|? ? ? ? _ Hc' Hk _ _|? ? ? ? _ _ [? Hm] _]; try congruence.
    rewrite Hc in Hc'. injection Hc' as <- <- <-. by apply elem_of_nil in Hk. }
  eapply swp_mono; [apply (all_node_refine (CallStage req))|]. cbv beta. intros n' o Hstep.
  inversion Hstep; subst.
  all: try match goal with
       | H : can_stage _ _ ?p, Hc : content _ ?p = Empty |- _ =>
           destruct (Hslot p (proj1 H)) as (? & ? & ?); congruence
       | H : can_stage _ _ _, Hr : ready _ _ _ _ _ |- _ => by destruct (Hnot _ _ _ H Hr)
       | H : _ \/ _ |- _ => destruct H; congruence
       end.
  split; [done|by eexists].
Qed.
End Retries.

(** * Concrete nodes *)

Definition ex_device : string := "/dev/disk/by-id/linode-pvc-1".

(** A device with nothing on it. *)
Definition ex_node : Node := {| disks := {[ex_device := Empty]}; maps := ∅; mounts := ∅; handles := ∅ |}.

(** A node on which a passphrase can never be added. *)
Definition faulty_node (c : cmd) (n : Node) : resp c * Node :=
  match c return resp c * Node with
  | Crypt (Cryptsetup.KeyslotAddByVolumeKey _ _ _ _) => (Some (crypt_error (-12)), n)
  | c => memory_node c n
  end.

Lemma faulty_documented c n : node_documented c n (faulty_node c n).1 (faulty_node c n).2.
Proof.
  destruct c as [| | | |y| | | | | |]; try apply memory_node_documented.
  destruct y; try apply (memory_node_documented (Crypt _)). done.
Qed.

(** C26. A failure between the two steps of formatting makes a volume unusable: a
    node can fail to add the passphrase after the header was written, and leaves
    a LUKS header without a slot; from then on the device is not empty, so that
    every staging of the volume tries to open it, fails and changes nothing. *)
Theorem half_formatted :
  (let '(_, o, n') := run faulty_node (NodeStageVolume (ex_stage "aes-xts-plain64")) ex_node in
   no_slot n' ex_device /\ exists e, o = Done (inl e)) /\
  forall (D : DeviceUtils), DeviceUtilsLaws D -> forall req n,
    EncryptionEnabled (stage_context req) = true -> maps n !! VolumeName (stage_context req) = None ->
    mounted_at n (ns_StagingTargetPath req) = [] -> GetBlock (ns_VolumeCapability req) = false ->
    (forall path, device_name req path -> no_slot n path) ->
    swp node_documented (NodeStageVolume req) (fun n' o => n' ≡ n /\ exists e, o = Done (inl e)) n.
Proof.
  split; [|intros D HD req n; apply no_slot_fails].
  vm_compute. split; [by do 2 eexists|by eexists].
Qed.
