(* ===== verification/NodeExamples.v ===== *)
(** Concrete runs of the Node service on a node in memory. *)
From S2P Require Import Prelude GoStrings Types Errors Metrics Effects LinodeVolumes Sizes Config.
From S2P Require Import DeviceManager Luks NodeServer Controller ControllerProofs Cloud NodeProofs.
From S2P Require Import Concurrency Races NodeWorld NodeSpec NodeRefine NodeSafety NodeLifecycle MemoryNode NodeRetries.

(** The node after a run. *)
Definition run_node {A} (p : prog A) (n : Node) : outcome A * Node :=
  let '(_, o, n') := run memory_node p n in (o, n').

Definition ex_luks : NodeStageVolumeRequest := ex_stage "aes-xts-plain64".

Definition ex_mount : NodePublishVolumeRequest := {|
  np_VolumeId := "7-pvc-1"; np_StagingTargetPath := "/staging"; np_TargetPath := "/target";
  np_Readonly := true; np_VolumeCapability := Some ex_capability; np_PublishContext := ∅ |}.

Definition ex_unmount : NodeUnpublishVolumeRequest := {| nup_VolumeId := "7-pvc-1"; nup_TargetPath := "/target" |}.

(** The label of the volume has a prefix that the name of the request has not. *)
Definition ex_prefixed : NodeStageVolumeRequest := {|
  ns_VolumeId := "7-prod-pvc-1"; ns_StagingTargetPath := "/staging";
  ns_VolumeCapability := Some ex_capability; ns_Secrets := ns_Secrets ex_luks;
  ns_VolumeContext := ns_VolumeContext ex_luks |}.

Definition ex_unstage (volumeID : string) : NodeUnstageVolumeRequest :=
  {| nu_VolumeId := volumeID; nu_StagingTargetPath := "/staging" |}.

Definition ex_prefixed_node : Node :=
  {| disks := {["/dev/disk/by-id/linode-prod-pvc-1" := Empty]}; maps := ∅; mounts := ∅; handles := ∅ |}.

Example stage_runs : run_node (NodeStageVolume ex_luks) ex_node =
  (Done (inr tt),
   {| disks := {[ex_device := LuksData "secret" ["secret"] (Some "ext4")]};
      maps := {["pvc-1" := ex_device]};
      mounts := {["/staging" := [{| mp_source := "/dev/mapper/pvc-1"; mp_options := [] |}]]};
      handles := ∅ |}).
Proof. vm_compute. reflexivity. Qed.

(** Staged twice, the volume is as after the first time. *)
Lemma node_refines_witness :
  swp node_documented (node_handle (CallStage ex_luks)) (fun n' o => nstep ex_node (CallStage ex_luks) o n') ex_node /\
  (run_node (NodeStageVolume ex_luks) ex_node).1 = Done (inr tt).
Proof. split; [apply (node_refines (CallStage ex_luks) ex_node)|vm_compute; reflexivity]. Defined.

Lemma node_data_safe_witness :
  let n := {| disks := {[ex_device := LuksData "secret" ["secret"] (Some "ext4")]};
              maps := ∅; mounts := ∅; handles := ∅ |} in
  swp node_documented (node_serve [CallStage ex_luks; CallUnstage (ex_unstage "7-pvc-1")])
    (fun n' _ => within [CallStage ex_luks; CallUnstage (ex_unstage "7-pvc-1")] n n') n /\
  content (run_node (node_serve [CallStage ex_luks; CallUnstage (ex_unstage "7-pvc-1")]) n).2 ex_device =
    LuksData "secret" ["secret"] (Some "ext4").
Proof. intros n. split; [apply (node_data_safe _ n)|vm_compute; reflexivity]. Defined.

(** The calls at the same time. *)
Definition ex_node_calls : list NodeCall := [CallStage ex_luks; CallUnpublish ex_unmount].

Definition ex_node_end : Pool Node (goerror + unit) :=
  {| threads := [Ret (inr tt); Ret (inr tt)]; holder := None;
     world := set_mounts "/target" [] (run_node (NodeStageVolume ex_luks) ex_node).2 |}.

Lemma ex_node_runs : rtc (pstep (na_env (W := Node))) (start (node_handle <$> ex_node_calls) ex_node) ex_node_end.
Proof.
  apply (advance_all_steps _ ([1; 1; 1; 1]%nat ++ replicate 15 0%nat)). vm_compute. reflexivity.
Qed.

Lemma node_concurrent_safe_witness : within ex_node_calls ex_node (world ex_node_end).
Proof.
  apply (node_concurrent_safe ex_node_calls ex_node ex_node_end ex_node_runs).
  apply complete_stops. reflexivity.
Defined.

(** A volume whose mapping is left open. *)
Lemma node_lifecycle_completes_witness :
  let '(o, n') := run_node (node_lifecycle ex_prefixed ex_mount ex_unmount (ex_unstage "7-prod-pvc-1")) ex_prefixed_node in
  o = Done (inr tt) /\ data_kept ex_prefixed_node n' /\
  (forall p, mounted_at n' p = mounted_at ex_prefixed_node p) /\
  exists p, device_name ex_prefixed p /\ maps n' = <["pvc-1" := p]> ∅.
Proof.
  pose proof (node_lifecycle_completes ex_prefixed ex_mount ex_unmount (ex_unstage "7-prod-pvc-1")
    {| VolumeID := 7; Label := "prod-pvc-1" |} "/dev/disk/by-id/linode-prod-pvc-1" ex_prefixed_node) as H.
  specialize (H ltac:(vm_compute; repeat split) ltac:(vm_compute; repeat split) ltac:(vm_compute; reflexivity)
    ltac:(vm_compute; repeat split) ltac:(discriminate) ltac:(vm_compute; repeat split)
    ltac:(split; [vm_compute; reflexivity|discriminate])).
  apply (swp_run_env node_reliable memory_node (fun n => n) memory_node_reliable) in H.
  - unfold run_node. revert H. destruct (run memory_node _ ex_prefixed_node) as [[tr o] n']. intros H. exact H.
  - split; [by eexists|]. split; [reflexivity|]. vm_compute. split_and!; try discriminate; try reflexivity; try (by eexists); by left.
  - reflexivity.
Defined.

Lemma node_retry_witness :
  swp node_documented
    (let* r1 := node_handle (CallStage ex_luks) in let* r2 := node_handle (CallStage ex_luks) in Ret (r1, r2))
    (fun n' o => forall r2, o = Done (inr tt, r2) ->
       exists n1, nstep ex_node (CallStage ex_luks) (Done (inr tt)) n1 /\ n' ≡ n1) ex_node.
Proof. apply (node_retry (CallStage ex_luks) ex_node). exact I. Defined.

(** A block volume, published twice. *)
Definition ex_block : NodePublishVolumeRequest := {|
  np_VolumeId := "7-pvc-1"; np_StagingTargetPath := "/staging"; np_TargetPath := "/target"; np_Readonly := false;
  np_VolumeCapability := Some {| vc_AccessType := AccessBlock true; vc_AccessMode := Some SINGLE_NODE_WRITER |};
  np_PublishContext := {["devicePath" := ex_device]} |}.

Lemma publish_block_twice_witness :
  let '(o, n') := run_node (twice_and_back ex_block ex_unmount) ex_node in
  length (mounted_at n' "/target") = 1%nat /\ mp_source <$> mounted_at n' "/target" = [ex_device] /\
  exists e, o = Done (inr tt, inr tt, inl e) /\
    (mounted_at n' "/target" = [block_mount ex_block; block_mount ex_block] \/
     mounted_at n' "/target" = [block_mount ex_block]).
Proof.
  pose proof (proj2 (proj2 (publish_block_twice ex_block ex_unmount ex_node eq_refl eq_refl))) as H. cbv zeta in H.
  specialize (H eq_refl ltac:(discriminate)).
  apply (swp_run_env node_reliable memory_node (fun n => n) memory_node_reliable) in H.
  vm_compute in H |- *. destruct H as (e & Ho & Hleft).
  split; [reflexivity|]. split; [reflexivity|]. exists e. split; [exact Ho|exact Hleft].
Defined.

(** The volume of [ex_luks] after its header was written and no passphrase added:
    staging it fails, on this node and with whatever answers. *)
Definition ex_half : Node :=
  {| disks := {[ex_device := LuksData "secret" [] None;
                "/dev/disk/by-id/scsi-0Linode_Volume_pvc-1" := LuksData "secret" [] None]};
     maps := ∅; mounts := ∅; handles := ∅ |}.

Lemma half_formatted_witness :
  swp node_documented (NodeStageVolume ex_luks) (fun n' o => n' ≡ ex_half /\ exists e, o = Done (inl e)) ex_half.
Proof.
  apply (proj2 half_formatted NewDeviceUtils NewDeviceUtils_laws ex_luks ex_half); try reflexivity.
  intros path (key & Hkey & Hpath). vm_compute in Hkey. injection Hkey as <-.
  vm_compute in Hpath. exists "secret", None.
  repeat (apply elem_of_cons in Hpath as [->|Hpath]; [reflexivity|]). by apply elem_of_nil in Hpath.
Defined.
