(* ===== verification/System.v ===== *)
(** The driver as a whole: one controller, which talks to the Linode API, and a node
    service on each instance, over a state that has them all.

    A volume is an entry of the account with its content; what is attached to an
    instance is there on its node as a device, under the path that the API names
    it by.  The controller changes the account, and the devices of the nodes with
    it; the node service changes what is on the devices, and what is mounted.
    [ssp] states what holds of every run of a script of calls to the services;
    [sstep] is what one call may do, and the handlers refine it
    ([call_step]). *)
From S2P Require Import Prelude GoStrings Types Errors Metrics Effects LinodeVolumes Sizes Config.
From S2P Require Import Controller ControllerProofs Cloud Csi Interference Refinement Sequences.
From S2P Require Import DeviceManager Luks NodeServer NodeProofs Concurrency NodeWorld NodeSpec NodeRefine NodeSafety.

(** * The state *)

(** What a node has besides its devices. *)
Record Host := {
  h_maps : gmap string string;
  h_mounts : gmap string (list MountPoint);
  h_handles : gmap Device string;
}.

Record System := {
  account : Account;
  store : gmap Z Content;      (* what is on each volume *)
  hosts : gmap Z Host;         (* by the ID of the instance *)
}.

Definition idle_host : Host := {| h_maps := ∅; h_mounts := ∅; h_handles := ∅ |}.
Definition host (s : System) (l : Z) : Host := default idle_host (hosts s !! l).
Definition stored (s : System) (id : Z) : Content := default Empty (store s !! id).

(** The devices of an instance: the volumes attached to it. *)
Definition devices (s : System) (l : Z) : gmap string Content :=
  list_to_map ((fun kv => (vi_Path kv.2, stored s kv.1)) <$>
    filter (fun kv => vi_LinodeID kv.2 = Some l) (map_to_list (account s))).

(** The node service's view of the instance. *)
Definition node_at (l : Z) (s : System) : Node :=
  {| disks := devices s l; maps := h_maps (host s l); mounts := h_mounts (host s l);
     handles := h_handles (host s l) |}.

(** The node is now [n]: what is on its devices is on the volumes. *)
Definition put_node (l : Z) (n : Node) (s : System) : System :=
  {| account := account s;
     store := map_imap (fun id i =>
       Some (if decide (vi_LinodeID i = Some l) then content n (vi_Path i) else stored s id)) (account s);
     hosts := <[l := {| h_maps := maps n; h_mounts := mounts n; h_handles := handles n |}]> (hosts s) |}.

(** ** Volumes are where their labels say *)

(** The path of the device of a volume, as the API answers it. *)
Definition device_path (label : string) : string := "/dev/disk/by-id/scsi-0Linode_Volume_" +:+ label.

Definition named_by_label (i : VolInfo) : Prop :=
  valid_label (vi_Label i) = true /\ vi_Path i = device_path (vi_Label i).

Record wired (s : System) : Prop := {
  wired_names : forall id i, account s !! id = Some i -> named_by_label i;
  wired_unique : labels_unique (account s);
}.

Lemma device_path_inj l1 l2 : device_path l1 = device_path l2 -> l1 = l2.
Proof. apply (inj (String.append _)). Qed.

(** No two volumes have the same device. *)
Lemma wired_paths s id1 id2 i1 i2 :
  wired s -> account s !! id1 = Some i1 -> account s !! id2 = Some i2 -> vi_Path i1 = vi_Path i2 -> id1 = id2.
Proof.
  intros [Hn Hu] H1 H2 Hp. apply (Hu _ _ _ _ H1 H2).
  destruct (Hn _ _ H1) as [_ E1], (Hn _ _ H2) as [_ E2]. rewrite E1, E2 in Hp. by apply device_path_inj.
Qed.

(** ** Devices and volumes *)

Lemma device_volume s l path c :
  disks (node_at l s) !! path = Some c ->
  exists id i, account s !! id = Some i /\ vi_LinodeID i = Some l /\ vi_Path i = path /\ c = stored s id.
Proof.
  intros H%elem_of_list_to_map_2. apply list_elem_of_fmap in H as ([id i] & [= -> ->] & H).
  apply list_elem_of_filter in H as [Hl H%elem_of_map_to_list]. by exists id, i.
Qed.

Lemma volume_device s l id i :
  wired s -> account s !! id = Some i -> vi_LinodeID i = Some l ->
  disks (node_at l s) !! vi_Path i = Some (stored s id).
Proof.
  intros Hs Hi Hl. apply elem_of_list_to_map_1.
  - rewrite <- list_fmap_compose. apply NoDup_fmap_2_strong.
    + intros [id1 i1] [id2 i2] [_ H1%elem_of_map_to_list]%list_elem_of_filter [_ H2%elem_of_map_to_list]%list_elem_of_filter.
      cbn. intros Hp. pose proof (wired_paths _ _ _ _ _ Hs H1 H2 Hp). by simplify_eq.
    + apply list.NoDup_filter, NoDup_map_to_list.
  - apply list_elem_of_fmap. exists (id, i). split; [done|].
    apply list_elem_of_filter. split; [done|]. by apply elem_of_map_to_list.
Qed.

Lemma content_volume s l id i :
  wired s -> account s !! id = Some i -> vi_LinodeID i = Some l -> content (node_at l s) (vi_Path i) = stored s id.
Proof. intros Hs Hi Hl. unfold content. by rewrite (volume_device _ _ _ _ Hs Hi Hl). Qed.

Lemma stored_put l n s id i :
  account s !! id = Some i ->
  stored (put_node l n s) id = if decide (vi_LinodeID i = Some l) then content n (vi_Path i) else stored s id.
Proof. intros Hi. unfold stored. cbn. by rewrite map_lookup_imap, Hi. Qed.

Lemma host_put l n s : host (put_node l n s) l = {| h_maps := maps n; h_mounts := mounts n; h_handles := handles n |}.
Proof. unfold host. cbn. by rewrite lookup_insert_eq. Qed.

Lemma host_put_ne l l' n s : l <> l' -> host (put_node l n s) l' = host s l'.
Proof. intros H. unfold host. cbn. by rewrite lookup_insert_ne. Qed.

Lemma wired_put l n s : wired s -> wired (put_node l n s).
Proof. by intros [H1 H2]. Qed.

(** A node with the devices of the instance is seen as it was put. *)
Lemma node_put l n s : wired s -> same_devices (node_at l s) n -> node_at l (put_node l n s) ≡ n.
Proof.
  intros Hs Hd. split_and!; cbn; [|by rewrite host_put|intros path; unfold mounted_at; cbn; by rewrite host_put].
  apply map_eq. intros path. destruct (devices _ _ !! path) as [c|] eqn:Hc; symmetry.
  - apply device_volume in Hc as (id & i & Hi & Hl & <- & ->). cbn in Hi.
    rewrite (stored_put _ _ _ _ _ Hi), decide_True by done. unfold content.
    destruct (proj2 (Hd (vi_Path i))) as [c ->]; [|done].
    rewrite (volume_device _ _ _ _ Hs Hi Hl). by eexists.
  - apply eq_None_not_Some. intros Hn. apply Hd in Hn as [c' Hc'].
    apply device_volume in Hc' as (id & i & Hi & Hl & <- & _).
    assert (disks (node_at l (put_node l n s)) !! vi_Path i = Some (stored (put_node l n s) id)) as E
      by (apply volume_device; [by apply wired_put|done..]).
    cbn in E. congruence.
Qed.

(** * The laws *)

(** What is on a volume that a call makes. *)
Definition new_content (c : cmd) (s : System) : Content :=
  match c with Api (Client.CloneVolume src _) => stored s src | _ => Empty end.

(** The volumes of the account [a'], where it was [a]: new ones have [c] on them. *)
Definition restock (c : Content) (a a' : Account) (st : gmap Z Content) : gmap Z Content :=
  ((fun _ => c) <$> a' ∖ a) ∪ filter (fun kv => (a ∖ a') !! kv.1 = None) st.

Lemma restock_same c a st : restock c a a st = st.
Proof.
  unfold restock. rewrite map_difference_diag, fmap_empty, (left_id_L ∅ _). apply map_filter_id.
  intros i x _. apply lookup_empty.
Qed.

Lemma restock_kept c a a' st id : is_Some (a !! id) -> is_Some (a' !! id) -> restock c a a' st !! id = st !! id.
Proof.
  intros [i Hi] [i' Hi']. unfold restock. rewrite lookup_union_r.
  - assert ((a ∖ a') !! id = None) as Hd by (rewrite lookup_difference, Hi'; done).
    destruct (st !! id) as [c'|] eqn:Hc; [by apply map_lookup_filter_Some|].
    apply map_lookup_filter_None. by left.
  - by rewrite lookup_fmap, lookup_difference, Hi.
Qed.

Lemma restock_new c a a' st id : a !! id = None -> is_Some (a' !! id) -> restock c a a' st !! id = Some c.
Proof.
  intros Hi [i' Hi']. unfold restock. apply lookup_union_Some_l.
  by rewrite lookup_fmap, lookup_difference, Hi, Hi'.
Qed.

Section Laws.
Context (instances : gmap Z InstInfo).

(** The API: it keeps what is on the volumes, wherever they are attached, and names
    the device of a new volume by its label. *)
Definition cloud_law : state_law System := fun c s r s' =>
  documented instances c (account s) r (account s') /\
  store s' = restock (new_content c s) (account s) (account s') (store s) /\ hosts s' = hosts s /\
  forall id i, account s' !! id = Some i -> account s !! id = None -> named_by_label i.

Lemma documented_names c a r a' id i i' :
  documented instances c a r a' -> a !! id = Some i -> a' !! id = Some i' ->
  vi_Label i' = vi_Label i /\ vi_Path i' = vi_Path i.
Proof.
  assert (forall f id0 (a : Account), (forall i, vi_Label (f i) = vi_Label i /\ vi_Path (f i) = vi_Path i) ->
    a !! id = Some i -> alter f id0 a !! id = Some i' -> vi_Label i' = vi_Label i /\ vi_Path i' = vi_Path i) as Halter.
  { intros f id0 a0 Hf Hi [(-> & j & Hj & ->)|[_ H]]%lookup_alter_Some; [|by simplify_eq].
    rewrite Hi in Hj. simplify_eq. apply Hf. }
  assert (forall b a1, attempted b a a1 a' -> a !! id = Some i -> a' !! id = Some i' ->
    (a1 !! id = Some i' -> vi_Label i' = vi_Label i /\ vi_Path i' = vi_Path i) ->
    vi_Label i' = vi_Label i /\ vi_Path i' = vi_Path i) as Hatt.
  { intros b a1 [->|[_ ->]] Hi Hi' H; [by apply H|by simplify_eq]. }
  assert (forall (P : Prop) id0 i0, P \/ fresh_volume a id0 i0 /\ a' = <[id0 := i0]> a -> (P -> a' = a) ->
    a !! id = Some i -> a' !! id = Some i' -> i' = i) as Hnew.
  { intros P id0 i0 [HP|[(Hid0 & _) ->]] Hsame Hi Hi'; [rewrite Hsame in Hi' by done; congruence|].
    rewrite lookup_insert_ne in Hi' by congruence. congruence. }
  destruct c as [q|q|q|q|q|q|q|q| | |]; [|try (by intros ->; intros; simplify_eq)..].
  destruct q; cbn; try (by intros [-> _]; intros; simplify_eq); intros H Hi Hi'.
  - destruct H as [[-> _]|(id0 & i0 & Hf & _ & _ & _ & _ & Ha & _)]; [by simplify_eq|].
    by rewrite (Hnew False id0 i0 (or_intror (conj Hf Ha)) ltac:(done) Hi Hi').
  - destruct H as [[-> _]|(id0 & i0 & j & Hf & _ & _ & _ & _ & _ & Ha & _)]; [by simplify_eq|].
    by rewrite (Hnew False id0 i0 (or_intror (conj Hf Ha)) ltac:(done) Hi Hi').
  - destruct H as [H _]. eapply Hatt; [exact H|done..|]. by apply Halter.
  - destruct H as [H _]. eapply Hatt; [exact H|done..|]. by apply Halter.
  - eapply Hatt; [exact H|done..|]. intros [_ E]%lookup_delete_Some. by simplify_eq.
  - eapply Hatt; [exact H|done..|]. by apply Halter.
Qed.
End Laws.

(** * Scripts *)

(** Calls to the services, in an order that may depend on the answers.  A call that
    panics ends its process, which is started again. *)
Inductive script (A : Type) : Type :=
| Finish (a : A)
| AtController {B} (p : prog B) (k : outcome B -> script A)
| AtNode (l : Z) {B} (p : prog B) (k : outcome B -> script A).
Arguments Finish {A} a.
Arguments AtController {A B} p k.
Arguments AtNode {A} l {B} p k.

Section Scripts.
Context (cloud : state_law System) (node : state_law Node).

Fixpoint ssp {A} (sc : script A) (Q : System -> A -> Prop) (s : System) : Prop :=
  match sc with
  | Finish a => Q s a
  | AtController p k => swp cloud p (fun s' o => ssp (k o) Q s') s
  | AtNode l p k => swp node p (fun n' o => ssp (k o) Q (put_node l n' s)) (node_at l s)
  end.

Lemma ssp_mono {A} (sc : script A) (Q Q' : System -> A -> Prop) s :
  ssp sc Q s -> (forall s a, Q s a -> Q' s a) -> ssp sc Q' s.
Proof.
  intros H HQ. revert s H. induction sc as [a|B p k IH|l B p k IH]; intros s; cbn; [by auto|..];
    intros H; eapply swp_mono; eauto; cbv beta; eauto.
Qed.
End Scripts.


(** A run of a script in an environment for the controller and one for the nodes. *)
Fixpoint run_script (cloud : forall c : cmd, System -> resp c * System) (node : forall c : cmd, Node -> resp c * Node)
    {A} (sc : script A) (s : System) : A * System :=
  match sc with
  | Finish a => (a, s)
  | AtController p k => let '(_, o, s') := run cloud p s in run_script cloud node (k o) s'
  | AtNode l p k => let '(_, o, n') := run node p (node_at l s) in run_script cloud node (k o) (put_node l n' s)
  end.

Lemma ssp_run (cloud : state_law System) (node : state_law Node) cloud_env node_env {A} (sc : script A) Q s :
  (forall c s, cloud c s (cloud_env c s).1 (cloud_env c s).2) ->
  (forall c n, node c n (node_env c n).1 (node_env c n).2) ->
  ssp cloud node sc Q s -> let '(a, s') := run_script cloud_env node_env sc s in Q s' a.
Proof.
  intros Hc Hn. revert s. induction sc as [a|B p k IH|l B p k IH]; intros s; cbn; [done|..].
  - intros H%(swp_run_env cloud cloud_env (fun s => s) Hc). destruct (run cloud_env p s) as [[tr o] s1]. by apply IH.
  - intros H%(swp_run_env node node_env (fun n => n) Hn). destruct (run node_env p (node_at l s)) as [[tr o] n1].
    by apply IH.
Qed.

Fixpoint script_bind {A B} (sc : script A) (f : A -> script B) : script B :=
  match sc with
  | Finish a => f a
  | AtController p k => AtController p (fun o => script_bind (k o) f)
  | AtNode l p k => AtNode l p (fun o => script_bind (k o) f)
  end.

Lemma ssp_bind cloud node {A B} (sc : script A) (f : A -> script B) Q s :
  ssp cloud node sc (fun s' a => ssp cloud node (f a) Q s') s -> ssp cloud node (script_bind sc f) Q s.
Proof.
  revert s. induction sc as [a|C p k IH|l C p k IH]; intros s; cbn; [done|..];
    intros H; eapply swp_mono; eauto; cbv beta; eauto.
Qed.

(** * Calls *)

Inductive SysCall :=
| ToController (q : Request)
| ToNode (l : Z) (q : NodeCall).

Inductive SysAnswer :=
| ByController (o : outcome (goerror + Answer))
| ByNode (o : outcome (goerror + unit)).

(** What may happen to the account changes the rest of the system so: volumes keep
    their content, and have [c] on them when they are new. *)
Record rewired (c : Content) (s s' : System) : Prop := {
  rewired_hosts : hosts s' = hosts s;
  rewired_kept : forall id, is_Some (account s !! id) -> is_Some (account s' !! id) -> stored s' id = stored s id;
  rewired_names : forall id i i', account s !! id = Some i -> account s' !! id = Some i' ->
    vi_Label i' = vi_Label i /\ vi_Path i' = vi_Path i;
  rewired_new : forall id i, account s !! id = None -> account s' !! id = Some i ->
    named_by_label i /\ stored s' id = c;
}.

(** What a request wants to be on the volume it creates. *)
Definition asked_content (s : System) (q : Request) : Content :=
  match q with
  | ReqCreate req =>
      match cv_VolumeContentSource req with
      | Some (ContentVolume (Some srcid)) =>
          match ParseLinodeVolumeKey srcid with inr key => stored s (VolumeID key) | inl _ => Empty end
      | _ => Empty
      end
  | _ => Empty
  end.

Lemma rewired_refl c s : rewired c s s.
Proof. split; try done; intros; by simplify_eq. Qed.

Lemma cloud_rewired instances c s r s' : cloud_law instances c s r s' -> rewired (new_content c s) s s'.
Proof.
  intros (Hdoc & Hstore & Hhosts & Hnames). split; [done|..].
  - intros id Hi Hi'. unfold stored. by rewrite Hstore, restock_kept.
  - intros id i i'. by eapply documented_names.
  - intros id i Hi Hi'. split; [by eapply Hnames|]. unfold stored. rewrite Hstore.
    by rewrite restock_new by (done || by eexists).
Qed.

Section Calls.
Context (instances : gmap Z InstInfo) (cs : ControllerServer).
Context {D : DeviceUtils} {HD : DeviceUtilsLaws D}.

Inductive sstep (s : System) : SysCall -> SysAnswer -> System -> Prop :=
| S_controller q r s' :
    csi instances cs (account s) q r (account s') -> rewired (asked_content s q) s s' ->
    sstep s (ToController q) (ByController (Done r)) s'
| S_node l q o n' :
    nstep (node_at l s) q o n' -> sstep s (ToNode l q) (ByNode o) (put_node l n' s).

Definition sys_handle {A} (q : SysCall) (k : SysAnswer -> script A) : script A :=
  match q with
  | ToController q => AtController (handle cs q) (fun o => k (ByController o))
  | ToNode l q => AtNode l (node_handle q) (fun o => k (ByNode o))
  end.

(** One after the other. *)
Fixpoint sys_serve (qs : list SysCall) : script (list SysAnswer) :=
  match qs with
  | [] => Finish []
  | q :: qs => sys_handle q (fun o => script_bind (sys_serve qs) (fun os => Finish (o :: os)))
  end.

(** ** The handlers refine the steps *)

Lemma csi_no_new a q r a' id :
  csi instances cs a q r a' -> (forall req, q <> ReqCreate req) -> a !! id = None -> a' !! id = None.
Proof.
  intros Hstep Hq Hi. destruct Hstep; try done; try (exfalso; eapply Hq; reflexivity);
    try (by apply lookup_alter_None).
  apply lookup_delete_None. by right.
Qed.

Lemma create_content req c s :
  (exists tr, create_guard cs req tr c) -> is_mutating c = true -> new_content c s = asked_content s (ReqCreate req).
Proof.
  intros [tr Hg] Hc. destruct (Hg Hc) as (_ & _ & H). unfold asked_content.
  destruct c as [q| | | | | | | | | |]; [|done..]. destruct q; try done; cbn.
  - destruct H as (-> & _). done.
  - destruct H as (_ & srcid & key & v & -> & -> & -> & _). done.
Qed.

Lemma cloud_reads c s r s' : is_mutating c = false -> cloud_law instances c s r s' -> s' = s.
Proof.
  intros Hc (Hdoc & Hstore & Hhosts & _). pose proof (documented_reads _ _ _ _ _ Hc Hdoc) as Ha.
  rewrite Ha, restock_same in Hstore. destruct s, s'; cbn in *; congruence.
Qed.

Lemma create_handle_calls req : every_call (handle cs (ReqCreate req)) (create_guard cs req).
Proof.
  unfold every_call. cbn [handle]. unfold answering, ebind. apply wp_bind. eapply wp_mono; [apply create_calls|].
  cbv beta. by intros tr [[e|v]|why] _.
Qed.

Lemma request_step q s :
  swp (cloud_law instances) (handle cs q)
    (fun s' o => exists r, o = Done r /\ csi instances cs (account s) q r (account s') /\
       rewired (asked_content s q) s s') s.
Proof.
  pose proof (fun law Hp Hr => once_lifts _ law is_mutating account Hp Hr _ _ _ (all_atomic instances cs q (account s)))
    as Hlift.
  destruct q as [req|vid|req|req|req|req|req].
  1:{ apply (swp_guarded _ (create_guard cs req) _ _ _ []); [apply create_handle_calls|].
      eapply swp_mono; [apply Hlift|].
      - by intros c t r t' (_ & H & _).
      - intros c t r t' Hc [_ H]. by eapply cloud_reads.
      - cbv beta. intros s' o [(r & -> & Hcsi) Hs]. exists r. split_and!; [done..|].
        destruct Hs as [->|(c & a & Hg & Hc)]; [apply rewired_refl|].
        destruct (is_mutating c) eqn:Hm.
        + rewrite <- (create_content req c s Hg Hm). by eapply cloud_rewired.
        + rewrite (cloud_reads _ _ _ _ Hm Hc). apply rewired_refl. }
  all: eapply swp_mono; [apply Hlift; [by intros c t r t' (H & _)|intros c t r t' Hc H; by eapply cloud_reads]|].
  all: cbv beta; intros s' o [(r & -> & Hcsi) Hs]; exists r; split_and!; [done..|].
  all: destruct Hs as [->|(c & a & Hc)]; [apply rewired_refl|].
  all: destruct (cloud_rewired _ _ _ _ _ Hc) as [H1 H2 H3 H4]; split; [done..|].
  all: intros id i Hi Hi'; rewrite (csi_no_new _ _ _ _ _ Hcsi ltac:(done) Hi) in Hi'; done.
Qed.

(** Each call of the controller or of a node takes one step. *)
Lemma call_step {A} q (k : SysAnswer -> script A) Q s :
  (forall o s', sstep s q o s' -> ssp (cloud_law instances) node_documented (k o) Q s') ->
  ssp (cloud_law instances) node_documented (sys_handle q k) Q s.
Proof.
  intros H. destruct q as [q|l q]; cbn.
  - eapply swp_mono; [apply request_step|]. cbv beta. intros s' o (r & -> & Hcsi & Hs). apply H. by constructor.
  - eapply swp_mono; [apply all_node_refine|]. cbv beta. intros n' o Hstep. apply H. by constructor.
Qed.
End Calls.
