(* ===== verification/SystemSafety.v ===== *)
(** What sequences of calls to the controller and to the nodes do to the system:
    volumes are kept, with what is on them, wherever they are moved, and what a
    node mounts is on the volume that was named. *)
From S2P Require Import Prelude GoStrings Types Errors Metrics Effects LinodeVolumes Sizes Config.
From S2P Require Import Controller ControllerProofs Cloud Csi Refinement Sequences.
From S2P Require Import DeviceManager Luks NodeServer NodeProofs Concurrency NodeWorld NodeSpec NodeRefine NodeSafety System.

Section Steps.
Context (instances : gmap Z InstInfo) (cs : ControllerServer).
Context {D : DeviceUtils} {HD : DeviceUtilsLaws D}.

(** C5. The whole driver refines its specification: a call of the controller takes
    one step of [csi] on the account, and of the rest of the system changes only
    what that step needs: the nodes keep what is mounted and mapped, the volumes
    what is on them, and a volume that is created holds what is on the volume the
    request names as its source, or nothing; a call of a node takes one step of
    [nstep] on that node, whose devices are the volumes attached to it. *)
Theorem system_refines (q : SysCall) (s : System) :
  ssp (cloud_law instances) node_documented (sys_handle cs q Finish) (fun s' o => sstep instances cs s q o s') s.
Proof. by apply call_step. Qed.

(** * Invariants *)

Lemma sstep_wired s q o s' : sstep instances cs s q o s' -> wired s -> wired s'.
Proof.
  destruct 1 as [q r s' Hcsi Hrw|l q o n' Hstep]; [|apply wired_put]. intros [Hn Hu]. split.
  - intros id i Hi. destruct (account s !! id) as [j|] eqn:Hj; [|by eapply rewired_new].
    destruct (rewired_names _ _ _ Hrw _ _ _ Hj Hi) as [E1 E2]. unfold named_by_label. rewrite E1, E2. by eapply Hn.
  - by eapply csi_labels.
Qed.

Lemma sstep_limits s q o s' :
  sstep instances cs s q o s' -> within_limits instances (account s) -> within_limits instances (account s').
Proof. destruct 1 as [q r s' Hcsi _|]; [by eapply csi_limits|done]. Qed.

Lemma stored_put_kept l n s id i :
  wired s -> account s !! id = Some i -> data_kept (node_at l s) n ->
  preserved (stored s id) (stored (put_node l n s) id).
Proof.
  intros Hs Hi Hn. rewrite (stored_put _ _ _ _ _ Hi). case_decide as Hl; [|done].
  by rewrite <- (content_volume _ _ _ _ Hs Hi Hl).
Qed.
Lemma sstep_stored s q o s' id i :
  sstep instances cs s q o s' -> wired s -> account s !! id = Some i -> is_Some (account s' !! id) ->
  preserved (stored s id) (stored s' id).
Proof.
  destruct 1 as [q r s' Hcsi Hrw|l q o n' Hstep]; intros Hs Hi Hi'.
  - by rewrite (rewired_kept _ _ _ Hrw id (mk_is_Some _ _ Hi) Hi').
  - by eapply stored_put_kept, nstep_kept.
Qed.

(** * Sequences of calls *)

(** The requests to the controller among the calls. *)
Definition requests (qs : list SysCall) : list Request :=
  omap (fun q => match q with ToController q => Some q | ToNode _ _ => None end) qs.

(** The volume is there, and so is what was on it. *)
Definition kept_whole (qs : list SysCall) (id : Z) (i : VolInfo) (s s' : System) : Prop :=
  kept (requests qs) id i (account s') /\ preserved (stored s id) (stored s' id).

Inductive srun : System -> list SysCall -> list SysAnswer -> System -> Prop :=
| srun_nil s : srun s [] [] s
| srun_cons s q o s1 qs os s' :
    sstep instances cs s q o s1 -> srun s1 qs os s' -> srun s (q :: qs) (o :: os) s'.

Lemma serve_srun qs s :
  ssp (cloud_law instances) node_documented (sys_serve cs qs) (fun s' os => srun s qs os s') s.
Proof.
  revert s. induction qs as [|q qs IH]; intros s; cbn [sys_serve]; [constructor|].
  apply call_step; [exact HD|]. intros o s1 Hstep. apply ssp_bind. eapply ssp_mono; [apply IH|].
  cbv beta. intros s' os Hrun. cbn. by econstructor.
Qed.

Lemma srun_wired s qs os s' : srun s qs os s' -> wired s -> wired s'.
Proof. induction 1; eauto using sstep_wired. Qed.

Lemma srun_limits s qs os s' :
  srun s qs os s' -> within_limits instances (account s) -> within_limits instances (account s').
Proof. induction 1; eauto using sstep_limits. Qed.

Lemma srun_length s qs os s' : srun s qs os s' -> length os = length qs.
Proof. induction 1; cbn; congruence. Qed.

Lemma sstep_keeps s q o s' id i :
  sstep instances cs s q o s' -> account s !! id = Some i ->
  asked_away (requests [q]) id i \/ kept (requests [q]) id i (account s').
Proof.
  destruct 1 as [q r s' Hcsi _|l q o n' _]; intros Hi; [|right; by apply kept_same].
  destruct (csi_keeps _ _ _ _ _ _ _ _ Hcsi Hi) as [[Hl Hd]|H]; [left|by right].
  split; [|congruence]. exists q. split; [apply list_elem_of_here|done].
Qed.

Lemma srun_keeps s qs os s' id i :
  srun s qs os s' -> wired s -> account s !! id = Some i ->
  asked_away (requests qs) id i \/ kept_whole qs id i s s'.
Proof.
  intros Hrun. revert i. induction Hrun as [s|s q o s1 qs os s' Hstep Hrun IH]; intros i Hs Hi.
  { right. split; [by apply kept_same|done]. }
  change (q :: qs) with ([q] ++ qs). unfold kept_whole, requests. rewrite omap_app. fold (requests [q]) (requests qs).
  assert (forall q', q' ∈ requests [q] -> q' ∈ requests [q] ++ requests qs) as Hq by (intros; set_solver).
  assert (forall q', q' ∈ requests qs -> q' ∈ requests [q] ++ requests qs) as Hqs by (intros; set_solver).
  destruct (sstep_keeps _ _ _ _ _ _ Hstep Hi) as [H1|H1]; [left; exact (asked_away_more _ _ _ _ Hq H1)|].
  apply (kept_more _ _ _ _ _ Hq) in H1. pose proof H1 as (i1 & Hi1 & _).
  destruct (IH i1) as [H2|[H2 Hp]]; [by eapply sstep_wired|done|left|right].
  - eapply asked_away_back; [done..|]. exact (asked_away_more _ _ _ _ Hqs H2).
  - split; [eapply kept_trans; [done..|exact (kept_more _ _ _ _ _ Hqs H2)]|].
    etransitivity; [eapply sstep_stored; try done; by eexists|done].
Qed.

(** The system is safe: whatever sequence of calls the controller and the nodes
    get, whatever fails in them and even if a node service panics, every call is
    answered; no two volumes have the same label or the same device; no instance
    goes over its attachment limit; and every volume that was there is still
    there, attached where it was, and with what was on it, in the clear or inside
    LUKS, unless a request of the sequence asks to delete it, and to detach it
    first if it was attached. *)
Theorem system_safe (qs : list SysCall) (s : System)
  (Hwired : wired s) (Hlimits : within_limits instances (account s)) :
  ssp (cloud_law instances) node_documented (sys_serve cs qs)
    (fun s' os =>
       length os = length qs /\ wired s' /\ within_limits instances (account s') /\
       forall id i, account s !! id = Some i ->
         asked_away (requests qs) id i \/ kept_whole qs id i s s') s.
Proof.
  eapply ssp_mono; [apply serve_srun|]. cbv beta. intros s' os Hrun.
  split_and!; [by eapply srun_length|by eapply srun_wired|by eapply srun_limits|].
  intros id i. by eapply srun_keeps.
Qed.
End Steps.

(** * The right volume *)

Lemma valid_label_norm label key :
  valid_label label = true -> Label key = label ->
  GetNormalizedLabel key = label /\ str_forall (fun a => negb (Ascii.eqb a "/")) label = true.
Proof.
  unfold valid_label. intros [Hc Hlen]%andb_true_iff <-. apply Nat.leb_le in Hlen. split.
  - rewrite GetNormalizedLabel_take. by apply str_take_ge.
  - eapply str_forall_impl; [|exact Hc]. intros c Hc'. destruct (Ascii.eqb_spec c "/"); [by subst|done].
Qed.

(** The only name under which a volume's device is found is that of its label. *)
Lemma named_device s l req id i path :
  wired s -> account s !! id = Some i -> 0 <= id <= max_int64 ->
  ns_VolumeId req = GetVolumeKey (CreateLinodeVolumeKey id (vi_Label i)) ->
  map_get (ns_VolumeContext req) "partition" = "" ->
  device_name (D := NewDeviceUtils) req path -> is_Some (disks (node_at l s) !! path) ->
  path = vi_Path i /\ vi_LinodeID i = Some l.
Proof.
  intros Hs Hi Hid Hvid Hpart (key & Hkey & Hpath) [c Hc].
  destruct (wired_names _ Hs _ _ Hi) as [Hlabel Hp].
  destruct (valid_label_norm (vi_Label i) (CreateLinodeVolumeKey id (vi_Label i)) Hlabel eq_refl) as [Hnorm Hslash].
  rewrite Hvid, Parse_GetVolumeKey in Hkey by done. injection Hkey as <-.
  cbn [VolumeID CreateLinodeVolumeKey] in Hpath. rewrite Hnorm, Hnorm in Hpath.
  destruct (device_volume _ _ _ _ Hc) as (id' & i' & Hi' & Hl & <- & _).
  destruct (wired_names _ Hs _ _ Hi') as [_ Hp']. cbn [GetDiskByIdPaths NewDeviceUtils] in Hpath.
  rewrite by_id_names, Hpart in Hpath by done. cbn [String.eqb] in Hpath. rewrite str_app_nil_r, Hp' in Hpath.
  apply elem_of_cons in Hpath as [Hpath|Hpath%list_elem_of_singleton]; [discriminate Hpath|].
  apply device_path_inj in Hpath. pose proof (wired_unique _ Hs _ _ _ _ Hi' Hi Hpath) as ->. by simplify_eq.
Qed.

(** The last mount at the path is from the volume, in the clear or through its
    mapping. *)
Definition mounted_from (s : System) (l : Z) (path : string) (id : Z) : Prop :=
  exists m rest i, mounted_at (node_at l s) path = m :: rest /\
    account s !! id = Some i /\ vi_LinodeID i = Some l /\
    (mp_source m = vi_Path i \/ backing (node_at l s) (mp_source m) = Some (vi_Path i)).

(** What staging mounts on a node where nothing is mounted at its path. *)
Lemma staged_mount `{DeviceUtils} req n n' :
  nstep n (CallStage req) (Done (inr tt)) n' ->
  mounted_at n (ns_StagingTargetPath req) = [] -> GetBlock (ns_VolumeCapability req) = false ->
  exists path source, device_name req path /\ is_Some (disks n !! path) /\
    mounted_at n' (ns_StagingTargetPath req) = [stage_mount req source] /\
    (source = path \/ source = "/dev/mapper/" +:+ VolumeName (stage_context req) /\
       EncryptionEnabled (stage_context req) = true /\
       (maps n' !! VolumeName (stage_context req) = Some path \/ is_Some (maps n !! VolumeName (stage_context req)))).
Proof.
  intros Hstep Hfree Hblock.
  inversion Hstep as [| |? ? [?|?]| | |? path source n1 n2 ? (Hd & _ & _ & Hp) Hr Hf _ Hn| | | | | | | |]; subst;
    [congruence..|].
  exists path, source. split_and!; [done..|by rewrite Hn, mounted_set_mounts, decide_True|].
  assert (maps n' = maps n1) as Hm by (rewrite Hn; apply (may_format_maps _ _ _ _ Hf)). rewrite Hm.
  destruct Hr as [? _ _|m [He _] _ _ Hm1|? ? ? m [He _] _ _ _ Hm1|? ? ? m [He _] _ Hopen _];
    [by left|right; split_and!; [done..|]..].
  - left. rewrite Hm1. apply lookup_insert_eq.
  - left. rewrite Hm1. apply lookup_insert_eq.
  - by right.
Qed.

(** C6. A node mounts the volume it was asked for, and only where the volume is
    attached: in a wired system, when a staging succeeds by the volume ID that
    CreateVolume answers with for a volume, with no partition and for a file
    system, at a path where nothing was mounted
    and, if the volume is encrypted, under a mapping name that was not in use,
    then the volume is attached to the instance of that node, and what is mounted
    at the path is on that volume, in the clear or through its mapping.  So a
    volume cannot be staged on a node that it is not attached to, or no longer. *)
Theorem stages_right_volume (s : System) (l id : Z) (i : VolInfo) (req : NodeStageVolumeRequest)
  (Hwired : wired s) (Hvolume : account s !! id = Some i) (Hid : 0 <= id <= max_int64)
  (Hvid : ns_VolumeId req = GetVolumeKey (CreateLinodeVolumeKey id (vi_Label i)))
  (Hpart : map_get (ns_VolumeContext req) "partition" = "")
  (Hfree : mounted_at (node_at l s) (ns_StagingTargetPath req) = [])
  (Hmode : GetBlock (ns_VolumeCapability req) = false)
  (Hname : EncryptionEnabled (stage_context req) = true ->
     maps (node_at l s) !! VolumeName (stage_context req) = None) :
  ssp (cloud_law ∅) node_documented (AtNode l (NodeStageVolume req) Finish)
    (fun s' o => o = Done (inr tt) ->
       vi_LinodeID i = Some l /\ mounted_from s' l (ns_StagingTargetPath req) id) s.
Proof.
  cbn [ssp]. eapply swp_mono; [apply (all_node_refine (CallStage req))|]. cbv beta. intros n' o Hstep ->.
  destruct (staged_mount _ _ _ Hstep Hfree Hmode) as (path & source & Hdev & Hthere & Hm & Hsrc).
  destruct (named_device _ _ _ _ _ _ Hwired Hvolume Hid Hvid Hpart Hdev Hthere) as [-> Hl]. split; [done|].
  exists (stage_mount req source), [], i. split_and!; [|done..|].
  - rewrite <- Hm. unfold mounted_at. cbn. by rewrite host_put.
  - destruct Hsrc as [->|(-> & He & [Hmap|Hopen])]; [by left|right|].
    + unfold backing. cbn [mp_source stage_mount]. rewrite strip_prefix_app. cbn. by rewrite host_put.
    + rewrite Hname in Hopen by done. by destruct Hopen.
Qed.
