(* ===== verification/Crashes.v ===== *)
(** Crashes: a process may be killed between two calls, at any moment, and started
    again.

    Every call can fail without having done anything; so whatever state a program
    is killed in is one that it could have ended in, and what is proved of its
    ends ([swp]) holds at every moment ([swp_reaches]). *)
From S2P Require Import Prelude GoStrings Types Errors Metrics Effects LinodeVolumes Sizes Config.
From S2P Require Import Controller ControllerProofs Cloud Csi Refinement Sequences.
From S2P Require Import DeviceManager Luks NodeServer NodeProofs Concurrency NodeWorld NodeSpec NodeRefine NodeSafety.
From S2P Require Import System SystemSafety.

(** * States during a run *)

Section Reaches.
Context {S : Type} (law : state_law S).

(** The state [s'] is one the program comes through, or ends in. *)
Inductive reaches {A} : prog A -> S -> S -> Prop :=
| reach_here p s : reaches p s s
| reach_call c k r s s1 s' : law c s r s1 -> reaches (k r) s1 s' -> reaches (Call c k) s s'.

(** The state after [k] calls in an environment. *)
Fixpoint run_cut (env : forall c : cmd, S -> resp c * S) {A} (k : nat) (p : prog A) (s : S) : S :=
  match k, p with
  | O, _ | _, Ret _ | _, Panic _ => s
  | Datatypes.S k, Call c f => let '(r, s1) := env c s in run_cut env k (f r) s1
  end.

Lemma run_cut_reaches env {A} k (p : prog A) s :
  (forall c s, law c s (env c s).1 (env c s).2) -> reaches p s (run_cut env k p s).
Proof.
  intros Henv. revert p s. induction k as [|k IH]; intros p s; [apply reach_here|].
  destruct p as [a|why|c f]; cbn; [apply reach_here..|]. pose proof (Henv c s) as Hc.
  destruct (env c s) as [r s1]. by eapply reach_call, IH.
Qed.

Context (same : S -> S -> Prop) (P : S -> Prop).
Context (Hidle : forall c s, exists r s', law c s r s' /\ same s s').
Context (Hsame : forall s s', same s s' -> P s' -> P s).

Lemma swp_ends {A} (p : prog A) s : swp law p (fun s' _ => P s') s -> P s.
Proof.
  revert s. induction p as [a|why|c k IH]; intros s; cbn; [done..|]. intros H.
  destruct (Hidle c s) as (r & s' & Hr & Hs). eapply Hsame; [exact Hs|]. by eapply IH, H.
Qed.

Lemma swp_reaches {A} (p : prog A) s s' : swp law p (fun s' _ => P s') s -> reaches p s s' -> P s'.
Proof. intros H Hreach. induction Hreach as [p s|c k r s s1 s' Hr _ IH]; [by eapply swp_ends|]. by apply IH, H. Qed.
End Reaches.

(** * Calls that fail *)

(** The API fails and has done nothing. *)
Definition api_failure : ApiError := {| ae_IsNotFound := false; ae_Message := None; ae_Context := None; ae_Text := "" |}.

Definition fails (a : Client.call) : Client.answer a :=
  match a return Client.answer a with
  | Client.DetachVolume _ | Client.DeleteVolume _ | Client.ResizeVolume _ _ => Some api_failure
  | _ => inl api_failure
  end.

Lemma documented_idle instances c a : exists r, documented instances c a r a.
Proof.
  destruct c as [q|q|q|q|q|q|q|q| | |]; try (by eexists (ex_world _)).
  exists (fails q). destruct q; cbn; try done; try (by left); try (by split; [right|]); by right.
Qed.

Lemma node_idle c n : exists r n', node_documented c n r n' /\ n' ≡ n.
Proof.
  destruct c as [q|f|m|x|y|q|q|q| | |]; try (by eexists (ex_world _), n).
  - destruct f; try (by eexists (ex_world _), n).
    exists (Some {| oe_IsNotExist := false; oe_Text := "" |}), n. by cbn.
  - exists (match m return Mounter.answer m with
            | Mounter.IsLikelyNotMountPoint _ => (false, Some {| oe_IsNotExist := false; oe_Text := "" |})
            | _ => Some ""
            end), n.
    destruct m; cbn; try done; split; auto. exists n. auto.
  - exists (Some {| xe_NotFound := true; xe_ExitStatus := None; xe_Text := "" |}), n. split; [|done].
    destruct x as [cmd|cmd args|cmd args]; try done.
    do 6 (destruct cmd as [|[[] [] [] [] [] [] [] []] cmd]; try done).
    by destruct args as [|path [|]].
  - set (e := {| ye_Code := None; ye_Text := "" |}).
    destruct y as [path|name|d sz ps|d ks vk pp|d name ks pp fl|d sz|d|d name];
      [exists (inl e), n|exists (inl e), n|exists (Some e), n|exists (Some e), n|exists (Some e), n|exists (Some e), n
      |exists true, (set_handles (delete d (handles n)) n)|exists (Some e), n]; cbn; try done.
    destruct (handles n !! d); auto.
Qed.

(** * The driver, killed at any moment *)

Section Crashes.
Context (instances : gmap Z InstInfo) (cs : ControllerServer).
Context {D : DeviceUtils} {HD : DeviceUtilsLaws D}.

(** The call begins in [s]; the process is killed, or answers, in [s']. *)
Inductive cut (s : System) : SysCall -> System -> Prop :=
| cut_controller q s' : reaches (cloud_law instances) (handle cs q) s s' -> cut s (ToController q) s'
| cut_node l q n' : reaches node_documented (node_handle q) (node_at l s) n' -> cut s (ToNode l q) (put_node l n' s).

Lemma cloud_idle c s : exists r s', cloud_law instances c s r s' /\ s = s'.
Proof.
  destruct (documented_idle instances c (account s)) as [r Hr]. exists r, s. split; [|done].
  split_and!; [done|by rewrite restock_same|done|congruence].
Qed.

(** What is left is what one step of the specification leaves, up to what is not
    in it. *)
Lemma cut_step s q s' :
  cut s q s' -> exists o s1, sstep instances cs s q o s1 /\ account s' = account s1 /\ store s' = store s1.
Proof.
  destruct 1 as [q s' Hreach|l q n' Hreach].
  - apply (swp_reaches _ eq (fun s' => exists r, csi instances cs (account s) q r (account s') /\
      rewired (asked_content s q) s s') cloud_idle) in Hreach as (r & Hcsi & Hrw); [|by intros ? ? ->|].
    + exists (ByController (Done r)), s'. split_and!; [by constructor|done..].
    + eapply swp_mono; [apply request_step|]. cbv beta. intros s1 o (r & _ & Hcsi & Hrw). eauto.
  - apply (swp_reaches _ (fun n n' => n' ≡ n) (fun n' => exists o n1, nstep (node_at l s) q o n1 /\ n' ≡ n1) node_idle)
      in Hreach as (o & n1 & Hstep & Hn).
    + exists (ByNode o), (put_node l n1 s). split_and!; [by constructor|done|]. cbn. apply map_imap_ext.
      intros id. destruct (account s !! id) as [i|]; [|done]. cbn. by rewrite (content_proper _ _ Hn _ _ eq_refl).
    + intros n1 n2 Hn (o & n3 & Hstep & Hn'). exists o, n3. split; [done|]. by rewrite <- Hn.
    + eapply swp_mono; [apply all_node_refine|]. cbv beta. intros n1 o Hstep. eauto.
Qed.

(** C4. The driver survives crashes: whatever calls of [qs] the controller and the
    nodes get, in any order and any number of times, each of them answered or cut
    off by a crash at any moment, with any failures: labels and devices stay
    unique, no instance goes over its attachment limit, and every volume is still
    there, attached where it was, and with what was on it, unless a request of
    [qs] asks to delete it, and to detach it first if it was attached.  (In the law
    of the API a volume is attached and detached within the call that asks for it.) *)
Theorem system_crash_safe (qs : list SysCall) (s s' : System)
  (Hwired : wired s) (Hlimits : within_limits instances (account s))
  (Hrun : rtc (fun s1 s2 => exists q, q ∈ qs /\ cut s1 q s2) s s') :
  wired s' /\ within_limits instances (account s') /\
  forall id i, account s !! id = Some i -> asked_away (requests qs) id i \/ kept_whole qs id i s s'.
Proof.
  induction Hrun as [s|s s1 s' (q & Hq & Hcut) _ IH].
  { split_and!; [done..|]. intros id i Hi. right. split; [by apply kept_same|done]. }
  destruct (cut_step _ _ _ Hcut) as (o & s0 & Hstep & Ha & Hst).
  assert (wired s1) as Hw1.
  { destruct (sstep_wired _ _ _ _ _ _ Hstep Hwired) as [H1 H2]. by split; rewrite Ha. }
  assert (within_limits instances (account s1)) as Hl1 by (rewrite Ha; by eapply sstep_limits).
  destruct (IH Hw1 Hl1) as (Hw & Hl & Hkept). split_and!; [done..|]. intros id i Hi.
  assert (forall q', q' ∈ requests [q] -> q' ∈ requests qs) as Hqs.
  { intros q' (q0 & ->%list_elem_of_singleton & Hq')%list_elem_of_omap. apply list_elem_of_omap. eauto. }
  destruct (sstep_keeps _ _ _ _ _ _ id i Hstep Hi) as [H1|H1]; [left; exact (asked_away_more _ _ _ _ Hqs H1)|].
  apply (kept_more _ _ _ _ _ Hqs) in H1. rewrite <- Ha in H1. pose proof H1 as (i1 & Hi1 & _).
  destruct (Hkept id i1 Hi1) as [H2|[H2 Hp]]; [left; by eapply asked_away_back|right].
  split; [by eapply kept_trans|]. etransitivity; [|exact Hp]. unfold stored at 2. rewrite Hst.
  eapply (sstep_stored _ _ _ _ _ s0); [done..|]. rewrite <- Ha. by eexists.
Qed.
End Crashes.
