(* ===== verification/SystemLifecycle.v ===== *)
(** Progress of the system: on a reliable API and a reliable node, a pod gets its
    volume, uses it and gives it back. *)
From S2P Require Import Prelude GoStrings Types Errors Metrics Effects LinodeVolumes Sizes Config.
From S2P Require Import Controller ControllerProofs Cloud Csi Refinement Sequences Lifecycle.
From S2P Require Import DeviceManager Luks NodeServer NodeProofs Concurrency NodeWorld NodeSpec NodeRefine NodeSafety.
From S2P Require Import NodeLifecycle System SystemSafety.

(** * The life of a volume used by a pod *)

(** Where the pod runs, and what Kubernetes passes on for it. *)
Record Pod := {
  pod_NodeId : string;
  pod_Capability : VolumeCapability;
  pod_StagingPath : string;
  pod_TargetPath : string;
  pod_Secrets : gmap string string;
  pod_Readonly : bool;
}.

Definition publish_at (pod : Pod) (v : CsiVolume) : ControllerPublishVolumeRequest :=
  {| cp_VolumeId := csi_VolumeId v; cp_NodeId := pod_NodeId pod; cp_VolumeCapability := Some (pod_Capability pod) |}.
Definition stage_for (pod : Pod) (v : CsiVolume) : NodeStageVolumeRequest :=
  {| ns_VolumeId := csi_VolumeId v; ns_StagingTargetPath := pod_StagingPath pod;
     ns_VolumeCapability := Some (pod_Capability pod); ns_Secrets := pod_Secrets pod;
     ns_VolumeContext := csi_VolumeContext v |}.
Definition publish_for (pod : Pod) (v : CsiVolume) (context : gmap string string) : NodePublishVolumeRequest :=
  {| np_VolumeId := csi_VolumeId v; np_PublishContext := context; np_StagingTargetPath := pod_StagingPath pod;
     np_TargetPath := pod_TargetPath pod; np_VolumeCapability := Some (pod_Capability pod);
     np_Readonly := pod_Readonly pod |}.
Definition unpublish_for (pod : Pod) (v : CsiVolume) : NodeUnpublishVolumeRequest :=
  {| nup_VolumeId := csi_VolumeId v; nup_TargetPath := pod_TargetPath pod |}.
Definition unstage_for (pod : Pod) (v : CsiVolume) : NodeUnstageVolumeRequest :=
  {| nu_VolumeId := csi_VolumeId v; nu_StagingTargetPath := pod_StagingPath pod |}.
Definition unpublish_at (pod : Pod) (v : CsiVolume) : ControllerUnpublishVolumeRequest :=
  {| cu_VolumeId := csi_VolumeId v; cu_NodeId := pod_NodeId pod |}.

Section Lives.
Context (instances : gmap Z InstInfo) (cs : ControllerServer).

(** What Kubernetes asks of the driver for the pod, on the instance [l]: each call
    once the one before it succeeded, with what it answered. *)
Definition pod_life (req : CreateVolumeRequest) (l : Z) (pod : Pod) : script (option CsiVolume) :=
  AtController (handle cs (ReqCreate req)) (fun o =>
  match o with
  | Done (inr (AnsCreate v)) =>
      AtController (handle cs (ReqPublish (publish_at pod v))) (fun o =>
      match o with
      | Done (inr (AnsPublish context)) =>
          AtNode l (node_lifecycle (stage_for pod v) (publish_for pod v context) (unpublish_for pod v) (unstage_for pod v)) (fun o =>
          match o with
          | Done (inr tt) =>
              AtController (handle cs (ReqUnpublish (unpublish_at pod v))) (fun o =>
              match o with
              | Done (inr AnsUnpublish) =>
                  AtController (handle cs (ReqDelete (csi_VolumeId v))) (fun o =>
                  match o with Done (inr AnsDelete) => Finish (Some v) | _ => Finish None end)
              | _ => Finish None
              end)
          | _ => Finish None
          end)
      | _ => Finish None
      end)
  | _ => Finish None
  end).

(** * Requests on a reliable API *)

Definition reliable_cloud : state_law System := fun c s r s' =>
  cloud_law instances c s r s' /\ succeeds instances c (account s) r.

Lemma reliable_request q s :
  enabled instances cs (account s) q ->
  swp reliable_cloud (handle cs q) (fun s' o => exists x, o = Done (inr x) /\
    csi instances cs (account s) q (inr x) (account s') /\ rewired (asked_content s q) s s') s.
Proof.
  intros Hq. eapply swp_mono; [apply swp_and|].
  - apply (swp_part (reliable instances) _ account); [|by apply enabled_step].
    by intros c t r t' [[H _] Hs].
  - eapply swp_law; [|apply request_step]. by intros c t r t' [H _].
  - cbv beta. intros s' o [(x & -> & Hcsi) (r & [= <-] & _ & Hrw)]. by exists x.
Qed.

(** The next request of a script, when it makes sense. *)
Lemma life_step {A} q (k : outcome (goerror + Answer) -> script A) node Q s :
  enabled instances cs (account s) q ->
  (forall s' x, csi instances cs (account s) q (inr x) (account s') -> rewired (asked_content s q) s s' ->
     sstep instances cs s (ToController q) (ByController (Done (inr x))) s' ->
     ssp reliable_cloud node (k (Done (inr x))) Q s') ->
  ssp reliable_cloud node (AtController (handle cs q) k) Q s.
Proof.
  intros Hq Hk. cbn [ssp]. eapply swp_mono; [by apply reliable_request|].
  cbv beta. intros s' o (x & -> & Hcsi & Hrw). apply Hk; [done..|by constructor].
Qed.

(** The answer to a request is of its kind. *)
Definition answers (q : Request) (x : Answer) : Prop :=
  match q with
  | ReqCreate _ => exists v, x = AnsCreate v
  | ReqDelete _ => x = AnsDelete
  | ReqPublish _ => exists context, x = AnsPublish context
  | ReqUnpublish _ => x = AnsUnpublish
  | ReqExpand _ => exists resp, x = AnsExpand resp
  | ReqValidate _ | ReqList _ => True
  end.

Lemma csi_answers a q x a' : csi instances cs a q (inr x) a' -> answers q x.
Proof.
  inversion 1; subst; try done; try (by eexists);
    match goal with H : or_error _ _ |- _ => destruct H as [[= ->]|[=]] end; by eexists || done.
Qed.

(** * The pod's volume on its node *)

(** The LUKS context of the volume made for the request, whatever volume it is. *)
Definition luks_of (req : CreateVolumeRequest) (pod : Pod) : LuksContext :=
  getLuksContext (pod_Secrets pod) (createVolumeContext req (as_volume 0 {|
    vi_Label := ""; vi_Size := 0; vi_Region := ""; vi_Encryption := ""; vi_LinodeID := None; vi_Path := "" |}))
    VolumeLifecycleNodeStageVolume.

Lemma stage_luks req size id i pod : stage_context (stage_for pod (describe req size id i)) = luks_of req pod.
Proof.
  unfold stage_context, luks_of, getLuksContext. cbn [ns_Secrets ns_VolumeContext stage_for describe csi_VolumeContext].
  unfold createVolumeContext. by rewrite !map_get_insert_ne by discriminate.
Qed.

Lemma stage_partition req size id i pod :
  map_get (ns_VolumeContext (stage_for pod (describe req size id i))) "partition" = "".
Proof.
  cbn [ns_VolumeContext stage_for describe csi_VolumeContext]. unfold createVolumeContext.
  rewrite map_get_insert_ne by discriminate.
  destruct (String.eqb _ _); rewrite ?map_get_insert_ne by discriminate; apply map_get_empty.
Qed.

(** What is on the new volume can be mounted for the pod. *)
Definition usable (req : CreateVolumeRequest) (pod : Pod) (c : Content) : Prop :=
  let fstype := fst (getFSTypeAndMountOptions (Some (pod_Capability pod))) in
  if EncryptionEnabled (luks_of req pod) then
    c = Empty \/ exists key slots inner, c = LuksData key slots inner /\
      EncryptionKey (luks_of req pod) ∈ slots /\ (inner = None \/ inner = Some fstype)
  else c = Empty \/ c = Known fstype.

(** The pod can run on the node: nothing is mounted at its paths, and the names of
    the mapping are free. *)
Record fits (req : CreateVolumeRequest) (pod : Pod) (n : Node) : Prop := {
  fit_paths : pod_StagingPath pod <> "" /\ pod_TargetPath pod <> "" /\ pod_StagingPath pod <> pod_TargetPath pod;
  fit_mounts : mounted_at n (pod_StagingPath pod) = [] /\ mounted_at n (pod_TargetPath pod) = [];
  fit_mode : GetBlock (Some (pod_Capability pod)) = false;
  fit_label : maps n !! request_label cs req = None;
  fit_luks : EncryptionEnabled (luks_of req pod) = true ->
    luks_complete (luks_of req pod) /\ can_format (luks_of req pod) /\
    maps n !! VolumeName (luks_of req pod) = None;
}.

Lemma label_device_found s l id i :
  wired s -> account s !! id = Some i -> vi_LinodeID i = Some l ->
  search (node_stat (node_at l s)) (deviceUtils.GetDiskByIdPaths (vi_Label i) "") = inr (vi_Path i).
Proof.
  intros Hs Hi Hl. destruct (wired_names _ Hs _ _ Hi) as [Hlabel Hp].
  destruct (valid_label_norm (vi_Label i) (CreateLinodeVolumeKey id (vi_Label i)) Hlabel eq_refl) as [_ Hslash].
  rewrite by_id_names by done. cbn [String.eqb]. rewrite !str_app_nil_r. unfold search, node_stat. cbn [List.find].
  rewrite decide_False; cbn [missing oe_IsNotExist not_found negb].
  - change ("/dev/disk/by-id/scsi-0Linode_Volume_" +:+ vi_Label i) with (device_path (vi_Label i)).
    assert (is_Some (disks (node_at l s) !! vi_Path i)) as Hd by (rewrite (volume_device _ _ _ _ Hs Hi Hl); by eexists).
    rewrite <- Hp, decide_True by done. cbn. by rewrite decide_True.
  - intros [c Hc]. destruct (device_volume _ _ _ _ Hc) as (id' & i' & Hi' & _ & Hp' & _).
    destruct (wired_names _ Hs _ _ Hi') as [_ E]. rewrite E in Hp'. discriminate Hp'.
Qed.

(** What is left of the mappings: one stays open if its name is not the label of the
    volume. *)
Definition maps_after (req : CreateVolumeRequest) (pod : Pod) (m m' : gmap string string) : Prop :=
  if EncryptionEnabled (luks_of req pod) && negb (String.eqb (VolumeName (luks_of req pod)) (request_label cs req))
  then exists path, m' = <[VolumeName (luks_of req pod) := path]> m
  else m' = m.

Lemma life_on_node s l req size id i j pod context :
  wired s -> account s !! id = Some j -> vi_LinodeID j = Some l -> vi_Label i = vi_Label j ->
  vi_Label i = request_label cs req -> 0 < id <= max_int64 ->
  fits req pod (node_at l s) -> usable req pod (stored s id) ->
  let v := describe req size id i in
  swp node_reliable
    (node_lifecycle (stage_for pod v) (publish_for pod v context) (unpublish_for pod v) (unstage_for pod v))
    (fun n' o => o = Done (inr tt) /\ data_kept (node_at l s) n' /\
       (forall p, mounted_at n' p = mounted_at (node_at l s) p) /\
       maps_after req pod (maps (node_at l s)) (maps n')) (node_at l s).
Proof.
  intros Hs Hj Hl Hij Hlabel Hid [(Hp1 & Hp2 & Hp3) [Hm1 Hm2] Hmode Hfree Hluks] Huse v.
  destruct (wired_names _ Hs _ _ Hj) as [Hvalid Hpath].
  destruct (valid_label_norm (vi_Label j) (CreateLinodeVolumeKey id (vi_Label i)) Hvalid Hij) as [Hnorm _].
  set (key := CreateLinodeVolumeKey id (vi_Label j)).
  assert (ParseLinodeVolumeKey (csi_VolumeId v) = inr key) as Hkey.
  { cbn. rewrite Parse_GetVolumeKey by (cbn; lia). by rewrite Hnorm. }
  assert (GetNormalizedLabel key = vi_Label j) as Hnorm' by (by apply (valid_label_norm _ key)).
  assert (negb (String.eqb (csi_VolumeId v) "") = true) as Hne
    by (apply negb_true_iff, String.eqb_neq, GetVolumeKey_nonempty).
  apply negb_true_iff in Hne. apply String.eqb_neq in Hp1, Hp2.
  assert (content (node_at l s) (vi_Path j) = stored s id) as Hcont by (by apply content_volume).
  assert (stage_context (stage_for pod v) = luks_of req pod) as Hctx by apply stage_luks.
  eapply swp_mono; [apply (node_life_ok _ _ _ _ key (vi_Path j))|].
  - unfold validateNodeStageVolumeRequest, validateNodePublishVolumeRequest,
      validateNodeUnpublishVolumeRequest, validateNodeUnstageVolumeRequest.
    cbn [ns_VolumeId ns_StagingTargetPath ns_VolumeCapability stage_for np_VolumeId np_StagingTargetPath np_TargetPath
      np_VolumeCapability publish_for nup_VolumeId nup_TargetPath unpublish_for nu_VolumeId nu_StagingTargetPath unstage_for].
    by rewrite Hne, Hp1, Hp2.
  - done.
  - exact Hkey.
  - done.
  - done.
  - done.
  - split; [|by rewrite Hpath]. cbn [GetDiskByIdPaths NewDeviceUtils]. unfold v. rewrite stage_partition, Hnorm'.
    by eapply label_device_found.
  - unfold stageable. rewrite Hctx, Hcont. split; [rewrite (volume_device _ _ _ _ Hs Hj Hl); by eexists|].
    split; [by rewrite Hpath|]. unfold usable in Huse. destruct (EncryptionEnabled _); [|done].
    by destruct (Hluks eq_refl) as (? & ? & ?).
  - cbn [Label key CreateLinodeVolumeKey]. by rewrite <- Hij, Hlabel.
  - cbv beta. rewrite Hctx. cbn [Label key CreateLinodeVolumeKey]. rewrite <- Hij, Hlabel.
    intros n' o (-> & Hd & Hmt & Hmaps). split_and!; [done..|]. unfold maps_after.
    destruct (_ && _); [|done]. destruct Hmaps as (p & _ & Hmaps). by exists p.
Qed.

(** ** The account around it *)

(** The system [s'] is [s] with one more volume, [j] with [c] on it. *)
Record extended (s : System) (id : Z) (j : VolInfo) (c : Content) (s' : System) : Prop := {
  ext_wired : wired s';
  ext_account : account s' = <[id := j]> (account s);
  ext_hosts : hosts s' = hosts s;
  ext_content : stored s' id = c;
  ext_others : forall id', id' <> id -> is_Some (account s !! id') -> stored s' id' = stored s id';
}.

Lemma after_create s req size v s1 :
  wired s -> request_valid req size -> (forall id, ~ has_label (account s) (request_label cs req) id) ->
  sstep instances cs s (ToController (ReqCreate req)) (ByController (Done (inr (AnsCreate v)))) s1 ->
  exists id i, fresh_volume (account s) id i /\ vi_Label i = request_label cs req /\ v = describe req size id i /\
    extended s id i (asked_content s (ReqCreate req)) s1.
Proof.
  intros Hs [_ Hsize] Hfree Hstep. pose proof (sstep_wired _ _ _ _ _ _ Hstep Hs) as Hs1.
  inversion Hstep as [? ? ? Hcsi Hrw|]; subst.
  apply created_fresh in Hcsi as (size' & id & i & [_ Hsize'] & Hf & (Hlabel & _) & -> & Ha); [|done].
  rewrite Hsize in Hsize'. injection Hsize' as <-. exists id, i. split_and!; [done..|]. split; [done..| | |].
  - by apply Hrw.
  - eapply rewired_new; [done| |rewrite Ha; apply lookup_insert_eq]. by destruct Hf.
  - intros id' Hne Hi'. apply (rewired_kept _ _ _ Hrw); [done|]. by rewrite Ha, lookup_insert_ne by done.
Qed.

(** A change of the new volume alone. *)
Lemma extended_step s id j c s1 q o s2 f :
  extended s id j c s1 -> (forall req, q <> ReqCreate req) ->
  sstep instances cs s1 (ToController q) (ByController (Done o)) s2 ->
  account s2 = alter f id (account s1) -> extended s id (f j) c s2.
Proof.
  intros [Hs Ha Hh Hc Ho] Hq Hstep Ha2. pose proof (sstep_wired _ _ _ _ _ _ Hstep Hs) as Hs2.
  inversion Hstep as [? ? ? _ Hrw|]; subst.
  assert (account s2 = <[id := f j]> (account s)) as E by (by rewrite Ha2, Ha, alter_insert_eq).
  split; [done|done|by rewrite (rewired_hosts _ _ _ Hrw)|..].
  - rewrite (rewired_kept _ _ _ Hrw); [done|rewrite Ha|rewrite E]; rewrite lookup_insert_eq; by eexists.
  - intros id' Hne Hi'.
    rewrite (rewired_kept _ _ _ Hrw); [by apply Ho|rewrite Ha|rewrite E]; by rewrite lookup_insert_ne by done.
Qed.

Lemma fits_host req pod l s s' : host s' l = host s l -> fits req pod (node_at l s) -> fits req pod (node_at l s').
Proof. unfold node_at. intros -> [H1 H2 H3 H4 H5]. by split. Qed.

(** The pod is done with the volume, and the system is as it was. *)
Definition pod_done (req : CreateVolumeRequest) (size l : Z) (pod : Pod) (s s' : System) (r : option CsiVolume) : Prop :=
  (exists v, r = Some v /\ csi_CapacityBytes v = size) /\
  account s' = account s /\
  (forall id, is_Some (account s !! id) -> preserved (stored s id) (stored s' id)) /\
  (forall l' path, mounted_at (node_at l' s') path = mounted_at (node_at l' s) path) /\
  (forall l', l' <> l -> maps (node_at l' s') = maps (node_at l' s)) /\
  maps_after req pod (maps (node_at l s)) (maps (node_at l s')).

(** The end of it: the volume is detached and deleted. *)
Lemma life_given_back t s3 id i c l pod v Q :
  extended t id (set_LinodeID (Some l) i) c s3 -> account t !! id = None ->
  (forall caller, VolumeIdAsInt caller (csi_VolumeId v) = inr id) ->
  (forall caller, NodeIdAsInt caller (pod_NodeId pod) = inr l) ->
  (forall s', account s' = account t -> hosts s' = hosts t ->
     (forall id', is_Some (account t !! id') -> stored s' id' = stored t id') -> Q s' (Some v)) ->
  ssp reliable_cloud node_reliable
    (AtController (handle cs (ReqUnpublish (unpublish_at pod v))) (fun o =>
       match o with
       | Done (inr AnsUnpublish) =>
           AtController (handle cs (ReqDelete (csi_VolumeId v))) (fun o =>
           match o with Done (inr AnsDelete) => Finish (Some v) | _ => Finish None end)
       | _ => Finish None
       end)) Q s3.
Proof.
  intros Hs3 Hid Hvid Hnode HQ.
  assert (account s3 !! id = Some (set_LinodeID (Some l) i)) as Hi3
    by (rewrite (ext_account _ _ _ _ _ Hs3); apply lookup_insert_eq).
  apply life_step.
  { exists l, id. split_and!; [apply Hnode|apply Hvid|]. intros j. rewrite Hi3. by intros [= <-]. }
  intros s4 x Hx _ Hstep. pose proof (csi_answers _ _ _ _ Hx) as ->.
  apply (unpublished_attached _ _ _ _ l id (set_LinodeID (Some l) i)) in Hx as Ha4;
    [|apply Hnode|apply Hvid|done..].
  pose proof (extended_step _ _ _ _ _ (ReqUnpublish _) _ _ _ Hs3 ltac:(done) Hstep Ha4) as Hs4.
  assert (account s4 !! id = Some (set_LinodeID None (set_LinodeID (Some l) i))) as Hi4
    by (rewrite (ext_account _ _ _ _ _ Hs4); apply lookup_insert_eq).
  apply life_step.
  { exists id. split; [apply Hvid|]. intros j. rewrite Hi4. by intros [= <-]. }
  intros s5 y Hy Hrw _. pose proof (csi_answers _ _ _ _ Hy) as ->. cbn [ssp].
  pose proof (deleted_present _ _ _ _ id _ _ Hy (Hvid _) Hi4) as Ha5.
  assert (account s5 = account t) as Ht by (by rewrite Ha5, (ext_account _ _ _ _ _ Hs4), delete_insert_id).
  apply HQ; [done|by rewrite (rewired_hosts _ _ _ Hrw), (ext_hosts _ _ _ _ _ Hs4)|].
  intros id' Hi'. assert (id' <> id) as Hne by (intros ->; rewrite Hid in Hi'; by destruct Hi').
  rewrite (rewired_kept _ _ _ Hrw); [by apply (ext_others _ _ _ _ _ Hs4)| |by rewrite Ht].
  by rewrite (ext_account _ _ _ _ _ Hs4), lookup_insert_ne.
Qed.

(** What is left when the volume of the pod is gone. *)
Lemma pod_left req size l pod s s2 s' id j c n' i :
  extended s id j c s2 -> account s !! id = None ->
  data_kept (node_at l s2) n' -> (forall path, mounted_at n' path = mounted_at (node_at l s2) path) ->
  maps_after req pod (maps (node_at l s2)) (maps n') ->
  account s' = account s -> hosts s' = hosts (put_node l n' s2) ->
  (forall id', is_Some (account s !! id') -> stored s' id' = stored (put_node l n' s2) id') ->
  pod_done req size l pod s s' (Some (describe req size id i)).
Proof.
  intros Hs2 Hid Hkept Hmt Hmaps Ha Hh Hst. split; [by eexists|]. split; [done|]. set (s3 := put_node l n' s2) in *.
  assert (forall l', host s' l' = host s3 l') as Hhost by (intros l'; unfold host; by rewrite Hh).
  assert (forall l', host s2 l' = host s l') as Hhost2 by (intros l'; unfold host; by rewrite (ext_hosts _ _ _ _ _ Hs2)).
  assert (forall l' path, mounted_at (node_at l' s2) path = mounted_at (node_at l' s) path) as Hm2.
  { intros l' path. unfold mounted_at. cbn. by rewrite Hhost2. }
  split_and!.
  - intros id' Hi'. rewrite (Hst id' Hi').
    assert (id' <> id) as Hne by (intros ->; rewrite Hid in Hi'; by destruct Hi').
    rewrite <- (ext_others _ _ _ _ _ Hs2 id' Hne Hi'). destruct Hi' as [i' Hi'].
    apply (stored_put_kept _ _ _ _ i'); [by eapply ext_wired| |done].
    by rewrite (ext_account _ _ _ _ _ Hs2), lookup_insert_ne.
  - intros l' path. rewrite <- Hm2. unfold mounted_at at 1. cbn. rewrite Hhost. destruct (decide (l = l')) as [<-|Hne].
    + unfold s3. rewrite host_put. apply Hmt.
    + unfold s3. by rewrite host_put_ne.
  - intros l' Hne. cbn. rewrite Hhost. unfold s3. by rewrite host_put_ne, Hhost2.
  - cbn in Hmaps |- *. rewrite Hhost. unfold s3. rewrite host_put, <- Hhost2. exact Hmaps.
Qed.

(** C7. From end to end: on a reliable API and a reliable node, in a wired system, a
    pod gets a volume, uses it and gives it back.  When the label of the request
    is free and valid, the instance has room, nothing is mounted at the pod's paths, and
    what the volume starts with, its source's content or nothing, can be mounted,
    then the volume is created, attached to the pod's instance, staged from the
    device of that volume, published, unpublished, unstaged, detached and deleted,
    each request made from the answers to those before it; every call succeeds,
    the account ends as it began, what is on every other volume is kept, and on
    every node what is mounted is as before.  So are the LUKS mappings, unless the
    volume was encrypted and its name in the request is not its label. *)
Theorem pod_life_completes (req : CreateVolumeRequest) (size l : Z) (pod : Pod) (src : option LinodeVolumeKey) (s : System)
  (Hwired : wired s) (Hreq : request_valid req size) (Hids : ids_left (account s))
  (Hsrc : source_of cs (account s) req src) (Hlabel : valid_label (request_label cs req) = true)
  (Hfree : forall id, ~ has_label (account s) (request_label cs req) id)
  (Hnode : forall caller, NodeIdAsInt caller (pod_NodeId pod) = inr l)
  (Hcap : validVolumeCapabilities [Some (pod_Capability pod)] = true)
  (Hroom : room instances (account s) l)
  (Hfits : fits req pod (node_at l s)) (Huse : usable req pod (asked_content s (ReqCreate req))) :
  ssp reliable_cloud node_reliable (pod_life req l pod) (pod_done req size l pod s) s.
Proof.
  unfold pod_life. apply life_step; [exists size; eauto 7|].
  intros s1 x Hx _ Hstep. destruct (csi_answers _ _ _ _ Hx) as [v ->]. clear Hx.
  apply (after_create s req size) in Hstep as (id & i & Hfresh & Hlab & -> & Hs1); [|done..].
  pose proof Hfresh as (Hid & Hrange & Hnone & _). set (v := describe req size id i).
  assert (forall caller, VolumeIdAsInt caller (csi_VolumeId v) = inr id) as Hvid.
  { intros caller. apply (VolumeIdAsInt_GetVolumeKey caller (CreateLinodeVolumeKey id (vi_Label i))). cbn. lia. }
  assert (validateControllerPublishVolumeRequest (publish_at pod v) = inr (l, id)) as Hpub.
  { unfold validateControllerPublishVolumeRequest. cbn [publish_at cp_NodeId cp_VolumeId cp_VolumeCapability].
    by rewrite Hnode, Hvid, Hcap. }
  assert (account s1 !! id = Some i) as Hi1 by (rewrite (ext_account _ _ _ _ _ Hs1); apply lookup_insert_eq).
  apply life_step.
  { exists l, id, i. destruct Hroom as (inst & Hinst & ?). split_and!; [done|by eexists|done|]. right. split; [done|].
    rewrite (ext_account _ _ _ _ _ Hs1). apply room_insert; [done..|]. by exists inst. }
  intros s2 x Hx _ Hstep. destruct (csi_answers _ _ _ _ Hx) as [context ->].
  apply (published_unattached _ _ _ _ l id i) in Hx as [-> Ha2]; [|done..].
  pose proof (extended_step _ _ _ _ _ (ReqPublish _) _ _ _ Hs1 ltac:(done) Hstep Ha2) as Hs2. clear Hstep Ha2.
  set (j := set_LinodeID (Some l) i) in *.
  assert (account s2 !! id = Some j) as Hj by (rewrite (ext_account _ _ _ _ _ Hs2); apply lookup_insert_eq).
  cbn [ssp]. eapply swp_mono; [apply (life_on_node s2 l req size id i j pod)|]; try done.
  { by eapply ext_wired. }
  { eapply fits_host, Hfits. unfold host. by rewrite (ext_hosts _ _ _ _ _ Hs2). }
  { by rewrite (ext_content _ _ _ _ _ Hs2). }
  cbv beta. intros n' o (-> & Hkept & Hmt & Hmaps).
  set (s3 := put_node l n' s2).
  set (t := {| account := account s; store := store s3; hosts := hosts s3 |}).
  assert (extended t id j (stored s3 id) s3) as Hs3.
  { split; [by eapply wired_put, ext_wired|by apply (ext_account _ _ _ _ _ Hs2)|done..]. }
  apply (life_given_back t s3 id i (stored s3 id) l pod v _ Hs3); [done..|].
  intros s' Ha Hh Hst. by eapply pod_left.
Qed.
End Lives.
