(* ===== verification/SystemExamples.v ===== *)
(** The whole driver in memory: an account, the volumes' contents and the nodes, and
    concrete runs of calls of the controller and the nodes on it. *)
From S2P Require Import Prelude GoStrings Types Errors Metrics Effects LinodeVolumes Sizes Config.
From S2P Require Import Controller ControllerProofs Cloud Csi Refinement Sequences Lifecycle MemoryApi.
From S2P Require Import DeviceManager Luks NodeServer NodeProofs Concurrency NodeWorld NodeSpec NodeRefine NodeSafety.
From S2P Require Import NodeLifecycle MemoryNode System SystemSafety Crashes SystemLifecycle.

(** * The environment *)

Section Memory.
Context (instances : gmap Z InstInfo).

Definition memory_cloud (c : cmd) (s : System) : resp c * System :=
  let '(r, a') := memory_env instances c (account s) in
  (r, {| account := a'; store := restock (new_content c s) (account s) a' (store s); hosts := hosts s |}).

Lemma memory_names c a id i :
  (memory_env instances c a).2 !! id = Some i -> a !! id = None -> named_by_label i.
Proof.
  assert (forall (a : Account) f id0, alter f id0 a !! id = Some i -> a !! id = None -> False) as Halter.
  { intros a0 f id0 [(-> & j & Hj & _)|[_ Hj]]%lookup_alter_Some Hi; congruence. }
  assert (forall (a : Account) j, valid_label (vi_Label j) = true -> vi_Path j = path_of (vi_Label j) ->
    (add j a).2 !! id = Some i -> a !! id = None -> named_by_label i) as Hadd.
  { intros a0 j Hv Hp. unfold add. case_if; cbn; [|congruence].
    intros [[<- <-]|[_ H]]%lookup_insert_Some Hi; [by split|congruence]. }
  destruct c as [q|?|?|?|?|?|?|?| | |]; try (cbn; congruence).
  destruct q as [opts|l|l|reg|l|id'|o|src label|id' o|id'|id' l t|id' st t|id'|id' size]; try (cbn; congruence);
    cbn [memory_env memory_api snd]; intros Hi Hnone.
  - destruct (valid_label (co_Label o)) eqn:Hv; [|cbn in Hi; congruence]. apply (fun H1 H2 => Hadd _ _ H1 H2 Hi Hnone); [exact Hv|reflexivity].
  - destruct (a !! src) as [j|]; [|cbn in Hi; congruence]. destruct (valid_label label) eqn:Hv; [|cbn in Hi; congruence].
    apply (fun H1 H2 => Hadd _ _ H1 H2 Hi Hnone); [exact Hv|reflexivity].
  - destruct (a !! id') as [[? ? ? ? [?|] ?]|]; try (cbn in Hi; congruence). exfalso. by eapply Halter.
  - destruct (a !! id') as [[? ? ? ? [?|] ?]|]; try (cbn in Hi; congruence). exfalso. by eapply Halter.
  - destruct (a !! id') as [[? ? ? ? [?|] ?]|]; try (cbn in Hi; congruence).
    cbn in Hi. apply lookup_delete_Some in Hi as [_ Hi]. congruence.
  - destruct (a !! id') as [j|]; [destruct (vi_Size j <=? size)|]; try (cbn in Hi; congruence). exfalso. by eapply Halter.
Qed.

Lemma memory_cloud_law c s : cloud_law instances c s (memory_cloud c s).1 (memory_cloud c s).2.
Proof.
  unfold memory_cloud. pose proof (memory_documented instances c (account s)) as Hdoc.
  pose proof (memory_names c (account s)) as Hnames.
  destruct (memory_env instances c (account s)) as [r a']. by split_and!.
Qed.
End Memory.

(** * Two volumes and a node *)

Definition ex_disk (label : string) (attached : option Z) : VolInfo :=
  {| vi_Label := label; vi_Size := 20; vi_Region := "us-east"; vi_Encryption := "disabled";
     vi_LinodeID := attached; vi_Path := path_of label |}.

Definition ex_system : System := {|
  account := {[7 := ex_disk "pvc-7" (Some 42); 8 := ex_disk "pvc-8" None]};
  store := {[7 := Known "ext4"; 8 := LuksData "key" ["secret"] (Some "ext4")]};
  hosts := ∅;
|}.

Lemma ex_wired : wired ex_system.
Proof.
  split.
  - cbn. intros id i [[<- <-]|[_ [<- <-]%lookup_singleton_Some]]%lookup_insert_Some; by split.
  - cbn. intros id1 id2 i1 i2.
    intros [[<- <-]|[_ [<- <-]%lookup_singleton_Some]]%lookup_insert_Some
           [[<- <-]|[_ [<- <-]%lookup_singleton_Some]]%lookup_insert_Some; by cbn.
Qed.

Lemma ex_limits : within_limits ex_instances (account ex_system).
Proof.
  unfold ex_instances. intros l inst [<- <-]%lookup_singleton_Some. vm_compute. discriminate.
Qed.

Definition ex_stage_of (vid staging : string) (context : gmap string string) : NodeStageVolumeRequest := {|
  ns_VolumeId := vid; ns_StagingTargetPath := staging; ns_VolumeCapability := Some ex_capability;
  ns_Secrets := {[LuksKeyAttribute := "secret"]}; ns_VolumeContext := context |}.

Definition ex_luks_context (name : string) : gmap string string :=
  <[LuksEncryptedAttribute := "true"]> (<[LuksCipherAttribute := "aes-xts-plain64"]>
  (<[LuksKeySizeAttribute := "512"]> {[PublishInfoVolumeName := name]})).

(** The second volume is attached and staged, and detached while it is; staging it
    again then fails. *)
Definition ex_sys_calls : list SysCall := [
  ToNode 42 (CallStage (ex_stage_of "7-pvc-7" "/staging/7" ∅));
  ToNode 42 (CallStage (ex_stage_of "8-pvc-8" "/staging/8" (ex_luks_context "pvc-8")));
  ToController (ReqPublish {| cp_VolumeId := "8-pvc-8"; cp_NodeId := "42"; cp_VolumeCapability := Some ex_capability |});
  ToNode 42 (CallStage (ex_stage_of "8-pvc-8" "/staging/8" (ex_luks_context "pvc-8")));
  ToController (ReqUnpublish {| cu_VolumeId := "8-pvc-8"; cu_NodeId := "42" |});
  ToNode 42 (CallStage (ex_stage_of "8-pvc-8" "/staging/again" (ex_luks_context "pvc-8")))
].

Definition succeeded (o : SysAnswer) : bool :=
  match o with
  | ByController (Done (inr _)) | ByNode (Done (inr _)) => true
  | _ => false
  end.

Lemma system_refines_witness :
  ssp (cloud_law ex_instances) node_documented (sys_handle ex_cs (ToController (ReqDelete "8-pvc-8")) Finish)
    (fun s' o => sstep ex_instances ex_cs ex_system (ToController (ReqDelete "8-pvc-8")) o s') ex_system.
Proof. exact (system_refines ex_instances ex_cs _ ex_system). Defined.

Lemma system_safe_witness :
  let '(os, s') := run_script (memory_cloud ex_instances) memory_node (sys_serve ex_cs ex_sys_calls) ex_system in
  succeeded <$> os = [true; false; true; true; true; false] /\
  (wired s' /\ within_limits ex_instances (account s') /\
   forall id i, account ex_system !! id = Some i ->
     asked_away (requests ex_sys_calls) id i \/ kept_whole ex_sys_calls id i ex_system s') /\
  stored s' 8 = LuksData "key" ["secret"] (Some "ext4").
Proof.
  pose proof (system_safe ex_instances ex_cs ex_sys_calls ex_system ex_wired ex_limits) as H.
  apply (ssp_run _ _ _ _ _ _ _ (memory_cloud_law ex_instances) memory_node_documented) in H.
  assert (succeeded <$> (run_script (memory_cloud ex_instances) memory_node (sys_serve ex_cs ex_sys_calls) ex_system).1 =
    [true; false; true; true; true; false] /\
    stored (run_script (memory_cloud ex_instances) memory_node (sys_serve ex_cs ex_sys_calls) ex_system).2 8 =
    LuksData "key" ["secret"] (Some "ext4")) as [H1 H2] by (vm_compute; by split).
  destruct (run_script _ _ _ _) as [os s']. destruct H as (_ & H). by split_and!; [|apply H..|].
Defined.

(** The volume attached to the node is staged; the other cannot be. *)
Lemma stages_right_volume_witness :
  (ssp (cloud_law ∅) node_documented (AtNode 42 (NodeStageVolume (ex_stage_of "7-pvc-7" "/staging/7" ∅)) Finish)
    (fun s' o => o = Done (inr tt) -> vi_LinodeID (ex_disk "pvc-7" (Some 42)) = Some 42 /\
       mounted_from s' 42 "/staging/7" 7) ex_system) /\
  (run_script (memory_cloud ∅) memory_node
    (AtNode 42 (NodeStageVolume (ex_stage_of "7-pvc-7" "/staging/7" ∅)) Finish) ex_system).1 = Done (inr tt).
Proof.
  split; [|vm_compute; reflexivity].
  apply (stages_right_volume ex_system 42 7 (ex_disk "pvc-7" (Some 42)) (ex_stage_of "7-pvc-7" "/staging/7" ∅) ex_wired);
    try reflexivity. unfold max_int64. lia.
Defined.

(** * Crashes *)

(** The second volume is empty and attached as well.  Its node service is killed
    while it formats the volume, between the LUKS header and its first slot; the
    controller is killed when it has detached the volume and not yet waited. *)
Definition ex_before_crash : System := {|
  account := {[7 := ex_disk "pvc-7" (Some 42); 8 := ex_disk "pvc-8" (Some 42)]};
  store := {[7 := Known "ext4"; 8 := Empty]};
  hosts := ∅;
|}.

Definition ex_cut_calls : list SysCall := [
  ToNode 42 (CallStage (ex_stage_of "8-pvc-8" "/staging/8" (ex_luks_context "pvc-8")));
  ToController (ReqUnpublish {| cu_VolumeId := "8-pvc-8"; cu_NodeId := "42" |})
].

Definition cut_run (k : nat) (q : SysCall) (s : System) : System :=
  match q with
  | ToController q => run_cut (memory_cloud ex_instances) k (handle ex_cs q) s
  | ToNode l q => put_node l (run_cut memory_node k (node_handle q) (node_at l s)) s
  end.

Lemma cut_run_cut k q s : cut ex_instances ex_cs s q (cut_run k q s).
Proof.
  destruct q as [q|l q]; constructor; apply run_cut_reaches;
    [apply memory_cloud_law|apply memory_node_documented].
Qed.

Definition ex_crashed : System :=
  fold_left (fun s kq => cut_run kq.1 kq.2 s) (zip [10; 2]%nat ex_cut_calls) ex_before_crash.

Lemma ex_crashes : rtc (fun s1 s2 => exists q, q ∈ ex_cut_calls /\ cut ex_instances ex_cs s1 q s2) ex_before_crash ex_crashed.
Proof.
  eapply rtc_l; [|apply rtc_once]; eexists; (split; [|apply cut_run_cut]).
  - apply list_elem_of_here.
  - apply list_elem_of_further, list_elem_of_here.
Qed.

Lemma ex_crash_wired : wired ex_before_crash.
Proof.
  split; cbn.
  - intros id i [[<- <-]|[_ [<- <-]%lookup_singleton_Some]]%lookup_insert_Some; by split.
  - intros id1 id2 i1 i2.
    intros [[<- <-]|[_ [<- <-]%lookup_singleton_Some]]%lookup_insert_Some
           [[<- <-]|[_ [<- <-]%lookup_singleton_Some]]%lookup_insert_Some; by cbn.
Qed.

Lemma system_crash_safe_witness :
  (stored ex_crashed 8 = LuksData "secret" [] None /\ (vi_LinodeID <$> account ex_crashed !! 8) = Some None) /\
  wired ex_crashed /\ within_limits ex_instances (account ex_crashed) /\
  forall id i, account ex_before_crash !! id = Some i ->
    asked_away (requests ex_cut_calls) id i \/ kept_whole ex_cut_calls id i ex_before_crash ex_crashed.
Proof.
  split; [vm_compute; split; reflexivity|].
  apply (system_crash_safe ex_instances ex_cs ex_cut_calls ex_before_crash ex_crashed ex_crash_wired);
    [|exact ex_crashes].
  unfold ex_instances. intros l inst [<- <-]%lookup_singleton_Some. vm_compute. discriminate.
Defined.

(** * A pod with an encrypted volume *)

Definition ex_pod : Pod := {|
  pod_NodeId := "42"; pod_Capability := ex_capability; pod_StagingPath := "/staging/9"; pod_TargetPath := "/target/9";
  pod_Secrets := {[LuksKeyAttribute := "secret"]}; pod_Readonly := false |}.

Definition ex_claim : CreateVolumeRequest :=
  {| cv_Name := "pvc-9"; cv_CapacityRange := Some {| RequiredBytes := 10 * 2 ^ 30; LimitBytes := 0 |};
     cv_VolumeCapabilities := [Some ex_capability];
     cv_Parameters := <[LuksEncryptedAttribute := "true"]> (<[LuksCipherAttribute := "aes-xts-plain64"]>
       {[LuksKeySizeAttribute := "512"]});
     cv_VolumeContentSource := None; cv_AccessibilityRequirements := None |}.

Definition prefixed_cs : ControllerServer := {| cs_driver := ex_driver "prod-"; cs_metadata := cs_metadata ex_cs |}.

(** With a prefix for labels, the pod is done with the volume, which is deleted, and
    its mapping is left open on the node. *)
Lemma pod_life_completes_witness :
  ssp (reliable_cloud ex_instances) node_reliable (pod_life prefixed_cs ex_claim 42 ex_pod)
    (pod_done prefixed_cs ex_claim (10 * 2 ^ 30) 42 ex_pod ex_system) ex_system /\
  let '(r, s') := run_script (memory_cloud ex_instances) memory_node (pod_life prefixed_cs ex_claim 42 ex_pod) ex_system in
  csi_VolumeId <$> r = Some "9-prod-pvc-9" /\ account s' = account ex_system /\
  maps (node_at 42 s') = {["pvc-9" := path_of "prod-pvc-9"]}.
Proof.
  split; [|vm_compute; split_and!; reflexivity].
  apply (pod_life_completes ex_instances prefixed_cs ex_claim (10 * 2 ^ 30) 42 ex_pod None ex_system ex_wired).
  - split; reflexivity.
  - cbn. intros id [i [[<- _]|[_ [<- _]%lookup_singleton_Some]]%lookup_insert_Some]; reflexivity.
  - reflexivity.
  - reflexivity.
  - cbn [account ex_system]. intros id (i & [[<- <-]|[_ [<- <-]%lookup_singleton_Some]]%lookup_insert_Some & H);
      vm_compute in H; discriminate H.
  - intros caller. reflexivity.
  - reflexivity.
  - exists {| ii_Label := "node"; ii_Region := "us-east"; ii_Specs := {| Memory := 4096 |}; ii_Disks := 1 |}.
    split; [reflexivity|]. vm_compute. split; [reflexivity|discriminate].
  - split; try reflexivity.
    + split_and!; discriminate.
    + split; reflexivity.
    + intros _. split_and!; [vm_compute; split_and!; discriminate || reflexivity| |reflexivity].
      split; [by eexists|vm_compute; by eexists].
  - left. reflexivity.
Defined.
