(* ===== verification/SystemPool.v ===== *)
(** The controller and the node services at the same time: calls that arrive, run
    and are cut off by crashes in any order, each call of a handler a step of its
    own.

    The controller has no mutex; each node has its own.  Calls arrive at any moment,
    but the orchestrator keeps to what the CSI specification asks of it: no two
    calls in flight that are about one volume ([admitted]).  [SysPool] is the state and
    [sys_step] the step relation; then, what one call of the
    controller or of a node does to the others. *)
From S2P Require Import Prelude GoStrings Types Errors Metrics Effects LinodeVolumes Sizes Config.
From S2P Require Import Controller ControllerProofs Cloud Csi Interference Refinement Sequences.
From S2P Require Import DeviceManager Luks NodeServer NodeProofs Concurrency NodeWorld NodeSpec NodeRefine NodeSafety.
From S2P Require Import System SystemSafety Contention NodeContention.

(** * Threads *)

(** A call in flight, and what is left of its handler. *)
Inductive Thread :=
| AtTheController (q : Request) (p : prog (goerror + Answer))
| AtTheNode (l : Z) (q : NodeCall) (p : prog (goerror + unit)).

Record SysPool := {
  sp_threads : gmap nat Thread;
  sp_mutexes : gmap Z nat;          (* of each node server, by the thread that holds it *)
  sp_system : System;
}.

Definition serves (t : Thread) : SysCall :=
  match t with AtTheController q _ => ToController q | AtTheNode l q _ => ToNode l q end.

Definition in_flight (t : Thread) : bool :=
  negb match t with AtTheController _ p => finished p | AtTheNode _ _ p => finished p end.

Definition on_node (l : Z) (t : Thread) : bool :=
  match t with AtTheNode l' _ _ => l =? l' | AtTheController _ _ => false end.
Definition on_controller (t : Thread) : bool :=
  match t with AtTheController _ _ => true | AtTheNode _ _ _ => false end.

(** A process dies with its threads, its mutex and its cryptsetup devices. *)
Definition forget_handles (l : Z) (s : System) : System := put_node l (set_handles ∅ (node_at l s)) s.

Section Pool.
Context (instances : gmap Z InstInfo) (cs : ControllerServer).
Context {D : DeviceUtils} {HD : DeviceUtilsLaws D}.

Definition begin (q : SysCall) : Thread :=
  match q with
  | ToController q => AtTheController q (handle cs q)
  | ToNode l q => AtTheNode l q (node_handle q)
  end.

(** ** The rule of the orchestrator *)

Definition asks_change (q : Request) (id : Z) : Prop :=
  (exists l, asks_attach q id l) \/ asks_release q id \/ asks_delete q id \/ exists gb, asks_size q id gb.

(** The call is about the volume whose device has the path: a request to the
    controller that changes or creates it, or a staging that may find it. *)
Definition about (a : Account) (q : SysCall) (path : string) : Prop :=
  match q with
  | ToController q =>
      (exists id i, asks_change q id /\ a !! id = Some i /\ vi_Path i = path) \/
      (exists label, asks_label cs q label /\ path = device_path label)
  | ToNode _ q => stages q path
  end.

Definition admitted (c : SysPool) (q : SysCall) : Prop :=
  forall i t path, sp_threads c !! i = Some t -> in_flight t = true ->
    about (account (sp_system c)) q path -> ~ about (account (sp_system c)) (serves t) path.

(** ** Steps *)

(** One call of one thread. *)
Inductive call_step : SysPool -> SysPool -> Prop :=
| Controller_call ts h s i q c k r s' :
    ts !! i = Some (AtTheController q (Call c k)) -> cloud_law instances c s r s' ->
    call_step {| sp_threads := ts; sp_mutexes := h; sp_system := s |}
              {| sp_threads := <[i := AtTheController q (k r)]> ts; sp_mutexes := h; sp_system := s' |}
| Node_call ts h s i l q c k r n' :
    ts !! i = Some (AtTheNode l q (Call c k)) -> no_mutex c -> node_documented c (node_at l s) r n' ->
    call_step {| sp_threads := ts; sp_mutexes := h; sp_system := s |}
              {| sp_threads := <[i := AtTheNode l q (k r)]> ts; sp_mutexes := h; sp_system := put_node l n' s |}
| Node_lock ts h s i l q (k : resp Lock -> prog (goerror + unit)) :
    ts !! i = Some (AtTheNode l q (Call Lock k)) -> h !! l = None ->
    call_step {| sp_threads := ts; sp_mutexes := h; sp_system := s |}
              {| sp_threads := <[i := AtTheNode l q (k tt)]> ts; sp_mutexes := <[l := i]> h; sp_system := s |}
| Node_unlock ts h s i l q (k : resp Unlock -> prog (goerror + unit)) :
    ts !! i = Some (AtTheNode l q (Call Unlock k)) ->
    call_step {| sp_threads := ts; sp_mutexes := h; sp_system := s |}
              {| sp_threads := <[i := AtTheNode l q (k tt)]> ts; sp_mutexes := delete l h; sp_system := s |}.

Section Steps.
(** The calls that the orchestrator makes, each any number of times, and its rule
    of when. *)
Context (qs : list SysCall) (rule : SysPool -> SysCall -> Prop).

Inductive sys_step : SysPool -> SysPool -> Prop :=
| Arrive ts h s i q :
    q ∈ qs -> ts !! i = None -> rule {| sp_threads := ts; sp_mutexes := h; sp_system := s |} q ->
    sys_step {| sp_threads := ts; sp_mutexes := h; sp_system := s |}
             {| sp_threads := <[i := begin q]> ts; sp_mutexes := h; sp_system := s |}
| Called c c' : call_step c c' -> sys_step c c'
| Controller_crash ts h s :
    sys_step {| sp_threads := ts; sp_mutexes := h; sp_system := s |}
             {| sp_threads := filter (fun kv => on_controller kv.2 = false) ts; sp_mutexes := h; sp_system := s |}
| Node_crash ts h s l :
    sys_step {| sp_threads := ts; sp_mutexes := h; sp_system := s |}
             {| sp_threads := filter (fun kv => on_node l kv.2 = false) ts; sp_mutexes := delete l h;
                sp_system := forget_handles l s |}.
End Steps.

Definition idle (s : System) : SysPool := {| sp_threads := ∅; sp_mutexes := ∅; sp_system := s |}.
End Pool.

(** * Nodes in the system *)

(** What one node does is not seen on another. *)
Lemma node_at_other l l' n s : l <> l' -> node_at l' (put_node l n s) = node_at l' s.
Proof.
  intros Hne. unfold node_at. rewrite !host_put_ne by done. f_equal. unfold devices. f_equal.
  apply list_fmap_ext. intros k [id i] Hk%list_elem_of_lookup_2. cbn in Hk |- *.
  apply list_elem_of_filter in Hk as [Hl Hi%elem_of_map_to_list]. f_equal.
  rewrite (stored_put _ _ _ _ _ Hi), decide_False; [done|]. cbn in Hl. congruence.
Qed.

(** Nothing is on a device that was put with nothing on it. *)
Lemma content_put l n s path : content n path = Empty -> content (node_at l (put_node l n s)) path = Empty.
Proof.
  intros Hn. unfold content at 1. destruct (disks _ !! path) as [c|] eqn:Hc; [|done].
  apply device_volume in Hc as (id & i & Hi & Hl & <- & ->). cbn in Hi.
  by rewrite (stored_put _ _ _ _ _ Hi), decide_True.
Qed.

Lemma handles_put l n s : handles (node_at l (put_node l n s)) = handles n.
Proof. cbn. by rewrite host_put. Qed.

Lemma maps_put l n s : maps (node_at l (put_node l n s)) = maps n.
Proof. cbn. by rewrite host_put. Qed.

Lemma mounted_put l n s path : mounted_at (node_at l (put_node l n s)) path = mounted_at n path.
Proof. unfold mounted_at. cbn. by rewrite host_put. Qed.

(** * What the controller's calls do *)

(** The label of the volume that the call makes. *)
Definition call_label (c : cmd) : option string :=
  match c with
  | Api (Client.CreateVolume o) => Some (co_Label o)
  | Api (Client.CloneVolume _ label) => Some label
  | _ => None
  end.

Section Cloud.
Context (instances : gmap Z InstInfo) (cs : ControllerServer).

(** A new volume is the only one, and has the label of the call. *)
Lemma documented_new c a r a' id i :
  documented instances c a r a' -> a !! id = None -> a' !! id = Some i ->
  call_label c = Some (vi_Label i) /\ forall id', id' <> id -> a' !! id' = a !! id'.
Proof.
  assert (forall id0 i0 label, vi_Label i0 = label -> a' = <[id0 := i0]> a -> a !! id = None -> a' !! id = Some i ->
    Some label = Some (vi_Label i) /\ forall id', id' <> id -> a' !! id' = a !! id') as Hins.
  { intros id0 i0 label <- -> Hi [[<- <-]|[_ H]]%lookup_insert_Some; [|congruence].
    split; [done|]. intros id' Hne. by rewrite lookup_insert_ne. }
  assert (forall (f : VolInfo -> VolInfo) id0, a !! id = None -> alter f id0 a !! id = None) as Halt.
  { intros f id0 Hi. by apply lookup_alter_None. }
  intros Hd Hi Hi'. destruct c as [q|q|q|q|q|q|q|q| | |]; cbn in Hd; [|congruence..].
  destruct q; cbn in Hd |- *; try (destruct Hd as [-> _]; congruence).
  - destruct Hd as [[-> _]|(id0 & i0 & _ & Hl & _ & _ & _ & Ha & _)]; [congruence|]. by eapply Hins.
  - destruct Hd as [[-> _]|(id0 & i0 & j & _ & _ & Hl & _ & _ & _ & Ha & _)]; [congruence|]. by eapply Hins.
  - destruct Hd as [[->|[_ ->]] _]; [|congruence]. rewrite Halt in Hi'; congruence.
  - destruct Hd as [[->|[_ ->]] _]; [|congruence]. rewrite Halt in Hi'; congruence.
  - destruct Hd as [->|[_ ->]]; [|congruence]. apply lookup_delete_Some in Hi' as [_ ?]. congruence.
  - destruct Hd as [->|[_ ->]]; [|congruence]. rewrite Halt in Hi'; congruence.
Qed.

Lemma documented_has_label c a r a' label id :
  documented instances c a r a' -> has_label a' label id -> has_label a label id \/ call_label c = Some label.
Proof.
  intros Hd (i & Hi & <-). destruct (a !! id) as [j|] eqn:Hj.
  - left. exists j. split; [done|]. destruct (documented_names _ _ _ _ _ _ _ _ Hd Hj Hi) as [-> _]. done.
  - right. by destruct (documented_new _ _ _ _ _ _ Hd Hj Hi) as [-> _].
Qed.

(** No label is used twice if the call makes no volume of a label in use. *)
Lemma cloud_wired c s r s' :
  cloud_law instances c s r s' -> wired s ->
  (forall label id, call_label c = Some label -> ~ has_label (account s) label id) -> wired s'.
Proof.
  intros (Hd & _ & _ & Hnames) [Hn Hu] Hfree. split.
  - intros id i Hi. destruct (account s !! id) as [j|] eqn:Hj; [|by eapply Hnames].
    destruct (documented_names _ _ _ _ _ _ _ _ Hd Hj Hi) as [E1 E2]. unfold named_by_label. rewrite E1, E2. by eapply Hn.
  - assert (forall id1 id2 i1 i2, account s' !! id1 = Some i1 -> account s' !! id2 = Some i2 ->
      vi_Label i1 = vi_Label i2 -> account s !! id1 = None -> id1 = id2) as Hnew.
    { intros id1 id2 i1 i2 H1 H2 Heq Hnone. destruct (documented_new _ _ _ _ _ _ Hd Hnone H1) as [Hl Hrest].
      destruct (decide (id2 = id1)) as [|Hne]; [done|]. rewrite (Hrest id2 Hne) in H2.
      destruct (Hfree _ id2 Hl). by exists i2. }
    intros id1 id2 i1 i2 H1 H2 Heq.
    destruct (account s !! id1) as [j1|] eqn:E1; [|by eapply Hnew].
    destruct (account s !! id2) as [j2|] eqn:E2; [|by symmetry; eapply Hnew].
    destruct (documented_names _ _ _ _ _ _ _ _ Hd E1 H1) as [L1 _], (documented_names _ _ _ _ _ _ _ _ Hd E2 H2) as [L2 _].
    apply (Hu _ _ _ _ E1 E2). congruence.
Qed.

Context {D : DeviceUtils} {HD : DeviceUtilsLaws D}.

Lemma may_call_label q c label : may_call cs q c -> call_label c = Some label -> asks_label cs q label.
Proof. intros H Hc. destruct c as [[]| | | | | | | | | |]; try done; specialize (H eq_refl); cbn in H, Hc; congruence. Qed.

(** A volume that a call makes is one that its request is about. *)
Lemma cloud_about q c s r s' q' path :
  may_call cs q c -> cloud_law instances c s r s' ->
  about cs (account s') q' path -> about cs (account s) q' path \/ about cs (account s) (ToController q) path.
Proof.
  intros Hm (Hd & _ & _ & Hnames). destruct q' as [q'|l q']; cbn [about]; [|by left].
  intros [(id & i & Hc & Hi & <-)|Hl]; [|by left; right].
  destruct (account s !! id) as [j|] eqn:Hj.
  - left; left. exists id, j. split_and!; [done..|]. by destruct (documented_names _ _ _ _ _ _ _ _ Hd Hj Hi) as [_ ->].
  - right; right. destruct (documented_new _ _ _ _ _ _ Hd Hj Hi) as [Hl _]. exists (vi_Label i).
    split; [by eapply may_call_label|]. by apply (Hnames id i Hi Hj).
Qed.

(** Nothing comes to be on a device that the request is not about. *)
Lemma cloud_content q c s r s' l path :
  may_call cs q c -> cloud_law instances c s r s' -> wired s ->
  ~ about cs (account s) (ToController q) path ->
  content (node_at l s) path = Empty -> content (node_at l s') path = Empty.
Proof.
  intros Hm Hlaw Hw Hno He. unfold content at 1. destruct (disks _ !! path) as [x|] eqn:Hx; [|done]. cbn.
  apply device_volume in Hx as (id & i' & Hi' & Hl & Hp & ->).
  destruct (account s !! id) as [i|] eqn:Hi.
  - pose proof (cloud_rewired _ _ _ _ _ Hlaw) as Hrw. destruct (rewired_names _ _ _ Hrw _ _ _ Hi Hi') as [_ Hpi].
    assert (forall P : Prop, asks_change q id -> P) as Hch.
    { intros P Hq. destruct Hno. left. exists id, i. split_and!; [done..|congruence]. }
    destruct Hlaw as (Hd & _).
    destruct (af_gone _ _ _ _ (call_asked_for cs [q] q c _ r _ (list_elem_of_here _ _) Hm Hd) id i Hi)
      as [(i2 & Hi2 & Halt)|(q0 & ->%list_elem_of_singleton & Hq)]; [|apply Hch; unfold asks_change; auto].
    rewrite Hi' in Hi2. injection Hi2 as <-.
    assert (vi_LinodeID i = Some l) as Hli.
    { destruct (alt_attached _ _ _ _ Halt) as [Ha|Ha]; [congruence|].
      rewrite Hl in Ha. destruct Ha as (q0 & ->%list_elem_of_singleton & Hq). apply Hch. left. by exists l. }
    rewrite (rewired_kept _ _ _ Hrw) by by eexists. rewrite <- (content_volume s l id i) by done. congruence.
  - destruct Hlaw as (Hd & _ & _ & Hnames). destruct (documented_new _ _ _ _ _ _ Hd Hi Hi') as [Hlab _].
    destruct Hno. right. exists (vi_Label i'). split; [by eapply may_call_label|]. rewrite <- Hp. by apply (Hnames id i' Hi' Hi).
Qed.

Lemma cloud_handles c s r s' l : cloud_law instances c s r s' -> handles (node_at l s') = handles (node_at l s).
Proof. intros (_ & _ & Hh & _). cbn. unfold host. by rewrite Hh. Qed.

(** ** What a creation has seen *)

(** No volume has the label, if none was listed and none made since. *)
Definition unlisted (label : string) (tr : trace) (a : Account) : Prop :=
  forallb (fun e => negb (made_volume e)) tr = true ->
  Event (Api (Client.ListVolumes (label_filter label))) (inr []) ∈ tr -> forall id, ~ has_label a label id.

Lemma unlisted_stable label tr a a' :
  unlisted label tr a -> (forall id, has_label a' label id -> has_label a label id) -> unlisted label tr a'.
Proof. intros H Hl Hm He id Hid. by apply (H Hm He id), Hl. Qed.

Lemma unlisted_step label tr c a r a' :
  unlisted label tr a -> documented instances c a r a' -> unlisted label (tr ++ [Event c r]) a'.
Proof.
  intros H Hd. unfold unlisted. rewrite forallb_app, andb_true_iff. intros [Hm Hc] He id Hid.
  apply elem_of_app in He as [He|He%list_elem_of_singleton].
  - destruct (documented_has_label _ _ _ _ _ _ Hd Hid) as [Ha|Ha]; [by apply (H Hm He id)|].
    by destruct c as [[]| | | | | | | | | |].
  - pose proof (Event_inj_cmd _ _ _ _ He) as <-. apply Event_inj in He as <-. destruct Hd as [-> Hd].
    destruct (Hd [] label eq_refl eq_refl) as (_ & _ & Hids). apply Hids in Hid. by apply elem_of_nil in Hid.
Qed.
End Cloud.
