(* ===== verification/SystemContention.v ===== *)
(** Any calls of the controller and the nodes at the same time, with crashes: what no
    schedule of them can do, at any moment.

    [sane] is the invariant of the pool: what each thread has seen and relies on is
    still true.  [since] is what the steps did to the system. *)
From S2P Require Import Prelude GoStrings Types Errors Metrics Effects LinodeVolumes Sizes Config.
From S2P Require Import Controller ControllerProofs Cloud Csi Interference Refinement Sequences.
From S2P Require Import DeviceManager Luks NodeServer NodeProofs Concurrency NodeWorld NodeSpec NodeRefine NodeSafety.
From S2P Require Import System SystemSafety Contention NodeContention SystemPool.

Section Contention.
Context (instances : gmap Z InstInfo) (cs : ControllerServer).
Context {D : DeviceUtils} {HD : DeviceUtilsLaws D}.
Context (qs : list SysCall).

(** * What the steps do *)

(** On one node: only the targets of its calls are mounted at or unmounted, only
    mappings that its calls name are closed or opened. *)
Record node_since (l : Z) (n n' : Node) : Prop := {
  ns_mounted : forall path, (forall q, ToNode l q ∈ qs -> path <> target q) -> mounted_at n' path = mounted_at n path;
  ns_closed : forall name path, maps n !! name = Some path ->
    maps n' !! name = Some path \/ exists q, ToNode l q ∈ qs /\ asks_close q name;
  ns_opened : forall name path, maps n' !! name = Some path ->
    maps n !! name = Some path \/ exists q, ToNode l q ∈ qs /\ asks_name q name;
}.

#[local] Instance node_since_preorder l : PreOrder (node_since l).
Proof.
  split; [by split; auto|]. intros n1 n2 n3 [M1 C1 O1] [M2 C2 O2]. split.
  - intros path Hp. by rewrite M2, M1.
  - intros name path Hn. destruct (C1 _ _ Hn) as [H|?]; [by apply C2|by right].
  - intros name path Hn. destruct (O2 _ _ Hn) as [H|?]; [by apply O1|by right].
Qed.

(** In the system. *)
Record since (s s' : System) : Prop := {
  since_account : asked_for cs (requests qs) (account s) (account s');
  since_stored : forall id, is_Some (account s !! id) ->
    (exists q, q ∈ requests qs /\ asks_delete q id) \/
    is_Some (account s' !! id) /\ preserved (stored s id) (stored s' id);
  since_nodes : forall l, node_since l (node_at l s) (node_at l s');
}.

#[local] Instance since_preorder : PreOrder since.
Proof.
  split; [intros s; split; [reflexivity|by right|reflexivity]|]. intros s1 s2 s3 [A1 S1 N1] [A2 S2 N2]. split.
  - by etransitivity.
  - intros id Hid. destruct (S1 id Hid) as [?|[H1 P1]]; [by left|]. destruct (S2 id H1) as [?|[H2 P2]]; [by left|].
    right. split; [done|by etransitivity].
  - intros l. transitivity (node_at l s2); [apply N1|apply N2].
Qed.

Lemma in_requests q : ToController q ∈ qs -> q ∈ requests qs.
Proof. intros H. apply list_elem_of_omap. by exists (ToController q). Qed.

(** A call of the controller. *)
Lemma cloud_since q c s r s' :
  ToController q ∈ qs -> may_call cs q c -> cloud_law instances c s r s' -> since s s'.
Proof.
  intros Hq Hm Hlaw. pose proof (cloud_rewired _ _ _ _ _ Hlaw) as Hrw. pose proof Hlaw as (Hd & _ & Hh & _).
  pose proof (call_asked_for cs (requests qs) q c _ r _ (in_requests q Hq) Hm Hd) as Ha. split; [done|..].
  - intros id [i Hi]. destruct (af_gone _ _ _ _ Ha id i Hi) as [(i' & Hi' & _)|?]; [right|by left].
    split; [by eexists|]. rewrite (rewired_kept _ _ _ Hrw); [done|by eexists..].
  - intros l. assert (host s' l = host s l) as E by (unfold host; by rewrite Hh).
    split; cbn; unfold mounted_at; cbn; rewrite E; auto.
Qed.

(** A call of a node. *)
Lemma put_since l n' s :
  wired s -> data_kept (node_at l s) n' -> node_since l (node_at l s) n' -> since s (put_node l n' s).
Proof.
  intros Hw Hk Hn. split.
  - reflexivity.
  - intros id [i Hi]. right. split; [by exists i|]. by eapply stored_put_kept.
  - intros l'. destruct (decide (l = l')) as [<-|Hne]; [|by rewrite node_at_other].
    destruct Hn as [H1 H2 H3]. split; rewrite ?maps_put; [|done..]. intros path Hp. rewrite mounted_put. auto.
Qed.

Lemma effect_since l q n n' : ToNode l q ∈ qs -> effect q n n' -> node_since l n n'.
Proof.
  intros Hq He. split.
  - intros path Hp. by eapply effect_mounted, Hp.
  - intros name path Hn. destruct (effect_maps q n n' name He) as [E|[[_ H]|[E _]]]; [left; congruence|eauto|congruence].
  - intros name path Hn. destruct (effect_maps q n n' name He) as [E|[[E _]|[_ H]]]; [left; congruence|congruence|eauto].
Qed.

(** * The invariant *)

(** What is left of a handler makes the calls its request allows, after what it has
    seen; under the mutex of its node, if it has begun. *)
Definition thread_ok (s : System) (h : gmap Z nat) (i : nat) (t : Thread) : Prop :=
  match t with
  | AtTheController q p =>
      only (may_call cs q) p /\
      forall req, q = ReqCreate req -> exists tr,
        wp any_env (create_guard cs req) p (fun _ _ => True) tr /\ unlisted (request_label cs req) tr (account s)
  | AtTheNode l q p =>
      p = node_handle q \/
      h !! l = Some i /\ exists b tr, p = finally b Unlock /\ quiet b /\
        wp any_env (node_guard q) b (fun _ _ => True) tr /\ looked q (node_at l s) tr
  end.

(** Two calls in flight are not in each other's way. *)
Definition apart (a : Account) (t u : Thread) : Prop :=
  match t, u with
  | AtTheNode _ q _, AtTheController q' _ => forall path, stages q path -> ~ about cs a (ToController q') path
  | AtTheController q _, AtTheController q' _ => forall label, asks_label cs q label -> ~ asks_label cs q' label
  | _, _ => True
  end.

(** The thread [j] is under the mutex of the node [l]. *)
Definition holds (c : SysPool) (l : Z) (j : nat) : Prop :=
  exists q b, sp_threads c !! j = Some (AtTheNode l q (finally b Unlock)) /\ quiet b.

Record sane (c : SysPool) : Prop := {
  sane_wired : wired (sp_system c);
  sane_calls : forall i t, sp_threads c !! i = Some t -> serves t ∈ qs;
  sane_thread : forall i t, sp_threads c !! i = Some t -> in_flight t = true ->
    thread_ok (sp_system c) (sp_mutexes c) i t;
  sane_apart : forall i j t u, sp_threads c !! i = Some t -> sp_threads c !! j = Some u -> i <> j ->
    in_flight t = true -> in_flight u = true -> apart (account (sp_system c)) t u;
  sane_mutex : forall l j, sp_mutexes c !! l = Some j -> holds c l j;
}.

Lemma apart_serves a t u t' u' : serves t' = serves t -> serves u' = serves u -> apart a t u -> apart a t' u'.
Proof. destruct t, t', u, u'; cbn; intros Ht Hu; by simplify_eq. Qed.

(** A thread that is in flight moves on, with the rest of the system. *)
Lemma sane_update c i t t' h' s' :
  sane c -> sp_threads c !! i = Some t -> in_flight t = true -> serves t' = serves t ->
  wired s' -> (in_flight t' = true -> thread_ok s' h' i t') ->
  (forall j u, j <> i -> sp_threads c !! j = Some u -> in_flight u = true -> thread_ok s' h' j u) ->
  (forall q path, about cs (account s') q path ->
     about cs (account (sp_system c)) q path \/
     on_controller t = true /\ about cs (account (sp_system c)) (serves t) path) ->
  (forall l j, h' !! l = Some j -> j <> i /\ sp_mutexes c !! l = Some j \/
     j = i /\ exists q b, t' = AtTheNode l q (finally b Unlock) /\ quiet b) ->
  sane {| sp_threads := <[i := t']> (sp_threads c); sp_mutexes := h'; sp_system := s' |}.
Proof.
  intros [_ Hcalls Hthr Hap Hmu] Hi Hfl Hserves Hw Ht' Hothers Habout Hmutex.
  assert (forall j u, <[i := t']> (sp_threads c) !! j = Some u -> exists u0, sp_threads c !! j = Some u0 /\
    serves u = serves u0 /\ (in_flight u = true -> in_flight u0 = true)) as Hold.
  { intros j u [[<- <-]|[_ Hj]]%lookup_insert_Some; [by exists t|by exists u]. }
  split; cbn; [done|..].
  - intros j u (u0 & Hj & -> & _)%Hold. by eapply Hcalls.
  - intros j u [[<- <-]|[Hne Hj]]%lookup_insert_Some; [done|]. by apply Hothers.
  - intros j k u v (u0 & Hj & Eu & Fu)%Hold (v0 & Hk & Ev & Fv)%Hold Hjk Hu Hv.
    apply (apart_serves _ u0 v0); [done..|]. specialize (Fu Hu). specialize (Fv Hv).
    pose proof (Hap j k u0 v0 Hj Hk Hjk Fu Fv) as H.
    destruct u0 as [qu pu|l qu pu], v0 as [qv pv|lv qv pv]; try done. cbn in H |- *.
    intros path Hs Ha. destruct (Habout (ToController qv) path Ha) as [Ha'|[Hon Ha']]; [by eapply H|].
    destruct t as [qt pt|]; [|done]. assert (j <> i) as Hji by (intros ->; congruence).
    by apply (Hap j i _ _ Hj Hi Hji Fu Hfl path).
  - intros l j Hj. destruct (Hmutex l j Hj) as [[Hne H]|(-> & q & b & -> & Hb)]; unfold holds; cbn.
    + rewrite lookup_insert_ne by done. by apply Hmu.
    + exists q, b. by rewrite lookup_insert_eq.
Qed.

(** ** Every step keeps it *)

Lemma controller_call_sane c i q d k r s' :
  sane c -> sp_threads c !! i = Some (AtTheController q (Call d k)) -> cloud_law instances d (sp_system c) r s' ->
  sane {| sp_threads := <[i := AtTheController q (k r)]> (sp_threads c); sp_mutexes := sp_mutexes c; sp_system := s' |} /\
  since (sp_system c) s'.
Proof.
  intros Hc Hi Hlaw. pose proof Hlaw as (Hd & _). pose proof (sane_thread _ Hc _ _ Hi eq_refl) as [[Hm Honly] Hcreate].
  assert (forall label, call_label d = Some label -> asks_label cs q label) as Hlabel by (intros label; by apply may_call_label).
  assert (wired s') as Hw.
  { eapply cloud_wired; [exact Hlaw|apply (sane_wired _ Hc)|]. intros label id Hl.
    destruct (Hlabel label Hl) as (req & -> & ->). destruct (Hcreate req eq_refl) as (tr & [Hg _] & Hun).
    destruct (Hg ltac:(by destruct d as [[]| | | | | | | | | |])) as (Hnone & Hlisted & _). by apply Hun. }
  split; [|eapply cloud_since; [apply (sane_calls _ Hc _ _ Hi)|exact Hm|exact Hlaw]].
  apply (sane_update _ _ _ _ _ _ Hc Hi); try done.
  - intros _. split; [apply Honly|]. intros req Hq. destruct (Hcreate req Hq) as (tr & [_ Hwp] & Hun).
    eexists. split; [by apply Hwp|]. by eapply unlisted_step.
  - intros j u Hji Hj Hu. pose proof (sane_thread _ Hc _ _ Hj Hu) as Hok. destruct u as [q' p|l q' p]; cbn in Hok |- *.
    + destruct Hok as [Ho Hcr]. split; [done|]. intros req Hq'. destruct (Hcr req Hq') as (tr & Hwp & Hun).
      exists tr. split; [done|]. eapply unlisted_stable; [exact Hun|]. intros id Hid.
      destruct (documented_has_label _ _ _ _ _ _ _ Hd Hid) as [|Hl]; [done|]. exfalso.
      apply (sane_apart _ Hc _ _ _ _ Hi Hj ltac:(done) eq_refl Hu _ (Hlabel _ Hl)). by exists req.
    + destruct Hok as [|(Hh & b & tr & Hp & Hqu & Hwp & Hl)]; [by left|right]. split; [done|]. exists b, tr.
      split_and!; try done. eapply looked_stable; [exact Hl|by eapply cloud_handles|].
      intros path Hst. eapply cloud_content; [exact Hm|exact Hlaw|apply (sane_wired _ Hc)|].
      by apply (sane_apart _ Hc _ _ _ _ Hj Hi ltac:(done) Hu eq_refl).
  - intros q' path Ha. destruct (cloud_about _ _ _ _ _ _ _ _ _ Hm Hlaw Ha); [by left|by right].
  - intros l j Hj. left. split; [|done]. intros ->. destruct (sane_mutex _ Hc _ _ Hj) as (q' & b & Hb & _). congruence.
Qed.

(** The thread that makes a call other than Lock holds its mutex. *)
Lemma node_caller c i l q d k :
  sane c -> sp_threads c !! i = Some (AtTheNode l q (Call d k)) -> d <> Lock ->
  sp_mutexes c !! l = Some i /\ exists b tr, Call d k = finally b Unlock /\ quiet b /\
    wp any_env (node_guard q) b (fun _ _ => True) tr /\ looked q (node_at l (sp_system c)) tr.
Proof.
  intros Hc Hi Hd. destruct (sane_thread _ Hc _ _ Hi eq_refl) as [Hp|H]; [|exact H].
  destruct (node_body q) as (b & Hq & _). rewrite Hq in Hp. by apply eq_sym, locked_calls in Hp.
Qed.

(** What a node does, or its mutex, is nothing to the threads of the others. *)
Lemma thread_ok_other s s' h h' l j u :
  account s' = account s -> (forall l', l' <> l -> node_at l' s' = node_at l' s /\ h' !! l' = h !! l') ->
  (on_node l u = true -> exists q, u = AtTheNode l q (node_handle q)) ->
  thread_ok s h j u -> thread_ok s' h' j u.
Proof.
  intros Ha Hl Hu Hok. destruct u as [q p|l' q p]; cbn in Hok |- *; [by rewrite Ha|].
  destruct (decide (l' = l)) as [->|Hne].
  - left. destruct Hu as [q' Hq']; [cbn; apply Z.eqb_refl|]. by simplify_eq.
  - destruct (Hl l' Hne) as [-> ->]. exact Hok.
Qed.

(** The other threads of a node wait while one holds the mutex. *)
Lemma others_wait c i l j u :
  sane c -> (forall j, sp_mutexes c !! l = Some j -> j = i) ->
  j <> i -> sp_threads c !! j = Some u -> in_flight u = true ->
  on_node l u = true -> exists q, u = AtTheNode l q (node_handle q).
Proof.
  intros Hc Hh Hji Hj Hu Hon. destruct u as [|l' q p]; [done|]. cbn in Hon. apply Z.eqb_eq in Hon as <-.
  destruct (sane_thread _ Hc _ _ Hj Hu) as [->|[Hm _]]; [by exists q|]. by destruct Hji; apply Hh.
Qed.

Lemma node_call_sane c i l q d k r n' :
  sane c -> sp_threads c !! i = Some (AtTheNode l q (Call d k)) -> no_mutex d ->
  node_documented d (node_at l (sp_system c)) r n' ->
  sane {| sp_threads := <[i := AtTheNode l q (k r)]> (sp_threads c); sp_mutexes := sp_mutexes c;
          sp_system := put_node l n' (sp_system c) |} /\
  since (sp_system c) (put_node l n' (sp_system c)).
Proof.
  intros Hc Hi Hd Hlaw.
  destruct (node_caller _ _ _ _ _ _ Hc Hi ltac:(by destruct Hd)) as (Hh & b & tr & Hb & Hquiet & Hwp & Hl).
  destruct (finally_goes_on _ _ _ (eq_sym Hb) Hd) as (k' & -> & ->). destruct Hwp as [Hg Hwp]. destruct Hquiet as [_ Hquiet].
  pose proof (call_effect _ _ _ _ _ _ Hg Hl Hlaw) as Heff.
  split; [|apply put_since; [apply (sane_wired _ Hc)|by eapply effect_kept
    |eapply effect_since, Heff; apply (sane_calls _ Hc _ _ Hi)]].
  apply (sane_update _ _ _ _ _ _ Hc Hi); try done.
  - by apply wired_put, sane_wired.
  - intros _. right. split; [done|]. exists (k' r), (tr ++ [Event d r]). split_and!; [done..|by apply Hwp|].
    eapply looked_stable; [by eapply looked_step|apply handles_put|]. intros path _. apply content_put.
  - intros j u Hji Hj Hu. apply (thread_ok_other (sp_system c) _ (sp_mutexes c) _ l); [done|..].
    + intros l' Hne. split; [by apply node_at_other|done].
    + eapply others_wait; try done. intros j' Hj'. congruence.
    + by apply sane_thread.
  - by left.
  - intros l' j Hj. destruct (decide (j = i)) as [->|]; [right|by left]. split; [done|].
    destruct (sane_mutex _ Hc _ _ Hj) as (q' & b & Hi' & _). rewrite Hi in Hi'. injection Hi' as -> _ _.
    by exists q, (k' r).
Qed.

Lemma node_lock_sane c i l q (k : resp Lock -> prog (goerror + unit)) :
  sane c -> sp_threads c !! i = Some (AtTheNode l q (Call Lock k)) -> sp_mutexes c !! l = None ->
  sane {| sp_threads := <[i := AtTheNode l q (k tt)]> (sp_threads c); sp_mutexes := <[l := i]> (sp_mutexes c);
          sp_system := sp_system c |}.
Proof.
  intros Hc Hi Hfree. apply (sane_update _ _ _ _ _ _ Hc Hi); try done; [apply (sane_wired _ Hc)|..].
  - intros _. right. rewrite lookup_insert_eq. split; [done|].
    destruct (sane_thread _ Hc _ _ Hi eq_refl) as [Hp|[Hh _]]; [|congruence].
    destruct (node_body q) as (b & Hq & Hquiet & Hwp). rewrite Hq in Hp. symmetry in Hp.
    exists b, [Event Lock tt]. split_and!; [by apply locked_starts|done..|apply looked_begin].
  - intros j u Hji Hj Hu. apply (thread_ok_other (sp_system c) _ (sp_mutexes c) _ l); [done|..].
    + intros l' Hne. by rewrite lookup_insert_ne.
    + eapply others_wait; try done. intros j' Hj'. congruence.
    + by apply sane_thread.
  - by left.
  - intros l' j [[<- <-]|[Hne Hj]]%lookup_insert_Some; [right|left].
    + split; [done|]. destruct (sane_thread _ Hc _ _ Hi eq_refl) as [Hp|[Hh _]]; [|congruence].
      destruct (node_body q) as (b & Hq & Hquiet & _). rewrite Hq in Hp. symmetry in Hp.
      exists q, b. by rewrite (locked_starts _ _ Hp).
    + split; [|done]. intros ->. destruct (sane_mutex _ Hc _ _ Hj) as (q' & b & Hi' & _). congruence.
Qed.

Lemma node_unlock_sane c i l q (k : resp Unlock -> prog (goerror + unit)) :
  sane c -> sp_threads c !! i = Some (AtTheNode l q (Call Unlock k)) ->
  sane {| sp_threads := <[i := AtTheNode l q (k tt)]> (sp_threads c); sp_mutexes := delete l (sp_mutexes c);
          sp_system := sp_system c |}.
Proof.
  intros Hc Hi. destruct (node_caller _ _ _ _ _ _ Hc Hi ltac:(done)) as (Hh & b & tr & Hb & Hquiet & _ & _).
  destruct (finally_ends _ _ (eq_sym Hb) Hquiet) as (o & _ & Hend).
  apply (sane_update _ _ _ _ _ _ Hc Hi); try done; [apply (sane_wired _ Hc)|..].
  - rewrite Hend. by destruct o.
  - intros j u Hji Hj Hu. apply (thread_ok_other (sp_system c) _ (sp_mutexes c) _ l); [done|..].
    + intros l' Hne. by rewrite lookup_delete_ne.
    + eapply others_wait; try done. intros j' Hj'. congruence.
    + by apply sane_thread.
  - by left.
  - intros l' j [Hne Hj]%lookup_delete_Some. left. split; [|done]. intros ->.
    destruct (sane_mutex _ Hc _ _ Hj) as (q2 & b2 & Hi2 & _). congruence.
Qed.

(** Fewer threads. *)
Lemma sane_crash c (P : nat * Thread -> Prop) `{forall x, Decision (P x)} h' s' :
  sane c -> wired s' -> account s' = account (sp_system c) ->
  (forall j u, P (j, u) -> thread_ok (sp_system c) (sp_mutexes c) j u -> thread_ok s' h' j u) ->
  (forall l j, h' !! l = Some j -> sp_mutexes c !! l = Some j /\ forall q p, P (j, AtTheNode l q p)) ->
  sane {| sp_threads := filter P (sp_threads c); sp_mutexes := h'; sp_system := s' |}.
Proof.
  intros [_ Hcalls Hthr Hap Hmu] Hw Ha Hok Hmutex. split; cbn; [done|..].
  - intros i t [Hi _]%map_lookup_filter_Some. by eapply Hcalls.
  - intros i t [Hi HP]%map_lookup_filter_Some Ht. auto.
  - intros i j t u [Hi _]%map_lookup_filter_Some [Hj _]%map_lookup_filter_Some. rewrite Ha. by eapply Hap.
  - intros l j Hj. destruct (Hmutex l j Hj) as [Hj' HP]. destruct (Hmu l j Hj') as (q & b & Hq & Hb).
    exists q, b. split; [|done]. by apply map_lookup_filter_Some.
Qed.

Lemma admitted_apart a t u :
  (forall path, about cs a (serves t) path -> ~ about cs a (serves u) path) -> apart a t u /\ apart a u t.
Proof.
  intros H. destruct t as [q p|l q p], u as [q' p'|l' q' p']; cbn [apart serves] in *; split; try done.
  - intros label H1 H2. apply (H (device_path label)); right; eauto.
  - intros label H1 H2. apply (H (device_path label)); right; eauto.
  - intros path H1 H2. by apply (H path).
Qed.

Lemma arrive_sane c i q :
  sane c -> q ∈ qs -> sp_threads c !! i = None -> admitted cs c q ->
  sane {| sp_threads := <[i := begin cs q]> (sp_threads c); sp_mutexes := sp_mutexes c; sp_system := sp_system c |}.
Proof.
  intros [Hw Hcalls Hthr Hap Hmu] Hq Hi Hadm.
  assert (forall j u, sp_threads c !! j = Some u -> in_flight u = true ->
    apart (account (sp_system c)) (begin cs q) u /\ apart (account (sp_system c)) u (begin cs q)) as Hnew.
  { intros j u Hj Hu. apply admitted_apart. intros path. destruct q; by apply (Hadm j u path Hj Hu). }
  split; cbn; [done|..].
  - intros j u [[<- <-]|[_ Hj]]%lookup_insert_Some; [by destruct q|by eapply Hcalls].
  - intros j u [[<- <-]|[_ Hj]]%lookup_insert_Some Hu; [|by apply Hthr].
    destruct q as [q|l q]; cbn; [|by left]. split; [apply handle_only|]. intros req ->. exists [].
    split; [apply create_handle_calls|]. by intros _ ?%elem_of_nil.
  - intros j k u v [[<- <-]|[_ Hj]]%lookup_insert_Some [[<- <-]|[_ Hk]]%lookup_insert_Some Hjk Hu Hv; [done|..].
    + by apply (Hnew k v Hk Hv).
    + by apply (Hnew j u Hj Hu).
    + by eapply Hap.
  - intros l j Hj. destruct (Hmu l j Hj) as (q' & b & Hj' & Hb). exists q', b. split; [|done]. cbn.
    rewrite lookup_insert_ne; [done|]. intros <-. congruence.
Qed.

Lemma step_sane c c' :
  sane c -> sys_step instances cs qs (admitted cs) c c' -> sane c' /\ since (sp_system c) (sp_system c').
Proof.
  intros Hc Hstep.
  destruct Hstep as [ts h s i q Hq Hi Hadm|c c' Hcall|ts h s|ts h s l].
  - split; [by apply (arrive_sane _ i q Hc)|reflexivity].
  - destruct Hcall as [ts h s i q d k r s' Hi Hlaw|ts h s i l q d k r n' Hi Hd Hlaw
      |ts h s i l q k Hi Hfree|ts h s i l q k Hi].
    + by apply (controller_call_sane _ _ _ _ _ _ _ Hc Hi).
    + by apply (node_call_sane _ _ _ _ _ _ _ _ Hc Hi).
    + split; [by apply (node_lock_sane _ _ _ _ _ Hc Hi)|reflexivity].
    + split; [by apply (node_unlock_sane _ _ _ _ _ Hc Hi)|reflexivity].
  - split; [|reflexivity]. apply (sane_crash _ _ _ _ Hc); [apply (sane_wired _ Hc)|done..].
  - pose proof (sane_wired _ Hc) as Hw. split.
    + apply (sane_crash _ _ _ _ Hc); [by apply wired_put|done|..].
      * intros j u Hu. cbn in Hu. apply (thread_ok_other s _ h _ l); [done|..|by rewrite Hu].
        intros l' Hne. split; [by apply node_at_other|by rewrite lookup_delete_ne].
      * intros l' j [Hne Hj]%lookup_delete_Some. split; [done|]. intros q p. by apply Z.eqb_neq.
    + apply put_since; [done|by apply data_kept_same, handles_equiv|by split; auto].
Qed.

Lemma steps_sane c c' :
  sane c -> rtc (sys_step instances cs qs (admitted cs)) c c' -> sane c' /\ since (sp_system c) (sp_system c').
Proof.
  intros Hc Hsteps. revert Hc. induction Hsteps as [c|c c1 c2 Hstep _ IH]; intros Hc; [by split|].
  destruct (step_sane _ _ Hc Hstep) as [Hc1 H1]. destruct (IH Hc1) as [Hc2 H2]. split; [done|by etransitivity].
Qed.

Lemma idle_sane s : wired s -> sane (idle s).
Proof. by split. Qed.

(** C3. The driver is safe when the controller and the node services run at the same
    time.  Calls of [qs] arrive at any moment, any number of times, each call of a
    handler is a step of its own, under every schedule, whatever fails, and any
    process may crash at any moment; all that is asked is the rule of the CSI
    specification that no two calls in flight are about one volume: a request to
    the controller that creates or changes it, or a staging on a node.  Then, at
    every moment: no two volumes have one label or one device; a volume is gone,
    new, attached, detached or of another size only as some request of [qs] asks;
    whatever was on a volume, in the clear or inside LUKS, is still there, unless a
    request asks to delete it; and on each node nothing is mounted, unmounted,
    opened or closed but what its calls name. *)
Theorem system_contention (s : System) (c : SysPool)
  (Hwired : wired s) (Hsteps : rtc (sys_step instances cs qs (admitted cs)) (idle s) c) :
  wired (sp_system c) /\ since s (sp_system c).
Proof.
  destruct (steps_sane _ _ (idle_sane s Hwired) Hsteps) as [Hc Hs]. split; [apply (sane_wired _ Hc)|exact Hs].
Qed.
End Contention.
