(* ===== verification/SystemProgress.v ===== *)
(** Calls of the controller and the nodes at the same time are all answered: no
    schedule goes on for ever without new calls, and one that can go no further has
    answered every call in flight and left every mutex free.

    None of this needs the rule of the orchestrator: [orderly] is true of any calls. *)
From S2P Require Import Prelude GoStrings Types Errors Metrics Effects LinodeVolumes Sizes Config.
From S2P Require Import Controller ControllerProofs Cloud Csi Interference Refinement Sequences.
From S2P Require Import DeviceManager Luks NodeServer NodeProofs Concurrency NodeWorld NodeSpec NodeRefine NodeSafety.
From S2P Require Import System SystemSafety Crashes Contention NodeContention SystemPool SystemContention.

(** * What a handler ends with *)

Lemma documented_client_ok instances c a r a' tr : documented instances c a r a' -> client_ok tr c r.
Proof.
  intros Hd. destruct c as [q| | | | | | | | | |]; try exact I.
  destruct q as [| | |reg|l|id|o|src label| | |id [l|] t|id st t| |]; cbn in Hd |- *; try done.
  - by destruct Hd.
  - intros ->. destruct Hd as (_ & inst & _ & ?). done.
  - intros ->. by destruct Hd as (_ & [] & _).
  - intros ->. destruct Hd as [[_ ?]|(id & i & _ & _ & _ & _ & _ & _ & [])]. done.
  - intros ->. destruct Hd as [[_ ?]|(id & i & j & _ & _ & _ & _ & _ & _ & _ & [])]. done.
  - intros v ->. destruct Hd as (_ & Ha & Hv). destruct v as [v|]; [by exists v|done].
  - intros ->. by destruct Hd as (_ & []).
Qed.

Lemma handle_no_panic cs q : wp client_ok any_call (handle cs q) no_panic [].
Proof.
  destruct (handlers_no_panic cs) as (H1 & H2 & H3 & H4 & H5 & H6 & H7).
  destruct q as [req|vid|req|req|req|req|req]; cbn [handle]; unfold answering, ebind; apply wp_bind;
    (eapply wp_mono; [first [apply H1|apply H2|apply H3|apply H4|apply H5|apply H6|apply H7]|]);
    intros tr [[e|x]|why] Ho; cbn; unfold no_panic in *; try done; by destruct (Ho why).
Qed.

(** The one panic of a node's handlers. *)
Definition may_panic (q : NodeCall) (why : PanicReason) : Prop :=
  why = IndexOutOfRange /\ exists req, q = CallStage req /\ luks_complete (stage_context req) /\ no_mode (stage_context req).

Definition node_outcome (q : NodeCall) (_ : trace) (o : outcome (goerror + unit)) : Prop :=
  forall why, o = Panicked why -> may_panic q why.

Lemma node_handle_outcome `{DeviceUtilsLaws} q : wp any_env any_call (node_handle q) (node_outcome q) [].
Proof.
  destruct others_never_panic as (H1 & H2 & H3). destruct q as [req|req|req|req]; cbn [node_handle].
  - eapply wp_mono; [apply H1|]. intros tr o Ho why ->. by destruct (Ho why).
  - eapply wp_mono; [apply H2|]. intros tr o Ho why ->. by destruct (Ho why).
  - eapply wp_mono; [apply stage_never_panics_else|]. intros tr o Ho why ->.
    destruct (Ho why eq_refl) as (-> & Hc & Hm & _). split; [done|]. by exists req.
  - eapply wp_mono; [apply H3|]. intros tr o Ho why ->. by destruct (Ho why).
Qed.

(** * Schedules end *)

(** The rest of a thread after its next call was answered. *)
Inductive thread_rest : Thread -> Thread -> Prop :=
| Rest_controller q p' p : rest_of p' p -> thread_rest (AtTheController q p') (AtTheController q p)
| Rest_node l q p' p : rest_of p' p -> thread_rest (AtTheNode l q p') (AtTheNode l q p).

Lemma thread_rest_wf t : Acc thread_rest t.
Proof.
  destruct t as [q p|l q p]; induction (rest_of_wf p) as [p _ IH]; constructor; inversion 1; subst; auto.
Qed.

Definition progress (ts' ts : gmap nat Thread) : Prop :=
  exists i t t', ts !! i = Some t /\ thread_rest t' t /\ ts' = <[i := t']> ts.

Lemma progress_wf ts : Acc progress ts.
Proof.
  induction ts as [|i t ts Hi IH] using map_ind.
  { constructor. intros ts' (i & t & t' & Hi & _). by rewrite lookup_empty in Hi. }
  revert ts IH Hi. induction (thread_rest_wf t) as [t _ IHt]. intros ts Hts. induction Hts as [ts Hacc IHts]. intros Hi.
  constructor. intros ts' (j & u & u' & Hj & Hrest & ->).
  apply lookup_insert_Some in Hj as [[<- <-]|[Hne Hj]].
  - rewrite insert_insert_eq. apply IHt; [done|by constructor|done].
  - rewrite insert_insert_ne by done. apply IHts; [by exists j, u, u'|]. by rewrite lookup_insert_ne.
Qed.

Section Progress.
Context (instances : gmap Z InstInfo) (cs : ControllerServer).
Context {D : DeviceUtils} {HD : DeviceUtilsLaws D}.

Lemma call_step_progress c c' : call_step instances c c' -> progress (sp_threads c') (sp_threads c).
Proof. destruct 1; cbn; do 3 eexists; (split; [eassumption|]); split; try reflexivity; constructor; by do 3 eexists. Qed.

Lemma call_step_wf c : Acc (fun c2 c1 => call_step instances c1 c2) c.
Proof.
  remember (sp_threads c) as ts eqn:Hts. revert c Hts.
  induction (progress_wf ts) as [ts _ IH]. intros c ->. constructor. intros c' Hstep.
  by eapply IH; [apply call_step_progress|].
Qed.

(** * Schedules do not get stuck *)

Lemma cloud_total c s : exists r s', cloud_law instances c s r s'.
Proof.
  destruct (documented_idle instances c (account s)) as [r Hr]. exists r, s. split_and!; [done|by rewrite restock_same|done|].
  intros id i H1 H2. congruence.
Qed.

(** ** What is true of any calls *)

(** What is left of the handler ends as the handler does. *)
Definition ends_well (t : Thread) : Prop :=
  match t with
  | AtTheController _ p => exists tr, wp client_ok any_call p no_panic tr
  | AtTheNode _ q p => exists tr, wp any_env any_call p (node_outcome q) tr
  end.

(** A call of a node has not begun, or is under the mutex of the node. *)
Definition in_turn (h : gmap Z nat) (i : nat) (t : Thread) : Prop :=
  match t with
  | AtTheController _ _ => True
  | AtTheNode l q p => p = node_handle q \/ h !! l = Some i /\ exists b, p = finally b Unlock /\ quiet b
  end.

Record orderly (c : SysPool) : Prop := {
  or_ends : forall i t, sp_threads c !! i = Some t -> ends_well t;
  or_turn : forall i t, sp_threads c !! i = Some t -> in_flight t = true -> in_turn (sp_mutexes c) i t;
  or_mutex : forall l j, sp_mutexes c !! l = Some j -> holds c l j;
}.

Lemma orderly_update c i t t' h' s' :
  orderly c -> sp_threads c !! i = Some t -> ends_well t' -> (in_flight t' = true -> in_turn h' i t') ->
  (forall l j, j <> i -> sp_mutexes c !! l = Some j -> h' !! l = Some j) ->
  (forall l j, h' !! l = Some j -> j <> i /\ sp_mutexes c !! l = Some j \/
     j = i /\ exists q b, t' = AtTheNode l q (finally b Unlock) /\ quiet b) ->
  orderly {| sp_threads := <[i := t']> (sp_threads c); sp_mutexes := h'; sp_system := s' |}.
Proof.
  intros [Hends Hturn Hmu] Hi Ht' Hgo Hkeep Hmutex. split; cbn.
  - intros j u [[<- <-]|[_ Hj]]%lookup_insert_Some; [done|by eapply Hends].
  - intros j u [[<- <-]|[Hne Hj]]%lookup_insert_Some Hu; [by apply Hgo|].
    pose proof (Hturn j u Hj Hu) as Hok. destruct u as [|l q p]; [done|].
    destruct Hok as [->|[Hh Hp]]; [by left|right]. split; [by apply Hkeep|done].
  - intros l j Hj. destruct (Hmutex l j Hj) as [[Hne H]|(-> & q & b & -> & Hb)]; unfold holds; cbn.
    + rewrite lookup_insert_ne by done. by apply Hmu.
    + exists q, b. by rewrite lookup_insert_eq.
Qed.

(** The thread that makes a call other than Lock holds its mutex. *)
Lemma turn_caller c i l q d k :
  orderly c -> sp_threads c !! i = Some (AtTheNode l q (Call d k)) -> d <> Lock ->
  sp_mutexes c !! l = Some i /\ exists b, Call d k = finally b Unlock /\ quiet b.
Proof.
  intros Hc Hi Hd. destruct (or_turn _ Hc _ _ Hi eq_refl) as [Hp|H]; [|exact H].
  destruct (node_body q) as (b & Hq & _). rewrite Hq in Hp. by apply eq_sym, locked_calls in Hp.
Qed.

(** The thread that asks for the mutex begins its call. *)
Lemma turn_begins c i l q (k : resp Lock -> prog (goerror + unit)) :
  orderly c -> sp_threads c !! i = Some (AtTheNode l q (Call Lock k)) -> sp_mutexes c !! l = None ->
  exists b, k tt = finally b Unlock /\ quiet b.
Proof.
  intros Hc Hi Hfree. destruct (or_turn _ Hc _ _ Hi eq_refl) as [Hp|[Hh _]]; [|congruence].
  destruct (node_body q) as (b & Hq & Hquiet & _). rewrite Hq in Hp. exists b. by rewrite (locked_starts _ _ (eq_sym Hp)).
Qed.

(** A thread that does not hold the mutex of its node has it neither before nor after. *)
Lemma not_held c i t l j : orderly c -> sp_threads c !! i = Some t ->
  (forall q b, t <> AtTheNode l q (finally b Unlock)) -> sp_mutexes c !! l = Some j -> j <> i.
Proof. intros Hc Hi Ht Hj ->. destruct (or_mutex _ Hc _ _ Hj) as (q & b & Hb & _). rewrite Hi in Hb. injection Hb as ->. by eapply Ht. Qed.

Lemma call_step_orderly c c' : orderly c -> call_step instances c c' -> orderly c'.
Proof.
  intros Hc Hstep. destruct Hstep as [ts h s i q d k r s' Hi Hlaw|ts h s i l q d k r n' Hi Hd Hlaw
    |ts h s i l q k Hi Hfree|ts h s i l q k Hi]; pose proof (or_ends _ Hc _ _ Hi) as [tr [_ Hwp]].
  - apply (orderly_update _ _ _ _ _ _ Hc Hi); try done.
    + eexists. eapply Hwp, documented_client_ok, Hlaw.
    + intros l j Hj. left. split; [|done]. by eapply not_held.
  - destruct (turn_caller _ _ _ _ _ _ Hc Hi ltac:(by destruct Hd)) as (Hh & b & Hb & Hquiet).
    destruct (finally_goes_on _ _ _ (eq_sym Hb) Hd) as (k' & -> & ->). destruct Hquiet as [_ Hquiet].
    apply (orderly_update _ _ _ _ _ _ Hc Hi); try done.
    + eexists. by apply Hwp.
    + intros _. right. split; [done|]. by exists (k' r).
    + intros l' j Hj. destruct (decide (j = i)) as [->|]; [right|by left]. split; [done|].
      destruct (or_mutex _ Hc _ _ Hj) as (q' & b & Hi' & _). cbn in Hi'. rewrite Hi in Hi'. injection Hi' as -> _ _.
      by exists q, (k' r).
  - destruct (turn_begins _ _ _ _ _ Hc Hi Hfree) as (b & Hk & Hquiet). cbn in Hfree.
    apply (orderly_update _ _ _ _ _ _ Hc Hi); cbn.
    + eexists. by apply (Hwp tt).
    + intros _. right. rewrite lookup_insert_eq. split; [done|]. by exists b.
    + intros l' j _ Hj. rewrite lookup_insert_ne; [done|]. intros <-. congruence.
    + intros l' j [[<- <-]|[Hne Hj]]%lookup_insert_Some; [right|left].
      * split; [done|]. exists q, b. by rewrite Hk.
      * split; [|done]. intros ->. destruct (or_mutex _ Hc _ _ Hj) as (q' & b' & Hi' & _). cbn in Hi'. congruence.
  - destruct (turn_caller _ _ _ _ _ _ Hc Hi ltac:(done)) as (Hh & b & Hb & Hquiet). cbn in Hh.
    destruct (finally_ends _ _ (eq_sym Hb) Hquiet) as (o & _ & Hend).
    apply (orderly_update _ _ _ _ _ _ Hc Hi); cbn.
    + eexists. by apply (Hwp tt).
    + rewrite Hend. by destruct o.
    + intros l' j Hne Hj. rewrite lookup_delete_ne; [done|]. intros <-. congruence.
    + intros l' j [Hne Hj]%lookup_delete_Some. left. split; [|done]. intros ->.
      destruct (or_mutex _ Hc _ _ Hj) as (q2 & b2 & Hi2 & _). cbn in Hi2. congruence.
Qed.

(** Fewer threads, and the mutexes of those that are left. *)
Lemma orderly_crash c (P : nat * Thread -> Prop) `{forall x, Decision (P x)} h' s' :
  orderly c -> (forall l j q p, P (j, AtTheNode l q p) -> h' !! l = sp_mutexes c !! l) ->
  (forall l j, h' !! l = Some j -> sp_mutexes c !! l = Some j /\ forall q p, P (j, AtTheNode l q p)) ->
  orderly {| sp_threads := filter P (sp_threads c); sp_mutexes := h'; sp_system := s' |}.
Proof.
  intros [Hends Hturn Hmu] Hsame Hmutex. split; cbn.
  - intros i t [Hi _]%map_lookup_filter_Some. by eapply Hends.
  - intros i t [Hi HP]%map_lookup_filter_Some Ht. pose proof (Hturn i t Hi Ht) as Hok.
    destruct t as [|l q p]; [done|]. cbn in Hok |- *. by rewrite (Hsame _ _ _ _ HP).
  - intros l j Hj. destruct (Hmutex l j Hj) as [Hj' HP]. destruct (Hmu l j Hj') as (q & b & Hq & Hb).
    exists q, b. split; [|done]. by apply map_lookup_filter_Some.
Qed.

Lemma begin_ends_well q : ends_well (begin cs q).
Proof. destruct q; exists []; [apply handle_no_panic|apply node_handle_outcome]. Qed.

Lemma step_orderly qs rule c c' : orderly c -> sys_step instances cs qs rule c c' -> orderly c'.
Proof.
  intros Hc Hstep. destruct Hstep as [ts h s i q Hq Hi Hrule|c c' Hcall|ts h s|ts h s l].
  - destruct Hc as [Hends Hturn Hmu]. split; cbn in *.
    + intros j u [[<- <-]|[_ Hj]]%lookup_insert_Some; [apply begin_ends_well|by eapply Hends].
    + intros j u [[<- <-]|[_ Hj]]%lookup_insert_Some Hu; [|by apply Hturn]. destruct q as [q|l q]; cbn; [done|by left].
    + intros l j Hj. destruct (Hmu l j Hj) as (q' & b & Hj' & Hb). exists q', b. split; [|done]. cbn in *.
      rewrite lookup_insert_ne; [done|]. intros <-. congruence.
  - by eapply call_step_orderly.
  - apply (orderly_crash _ _ _ _ Hc); done.
  - apply (orderly_crash _ _ _ _ Hc); cbn.
    + intros l' j q p Hl. rewrite lookup_delete_ne; [done|]. by apply Z.eqb_neq.
    + intros l' j [Hne Hj]%lookup_delete_Some. split; [done|]. intros q p. by apply Z.eqb_neq.
Qed.

Lemma idle_orderly s : orderly (idle s).
Proof. by split. Qed.

(** ** Steps there are *)

Lemma call_step_exists c i t :
  orderly c -> sp_threads c !! i = Some t -> in_flight t = true -> exists c', call_step instances c c'.
Proof.
  intros Hc Hi Hfl.
  assert (forall l j, sp_mutexes c !! l = Some j -> exists c', call_step instances c c') as Hholder.
  { intros l j Hj. destruct (or_mutex _ Hc l j Hj) as (q & b & Hb & Hquiet). destruct c as [ts h s].
    destruct b as [a|why|d k]; cbn in Hb.
    - eexists. by eapply Node_unlock.
    - eexists. by eapply Node_unlock.
    - destruct Hquiet as [Hd _]. destruct (node_idle d (node_at l s)) as (r & n' & Hr & _).
      eexists. by eapply Node_call. }
  pose proof (or_turn _ Hc _ _ Hi Hfl) as Hok. destruct t as [q [a|why|d k]|l q p]; try done.
  - destruct c as [ts h s]. destruct (cloud_total d s) as (r & s' & Hr). eexists. by eapply Controller_call.
  - destruct Hok as [Hp|[Hh _]]; [|by eapply Hholder].
    destruct (sp_mutexes c !! l) as [j|] eqn:Hh; [by eapply Hholder|]. destruct c as [ts h s].
    destruct (node_body q) as (b & Hq & _). rewrite Hq in Hp. subst p.
    eexists. by eapply (Node_lock _ ts h s i l q (fun _ => finally b Unlock)).
Qed.

(** * Every call is answered *)

(** The call has returned; a staging may have panicked. *)
Definition answered (t : Thread) : Prop :=
  match t with
  | AtTheController _ p => exists a, p = Ret a
  | AtTheNode _ q p => (exists a, p = Ret a) \/ exists why, p = Panic why /\ may_panic q why
  end.

Lemma ended_answered t : ends_well t -> in_flight t = false -> answered t.
Proof.
  destruct t as [q p|l q p]; intros [tr Hwp]; destruct p as [a|why|c k]; try done; cbn in *.
  - by exists a.
  - by destruct (Hwp why).
  - left. by exists a.
  - right. exists why. split; [done|by apply Hwp].
Qed.

Lemma call_step_keeps c c' i t :
  call_step instances c c' -> sp_threads c !! i = Some t ->
  exists t', sp_threads c' !! i = Some t' /\ serves t' = serves t.
Proof.
  destruct 1 as [ts h s j q d k r s' Hj _|ts h s j l q d k r n' Hj _ _|ts h s j l q k Hj _|ts h s j l q k Hj];
    cbn in *; intros Hi; (destruct (decide (j = i)) as [<-|Hne];
      [rewrite Hj in Hi; injection Hi as <-; eexists; by rewrite lookup_insert_eq
      |exists t; by rewrite lookup_insert_ne]).
Qed.

Lemma call_steps_keep c c' :
  rtc (call_step instances) c c' -> orderly c ->
  orderly c' /\ forall i t, sp_threads c !! i = Some t -> exists t', sp_threads c' !! i = Some t' /\ serves t' = serves t.
Proof.
  induction 1 as [c|c c1 c' Hstep _ IH]; intros Hc; [split; [done|by eauto]|].
  destruct (IH (call_step_orderly _ _ Hc Hstep)) as [Hc' Hkeep]. split; [done|]. intros i t Hi.
  destruct (call_step_keeps _ _ _ _ Hstep Hi) as (t1 & Hi1 & E1). destruct (Hkeep _ _ Hi1) as (t' & Hi' & E').
  exists t'. split; [done|congruence].
Qed.

(** C19. Every call is answered, as long as no process crashes while it is in flight.  Calls of
    the controller and the nodes come at any moment, any number of them, about the
    same volumes or not, whatever fails, and processes may have crashed before.
    From every moment of every schedule: the steps of the calls in flight come to
    an end, each handler being a finite program; and however they are scheduled,
    when none is left, then no node's mutex is held, so that none deadlocks, and
    every call has returned an answer to its request, but for a staging with a
    cipher that has no mode, which may have panicked. *)
Theorem system_progress (qs : list SysCall) (rule : SysPool -> SysCall -> Prop) (s : System) (c : SysPool)
  (Hsteps : rtc (sys_step instances cs qs rule) (idle s) c) :
  Acc (fun c2 c1 => call_step instances c1 c2) c /\
  forall c', rtc (call_step instances) c c' -> nf (call_step instances) c' ->
    sp_mutexes c' = ∅ /\
    forall i t, sp_threads c !! i = Some t ->
      exists t', sp_threads c' !! i = Some t' /\ serves t' = serves t /\ answered t'.
Proof.
  split; [apply call_step_wf|]. intros c' Hcalls Hstop.
  assert (orderly c) as Hc.
  { eapply (rtc_ind_r orderly); [apply idle_orderly| |exact Hsteps]. intros; by eapply step_orderly. }
  destruct (call_steps_keep _ _ Hcalls Hc) as [Hc' Hkeep].
  assert (forall i t, sp_threads c' !! i = Some t -> in_flight t = false) as Hended.
  { intros i t Hi. apply not_true_is_false. intros Ht. apply Hstop. by eapply call_step_exists. }
  split.
  - apply map_empty. intros l. destruct (sp_mutexes c' !! l) as [j|] eqn:Hj; [|done].
    destruct (or_mutex _ Hc' _ _ Hj) as (q & b & Hb & _). specialize (Hended _ _ Hb). by destruct b.
  - intros i t Hi. destruct (Hkeep _ _ Hi) as (t' & Hi' & E). exists t'. split_and!; [done..|].
    by eapply ended_answered; [eapply (or_ends _ Hc')|eapply Hended].
Qed.
End Progress.
