(* ===== verification/SystemRaces.v ===== *)
(** Concrete schedules of the whole driver: moves that can be computed, calls at the
    same time that keep to the orchestrator's rule, calls that do not, and what can
    happen to data then. *)
From S2P Require Import Prelude GoStrings Types Errors Metrics Effects LinodeVolumes Sizes Config.
From S2P Require Import Controller ControllerProofs Cloud Csi Interference Refinement Sequences Lifecycle MemoryApi.
From S2P Require Import DeviceManager Luks NodeServer NodeProofs Concurrency NodeWorld NodeSpec NodeRefine NodeSafety.
From S2P Require Import NodeLifecycle MemoryNode System SystemSafety Crashes SystemLifecycle SystemExamples.
From S2P Require Import Interleaving Contention NodeContention SystemPool SystemContention SystemProgress.

(** * Moves *)

Inductive Move :=
| Come (i : nat) (q : SysCall)
| Go (i : nat)
| CrashController
| CrashNode (l : Z).

Section Play.
Context (instances : gmap Z InstInfo) (cs : ControllerServer) (rule : SysPool -> SysCall -> bool).

(** One step, with the API and the nodes in memory. *)
Definition play (m : Move) (c : SysPool) : option SysPool :=
  let '{| sp_threads := ts; sp_mutexes := h; sp_system := s |} := c in
  match m with
  | Come i q =>
      if rule c q then
        match ts !! i with
        | None => Some {| sp_threads := <[i := begin cs q]> ts; sp_mutexes := h; sp_system := s |}
        | Some _ => None
        end
      else None
  | Go i =>
      match ts !! i with
      | Some (AtTheController q (Call d k)) =>
          let '(r, s') := memory_cloud instances d s in
          Some {| sp_threads := <[i := AtTheController q (k r)]> ts; sp_mutexes := h; sp_system := s' |}
      | Some (AtTheNode l q (Call d k)) =>
          match d return (resp d -> prog (goerror + unit)) -> option SysPool with
          | Lock => fun k =>
              match h !! l with
              | None => Some {| sp_threads := <[i := AtTheNode l q (k tt)]> ts; sp_mutexes := <[l := i]> h; sp_system := s |}
              | Some _ => None
              end
          | Unlock => fun k =>
              Some {| sp_threads := <[i := AtTheNode l q (k tt)]> ts; sp_mutexes := delete l h; sp_system := s |}
          | d => fun k =>
              let '(r, n') := memory_node d (node_at l s) in
              Some {| sp_threads := <[i := AtTheNode l q (k r)]> ts; sp_mutexes := h; sp_system := put_node l n' s |}
          end k
      | _ => None
      end
  | CrashController =>
      Some {| sp_threads := filter (fun kv => on_controller kv.2 = false) ts; sp_mutexes := h; sp_system := s |}
  | CrashNode l =>
      Some {| sp_threads := filter (fun kv => on_node l kv.2 = false) ts; sp_mutexes := delete l h;
              sp_system := forget_handles l s |}
  end.

Fixpoint play_all (ms : list Move) (c : SysPool) : option SysPool :=
  match ms with
  | [] => Some c
  | m :: ms => match play m c with Some c' => play_all ms c' | None => None end
  end.

Definition calls (ms : list Move) : list SysCall :=
  omap (fun m => match m with Come _ q => Some q | _ => None end) ms.

Context (law : SysPool -> SysCall -> Prop) (Hrule : forall c q, rule c q = true -> law c q).

Lemma go_step i c c' : play (Go i) c = Some c' -> call_step instances c c'.
Proof.
  destruct c as [ts h s]. cbn. destruct (ts !! i) as [[q [a|why|d k]|l q [a|why|d k]]|] eqn:Hi; try done.
  - pose proof (memory_cloud_law instances d s) as Hlaw. destruct (memory_cloud instances d s) as [r s'].
    intros [= <-]. by eapply Controller_call.
  - pose proof (memory_node_documented d (node_at l s)) as Hlaw.
    assert (no_mutex d -> forall c', (let '(r, n') := memory_node d (node_at l s) in
      Some {| sp_threads := <[i := AtTheNode l q (k r)]> ts; sp_mutexes := h; sp_system := put_node l n' s |}) = Some c' ->
      call_step instances {| sp_threads := ts; sp_mutexes := h; sp_system := s |} c') as Hcall.
    { intros Hd c2. destruct (memory_node d (node_at l s)) as [r n']. intros [= <-]. by eapply Node_call. }
    destruct d; try (by apply Hcall).
    + destruct (h !! l) eqn:Hh; [done|]. intros [= <-]. by apply Node_lock.
    + intros [= <-]. by apply Node_unlock.
Qed.

Lemma go_all_steps turns c c' : play_all (Go <$> turns) c = Some c' -> rtc (call_step instances) c c'.
Proof.
  revert c. induction turns as [|i turns IH]; intros c; cbn [fmap list_fmap play_all]; [by intros [= ->]|].
  destruct (play (Go i) c) as [c1|] eqn:Hc; [|done]. intros H. eapply rtc_l; [by eapply go_step|by apply IH].
Qed.

Lemma play_step qs m c c' :
  (forall i q, m = Come i q -> q ∈ qs) -> play m c = Some c' -> sys_step instances cs qs law c c'.
Proof.
  intros Hqs. destruct m as [i q|i| |l]; [|intros H; by eapply Called, go_step|..]; destruct c as [ts h s]; cbn.
  - destruct (rule _ q) eqn:Hr; [|done]. destruct (ts !! i) as [t|] eqn:Hi; [done|]. intros [= <-].
    apply Arrive; [by eapply Hqs|done|by apply Hrule].
  - intros [= <-]. apply Controller_crash.
  - intros [= <-]. apply Node_crash.
Qed.

Lemma play_all_steps qs ms c c' :
  (forall q, q ∈ calls ms -> q ∈ qs) -> play_all ms c = Some c' -> rtc (sys_step instances cs qs law) c c'.
Proof.
  revert c. induction ms as [|m ms IH]; intros c Hqs; cbn; [by intros [= ->]|].
  destruct (play m c) as [c1|] eqn:Hc; [|done]. intros H.
  assert (forall q, q ∈ calls ms -> q ∈ qs) as Hrest.
  { intros q Hq. apply Hqs. destruct m; [by apply list_elem_of_further|done..]. }
  eapply rtc_l; [|by apply IH]. apply (play_step qs m); [|done]. intros i q ->. apply Hqs, list_elem_of_here.
Qed.
End Play.

(** * The rule, computed *)

(** The devices of the volume that the call is about. *)
Definition changed_id (q : Request) : option Z :=
  match q with
  | ReqDelete vid => parsed id (VolumeIdAsInt "DeleteVolume" vid)
  | ReqPublish req => parsed id (VolumeIdAsInt "ControllerPublishVolume" (cp_VolumeId req))
  | ReqUnpublish req => parsed id (VolumeIdAsInt "ControllerUnpublishVolume" (cu_VolumeId req))
  | ReqExpand req => parsed id (VolumeIdAsInt "ControllerExpandVolume" (ce_VolumeId req))
  | ReqCreate _ | ReqValidate _ | ReqList _ => None
  end.

Section Rule.
Context (cs : ControllerServer) {D : DeviceUtils}.

Definition about_paths (a : Account) (q : SysCall) : list string :=
  match q with
  | ToController q =>
      option_list (vi_Path <$> (changed_id q ≫= fun id => a !! id)) ++
      option_list (device_path <$> created_label cs q)
  | ToNode _ (CallStage req) =>
      match ParseLinodeVolumeKey (ns_VolumeId req) with
      | inr key => GetDiskByIdPaths (GetNormalizedLabel key) (map_get (ns_VolumeContext req) "partition")
      | inl _ => []
      end
  | ToNode _ _ => []
  end.

Lemma about_listed a q path : about cs a q path -> path ∈ about_paths a q.
Proof.
  destruct q as [q|l q]; cbn.
  - intros [(id & i & Hc & Hi & <-)|(label & (req & -> & ->) & ->)]; apply elem_of_app; [left|right; cbn; set_solver].
    assert (changed_id q = Some id) as ->.
    { destruct Hc as [(l & req & -> & _ & E)|[(req & -> & E)|[(vid & -> & E)|(gb & req & size & -> & E & _)]]];
        cbn; by rewrite E. }
    cbn. rewrite Hi. cbn. set_solver.
  - intros (req & -> & key & -> & Hp). exact Hp.
Qed.

Definition admits (c : SysPool) (q : SysCall) : bool :=
  let a := account (sp_system c) in
  forallb (fun it => negb (in_flight it.2) ||
    bool_decide (Forall (fun path => path ∉ about_paths a (serves it.2)) (about_paths a q)))
  (map_to_list (sp_threads c)).

Lemma admits_admitted c q : admits c q = true -> admitted cs c q.
Proof.
  unfold admits. rewrite forallb_forall. intros H i t path Hi Hf Hq Ht.
  assert (In (i, t) (map_to_list (sp_threads c))) as Hin by by apply list_elem_of_In, elem_of_map_to_list.
  specialize (H _ Hin). cbn in H. rewrite Hf in H. cbn in H. apply bool_decide_eq_true in H.
  rewrite list.Forall_forall in H. by apply (H path); apply about_listed.
Qed.
End Rule.

(** * Calls at the same time that keep to the rule *)

Definition stage_of (l : Z) (vid staging : string) (context : gmap string string) : SysCall :=
  ToNode l (CallStage (ex_stage_of vid staging context)).
Definition attach_8 (l : string) : SysCall :=
  ToController (ReqPublish {| cp_VolumeId := "8-pvc-8"; cp_NodeId := l; cp_VolumeCapability := Some ex_capability |}).
Definition detach_8 (l : string) : SysCall :=
  ToController (ReqUnpublish {| cu_VolumeId := "8-pvc-8"; cu_NodeId := l |}).

(** A volume is staged while another is created and a third call waits for the mutex
    of the node; the node crashes when the LUKS header is written, and the call
    that waited is made again. *)
Definition busy_moves : list Move :=
  ([Come 0 (stage_of 42 "8-pvc-8" "/staging/8" (ex_luks_context "pvc-8"));
    Come 1 (ToController (ReqCreate ex_claim)); Go 0; Come 2 (stage_of 42 "7-pvc-7" "/staging/7" ∅)] ++
   concat (replicate 3 [Go 0; Go 1]) ++ replicate 6 (Go 0) ++ [CrashNode 42] ++
   Come 3 (stage_of 42 "7-pvc-7" "/staging/7" ∅) :: replicate 9 (Go 3) ++ [Go 1])%nat.

Definition busy_end : SysPool :=
  default (idle ex_before_crash) (play_all ex_instances ex_cs (admits ex_cs) busy_moves (idle ex_before_crash)).

Lemma busy_runs :
  rtc (sys_step ex_instances ex_cs (calls busy_moves) (admitted ex_cs)) (idle ex_before_crash) busy_end.
Proof.
  apply (play_all_steps _ _ (admits ex_cs) _ (admits_admitted ex_cs) _ busy_moves); [done|].
  vm_compute. reflexivity.
Qed.

Lemma system_contention_witness :
  (store (sp_system busy_end) = {[7 := Known "ext4"; 8 := LuksData "secret" [] None; 9 := Empty]} /\
   sp_threads busy_end !! 3%nat = Some (AtTheNode 42 (CallStage (ex_stage_of "7-pvc-7" "/staging/7" ∅)) (Ret (inr tt)))) /\
  wired (sp_system busy_end) /\ since ex_cs (calls busy_moves) ex_before_crash (sp_system busy_end).
Proof.
  split; [vm_compute; split; reflexivity|].
  exact (system_contention ex_instances ex_cs (calls busy_moves) ex_before_crash busy_end ex_crash_wired busy_runs).
Defined.

(** * Calls of one volume at the same time *)

(** A staging and its repetition, and the detaching of the volume, all at once. *)
Definition rude_moves : list Move :=
  [Come 0 (stage_of 42 "8-pvc-8" "/staging/8" (ex_luks_context "pvc-8")); Come 1 (detach_8 "42"); Go 0;
   Come 2 (stage_of 42 "8-pvc-8" "/staging/8" (ex_luks_context "pvc-8")); Go 0; Go 1; Go 0]%nat.

Definition rude_middle : SysPool :=
  default (idle ex_before_crash) (play_all ex_instances ex_cs (fun _ _ => true) rude_moves (idle ex_before_crash)).

Definition rude_rest : list nat := (replicate 3 1 ++ replicate 4 0 ++ replicate 7 2)%nat.

Definition rude_end : SysPool :=
  default rude_middle (play_all ex_instances ex_cs (fun _ _ => true) (Go <$> rude_rest) rude_middle).

Lemma rude_runs :
  rtc (sys_step ex_instances ex_cs (calls rude_moves) (fun _ _ => True)) (idle ex_before_crash) rude_middle.
Proof. apply (play_all_steps _ _ (fun _ _ => true) _ (fun _ _ _ => I) _ rude_moves); [done|]. vm_compute. reflexivity. Qed.

Lemma rude_goes : rtc (call_step ex_instances) rude_middle rude_end.
Proof. apply (go_all_steps _ ex_cs (fun _ _ => true) rude_rest). vm_compute. reflexivity. Qed.

Lemma ended_stops instances c :
  forallb (fun it => negb (in_flight it.2)) (map_to_list (sp_threads c)) = true -> nf (call_step instances) c.
Proof.
  rewrite forallb_forall. intros Hall [c' Hstep].
  assert (forall i t, sp_threads c !! i = Some t -> in_flight t = false) as Hended.
  { intros i t Hi. apply elem_of_map_to_list, list_elem_of_In, Hall in Hi. by apply negb_true_iff. }
  destruct Hstep; cbn in *; by lazymatch goal with H : _ !! _ = Some _ |- _ => apply Hended in H end.
Qed.

Lemma rude_stops : nf (call_step ex_instances) rude_end.
Proof. apply ended_stops. vm_compute. reflexivity. Qed.

Lemma system_progress_witness :
  (sp_mutexes rude_middle !! 42 = Some 0%nat /\ (in_flight <$> sp_threads rude_middle !! 2%nat) = Some true) /\
  Acc (fun c2 c1 => call_step ex_instances c1 c2) rude_middle /\ sp_mutexes rude_end = ∅ /\
  forall i t, sp_threads rude_middle !! i = Some t ->
    exists t', sp_threads rude_end !! i = Some t' /\ serves t' = serves t /\ answered t'.
Proof.
  split; [vm_compute; split; reflexivity|].
  destruct (system_progress ex_instances ex_cs (calls rude_moves) (fun _ _ => True) ex_before_crash rude_middle rude_runs)
    as [Hacc Hend].
  split; [exact Hacc|exact (Hend rude_end rude_goes rude_stops)].
Defined.

(** * Calls at the same time that break the rule *)

Definition two_nodes : gmap Z InstInfo :=
  {[42 := {| ii_Label := "node"; ii_Region := "us-east"; ii_Specs := {| Memory := 4096 |}; ii_Disks := 1 |};
    43 := {| ii_Label := "other"; ii_Region := "us-east"; ii_Specs := {| Memory := 4096 |}; ii_Disks := 1 |}]}.

(** A staging on one node stops after blkid; the volume is moved to another node,
    staged there, and moved back. *)
Definition moved_moves : list Move :=
  (Come 0 (stage_of 42 "8-pvc-8" "/staging/8" (ex_luks_context "pvc-8")) :: replicate 8 (Go 0) ++
   Come 1 (detach_8 "42") :: replicate 4 (Go 1) ++ Come 2 (attach_8 "43") :: replicate 7 (Go 2) ++
   Come 3 (stage_of 43 "8-pvc-8" "/staging/8" ∅) :: replicate 9 (Go 3) ++
   Come 4 (detach_8 "43") :: replicate 4 (Go 4) ++ Come 5 (attach_8 "42") :: replicate 7 (Go 5))%nat.

Definition played (ms : list Move) (c : SysPool) : SysPool :=
  default c (play_all two_nodes ex_cs (fun _ _ => true) ms c).
Definition moved_there : SysPool := played moved_moves (idle ex_before_crash).
Definition moved_end : SysPool := played [Go 0; Go 0]%nat moved_there.

(** C24. The rule of the orchestrator is needed: NodeStageVolume asks blkid what is on
    the device and formats it for LUKS a call later, and nothing keeps the volume
    where it is in between.  There is a schedule in which a staging on one node
    finds a volume empty; the volume is then detached, attached to another node,
    staged there, which makes a file system on it, and attached again to the first,
    every call succeeding; and the staging that had stopped formats the volume. *)
Theorem stage_race :
  rtc (sys_step two_nodes ex_cs (calls moved_moves) (fun _ _ => True)) (idle ex_before_crash) moved_there /\
  rtc (sys_step two_nodes ex_cs (calls moved_moves) (fun _ _ => True)) moved_there moved_end /\
  (forall i t, sp_threads moved_there !! i = Some t -> i <> 0%nat ->
     match t with AtTheController _ p => exists a, p = Ret (inr a) | AtTheNode _ _ p => p = Ret (inr tt) end) /\
  stored (sp_system moved_there) 8 = Known "ext4" /\ stored (sp_system moved_end) 8 = LuksData "secret" [] None.
Proof.
  assert (forall ms c c', (forall q, q ∈ calls ms -> q ∈ calls moved_moves) ->
    play_all two_nodes ex_cs (fun _ _ => true) ms c = Some c' ->
    rtc (sys_step two_nodes ex_cs (calls moved_moves) (fun _ _ => True)) c c') as Hruns
    by (intros ms c c'; by apply play_all_steps).
  split_and!; [apply (Hruns moved_moves); [done|vm_compute; reflexivity]
              |apply (Hruns [Go 0; Go 0]%nat); [set_solver|vm_compute; reflexivity]| |vm_compute; reflexivity..].
  intros i t Hi Hne.
  assert (forallb (fun it => bool_decide (it.1 = 0%nat) ||
    match it.2 with
    | AtTheController _ (Ret (inr _)) | AtTheNode _ _ (Ret (inr tt)) => true
    | _ => false
    end) (map_to_list (sp_threads moved_there)) = true) as Hall by (vm_compute; reflexivity).
  rewrite forallb_forall in Hall. apply elem_of_map_to_list, list_elem_of_In, Hall in Hi. cbn in Hi.
  rewrite bool_decide_false in Hi by done. destruct t as [q [[|a]| |]|l q [[|[]]| |]]; try done. by exists a.
Qed.
