(* ===== verification/Metadata.v ===== *)
(** internal/driver/metadata.go: what the driver knows of the instance it runs on,
    from the metadata service or else from the Linode API. *)
From S2P Require Import Prelude GoStrings Types Errors Metrics Effects Sizes Config.

Definition errNilClient : goerror := ENew "nil client".
Definition LinodeIDPath : string := "/linode-info/linode-id".

(** [client_is_nil]: the client passed is nil. *)
Definition GetMetadata (client_is_nil : bool) : eprog Metadata :=
  if client_is_nil then throw errNilClient
  else
    let? data := call (Host Sys.MetadataGetInstance)
      else fun err => throw (EErrorf "get instance data: %w" [AErr (EMeta err)]) in
    let* data := deref data in
    ok {| md_ID := id_ID data;
          md_Label := id_Label data;
          md_Region := id_Region data;
          md_Memory := memoryToBytes (id_Memory data) |}.

Definition GetMetadataFromAPI (client_is_nil : bool) : eprog Metadata :=
  if client_is_nil then throw errNilClient
  else
    let* err := call (Fs (FS.Stat LinodeIDPath)) in
    match err with
    | Some err => throw (EErrorf "stat %s: %w" [AStr LinodeIDPath; AErr (EOs err)])
    | None =>
        let? fileObj := call (Fs (FS.Open LinodeIDPath))
          else fun err => throw (EErrorf "open: %w" [AErr (EOs err)]) in
        finally (
          let? data := call (Fs (FS.ReadLimit fileObj (Z.shiftl 1 10)))
            else fun err => throw (EErrorf "read all: %w" [AErr (EOs err)]) in
          match Atoi data with
          | inl err => throw (EErrorf "atoi: %w" [AErr (ENum data err)])
          | inr linodeID =>
              let? instance := api (Client.GetInstance linodeID)
                else fun err => throw (EErrorf "get instance: %w" [AErr (EApi err)]) in
              let* instance := deref instance in
              let memory := match i_Specs instance with
                            | Some specs => memoryToBytes (Memory specs)
                            | None => minMemory
                            end in
              ok {| md_ID := linodeID;
                    md_Label := i_Label instance;
                    md_Region := i_Region instance;
                    md_Memory := memory |}
          end)
        (Fs (FS.Close fileObj))
    end.

(** A client that cannot be created is set to nil, and the service is not asked. *)
Definition GetNodeMetadata (cloudProvider_is_nil : bool) : eprog Metadata :=
  let* err := call (Host Sys.NewMetadataClient) in
  let* fromService :=
    match err with
    | Some err => Ret (inl (EMeta err))
    | None => GetMetadata false
    end in
  let! nodeMetadata :=
    match fromService with
    | inr m => ok m
    | inl _ =>
        let? m := GetMetadataFromAPI cloudProvider_is_nil
          else fun err => throw (EErrorf "failed to get metadata from API: %w" [AErr err]) in
        ok m
    end in
  if md_ID nodeMetadata =? 0 then throw (ENew "failed to obtain valid node metadata")
  else ok nodeMetadata.

#[export] Hint Unfold GetMetadata GetMetadataFromAPI GetNodeMetadata : prog.

(** * Properties *)

(** An amount of memory that some instance can have, in MB. *)
Definition sane_memory (mb : Z) : Prop := - 2 ^ 63 <= mb < 2 ^ 44.

Lemma memoryToBytes_spec mb : sane_memory mb ->
  memoryToBytes mb = if mb <? 1024 then 2 ^ 30 else mb * 2 ^ 20.
Proof.
  intros H. unfold memoryToBytes, minMemory. change (Z.shiftl 1 10) with 1024.
  destruct (mb <? 1024) eqn:E; [done|]. zify_bool. unfold sane_memory in H.
  rewrite (wrapu64_id mb) by (unfold is_uint64; lia).
  rewrite Z.shiftl_mul_pow2 by lia. apply wrapu64_id. unfold is_uint64. lia.
Qed.

(** Where metadata comes from. *)
Definition from_service (tr : trace) (m : Metadata) : Prop :=
  exists data, Event (Host Sys.MetadataGetInstance) (inr (Some data)) ∈ tr /\
    md_ID m = id_ID data /\ md_Label m = id_Label data /\ md_Region m = id_Region data /\
    md_Memory m = memoryToBytes (id_Memory data).

Definition from_api (tr : trace) (m : Metadata) : Prop :=
  exists file text i,
    Event (Fs (FS.Open LinodeIDPath)) (inr file) ∈ tr /\
    Event (Fs (FS.ReadLimit file 1024)) (inr text) ∈ tr /\
    Atoi text = inr (md_ID m) /\
    Event (Api (Client.GetInstance (md_ID m))) (inr (Some i)) ∈ tr /\
    (exists r, Event (Fs (FS.Close file)) r ∈ tr) /\
    md_Label m = i_Label i /\ md_Region m = i_Region i /\
    md_Memory m = match i_Specs i with Some s => memoryToBytes (Memory s) | None => 2 ^ 30 end.

Definition service_failed (tr : trace) : Prop :=
  (exists e, Event (Host Sys.NewMetadataClient) (Some e) ∈ tr) \/
  (exists e, Event (Host Sys.MetadataGetInstance) (inl e) ∈ tr).

Definition is_api (e : event) : bool := match e with Event (Api _) _ => true | _ => false end.

Lemma memory_at_least_1GiB mb : sane_memory mb -> 2 ^ 30 <= memoryToBytes mb.
Proof. intros H. rewrite memoryToBytes_spec by done. case_if; zify_bool; lia. Qed.

(** C38. GetNodeMetadata prefers the metadata service and never mixes sources: it
    answers with a nonzero ID and with the service's data, without touching the
    API; or, only if the service failed, with the API's record of the instance
    whose ID is the number in the file left by the init container, of which at
    most 1 KiB is read and which it closes.  The memory is that of the record in
    bytes, and never less than 1 GiB. *)
Theorem node_metadata (client_is_nil : bool) :
  every_run (GetNodeMetadata client_is_nil) (fun tr o =>
    match o with
    | Done (inr m) =>
        md_ID m <> 0 /\
        ((from_service tr m /\ existsb is_api tr = false) \/ (from_api tr m /\ service_failed tr))
    | _ => True
    end) /\
  (forall mb, sane_memory mb ->
     memoryToBytes mb = (if mb <? 1024 then 2 ^ 30 else mb * 2 ^ 20) /\ 2 ^ 30 <= memoryToBytes mb).
Proof.
  split; [|intros mb H; split; [by apply memoryToBytes_spec|by apply memory_at_least_1GiB]].
  unfold every_run. wp_unfold. wp_run; try done; cbn [md_ID] in *; zify_bool; (split; [done|]).
  all: lazymatch goal with
       | |- context [Client.GetInstance] =>
           right; split; [|unfold service_failed; first [left; eexists; in_trace|right; eexists; in_trace]];
           do 3 eexists; cbn [md_ID md_Label md_Region md_Memory]; split; [in_trace|];
           split; [in_trace|]; split; [done|]; split; [in_trace|];
           split; [eexists; in_trace|]; (split; [done|]); split; [done|];
           by match goal with H : i_Specs _ = _ |- _ => rewrite H end
       | |- _ => left; split; [eexists; split; [in_trace|done]|done]
       end.
Qed.

Lemma node_metadata_witness :
  memoryToBytes 2048 = 2 ^ 31 /\ 2 ^ 30 <= memoryToBytes 2048.
Proof.
  apply (proj2 (node_metadata false) 2048). unfold sane_memory. lia.
Defined.
