(* ===== verification/Driver.v ===== *)
(** internal/driver/driver.go and identityserver.go: setting up the driver, its
    readiness, and the Identity service.

    The three servers share one [LinodeDriver] by pointer.  [Plugin] is that
    driver together with what each server holds besides the pointer, so that a
    server sees every later change of the driver. *)
From S2P Require Import Prelude GoStrings Types Errors Metrics Effects LinodeVolumes Config Luks.
From S2P Require Import Controller NodeServer.

Definition MaxVolumeLabelPrefixLength : Z := 12.

Record Plugin := {
  pl_driver : LinodeDriver;
  pl_ns : option Metadata;     (* the node server's metadata, when it is set *)
  pl_ids : bool;               (* whether the identity server is set *)
  pl_cs : option Metadata;
  pl_tracing : bool;           (* the tracer is initialised *)
}.

Definition node_server (pl : Plugin) : option NodeServer :=
  (fun m => {| srv_driver := pl_driver pl; srv_metadata := m |}) <$> pl_ns pl.

Definition controller_server (pl : Plugin) : option ControllerServer :=
  (fun m => {| cs_driver := pl_driver pl; cs_metadata := m |}) <$> pl_cs pl.

(** * driver.go *)

Definition GetLinodeDriver : Plugin := {|
  pl_driver := {|
    ld_name := ""; ld_vendorVersion := ""; ld_volumeLabelPrefix := "";
    ld_vcap := VolumeCapabilityAccessModes;
    ld_cscap := ControllerServiceCapabilities;
    ld_nscap := NodeServiceCapabilities;
    ld_ready := false; ld_enableMetrics := ""; ld_metricsPort := "";
    ld_enableTracing := ""; ld_tracingPort := "" |};
  pl_ns := None; pl_ids := false; pl_cs := None; pl_tracing := false |}.

(** Assignments to fields. *)
Definition set_driver (f : LinodeDriver -> LinodeDriver) (pl : Plugin) : Plugin :=
  {| pl_driver := f (pl_driver pl); pl_ns := pl_ns pl; pl_ids := pl_ids pl; pl_cs := pl_cs pl;
     pl_tracing := pl_tracing pl |}.

Definition set_servers (ns : option Metadata) (ids : bool) (cs : option Metadata) (pl : Plugin) : Plugin :=
  {| pl_driver := pl_driver pl; pl_ns := ns; pl_ids := ids; pl_cs := cs; pl_tracing := pl_tracing pl |}.

Definition set_name (name vendorVersion : string) (d : LinodeDriver) : LinodeDriver := {|
  ld_name := name; ld_vendorVersion := vendorVersion; ld_volumeLabelPrefix := ld_volumeLabelPrefix d;
  ld_vcap := ld_vcap d; ld_cscap := ld_cscap d; ld_nscap := ld_nscap d; ld_ready := ld_ready d;
  ld_enableMetrics := ld_enableMetrics d; ld_metricsPort := ld_metricsPort d;
  ld_enableTracing := ld_enableTracing d; ld_tracingPort := ld_tracingPort d |}.

Definition set_prefix (prefix : string) (d : LinodeDriver) : LinodeDriver := {|
  ld_name := ld_name d; ld_vendorVersion := ld_vendorVersion d; ld_volumeLabelPrefix := prefix;
  ld_vcap := ld_vcap d; ld_cscap := ld_cscap d; ld_nscap := ld_nscap d; ld_ready := ld_ready d;
  ld_enableMetrics := ld_enableMetrics d; ld_metricsPort := ld_metricsPort d;
  ld_enableTracing := ld_enableTracing d; ld_tracingPort := ld_tracingPort d |}.

Definition set_observability (enableMetrics metricsPort enableTracing tracingPort : string)
    (d : LinodeDriver) : LinodeDriver := {|
  ld_name := ld_name d; ld_vendorVersion := ld_vendorVersion d;
  ld_volumeLabelPrefix := ld_volumeLabelPrefix d;
  ld_vcap := ld_vcap d; ld_cscap := ld_cscap d; ld_nscap := ld_nscap d; ld_ready := ld_ready d;
  ld_enableMetrics := enableMetrics; ld_metricsPort := metricsPort;
  ld_enableTracing := enableTracing; ld_tracingPort := tracingPort |}.

Definition set_ready (d : LinodeDriver) : LinodeDriver := {|
  ld_name := ld_name d; ld_vendorVersion := ld_vendorVersion d;
  ld_volumeLabelPrefix := ld_volumeLabelPrefix d;
  ld_vcap := ld_vcap d; ld_cscap := ld_cscap d; ld_nscap := ld_nscap d; ld_ready := true;
  ld_enableMetrics := ld_enableMetrics d; ld_metricsPort := ld_metricsPort d;
  ld_enableTracing := ld_enableTracing d; ld_tracingPort := ld_tracingPort d |}.

(** [regexp.MatchString "^[0-9A-Za-z_-]{0,12}$"]. *)
Definition prefix_char (c : ascii) : bool :=
  let n := N_of_ascii c in
  ((48 <=? n)%N && (n <=? 57)%N) || ((65 <=? n)%N && (n <=? 90)%N) || ((97 <=? n)%N && (n <=? 122)%N) ||
  (n =? 95)%N || (n =? 45)%N.

Definition prefix_matched (s : string) : bool :=
  str_forall prefix_char s && (Z.of_nat (String.length s) <=? MaxVolumeLabelPrefixLength).

(** [NewIdentityServer] fails for a nil driver only. *)
Definition NewIdentityServer (linodeDriver_is_nil : bool) : goerror + bool :=
  if linodeDriver_is_nil then inl (EErrorf "linodeDriver cannot be nil" []) else inr true.

(** The state after the call, and the error, if any. *)
Definition SetupLinodeDriver (client_is_nil mounter_is_nil deviceUtils_is_nil : bool)
    (metadata : Metadata) (name vendorVersion volumeLabelPrefix : string)
    (enableMetrics metricsPort enableTracing tracingPort : string)
    (pl : Plugin) : Plugin * option goerror :=
  if String.eqb name "" then (pl, Some (EErrorf "driver name missing" []))
  else
    let pl := set_driver (set_name name vendorVersion) pl in
    let runes := Z.of_nat (RuneCount volumeLabelPrefix) in
    if runes >? MaxVolumeLabelPrefixLength then
      (pl, Some (EErrorf "volume label prefix is too long: length=%d max=%d"
                   [AInt runes; AInt MaxVolumeLabelPrefixLength]))
    else if negb (prefix_matched volumeLabelPrefix) then
      (pl, Some (ENew "volume label prefix may only contain: [A-Za-z0-9_-]"))
    else
      let pl := set_driver (set_prefix volumeLabelPrefix) pl in
      match NewNodeServer (Some (pl_driver pl)) mounter_is_nil deviceUtils_is_nil client_is_nil metadata with
      | inl err => (set_servers None (pl_ids pl) (pl_cs pl) pl,
                    Some (EErrorf "new node server: %w" [AErr err]))
      | inr ns =>
          let pl := set_servers (Some (srv_metadata ns)) (pl_ids pl) (pl_cs pl) pl in
          match NewIdentityServer false with
          | inl err => (set_servers (pl_ns pl) false (pl_cs pl) pl,
                        Some (EErrorf "new identity server: %w" [AErr err]))
          | inr ids =>
              let pl := set_servers (pl_ns pl) ids (pl_cs pl) pl in
              match NewControllerServer (Some (pl_driver pl)) client_is_nil metadata with
              | inl err => (pl, Some (EErrorf "new controller server: %w" [AErr err]))
              | inr cs =>
                  let pl := set_servers (pl_ns pl) (pl_ids pl) (Some (cs_metadata cs)) pl in
                  let pl := set_driver (set_observability enableMetrics metricsPort
                                          enableTracing tracingPort) pl in
                  let tracing := if String.eqb (ld_enableTracing (pl_driver pl)) True_
                                 then true else pl_tracing pl in
                  ({| pl_driver := pl_driver pl; pl_ns := pl_ns pl; pl_ids := pl_ids pl;
                      pl_cs := pl_cs pl; pl_tracing := tracing |}, None)
              end
          end
      end.

(** The error, if any. *)
Definition ValidateControllerServiceRequest (d : LinodeDriver)
    (rpcType : ControllerServiceCapability_RPC_Type) : option goerror :=
  if bool_decide (rpcType = CSC_UNKNOWN) then None
  else if existsb (fun cap => bool_decide (rpcType = cap)) (ld_cscap d) then None
  else Some (status_Error InvalidArgument "Invalid controller service request").

(** What [Run] does to the driver before it serves requests. *)
Definition Run (pl : Plugin) : Plugin := set_driver set_ready pl.

(** * identityserver.go *)

Definition GetPluginInfo (d : LinodeDriver) : goerror + string * string :=
  if String.eqb (ld_name d) "" then inl (status_Error Unavailable "Driver name not configured")
  else inr (ld_name d, ld_vendorVersion d).

Inductive PluginCapability :=
| PluginCapability_Service_CONTROLLER_SERVICE
| PluginCapability_Service_VOLUME_ACCESSIBILITY_CONSTRAINTS
| PluginCapability_VolumeExpansion_ONLINE
| PluginCapability_VolumeExpansion_OFFLINE.

Definition GetPluginCapabilities : list PluginCapability := [
  PluginCapability_Service_CONTROLLER_SERVICE;
  PluginCapability_Service_VOLUME_ACCESSIBILITY_CONSTRAINTS;
  PluginCapability_VolumeExpansion_ONLINE
].

Definition Probe (d : LinodeDriver) : bool := ld_ready d.

(** * Properties *)

Lemma prefix_char_ascii c : prefix_char c = true -> is_ascii c = true.
Proof. by destruct c as [[] [] [] [] [] [] [] []]. Qed.

Lemma prefix_runes s : prefix_matched s = true -> (RuneCount s <= 12)%nat.
Proof.
  intros [Hc Hl]%andb_true_iff. rewrite RuneCount_ascii.
  - unfold MaxVolumeLabelPrefixLength in Hl. zify_bool. lia.
  - eapply str_forall_impl, Hc. apply prefix_char_ascii.
Qed.

(** C37. Setting up the driver: it succeeds exactly when the name is not empty, the
    label prefix has at most 12 bytes, all of them letters, digits, "_" or "-",
    and the client, the mounter and the device utilities are not nil.  It then
    sets all three servers with the metadata given, and the prefix, and the driver
    reports its name and version, is not ready before it runs and is ready after;
    when it fails, no controller server is set. *)
Theorem setup_driver (client_is_nil mounter_is_nil deviceUtils_is_nil : bool) (metadata : Metadata)
  (name vendorVersion prefix enableMetrics metricsPort enableTracing tracingPort : string) :
  let '(pl, err) := SetupLinodeDriver client_is_nil mounter_is_nil deviceUtils_is_nil metadata
    name vendorVersion prefix enableMetrics metricsPort enableTracing tracingPort GetLinodeDriver in
  (err = None <->
     name <> "" /\ str_forall prefix_char prefix = true /\ (String.length prefix <= 12)%nat /\
     client_is_nil = false /\ mounter_is_nil = false /\ deviceUtils_is_nil = false) /\
  match err with
  | None =>
      pl_ns pl = Some metadata /\ pl_ids pl = true /\ pl_cs pl = Some metadata /\
      ld_volumeLabelPrefix (pl_driver pl) = prefix /\
      GetPluginInfo (pl_driver pl) = inr (name, vendorVersion) /\
      Probe (pl_driver pl) = false /\ Probe (pl_driver (Run pl)) = true /\
      pl_tracing pl = String.eqb enableTracing "true"
  | Some _ => controller_server pl = None
  end.
Proof.
  unfold SetupLinodeDriver. destruct (String.eqb_spec name "") as [->|Hname].
  { split; [|done]. split; [done|]. by intros [? _]. }
  destruct (Z.of_nat (RuneCount prefix) >? MaxVolumeLabelPrefixLength) eqn:Hrunes.
  { split; [|done]. split; [done|]. intros (_ & Hc & Hl & _).
    pose proof (prefix_runes prefix) as Hr. unfold prefix_matched, MaxVolumeLabelPrefixLength in *.
    rewrite Hc in Hr. zify_bool. rewrite (proj2 (Z.leb_le _ _)) in Hr by lia. specialize (Hr eq_refl). lia. }
  destruct (prefix_matched prefix) eqn:Hm; cbn [negb].
  - apply andb_true_iff in Hm as [Hc Hl]. unfold MaxVolumeLabelPrefixLength in Hl. zify_bool.
    destruct client_is_nil, mounter_is_nil, deviceUtils_is_nil; cbn -[String.eqb];
      try (split; [|done]; split; [done|]; by intros (_ & _ & _ & ? & ? & ?)).
    split; [split; [|done]|].
    + intros _. split_and!; try done. lia.
    + split_and!; try done; unfold GetPluginInfo; cbn -[String.eqb].
      * destruct (String.eqb_spec name ""); congruence.
      * unfold True_. by destruct (String.eqb enableTracing "true").
  - split; [|done]. split; [done|]. intros (_ & Hc & Hl & _).
    unfold prefix_matched, MaxVolumeLabelPrefixLength in Hm. rewrite Hc in Hm.
    rewrite (proj2 (Z.leb_le _ _)) in Hm by lia. done.
Qed.

(** What the driver of [GetLinodeDriver] declares and what it accepts agree: a
    controller request is valid exactly when its type is unknown or among the
    declared capabilities; no capability is declared twice, by the controller or
    by the node; and requests for capacity, snapshots, a single volume or
    several writers are refused. *)
Theorem validate_service_request (rpcType : ControllerServiceCapability_RPC_Type) :
  let d := pl_driver GetLinodeDriver in
  (ValidateControllerServiceRequest d rpcType = None <->
     rpcType = CSC_UNKNOWN \/ rpcType ∈ ld_cscap d) /\
  NoDup (ld_cscap d) /\ NoDup (ld_nscap d) /\
  Forall (fun t => ValidateControllerServiceRequest d t <> None)
    [CSC_GET_CAPACITY; CSC_CREATE_DELETE_SNAPSHOT; CSC_LIST_SNAPSHOTS; CSC_GET_VOLUME;
     CSC_SINGLE_NODE_MULTI_WRITER].
Proof.
  split_and!.
  - unfold ValidateControllerServiceRequest. case_bool_decide as Hu; [by split; auto|].
    destruct (existsb _ _) eqn:He.
    + split; [|done]. intros _. right. apply existsb_exists in He as (c & Hc & Heq).
      apply bool_decide_eq_true in Heq as ->. by apply list_elem_of_In.
    + split; [done|]. intros [?|Hin]; [done|exfalso].
      apply not_true_iff_false in He. apply He, existsb_exists. exists rpcType.
      split; [by apply list_elem_of_In|]. by apply bool_decide_eq_true.
  - apply (bool_decide_unpack _). vm_compute. exact I.
  - apply (bool_decide_unpack _). vm_compute. exact I.
  - repeat constructor; vm_compute; congruence.
Qed.
