(* ===== verification/Server.v ===== *)
(** internal/driver/server.go: the gRPC server and the metrics server, their
    goroutines and the wait group, and how [Run] of driver.go uses them.

    The goroutines are programs over the calls of [Effects.Net]; a process is the
    list of them with what they share: the counter of the wait group and the two
    server fields. *)
From S2P Require Import Prelude GoStrings GoUrl Types Errors Metrics Effects LinodeVolumes Sizes Config.
From S2P Require Import Controller ControllerProofs Cloud Driver.

Abbreviation net c := (call (Net c)).

(** [klog.Fatal] ends the process: what follows it is never run. *)
Definition fatal : prog unit := net Net.Fatal.

(** The fields set by SetMetricsConfig. *)
Record nonBlockingGRPCServer := { s_enableMetrics : string; s_metricsPort : string }.

Definition NewNonBlockingGRPCServer : nonBlockingGRPCServer :=
  {| s_enableMetrics := ""; s_metricsPort := "" |}.

Definition SetMetricsConfig (enableMetrics metricsPort : string) (s : nonBlockingGRPCServer)
    : nonBlockingGRPCServer :=
  {| s_enableMetrics := enableMetrics; s_metricsPort := metricsPort |}.

Definition Start (s : nonBlockingGRPCServer) (endpoint : string) (ids cs ns : bool) : prog unit :=
  let* _ := net (Net.WgAdd 1) in
  let* _ := net (Net.Go (GoServe endpoint ids cs ns)) in
  match ParseBool (s_enableMetrics s) with
  | None => Ret tt
  | Some enableMetrics =>
      if enableMetrics then
        let port := ":" +:+ s_metricsPort s in
        net (Net.Go (GoMetricsServer port))
      else Ret tt
  end.

Definition Wait : prog unit := net Net.WgWait.

(** A method of a nil server dereferences it. *)
Definition Stop : prog unit :=
  let* server := net Net.LoadServer in
  if negb server then Panic NilDereference
  else
    let* _ := net Net.GracefulStop in
    let* metricsServer := net Net.LoadMetricsServer in
    if negb metricsServer then Panic NilDereference
    else
      let* _ := net Net.MetricsShutdown in
      let* tracer := net Net.LoadTracerProvider in
      if tracer then let* _ := net Net.TracerShutdown in Ret tt else Ret tt.

Definition ForceStop : prog unit :=
  let* server := net Net.LoadServer in
  if negb server then Panic NilDereference
  else
    let* _ := net Net.Stop in
    let* metricsServer := net Net.LoadMetricsServer in
    if negb metricsServer then Panic NilDereference
    else
      let* _ := net Net.MetricsClose in
      Ret tt.

(** [if x != nil { csi.Register...(server, x) }]. *)
Definition register (set : bool) (service : Service) : prog unit :=
  if set then net (Net.Register service) else Ret tt.

(** From [net.Listen] on. *)
Definition listen_and_serve (scheme addr : string) (ids cs ns : bool) : prog unit :=
  let* err := net (Net.Listen scheme addr) in
  match err with
  | Some _ => fatal
  | None =>
      let* _ := net Net.NewServer in
      let* _ := register ids IdentityService in
      let* _ := register cs ControllerService in
      let* _ := register ns NodeService in
      let* err := net Net.Serve in
      match err with
      | Some _ => fatal
      | None => Ret tt
      end
  end.

Definition serve (endpoint : string) (ids cs ns : bool) : prog unit :=
  match url_Parse endpoint with
  | None => fatal
  | Some urlObj =>
      let scheme := u_Scheme urlObj in
      if String.eqb scheme "unix" then
        let addr := u_Path urlObj in
        let* err := call (Fs (FS.Remove addr)) in
        match err with
        | Some err => if oe_IsNotExist err then listen_and_serve scheme addr ids cs ns else fatal
        | None => listen_and_serve scheme addr ids cs ns
        end
      else if String.eqb scheme "tcp" then
        let addr := u_Host urlObj in
        listen_and_serve scheme addr ids cs ns
      else fatal
  end.

Definition startMetricsServer (addr : string) : prog unit :=
  finally (
    let* _ := net (Net.NewMetricsServer addr) in
    let* err := net Net.ListenAndServe in
    match err with
    | ErrServerClosed => Ret tt
    | HttpOther _ => fatal
    end) (Net Net.WgDone).

(** What [Run] of the driver does once the driver is ready.  The servers are passed
    as pointers in interfaces, which are not nil even when the pointers are. *)
Definition Run_server (d : LinodeDriver) (endpoint : string) : prog unit :=
  let s := SetMetricsConfig (ld_enableMetrics d) (ld_metricsPort d) NewNonBlockingGRPCServer in
  let* _ := Start s endpoint true true true in
  Wait.

#[export] Hint Unfold fatal Start Wait Stop ForceStop register listen_and_serve serve
  startMetricsServer Run_server : prog.

(** * The process *)

(** What the goroutines share: the counter of the wait group, the gRPC server with
    whether it was stopped, the metrics server with whether it was closed. *)
Record Shared := { wg : Z; grpc : option bool; http : option bool }.

Definition set_wg (n : Z) (s : Shared) : Shared := {| wg := n; grpc := grpc s; http := http s |}.
Definition set_grpc (g : option bool) (s : Shared) : Shared := {| wg := wg s; grpc := g; http := http s |}.
Definition set_http (h : option bool) (s : Shared) : Shared := {| wg := wg s; grpc := grpc s; http := h |}.

(** What sync, grpc and net/http document: waiting ends at zero, Serve returns no
    error only once the server is stopped, ListenAndServe returns ErrServerClosed
    only once the server is shut down or closed, and Fatal does not return. *)
Definition shared_law : state_law Shared := fun c s =>
  match c return resp c -> Shared -> Prop with
  | Net n =>
      match n return Net.answer n -> Shared -> Prop with
      | Net.WgAdd n => fun _ s' => s' = set_wg (wg s + n) s
      | Net.WgDone => fun _ s' => s' = set_wg (wg s - 1) s
      | Net.WgWait => fun _ s' => s' = s /\ wg s = 0
      | Net.NewServer => fun _ s' => s' = set_grpc (Some false) s
      | Net.Serve => fun r s' => s' = s /\ (r = None -> grpc s = Some true)
      | Net.NewMetricsServer _ => fun _ s' => s' = set_http (Some false) s
      | Net.ListenAndServe => fun r s' => s' = s /\ (r = ErrServerClosed -> http s = Some true)
      | Net.LoadServer => fun r s' => s' = s /\ r = is_some (grpc s)
      | Net.LoadMetricsServer => fun r s' => s' = s /\ r = is_some (http s)
      | Net.GracefulStop | Net.Stop => fun _ s' => s' = set_grpc (const true <$> grpc s) s
      | Net.MetricsShutdown | Net.MetricsClose => fun _ s' => s' = set_http (const true <$> http s) s
      | Net.Fatal => fun _ _ => False
      | _ => fun _ s' => s' = s
      end
  | _ => fun _ s' => s' = s
  end.

Definition goroutine (g : Goroutine) : prog unit :=
  match g with
  | GoServe endpoint ids cs ns => serve endpoint ids cs ns
  | GoMetricsServer addr => startMetricsServer addr
  end.

(** One call of one goroutine.  The exit of the process is the end of its steps;
    the goroutines that go on until then are the same. *)
Inductive proc_step : list (prog unit) * Shared -> list (prog unit) * Shared -> Prop :=
| proc_call ts s i c k r s' :
    ts !! i = Some (Call c k) -> (forall g, c <> Net (Net.Go g)) -> shared_law c s r s' ->
    proc_step (ts, s) (<[i := k r]> ts, s')
| proc_go ts s i g (k : resp (Net (Net.Go g)) -> prog unit) :
    ts !! i = Some (Call (Net (Net.Go g)) k) ->
    proc_step (ts, s) (<[i := k tt]> ts ++ [goroutine g], s).

Definition initial : Shared := {| wg := 0; grpc := None; http := None |}.

(** ** Stopping *)

(** What Stop and ForceStop do: they stop the gRPC server and shut the metrics
    server down when both were started, and panic with a nil dereference when
    one was not: without a gRPC server nothing is done, without a metrics server
    the gRPC server is stopped first. *)
Theorem server_stop (s : Shared) (p : prog unit) (Hp : p = Stop \/ p = ForceStop) :
  swp shared_law p (fun s' o =>
    match o with
    | Done _ => grpc s' = Some true /\ http s' = Some true /\ is_Some (grpc s) /\ is_Some (http s)
    | Panicked why => why = NilDereference /\
        (grpc s = None /\ s' = s \/ grpc s' = Some true /\ is_Some (grpc s) /\ http s = None)
    end) s.
Proof.
  destruct s as [n g h].
  destruct Hp as [-> | ->]; wp_unfold; cbn; intros b ? [-> ->]; destruct g as [g|]; cbn;
    try (by split; [done|left]); intros _ ? -> ? ? [-> ->]; cbn; destruct h as [h|]; cbn;
    try (by split; [done|right]); intros _ ? ->; [intros [|] ? ->; [intros _ ? ->|]|]; cbn;
    split_and!; try done; by eexists.
Qed.

Lemma server_stop_witness :
  swp shared_law Stop (fun s' o =>
    match o with
    | Done _ => grpc s' = Some true /\ http s' = Some true /\ is_Some (Some false) /\ is_Some (@None bool)
    | Panicked why => why = NilDereference /\
        (Some false = None /\ s' = {| wg := 1; grpc := Some false; http := None |} \/
         grpc s' = Some true /\ is_Some (Some false) /\ @None bool = None)
    end) {| wg := 1; grpc := Some false; http := None |}.
Proof. apply (server_stop {| wg := 1; grpc := Some false; http := None |} Stop). left. reflexivity. Defined.

(** ** Waiting *)

(** A goroutine that neither touches the wait group nor starts anything nor sets
    the metrics server. *)
Definition bystander_call (c : cmd) : Prop :=
  match c with
  | Net (Net.WgAdd _ | Net.WgDone | Net.Go _ | Net.NewMetricsServer _) => False
  | _ => True
  end.

Fixpoint bystander (p : prog unit) : Prop :=
  match p with
  | Call c k => bystander_call c /\ forall r, bystander (k r)
  | _ => True
  end.

Lemma wp_bystander (p : prog unit) Q tr :
  wp any_env (fun _ => bystander_call) p Q tr -> bystander p.
Proof.
  revert tr. induction p as [a|why|c k IH]; intros tr; cbn; [done..|].
  intros [Hc H]. split; [done|]. intros r. by eapply IH, H.
Qed.

Lemma serve_bystander endpoint ids cs ns : bystander (serve endpoint ids cs ns).
Proof. apply (wp_bystander _ (fun _ _ => True) []). wp_unfold. wp_run; done. Qed.

Lemma stoppers_bystander p : p = Stop \/ p = ForceStop -> bystander p.
Proof. intros [-> | ->]; apply (wp_bystander _ (fun _ _ => True) []); wp_unfold; wp_run; done. Qed.

(** A step of a bystander leaves the wait group alone, and a metrics server that
    is missing missing, and one that is closed closed. *)
Lemma bystander_step c (s s' : Shared) r :
  bystander_call c -> shared_law c s r s' ->
  wg s' = wg s /\ (http s = None -> http s' = None) /\ (http s = Some true -> http s' = Some true).
Proof.
  destruct c as [| | | | | |[]| | | |]; cbn; try done; intros _ H;
    repeat match goal with H : _ /\ _ |- _ => destruct H end; subst; cbn; split_and!; try done;
    by intros ->.
Qed.

Section Waiting.
Context (d : LinodeDriver) (endpoint : string).

Definition metered : Prop := ParseBool (ld_enableMetrics d) = Some true.
Definition metrics_addr : string := ":" +:+ ld_metricsPort d.

(** The program of [Run], from the calls of [Start] that start a goroutine on. *)
Definition starting_metrics : prog unit := let* _ := net (Net.Go (GoMetricsServer metrics_addr)) in Wait.
Definition starting_serve : prog unit :=
  let* _ := net (Net.Go (GoServe endpoint true true true)) in
  match ParseBool (ld_enableMetrics d) with Some true => starting_metrics | _ => Wait end.

Lemma Run_server_eq : Run_server d endpoint = let* _ := net (Net.WgAdd 1) in starting_serve.
Proof.
  unfold Run_server, Start, starting_serve. cbn [SetMetricsConfig s_enableMetrics s_metricsPort].
  by destruct (ParseBool (ld_enableMetrics d)) as [[|]|].
Qed.

(** Where the goroutine of the metrics server is. *)
Definition serving_metrics : prog unit :=
  finally (let* err := net Net.ListenAndServe in
           match err with ErrServerClosed => Ret tt | HttpOther _ => fatal end) (Net Net.WgDone).

Inductive metrics_at (s : Shared) : prog unit -> Prop :=
| at_start : wg s = 1 -> metrics_at s (startMetricsServer metrics_addr)
| at_serve : wg s = 1 -> metrics_at s serving_metrics
| at_fatal k : wg s = 1 -> metrics_at s (Call (Net Net.Fatal) k)
| at_done (k : resp (Net Net.WgDone) -> prog unit) :
    wg s = 1 -> http s = Some true -> (forall r, k r = Ret tt) -> metrics_at s (Call (Net Net.WgDone) k)
| at_end : wg s = 0 -> http s = Some true -> metrics_at s (Ret tt).

(** Where the main goroutine is, and which goroutine serves the metrics. *)
Inductive phase (ts : list (prog unit)) (s : Shared) : prog unit -> option nat -> Prop :=
| phase_start : wg s = 0 -> http s = None -> phase ts s (Run_server d endpoint) None
| phase_serve : wg s = 1 -> http s = None -> phase ts s starting_serve None
| phase_metrics : metered -> wg s = 1 -> http s = None -> phase ts s starting_metrics None
| phase_forever : ~ metered -> wg s = 1 -> http s = None -> phase ts s Wait None
| phase_wait j p : metered -> ts !! S j = Some p -> metrics_at s p -> phase ts s Wait (Some j)
| phase_end j p : metered -> ts !! S j = Some p -> metrics_at s p -> wg s = 0 -> phase ts s (Ret tt) (Some j).

Definition waiting (c : list (prog unit) * Shared) : Prop :=
  exists m started, c.1 !! 0%nat = Some m /\ phase c.1 c.2 m started /\
    forall i p, c.1 !! S i = Some p -> started <> Some i -> bystander p.

Lemma metrics_at_stable s s' p :
  metrics_at s p -> wg s' = wg s -> (http s = Some true -> http s' = Some true) -> metrics_at s' p.
Proof. intros H Hw Hh. destruct H; constructor; auto; congruence. Qed.

Lemma phase_stable ts ts' s s' m started :
  phase ts s m started -> wg s' = wg s -> (http s = None -> http s' = None) ->
  (http s = Some true -> http s' = Some true) ->
  (forall j, started = Some j -> ts' !! S j = ts !! S j) -> phase ts' s' m started.
Proof.
  intros H Hw Hn Hc Ht. destruct H as [?|?|?|?|j p Hm Hj Hp|j p Hm Hj Hp Hz].
  1-4: constructor; auto; congruence.
  - apply (phase_wait _ _ j p); [done|by rewrite Ht|by eapply metrics_at_stable].
  - apply (phase_end _ _ j p); [done|by rewrite Ht|by eapply metrics_at_stable|congruence].
Qed.

Definition others_bystand (ts : list (prog unit)) (started : option nat) : Prop :=
  forall i p, ts !! S i = Some p -> started <> Some i -> bystander p.

(** A bystander takes a step. *)
Lemma step_bystander ts s i c k r s' m started :
  ts !! 0%nat = Some m -> phase ts s m started -> others_bystand ts started ->
  ts !! S i = Some (Call c k) -> started <> Some i -> shared_law c s r s' ->
  waiting (<[S i := k r]> ts, s').
Proof.
  intros Hm Hp Hb Hi Hne Hlaw. destruct (Hb _ _ Hi Hne) as [Hc Hk].
  destruct (bystander_step _ _ _ _ Hc Hlaw) as (Hw & Hn & Ht).
  exists m, started. cbn. split_and!.
  - by rewrite list_lookup_insert_ne.
  - eapply phase_stable; [exact Hp|done..|]. intros j ->.
    rewrite list_lookup_insert_ne; [done|congruence].
  - intros j p Hj Hs. destruct (decide (i = j)) as [->|Hij].
    + rewrite list_lookup_insert_eq in Hj by (by eapply lookup_lt_Some). injection Hj as <-. apply Hk.
    + rewrite list_lookup_insert_ne in Hj by congruence. by eapply Hb.
Qed.

(** The metrics server's goroutine takes a step. *)
Lemma metrics_step s c k r s' :
  metrics_at s (Call c k) -> shared_law c s r s' -> metrics_at s' (k r) /\ forall g, c <> Net (Net.Go g).
Proof.
  intros H Hlaw. remember (Call c k) as p eqn:E. destruct H as [Hw|Hw|k' Hw|k' Hw Hh Hk|Hw Hh].
  - change (startMetricsServer metrics_addr)
      with (Call (Net (Net.NewMetricsServer metrics_addr)) (fun _ => serving_metrics)) in E.
    pose proof (Call_inj_cmd _ _ _ _ E) as <-. apply Call_inj in E as <-. cbn in Hlaw. subst.
    split; [by constructor|done].
  - change serving_metrics with (Call (Net Net.ListenAndServe)
      (fun r => finally (match r with ErrServerClosed => Ret tt | HttpOther _ => fatal end) (Net Net.WgDone))) in E.
    pose proof (Call_inj_cmd _ _ _ _ E) as <-. apply Call_inj in E as <-. destruct Hlaw as [-> Hclosed].
    split; [|done]. destruct r; cbn; [|by apply at_fatal]. apply at_done; auto.
  - pose proof (Call_inj_cmd _ _ _ _ E) as <-. by cbn in Hlaw.
  - pose proof (Call_inj_cmd _ _ _ _ E) as <-. apply Call_inj in E as <-. cbn in Hlaw. subst.
    split; [|done]. rewrite Hk. apply at_end; cbn; [lia|done].
  - done.
Qed.

Lemma step_metrics ts s j c k r s' m :
  ts !! 0%nat = Some m -> phase ts s m (Some j) -> others_bystand ts (Some j) ->
  ts !! S j = Some (Call c k) -> shared_law c s r s' -> waiting (<[S j := k r]> ts, s').
Proof.
  intros Hm Hp Hb Hj Hlaw. exists m, (Some j). cbn.
  assert (<[S j := k r]> ts !! S j = Some (k r)) as Hj'.
  { apply list_lookup_insert_eq. by eapply lookup_lt_Some. }
  split_and!.
  - by rewrite list_lookup_insert_ne.
  - inversion Hp as [| | | |? p Hmet Hlook Hat|? p Hmet Hlook Hat Hz]; subst; rewrite Hj in Hlook; injection Hlook as <-.
    + eapply phase_wait; [done|exact Hj'|]. by eapply metrics_step.
    + inversion Hat; congruence.
  - intros i p Hi Hs. rewrite list_lookup_insert_ne in Hi by congruence. by eapply Hb.
Qed.

(** The main goroutine takes a step that starts nothing. *)
Lemma step_main ts s c k r s' started :
  ts !! 0%nat = Some (Call c k) -> phase ts s (Call c k) started -> others_bystand ts started ->
  (forall g, c <> Net (Net.Go g)) -> shared_law c s r s' -> waiting (<[0%nat := k r]> ts, s').
Proof.
  intros Hm Hp Hb Hgo Hlaw. exists (k r).
  assert (<[0%nat := k r]> ts !! 0%nat = Some (k r)) as H0.
  { apply list_lookup_insert_eq. by eapply lookup_lt_Some. }
  assert (forall st, others_bystand (<[0%nat := k r]> ts) st <-> others_bystand ts st) as Hsame.
  { intros st. split; intros H i p Hi; apply (H i p).
    - by rewrite list_lookup_insert_ne.
    - by rewrite list_lookup_insert_ne in Hi. }
  remember (Call c k) as p eqn:E. destruct Hp as [Hw Hh|Hw Hh|Hmet Hw Hh|Hmet Hw Hh|j p Hmet Hj Hat|j p Hmet Hj Hat Hz].
  - rewrite Run_server_eq in E. pose proof (Call_inj_cmd _ _ _ _ E) as <-. apply Call_inj in E as <-.
    cbn in Hlaw. subst. exists None. split; [done|]. split; [|by apply Hsame].
    apply phase_serve; cbn; [lia|done].
  - apply Call_inj_cmd in E as <-. by destruct (Hgo (GoServe endpoint true true true)).
  - apply Call_inj_cmd in E as <-. by destruct (Hgo (GoMetricsServer metrics_addr)).
  - pose proof (Call_inj_cmd _ _ _ _ E) as <-. destruct Hlaw as [_ Hz]. lia.
  - pose proof (Call_inj_cmd _ _ _ _ E) as <-. apply Call_inj in E as <-. destruct Hlaw as [-> Hz].
    exists (Some j). split; [done|]. split; [|by apply Hsame]. destruct r.
    apply (phase_end _ _ j p); [done| |exact Hat|done]. cbn. by rewrite list_lookup_insert_ne.
  - done.
Qed.

(** A goroutine is started: only the main goroutine does that. *)
Lemma append_others ts m i p (new : prog unit) :
  (<[0%nat := m]> ts ++ [new]) !! S i = Some p ->
  ts !! S i = Some p \/ (S i = length ts /\ p = new).
Proof.
  rewrite lookup_app_Some, list_lookup_insert_ne, length_insert by done.
  intros [H|[Hle H]]; [by left|right]. apply list_lookup_singleton_Some in H as [Hi <-]. split; [lia|done].
Qed.

Lemma step_go ts s g (k : resp (Net (Net.Go g)) -> prog unit) started :
  ts !! 0%nat = Some (Call (Net (Net.Go g)) k) -> phase ts s (Call (Net (Net.Go g)) k) started ->
  others_bystand ts started -> waiting (<[0%nat := k tt]> ts ++ [goroutine g], s).
Proof.
  intros Hm Hp Hb. exists (k tt). cbn.
  pose proof (lookup_lt_Some _ _ _ Hm) as Hlen.
  assert ((<[0%nat := k tt]> ts ++ [goroutine g]) !! 0%nat = Some (k tt)) as H0.
  { rewrite lookup_app_l by (by rewrite length_insert). by apply list_lookup_insert_eq. }
  remember (Call (Net (Net.Go g)) k) as p eqn:E.
  destruct Hp as [Hw Hh|Hw Hh|Hmet Hw Hh|Hmet Hw Hh|j p Hmet Hj Hat|j p Hmet Hj Hat Hz].
  - rewrite Run_server_eq in E. by apply Call_inj_cmd in E.
  - pose proof (Call_inj_cmd _ _ _ _ E) as Hc. injection Hc as <-. apply Call_inj in E as <-.
    exists None. split; [done|]. split.
    + cbn [bind]. unfold metered in *. destruct (ParseBool (ld_enableMetrics d)) as [[|]|] eqn:Hpb;
        [apply phase_metrics|apply phase_forever..]; unfold metered; try done; by rewrite Hpb.
    + intros i p [Hi|[_ ->]]%append_others _; [by eapply Hb|apply serve_bystander].
  - pose proof (Call_inj_cmd _ _ _ _ E) as Hc. injection Hc as <-. apply Call_inj in E as <-.
    exists (Some (length ts - 1)%nat). split; [done|]. split.
    + eapply phase_wait; [done| |by apply at_start].
      replace (S (length ts - 1)) with (length (<[0%nat := Wait]> ts) + 0)%nat by (rewrite length_insert; lia).
      by rewrite lookup_app_r, Nat.add_0_r, Nat.sub_diag by lia.
    + intros i p [Hi|[Hi ->]]%append_others Hne; [by eapply Hb|]. destruct Hne. f_equal. lia.
  - by apply Call_inj_cmd in E.
  - by apply Call_inj_cmd in E.
  - done.
Qed.

Lemma waiting_step c c' : waiting c -> proc_step c c' -> waiting c'.
Proof.
  intros (m & started & Hm & Hp & Hb) Hstep. destruct Hstep as [ts s i c k r s' Hi Hgo Hlaw|ts s i g k Hi]; cbn in *.
  - destruct i as [|j].
    + rewrite Hi in Hm. injection Hm as <-. by eapply step_main.
    + destruct (decide (started = Some j)) as [->|Hne]; [by eapply step_metrics|by eapply step_bystander].
  - destruct i as [|j].
    + rewrite Hi in Hm. injection Hm as <-. by eapply step_go.
    + exfalso. destruct (decide (started = Some j)) as [->|Hne].
      * inversion Hp as [| | | |? p Hmet Hlook Hat|? p Hmet Hlook Hat Hz]; subst; rewrite Hi in Hlook; injection Hlook as <-;
          inversion Hat.
      * by destruct (Hb _ _ Hi Hne).
Qed.

Lemma waiting_reachable stoppers c :
  Forall (fun p => p = Stop \/ p = ForceStop) stoppers ->
  rtc proc_step (Run_server d endpoint :: stoppers, initial) c -> waiting c.
Proof.
  intros Hst Hsteps.
  assert (waiting (Run_server d endpoint :: stoppers, initial)) as Hinv.
  { exists (Run_server d endpoint), None. split; [done|]. split; [by apply phase_start|].
    intros i p Hi _. cbn in Hi. eapply Forall_lookup_1 in Hst; [|exact Hi]. by apply stoppers_bystander. }
  revert Hinv. induction Hsteps as [c|c c1 c2 Hstep _ IH]; [done|]. intros Hinv. by eapply IH, waiting_step.
Qed.

(** C30. When Run returns: only if metrics are enabled ([strconv.ParseBool] of the
    setting is true) and the metrics server was shut down or closed.  The wait
    group is counted down by the goroutine of the metrics server alone, so that
    without metrics Run never returns, whatever becomes of the gRPC server; and
    then the metrics server stays nil, so that Stop and ForceStop panic. *)
Theorem run_returns (stoppers : list (prog unit)) (c : list (prog unit) * Shared)
  (Hstop : Forall (fun p => p = Stop \/ p = ForceStop) stoppers)
  (Hsteps : rtc proc_step (Run_server d endpoint :: stoppers, initial) c) :
  (c.1 !! 0%nat = Some (Ret tt) -> metered /\ http c.2 = Some true /\ wg c.2 = 0) /\
  (~ metered -> http c.2 = None).
Proof.
  destruct (waiting_reachable stoppers c Hstop Hsteps) as (m & started & Hm & Hp & _).
  split; [|by destruct Hp]. rewrite Hm. intros [= ->].
  remember (Ret tt) as m eqn:E. destruct Hp as [Hw Hh|Hw Hh|Hmet Hw Hh|Hmet Hw Hh|j p Hmet Hj Hat|j p Hmet Hj Hat Hz];
    try discriminate.
  split; [done|]. split; [|done]. destruct Hat; try done; lia.
Qed.
End Waiting.

(** ** Serving *)

(** The address of an endpoint: a path for a Unix socket, a host for TCP. *)
Definition listen_addr (endpoint network address : string) : Prop :=
  exists u, url_Parse endpoint = Some u /\ u_Scheme u = network /\
    (network = "unix" /\ address = u_Path u \/ network = "tcp" /\ address = u_Host u).

Definition serve_guard (endpoint : string) (ids cs ns : bool) : call_guard := fun tr c =>
  match c with
  | Fs (FS.Remove path) => listen_addr endpoint "unix" path
  | Net (Net.Listen network address) =>
      listen_addr endpoint network address /\
      (network = "unix" -> exists r, Event (Fs (FS.Remove address)) r ∈ tr /\
         forall e, r = Some e -> oe_IsNotExist e = true)
  | Net Net.NewServer => exists network address, Event (Net (Net.Listen network address)) None ∈ tr
  | Net (Net.Register s) =>
      Event (Net Net.NewServer) tt ∈ tr /\
      match s with IdentityService => ids | ControllerService => cs | NodeService => ns end = true
  | Net Net.Serve =>
      Event (Net Net.NewServer) tt ∈ tr /\
      forall s, match s with IdentityService => ids | ControllerService => cs | NodeService => ns end = true ->
        Event (Net (Net.Register s)) tt ∈ tr
  | Net Net.Fatal => True
  | _ => False
  end.

Definition fatal_call (e : event) : bool := match e with Event (Net Net.Fatal) _ => true | _ => false end.

Definition serve_end (endpoint : string) (tr : trace) (o : outcome unit) : Prop :=
  o = Done tt /\
  (existsb fatal_call tr = true \/
   Event (Net Net.Serve) None ∈ tr /\ exists network address, listen_addr endpoint network address).

Lemma wp_fatal endpoint ids cs ns tr :
  wp any_env (serve_guard endpoint ids cs ns) fatal (serve_end endpoint) tr.
Proof.
  split; [done|]. intros [] _. split; [done|left]. rewrite existsb_app. cbn. by rewrite orb_true_r.
Qed.

Lemma wp_register law endpoint ids cs ns set s Q tr :
  Event (Net Net.NewServer) tt ∈ tr ->
  (set = true -> match s with IdentityService => ids | ControllerService => cs | NodeService => ns end = true) ->
  (forall tr', (set = true -> Event (Net (Net.Register s)) tt ∈ tr') -> Q (tr ++ tr') (Done tt)) ->
  wp law (serve_guard endpoint ids cs ns) (register set s) Q tr.
Proof.
  intros Hn Hs HQ. unfold register. destruct set.
  - split; [by split; [|apply Hs]|]. intros [] _. apply HQ. intros _. constructor.
  - cbn. rewrite <- (app_nil_r tr). by apply HQ.
Qed.

Lemma wp_listen endpoint ids cs ns network address tr :
  serve_guard endpoint ids cs ns tr (Net (Net.Listen network address)) ->
  wp any_env (serve_guard endpoint ids cs ns) (listen_and_serve network address ids cs ns)
    (serve_end endpoint) tr.
Proof.
  intros Hg. unfold listen_and_serve. split; [done|]. intros [e|] _; [apply wp_fatal|]. cbn [bind].
  split; [do 2 eexists; in_trace|]. intros [] _. cbn [bind]. rewrite <- app_assoc. cbn [app].
  apply wp_bind, wp_register; [in_app|done|]. intros tr1 H1.
  apply wp_bind, wp_register; [in_app|done|]. intros tr2 H2.
  apply wp_bind, wp_register; [in_app|done|]. intros tr3 H3.
  split; [split; [in_app|]|].
  - intros [| |] Hs; [specialize (H1 Hs)|specialize (H2 Hs)|specialize (H3 Hs)]; in_app.
  - intros [e|] _; [apply wp_fatal|]. split; [done|right]. split; [in_app|].
    destruct Hg as [Haddr _]. by do 2 eexists.
Qed.

(** C31. The serving goroutine: it listens only where the endpoint says, on the path
    of a "unix" URL, after removing what was there, or on the host of a "tcp"
    URL; it serves only once the listener is open and every service that was
    passed is registered; and it ends either by [klog.Fatal], which is the case
    for every other endpoint, or because the server was stopped. *)
Theorem serve_calls (endpoint : string) (ids cs ns : bool) :
  wp any_env (serve_guard endpoint ids cs ns) (serve endpoint ids cs ns)
    (fun tr o => o = Done tt /\
       (existsb fatal_call tr = true \/
        Event (Net Net.Serve) None ∈ tr /\ exists network address, listen_addr endpoint network address)) [].
Proof.
  fold (serve_end endpoint). unfold serve. destruct (url_Parse endpoint) as [u|] eqn:Hu; [|apply wp_fatal].
  destruct (String.eqb_spec (u_Scheme u) "unix") as [Hs|_];
    [|destruct (String.eqb_spec (u_Scheme u) "tcp") as [Hs|_]; [|apply wp_fatal]]; rewrite Hs.
  - assert (listen_addr endpoint "unix" (u_Path u)) as Ha by (exists u; auto).
    split; [done|]. intros [e|] _; cbn [bind app].
    + destruct (oe_IsNotExist e) eqn:He; [|apply wp_fatal]. apply wp_listen. split; [done|].
      intros _. eexists. split; [in_trace|]. by intros ? [= <-].
    + apply wp_listen. split; [done|]. intros _. eexists. split; [in_trace|]. by intros ? [=].
  - apply wp_listen. split; [exists u; auto|done].
Qed.

(** * A concrete run *)

(** One way the shared state may answer; [None] when the call waits. *)
Definition shared_env (c : cmd) (s : Shared) : option (resp c * Shared) :=
  match c return option (resp c * Shared) with
  | Net n =>
      match n return option (Net.answer n * Shared) with
      | Net.WgAdd n => Some (tt, set_wg (wg s + n) s)
      | Net.WgDone => Some (tt, set_wg (wg s - 1) s)
      | Net.WgWait => if wg s =? 0 then Some (tt, s) else None
      | Net.NewServer => Some (tt, set_grpc (Some false) s)
      | Net.Serve => match grpc s with Some true => Some (None, s) | _ => None end
      | Net.NewMetricsServer _ => Some (tt, set_http (Some false) s)
      | Net.ListenAndServe => match http s with Some true => Some (ErrServerClosed, s) | _ => None end
      | Net.LoadServer => Some (is_some (grpc s), s)
      | Net.LoadMetricsServer => Some (is_some (http s), s)
      | Net.LoadTracerProvider => Some (false, s)
      | Net.GracefulStop | Net.Stop => Some (tt, set_grpc (const true <$> grpc s) s)
      | Net.MetricsShutdown | Net.MetricsClose => Some (None, set_http (const true <$> http s) s)
      | Net.Listen _ _ | Net.TracerShutdown => Some (None, s)
      | Net.Register _ => Some (tt, s)
      | Net.Go _ | Net.Fatal => None
      end
  | c => Some (ex_world c, s)
  end.

Lemma shared_env_law c s r s' :
  shared_env c s = Some (r, s') -> shared_law c s r s' /\ forall g, c <> Net (Net.Go g).
Proof.
  destruct c as [| | | | | |[]| | | |]; cbn; intros H; simplify_eq; try done.
  - destruct (Z.eqb_spec (wg s) 0); by simplify_eq.
  - destruct (grpc s) as [[|]|] eqn:Hg; by simplify_eq.
  - destruct (http s) as [[|]|] eqn:Hg; by simplify_eq.
Qed.

Definition proc_advance (i : nat) (c : list (prog unit) * Shared) : option (list (prog unit) * Shared) :=
  match c.1 !! i with
  | Some (Call d k) =>
      match d return (resp d -> prog unit) -> option (list (prog unit) * Shared) with
      | Net (Net.Go g) => fun k => Some (<[i := k tt]> c.1 ++ [goroutine g], c.2)
      | d => fun k => match shared_env d c.2 with
                      | Some (r, s') => Some (<[i := k r]> c.1, s')
                      | None => None
                      end
      end k
  | _ => None
  end.

Fixpoint proc_run (schedule : list nat) (c : list (prog unit) * Shared) : option (list (prog unit) * Shared) :=
  match schedule with
  | [] => Some c
  | i :: schedule => match proc_advance i c with Some c' => proc_run schedule c' | None => None end
  end.

Lemma proc_advance_step i c c' : proc_advance i c = Some c' -> proc_step c c'.
Proof.
  unfold proc_advance. destruct c as [ts s]. cbn. destruct (ts !! i) as [[a|why|d k]|] eqn:Hi; [done..| |done].
  destruct (shared_env d s) as [[r s']|] eqn:Hd.
  - destruct (shared_env_law _ _ _ _ Hd) as [Hlaw Hgo].
    destruct d as [| | | | | |[]| | | |]; intros H; try (by destruct (Hgo g));
      cbn in H, Hd; rewrite ?Hd in H; simplify_eq; by eapply proc_call.
  - destruct d as [| | | | | |[]| | | |]; intros H;
      cbn in H, Hd; rewrite ?Hd in H; simplify_eq; by apply proc_go.
Qed.

Lemma proc_run_steps schedule c c' : proc_run schedule c = Some c' -> rtc proc_step c c'.
Proof.
  revert c. induction schedule as [|i schedule IH]; intros c; cbn; [by intros [= ->]|].
  destruct (proc_advance i c) as [c1|] eqn:Hc; [|done]. intros H.
  eapply rtc_l; [by eapply proc_advance_step|by apply IH].
Qed.

Definition ex_metered (enableMetrics : string) : LinodeDriver :=
  set_observability enableMetrics "8081" "" "" (ex_driver "").

(** Both servers start, ForceStop stops them, the main goroutine returns. *)
Definition ex_server_end : list (prog unit) * Shared :=
  ([Ret tt; Ret tt; Ret tt; Ret tt], {| wg := 0; grpc := Some true; http := Some true |}).

Lemma ex_server_runs :
  rtc proc_step ([Run_server (ex_metered "true") "tcp://127.0.0.1:10000"; ForceStop], initial) ex_server_end.
Proof.
  apply (proc_run_steps ([0; 0; 0] ++ [2; 2; 2; 2; 2] ++ [3] ++ [1; 1; 1; 1] ++ [2] ++ [3; 3] ++ [0])%nat).
  vm_compute. reflexivity.
Qed.

Lemma run_returns_witness :
  (ex_server_end.1 !! 0%nat = Some (Ret tt) ->
     metered (ex_metered "true") /\ http ex_server_end.2 = Some true /\ wg ex_server_end.2 = 0) /\
  (~ metered (ex_metered "true") -> http ex_server_end.2 = None).
Proof.
  apply (run_returns (ex_metered "true") "tcp://127.0.0.1:10000" [ForceStop] ex_server_end).
  - constructor; [right; reflexivity|constructor].
  - exact ex_server_runs.
Defined.
