(* ===== verification/LinodeClient.v ===== *)
(** pkg/linode-client/linode_client.go: how the API client is set up from the
    configured URL. *)
From S2P Require Import Prelude GoStrings GoUrl Types Errors.

(** The base URL and the API version of a URL. *)
Definition getAPIURLComponents (apiURL : string) : goerror + (string * string) :=
  match url_Parse apiURL with
  | None => inl (EUrl apiURL)
  | Some urlObj =>
      let host := u_Scheme urlObj +:+ "://" +:+ u_Host urlObj in
      let version :=
        if negb (String.eqb (trim_slash (u_Path urlObj)) "") then
          match Split (trim_slash (u_Path urlObj)) "/" with
          | segment :: _ => segment
          | [] => ""
          end
        else "" in
      inr (host, version)
  end.

(** What is set on the client of linodego. *)
Inductive ClientSetting :=
| SetUserAgent (ua : string)
| SetToken (token : string)
| SetBaseURL (url : string)
| SetAPIVersion (version : string).

(** The settings made on a new client, in order. *)
Definition NewLinodeClient (token ua apiURL : string) : goerror + list ClientSetting :=
  let settings := [SetUserAgent ua; SetToken token] in
  if negb (String.eqb apiURL "") then
    match getAPIURLComponents apiURL with
    | inl err => inl err
    | inr (host, version) =>
        let settings := settings ++ [SetBaseURL host] in
        if negb (String.eqb version "") then inr (settings ++ [SetAPIVersion version])
        else inr settings
    end
  else inr settings.

(** * Properties *)

Definition is_lower (c : ascii) : bool := in_range "a" "z" c.
Definition host_char (c : ascii) : bool := is_alnum c || one_of "-." c.
Definition path_char (c : ascii) : bool := is_alnum c || one_of "-._/" c.

(** A fact about every character, by enumeration. *)
Ltac by_chars := let c := fresh in intros c; destruct c as [[] [] [] [] [] [] [] []]; vm_compute; congruence.

Lemma lower_letter c : is_lower c = true -> is_letter c = true /\ to_lower c = c.
Proof. revert c. intros [[] [] [] [] [] [] [] []]; vm_compute; try congruence; auto. Qed.

Lemma host_plain c : host_char c = true ->
  plain_refused EncodeHost c = false /\ Ascii.eqb c "%" = false /\ Ascii.eqb c ":" = false /\
  Ascii.eqb c "@" = false /\ Ascii.eqb c "/" = false /\ Ascii.eqb c "[" = false.
Proof. revert c. intros [[] [] [] [] [] [] [] []]; vm_compute; try congruence; auto 10. Qed.

Lemma path_plain c : path_char c = true -> Ascii.eqb c "%" = false.
Proof. revert c. intros [[] [] [] [] [] [] [] []]; vm_compute; congruence. Qed.

(** A string without a character. *)
Definition lacks (c : ascii) (s : string) : Prop := str_forall (fun d => negb (Ascii.eqb d c)) s = true.

Lemma lacks_cut c s : lacks c s -> str_cut c s = None.
Proof.
  unfold lacks. induction s as [|d s IH]; [done|]. cbn. intros [Hd Hs]%andb_true_iff.
  apply negb_true_iff in Hd. by rewrite Hd, IH.
Qed.

Lemma lacks_cut_last c s : lacks c s -> cut_last c s = None.
Proof.
  unfold lacks. induction s as [|d s IH]; [done|]. cbn. intros [Hd Hs]%andb_true_iff.
  apply negb_true_iff in Hd. by rewrite IH, Hd.
Qed.

Lemma lacks_impl c (p : ascii -> bool) s :
  str_forall p s = true -> p c = false -> lacks c s.
Proof.
  intros Hs Hc. eapply str_forall_impl, Hs. intros d Hd.
  destruct (Ascii.eqb_spec d c) as [->|]; [congruence|done].
Qed.

Lemma lacks_app c s t : lacks c s -> lacks c t -> lacks c (s +:+ t).
Proof. unfold lacks. rewrite str_forall_app. by intros -> ->. Qed.

Lemma unescape_plain mode s :
  str_forall (fun c => negb (Ascii.eqb c "%") && negb (plain_refused mode c)) s = true -> unescape mode s = Some s.
Proof.
  induction s as [|c s IH]; [done|]. cbn. intros [[Hc Hr]%andb_true_iff Hs]%andb_true_iff.
  apply negb_true_iff in Hc, Hr. by rewrite Hc, Hr, IH.
Qed.

Lemma unescape_host s : str_forall host_char s = true -> unescape EncodeHost s = Some s.
Proof.
  intros H. apply unescape_plain. eapply str_forall_impl, H.
  intros c (Hr & Hp & _)%host_plain. by rewrite Hr, Hp.
Qed.

Lemma unescape_path s : str_forall path_char s = true -> unescape EncodePath s = Some s.
Proof.
  intros H. apply unescape_plain. eapply str_forall_impl, H.
  intros c Hp%path_plain. by rewrite Hp.
Qed.

Lemma parseAuthority_plain host : str_forall host_char host = true -> parseAuthority host = Some host.
Proof.
  intros H. unfold parseAuthority, parseHost.
  rewrite (lacks_cut_last "@") by (by eapply lacks_impl).
  rewrite (lacks_cut_last ":") by (by eapply lacks_impl).
  destruct host as [|c host]; [done|]. rewrite (unescape_host _ H).
  cbn in H. apply andb_true_iff in H as [(_ & _ & _ & _ & _ & Hb)%host_plain _].
  destruct c as [[] [] [] [] [] [] [] []]; done.
Qed.

Lemma getScheme_lower scheme rest :
  scheme <> "" -> str_forall is_lower scheme = true ->
  getScheme (scheme +:+ String ":" rest) = Some (scheme, rest).
Proof.
  intros Hne Hs. unfold getScheme.
  assert (forall seen raw s, seen +:+ s <> "" -> str_forall is_lower s = true ->
    getScheme_from seen raw (s +:+ String ":" rest) = Some (seen +:+ s, rest)) as H.
  { intros seen raw s. revert seen. induction s as [|c s IH]; intros seen Hne' Hs'.
    - rewrite str_app_nil_l, str_app_nil_r in *. by destruct seen.
    - rewrite str_app_cons. cbn [getScheme_from]. cbn in Hs'. apply andb_true_iff in Hs' as [[-> _]%lower_letter Hs'].
      rewrite IH; [|by destruct seen|done]. by rewrite str_app_assoc. }
  by apply (H "").
Qed.

Lemma prefix_cons c d p s :
  String.prefix (String c p) (String d s) = if Ascii.eqb c d then String.prefix p s else false.
Proof.
  cbn [String.prefix]. destruct (Ascii.ascii_dec c d), (Ascii.eqb_spec c d); congruence.
Qed.

Lemma prefix_nil s : String.prefix "" s = true.
Proof. by destruct s. Qed.

Lemma Split_head s c : before c s = match Split s c with w :: _ => w | [] => "" end.
Proof.
  unfold before. destruct (str_cut c s) as [[l r]|] eqn:H.
  - pose proof (str_cut_inv c s l r H) as [-> Hl]. by rewrite Split_cons.
  - apply str_cut_None in H. by rewrite Split_none.
Qed.

Lemma ToLower_lower s : str_forall is_lower s = true -> ToLower s = s.
Proof.
  induction s as [|c s IH]; [done|]. cbn. intros [[_ Hc]%lower_letter Hs]%andb_true_iff.
  by rewrite Hc, IH.
Qed.

(** A URL without user, query, fragment or escapes. *)
Definition plain_url (scheme host path : string) : string := scheme +:+ "://" +:+ host +:+ path.

Definition plain_parts (scheme host path : string) : Prop :=
  scheme <> "" /\ str_forall is_lower scheme = true /\ str_forall host_char host = true /\
  str_forall path_char path = true /\ (path = "" \/ String.prefix "/" path = true).

Lemma plain_url_chars (p : ascii -> bool) scheme host path :
  plain_parts scheme host path ->
  (forall c, is_lower c = true -> p c = true) -> (forall c, host_char c = true -> p c = true) ->
  (forall c, path_char c = true -> p c = true) -> p ":"%char = true -> p "/"%char = true ->
  str_forall p (plain_url scheme host path) = true.
Proof.
  intros (_ & Hs & Hh & Hp & _) H1 H2 H3 Hc Hsl. unfold plain_url.
  rewrite !str_forall_app, !andb_true_iff.
  split_and!; [by eapply str_forall_impl, Hs|cbn; by rewrite Hc, Hsl|by eapply str_forall_impl, Hh
    |by eapply str_forall_impl, Hp].
Qed.

Lemma host_path_cut host path :
  str_forall host_char host = true -> (path = "" \/ String.prefix "/" path = true) ->
  match str_cut "/" (host +:+ path) with
  | Some (l, r) => (l, String "/" r)
  | None => (host +:+ path, "")
  end = (host, path).
Proof.
  intros Hh Hp. assert (lacks "/" host) as Hl by (by eapply lacks_impl).
  destruct Hp as [->|Hp]; [by rewrite str_app_nil_r, lacks_cut|].
  destruct path as [|c path]; [done|]. rewrite prefix_cons in Hp.
  destruct (Ascii.eqb_spec "/" c) as [<-|]; [|done]. by rewrite (str_cut_app "/" host path Hl).
Qed.

Lemma url_Parse_plain scheme host path :
  plain_parts scheme host path ->
  url_Parse (plain_url scheme host path) = Some {| u_Scheme := scheme; u_Host := host; u_Path := path |}.
Proof.
  intros H. pose proof H as (Hne & Hs & Hh & Hp & Hpath).
  unfold url_Parse. rewrite (lacks_cut "#") by (apply plain_url_chars; [done|by_chars..|done|done]).
  unfold parse. rewrite plain_url_chars by first [done|by_chars]. cbn [negb].
  replace (String.eqb (plain_url scheme host path) "*") with false.
  2:{ symmetry. apply String.eqb_neq. intros E. apply (f_equal String.length) in E.
      unfold plain_url in E. rewrite !str_app_length in E. cbn in E. lia. }
  unfold plain_url. change ("://" +:+ host +:+ path) with (String ":" ("//" +:+ host +:+ path)).
  rewrite getScheme_lower, ToLower_lower by done. cbv zeta.
  replace (before "?" ("//" +:+ host +:+ path)) with ("//" +:+ host +:+ path).
  2:{ unfold before. rewrite lacks_cut; [done|].
      apply lacks_app; [done|apply lacks_app; by eapply lacks_impl]. }
  change ("//" +:+ host +:+ path) with (String "/" (String "/" (host +:+ path))).
  rewrite !prefix_cons, !prefix_nil, (proj2 (String.eqb_neq scheme "") Hne). cbn [negb andb orb Ascii.eqb Bool.eqb].
  by rewrite host_path_cut, parseAuthority_plain, unescape_path by done.
Qed.

Lemma before_lacks c s : lacks c s -> before c s = s.
Proof. intros H. unfold before. by rewrite lacks_cut. Qed.

Lemma lacks_Contains c s : lacks c s -> Contains s (String c "") = false.
Proof.
  unfold lacks. induction s as [|d s IH]; [done|]. cbn [str_forall Contains]. intros [Hd Hs]%andb_true_iff.
  rewrite prefix_cons, Ascii.eqb_sym. apply negb_true_iff in Hd. rewrite Hd. by apply IH.
Qed.

Lemma getScheme_bare seen raw s :
  str_forall host_char s = true -> getScheme_from seen raw s = Some ("", raw).
Proof.
  revert seen. induction s as [|c s IH]; intros seen; [done|]. cbn. intros [Hc Hs]%andb_true_iff.
  rewrite !IH by done.
  assert (is_letter c || (is_digit c || one_of "+-." c) = true) as Hd.
  { revert Hc. clear. revert c. intros [[] [] [] [] [] [] [] []]; vm_compute; congruence. }
  destruct (is_letter c); [done|]. cbn [orb] in Hd. rewrite Hd. by destruct (String.eqb seen "").
Qed.

Lemma url_Parse_bare host :
  str_forall host_char host = true -> url_Parse host = Some {| u_Scheme := ""; u_Host := ""; u_Path := host |}.
Proof.
  intros H. unfold url_Parse. rewrite (lacks_cut "#") by (by eapply lacks_impl). unfold parse.
  rewrite (str_forall_impl host_char) by first [done|by_chars]. cbn [negb].
  destruct (String.eqb_spec host "*") as [->|_]; [done|].
  unfold getScheme. rewrite getScheme_bare by done. cbv zeta. cbn [ToLower].
  rewrite (before_lacks "?") by (by eapply lacks_impl).
  assert (String.prefix "/" host = false) as Hsl.
  { destruct host as [|c host]; [done|]. rewrite prefix_cons. cbn in H.
    apply andb_true_iff in H as [(_ & _ & _ & _ & Hc & _)%host_plain _].
    rewrite (Ascii.eqb_sym "/" c), Hc. done. }
  rewrite Hsl, (before_lacks "/"), lacks_Contains by (by eapply lacks_impl). cbn [negb andb orb].
  assert (String.prefix "//" host = false) as ->.
  { destruct host as [|c host]; [done|]. rewrite prefix_cons in Hsl |- *. rewrite prefix_nil in Hsl.
    by destruct (Ascii.eqb "/" c). }
  rewrite andb_false_r, unescape_path; [done|]. eapply str_forall_impl, H. by_chars.
Qed.

(** The API URL: for a URL made of a scheme, a host and a path of plain
    characters, the base URL is the scheme and the host, without the path, and
    the API version is the first segment of the path; a path that begins with
    two slashes has none.  An empty URL leaves the defaults of linodego, and a
    URL that does not parse is an error. *)
Theorem api_url_components (token ua scheme host path : string)
  (Hparts : plain_parts scheme host path) :
  let url := plain_url scheme host path in
  let base := scheme +:+ "://" +:+ host in
  let version := before "/" (trim_slash path) in
  getAPIURLComponents url = inr (base, version) /\
  NewLinodeClient token ua url =
    inr ([SetUserAgent ua; SetToken token; SetBaseURL base] ++
         if String.eqb version "" then [] else [SetAPIVersion version]) /\
  url_Parse base = Some {| u_Scheme := scheme; u_Host := host; u_Path := "" |} /\
  (forall p, path = String "/" (String "/" p) -> version = "").
Proof.
  cbv zeta. assert (getAPIURLComponents (plain_url scheme host path) =
    inr (scheme +:+ "://" +:+ host, before "/" (trim_slash path))) as Hget.
  { unfold getAPIURLComponents. rewrite (url_Parse_plain scheme host path Hparts).
    cbn [u_Scheme u_Host u_Path]. rewrite <- Split_head.
    destruct (String.eqb_spec (trim_slash path) "") as [->|]; done. }
  split; [done|]. split; [|split; [|by intros p ->]].
  - unfold NewLinodeClient. rewrite Hget. destruct Hparts as (Hne & _).
    destruct (String.eqb_spec (plain_url scheme host path) "") as [E|_]; [by destruct scheme|]. cbn [negb app].
    by destruct (String.eqb _ "").
  - destruct Hparts as (Hne & Hs & Hh & _). rewrite <- (str_app_nil_r (scheme +:+ "://" +:+ host)).
    rewrite !str_app_assoc. apply (url_Parse_plain scheme host ""). by split_and!; auto.
Qed.

Lemma api_url_components_witness :
  let url := plain_url "https" "api.linode.com" "/v4beta/" in
  getAPIURLComponents url = inr ("https://api.linode.com", "v4beta") /\
  NewLinodeClient "token" "LinodeCSI/v1" url =
    inr [SetUserAgent "LinodeCSI/v1"; SetToken "token"; SetBaseURL "https://api.linode.com";
         SetAPIVersion "v4beta"] /\
  url_Parse "https://api.linode.com" = Some {| u_Scheme := "https"; u_Host := "api.linode.com"; u_Path := "" |} /\
  (forall p, "/v4beta/" = String "/" (String "/" p) -> "v4beta" = "").
Proof.
  apply (api_url_components "token" "LinodeCSI/v1" "https" "api.linode.com" "/v4beta/").
  repeat split; try discriminate; right; reflexivity.
Defined.

(** An API URL that is only a host, such as "api.linode.com", has no scheme for
    [url.Parse], so that the client is given a base URL with neither scheme nor
    host, which is not a URL, and the host as its API version. *)
Theorem api_url_bare_host (token ua host : string)
  (Hhost : str_forall host_char host = true) (Hne : host <> "") :
  getAPIURLComponents host = inr ("://", host) /\
  NewLinodeClient token ua host =
    inr [SetUserAgent ua; SetToken token; SetBaseURL "://"; SetAPIVersion host] /\
  url_Parse "://" = None.
Proof.
  assert (getAPIURLComponents host = inr ("://", host)) as Hget.
  { unfold getAPIURLComponents. rewrite (url_Parse_bare host Hhost). cbn [u_Scheme u_Host u_Path].
    rewrite <- Split_head.
    assert (trim_slash host = host) as ->.
    { destruct host as [|c host]; [done|]. cbn in Hhost.
      apply andb_true_iff in Hhost as [(_ & _ & _ & _ & Hc & _)%host_plain _].
      cbn [trim_slash]. destruct c as [[] [] [] [] [] [] [] []]; done. }
    rewrite before_lacks by (by eapply lacks_impl). by destruct (String.eqb_spec host ""). }
  split; [done|]. split; [|done]. unfold NewLinodeClient. rewrite Hget.
  by rewrite !(proj2 (String.eqb_neq host "") Hne).
Qed.

Lemma api_url_bare_host_witness :
  getAPIURLComponents "api.linode.com" = inr ("://", "api.linode.com") /\
  NewLinodeClient "token" "LinodeCSI/v1" "api.linode.com" =
    inr [SetUserAgent "LinodeCSI/v1"; SetToken "token"; SetBaseURL "://"; SetAPIVersion "api.linode.com"] /\
  url_Parse "://" = None.
Proof. apply (api_url_bare_host "token" "LinodeCSI/v1" "api.linode.com"); [reflexivity|discriminate]. Defined.
