(* ===== verification/Interceptors.v ===== *)
(** pkg/observability/tracker.go and pkg/logger/logger.go: what is wrapped around
    every gRPC handler.

    A handler of gRPC returns a response and an error, either of which may be
    nil.  The text that encoding/json and klog make of a message is a parameter:
    it depends on the generated code of the message. *)
From S2P Require Import Prelude GoStrings GoUrl Types Errors Metrics Effects.
From S2P Require Import LinodeVolumes Sizes Config Controller ControllerProofs.

Abbreviation obs c := (call (Obs c)).

(** * tracker.go *)

(** The global variables: whether the tracer and its provider are set. *)
Record Globals := { Tracer : bool; TracerProvider : bool; SkipObservability : bool }.

Definition globals0 : Globals := {| Tracer := false; TracerProvider := false; SkipObservability := true |}.

Definition log_if (err : option string) (msg : string) : prog unit :=
  match err with Some err => obs (Obs.LogError msg err) | None => Ret tt end.

(** The errors are those of creating the exporter and the resource; neither stops
    the initialization. *)
Definition InitOtelTracing (exporter_err resource_err : option string) (serviceName : string)
    (g : Globals) : prog Globals :=
  let* _ := log_if exporter_err "Failed to create OTLP HTTP exporter" in
  let* _ := log_if resource_err "Failed to create resource" in
  let g := {| Tracer := Tracer g; TracerProvider := true; SkipObservability := SkipObservability g |} in
  let* _ := obs (Obs.LogInfo 0 "OpenTelemetry tracing initialized for service" serviceName) in
  Ret g.

Definition InitTracer (exporter_err resource_err : option string) (serviceName : string)
    (g : Globals) : prog Globals :=
  let* g := InitOtelTracing exporter_err resource_err serviceName g in
  let g := {| Tracer := true; TracerProvider := TracerProvider g; SkipObservability := SkipObservability g |} in
  let* _ := obs (Obs.LogInfo 0 "Tracing initialized successfully for service" serviceName) in
  Ret g.

(** What SetupLinodeDriver does to the global variables. *)
Definition setup_tracing (exporter_err resource_err : option string) (enableTracing : string)
    (g : Globals) : prog Globals :=
  if String.eqb enableTracing True_ then
    let* g := InitTracer exporter_err resource_err "linode-csi-driver" g in
    Ret {| Tracer := Tracer g; TracerProvider := TracerProvider g; SkipObservability := false |}
  else Ret g.

(** [Tracer.Start] of a tracer that may be nil. *)
Definition tracer_Start (g : Globals) (name : string) : prog unit :=
  if Tracer g then obs (Obs.StartSpan name) else Panic NilDereference.

(** The last part of a dotted name. *)
Definition last_part (functionName : string) : string :=
  match cut_last "." functionName with
  | Some (_, name) => name
  | None => functionName
  end.

(** The span is known by the name it is started with. *)
Definition StartFunctionSpan (g : Globals) : prog string :=
  let* caller := obs Obs.Caller in
  match caller with
  | None =>
      let functionName := "unknown_function" in
      let* _ := tracer_Start g functionName in
      Ret functionName
  | Some functionName =>
      let functionName := last_part functionName in
      let* _ := tracer_Start g functionName in
      Ret functionName
  end.

(** The start of most functions of the controller:
    [if !SkipObservability { _, span := StartFunctionSpan(ctx); defer span.End() }]. *)
Definition traced {A} (g : Globals) (p : prog A) : prog A :=
  if SkipObservability g then p
  else
    let* _ := StartFunctionSpan g in
    finally p (Obs Obs.EndSpan).

Fixpoint set_attributes (params : list (string * string)) : prog unit :=
  match params with
  | [] => Ret tt
  | (key, value) :: params =>
      let* _ := obs (Obs.SetAttribute key value) in
      set_attributes params
  end.

(** The parameters are in the order in which the map is iterated; [shown] is what
    klog makes of them, [err] the text of the error. *)
Definition TraceFunctionData (operationName : string) (params : list (string * string))
    (shown : string) (err : option string) : prog unit :=
  let* _ := set_attributes params in
  match err with
  | Some err =>
      let* _ := obs (Obs.SetStatus true err) in
      let* _ := obs (Obs.RecordError err) in
      let* _ := obs Obs.EndSpan in
      obs (Obs.LogError ("Error in operation " +:+ operationName +:+ ": " +:+ err) shown)
  | None =>
      let* _ := obs (Obs.SetStatus false "Sub-function call successful") in
      let* _ := obs Obs.EndSpan in
      obs (Obs.LogInfo 0 ("Sub-function call in operation " +:+ operationName +:+ " succeeded") shown)
  end.

(** [json.Marshal] gives an error or a text. *)
Definition SerializeObject (objBody : string + string) : prog string :=
  match objBody with
  | inl err =>
      let* _ := obs (Obs.LogError "Failed to serialize struct to a string" err) in
      Ret ("serialization error: " +:+ err)
  | inr text => Ret text
  end.

Section Interceptors.
Context {Request Response : Type}.
Context (marshal_req : Request -> string + string) (marshal_resp : Response -> string + string).
Context (show_req : Request -> string) (show_resp : option Response -> string).
Context (error_text : goerror -> string).

Definition Answered : Type := option Response * option goerror.
Definition Handler : Type := Request -> prog Answered.

Definition set_marshalled (key : string) (data : string + string) : prog unit :=
  match data with
  | inr text => obs (Obs.SetAttribute key text)
  | inl err => obs (Obs.SetAttribute (key +:+ ".error") err)
  end.

Definition UnaryServerInterceptorWithParams (req : Request) (handler : Handler) : prog Answered :=
  let* span := obs Obs.SpanFromContext in
  if negb span then handler req
  else
    let* _ := set_marshalled "grpc.request" (marshal_req req) in
    let* answer := handler req in
    let '(resp, err) := answer in
    let* _ := match resp with
              | Some resp => set_marshalled "grpc.response" (marshal_resp resp)
              | None => Ret tt
              end in
    let* _ := match err with
              | Some err =>
                  let* _ := obs (Obs.RecordError (error_text err)) in
                  obs (Obs.SetStatus true (error_text err))
              | None => obs (Obs.SetStatus false "Success")
              end in
    Ret (resp, err).

(** * logger.go *)

Definition LogGRPC (method : string) (req : Request) (handler : Handler) : prog Answered :=
  let* _ := obs (Obs.LogInfo 3 "GRPC call" method) in
  let* _ := obs (Obs.LogInfo 5 "GRPC request" (show_req req)) in
  let* answer := handler req in
  let '(resp, err) := answer in
  let* _ := match err with
            | Some err => obs (Obs.LogError "GRPC error" (error_text err))
            | None => obs (Obs.LogInfo 5 "GRPC response" (show_resp resp))
            end in
  Ret (resp, err).

(** [grpc.ChainUnaryInterceptor] of the two, as in [serve]. *)
Definition intercepted (method : string) (handler : Handler) : Handler := fun req =>
  LogGRPC method req (fun req => UnaryServerInterceptorWithParams req handler).

(** * Properties *)

Definition visible_call (e : event) : bool := match e with Event (Obs _) _ => false | _ => true end.
Definition visible (tr : trace) : trace := List.filter visible_call tr.

Section Observe.
(** Spans and logs change nothing that a handler can see. *)
Context {W : Type} (env : forall c : cmd, W -> resp c * W).
Hypothesis obs_inert : forall c w, (env (Obs c) w).2 = w.

(** What a run shows apart from spans and logs. *)
Definition observe {A} (p : prog A) (w : W) : trace * outcome A * W :=
  let '(tr, o, w') := run env p w in (visible tr, o, w').

Lemma observe_obs {A} c (k : resp (Obs c) -> prog A) w :
  observe (Call (Obs c) k) w = observe (k (env (Obs c) w).1) w.
Proof.
  unfold observe. cbn [run]. pose proof (obs_inert c w) as Hw.
  destruct (env (Obs c) w) as [r w1]. cbn in Hw |- *. subst w1.
  by destruct (run env (k r) w) as [[tr o] w2].
Qed.

Lemma observe_bind {A B} (p : prog A) (f : A -> prog B) w :
  observe (bind p f) w =
  let '(tr, o, w1) := observe p w in
  match o with
  | Done a => let '(tr2, o2, w2) := observe (f a) w1 in (tr ++ tr2, o2, w2)
  | Panicked why => (tr, Panicked why, w1)
  end.
Proof.
  unfold observe. rewrite run_bind. destruct (run env p w) as [[tr o] w1]. destruct o as [a|why]; [|done].
  destruct (run env (f a) w1) as [[tr2 o2] w2]. unfold visible. by rewrite filter_app.
Qed.

(** A handler followed by spans and logs that return its answer. *)
Lemma observe_after {A} (p : prog A) (f : A -> prog A) w :
  (forall a w, observe (f a) w = ([], Done a, w)) -> observe (bind p f) w = observe p w.
Proof.
  intros Hf. rewrite observe_bind. destruct (observe p w) as [[tr o] w1].
  destruct o as [a|why]; [|done]. by rewrite Hf, app_nil_r.
Qed.

(** The interceptors are transparent: whatever the handler does, the call that
    is served makes the calls of the handler, once and in order, leaves the same
    state, and gives the same response and error, or panics as the handler does;
    all they add are spans and logs. *)
Theorem interceptors_transparent (method : string) (handler : Handler) (req : Request) (w : W) :
  observe (intercepted method handler req) w = observe (handler req) w.
Proof.
  unfold intercepted, LogGRPC, call. cbn [bind]. rewrite !observe_obs.
  rewrite observe_after.
  - unfold UnaryServerInterceptorWithParams, call. cbn [bind]. rewrite observe_obs.
    destruct (negb _); [done|]. unfold set_marshalled.
    destruct (marshal_req req); cbn [call bind]; rewrite observe_obs; apply observe_after;
      intros [[resp|] [err|]] w'; try destruct (marshal_resp resp); cbn [call bind];
      by rewrite ?observe_obs.
  - intros [resp [err|]] w'; cbn [call bind]; by rewrite observe_obs.
Qed.

Lemma observe_finally {A} (p : prog A) c w : observe (finally p (Obs c)) w = observe p w.
Proof.
  revert w. induction p as [a|why|d k IH]; intros w; cbn [finally]; [by rewrite observe_obs..|].
  unfold observe in *. cbn [run]. destruct (env d w) as [r w1]. specialize (IH r w1).
  destruct (run env (finally (k r) (Obs c)) w1) as [[tr o] w2], (run env (k r) w1) as [[tr' o'] w2'].
  injection IH as Hv -> ->. unfold visible in *. cbn [List.filter]. by rewrite Hv.
Qed.

Lemma observe_traced {A} (g : Globals) (p : prog A) w :
  (SkipObservability g = false -> Tracer g = true) -> observe (traced g p) w = observe p w.
Proof.
  intros Hg. unfold traced. destruct (SkipObservability g); [done|].
  unfold StartFunctionSpan, tracer_Start, call. rewrite Hg by done. cbn [bind]. rewrite observe_obs.
  destruct (env (Obs Obs.Caller) w).1; cbn [bind]; by rewrite observe_obs, observe_finally.
Qed.

Lemma run_finally {A} (p : prog A) c w :
  run env (finally p (Obs c)) w =
  let '(tr, o, w') := run env p w in (tr ++ [Event (Obs c) (env (Obs c) w').1], o, w').
Proof.
  revert w. induction p as [a|why|d k IH]; intros w; cbn [finally run].
  - pose proof (obs_inert c w) as Hw. destruct (env (Obs c) w) as [r w1]. cbn in *. by subst.
  - pose proof (obs_inert c w) as Hw. destruct (env (Obs c) w) as [r w1]. cbn in *. by subst.
  - destruct (env d w) as [r w1]. rewrite IH. by destruct (run env (k r) w1) as [[tr o] w2].
Qed.

(** The name of the span of a function, given what the runtime says of the caller. *)
Definition span_name (caller : option string) : string := default "unknown_function" (last_part <$> caller).

(** A traced function is run between the start and the end of its span. *)
Lemma run_traced {A} (g : Globals) (p : prog A) w :
  SkipObservability g = false -> Tracer g = true ->
  run env (traced g p) w =
  let caller := (env (Obs Obs.Caller) w).1 in
  let '(tr, o, w') := run env p w in
  (Event (Obs Obs.Caller) caller :: Event (Obs (Obs.StartSpan (span_name caller))) tt ::
   tr ++ [Event (Obs Obs.EndSpan) tt], o, w').
Proof.
  intros Hskip Htracer. unfold traced, StartFunctionSpan, tracer_Start, call. rewrite Hskip, Htracer. cbn [bind run].
  pose proof (obs_inert Obs.Caller w) as Hw. destruct (env (Obs Obs.Caller) w) as [caller w1]. cbn in Hw |- *. subst w1.
  assert (forall name, env (Obs (Obs.StartSpan name)) w = (tt, w)) as Hstart.
  { intros name. pose proof (obs_inert (Obs.StartSpan name) w) as Hw. destruct (env _ w) as [[] w1]. cbn in Hw. by subst. }
  destruct caller as [name|]; cbn [bind run]; rewrite Hstart, run_finally; cbn;
    destruct (run env p w) as [[tr o] w2]; by match goal with |- context [Event _ ?r] => lazymatch r with fst _ => destruct r end end.
Qed.

(** What SetupLinodeDriver leaves in the global variables. *)
Lemma setup_tracing_sets exporter_err resource_err enableTracing g w0 :
  observe (setup_tracing exporter_err resource_err enableTracing globals0) w0 = ([], Done g, w0) ->
  SkipObservability g = negb (String.eqb enableTracing True_) /\ Tracer g = String.eqb enableTracing True_.
Proof.
  unfold setup_tracing, InitTracer, InitOtelTracing, log_if, call.
  destruct (String.eqb enableTracing True_); [|by intros [= <-]].
  destruct exporter_err, resource_err; cbn [bind]; rewrite !observe_obs; by intros [= <-].
Qed.

(** C40. Tracing brackets a function and is otherwise transparent.  The global
    variables are as SetupLinodeDriver leaves them, whatever the setting and
    whichever errors the exporter and the resource give.  If tracing is enabled, a
    run of a function that starts a span asks the runtime for the name of the
    function, starts one span, with that name, makes the calls of the function in
    order, and ends the span after all of them, once, whether the function returns
    or panics; it never uses a nil tracer.  If tracing is not enabled the run is
    that of the function.  Either way the outcome and the state are those of the
    function, and so are the calls, apart from spans and logs. *)
Theorem tracing_transparent (exporter_err resource_err : option string) (enableTracing : string)
  (g : Globals) (w0 : W) {A} (p : prog A) (w : W)
  (Hsetup : observe (setup_tracing exporter_err resource_err enableTracing globals0) w0 = ([], Done g, w0)) :
  observe (traced g p) w = observe p w /\
  let caller := (env (Obs Obs.Caller) w).1 in
  let '(tr, o, w') := run env p w in
  run env (traced g p) w =
    if String.eqb enableTracing True_
    then (Event (Obs Obs.Caller) caller :: Event (Obs (Obs.StartSpan (span_name caller))) tt ::
          tr ++ [Event (Obs Obs.EndSpan) tt], o, w')
    else (tr, o, w').
Proof.
  apply setup_tracing_sets in Hsetup as [Hskip Htracer].
  split; [apply observe_traced; rewrite Hskip, Htracer; apply negb_false_iff|].
  cbv zeta. pose proof (run_traced g p w) as Hrun. cbv zeta in Hrun. destruct (run env p w) as [[tr o] w'] eqn:Hp.
  revert Hskip Htracer. destruct (String.eqb enableTracing True_); intros Hskip Htracer; [by apply Hrun|].
  unfold traced. rewrite Hskip. exact Hp.
Qed.
End Observe.

(** Nothing is removed from a request before it is recorded: when the call has
    a span, the attribute "grpc.request" is all that encoding/json makes of the
    request, secrets included, and the log at verbosity 5 is given the same
    request, whatever the handler does. *)
Theorem request_recorded {W : Type} (env : forall c : cmd, W -> resp c * W) (method : string)
  (handler : Handler) (req : Request) (text : string) (w : W)
  (Hspan : forall w, (env (Obs Obs.SpanFromContext) w).1 = true)
  (Htext : marshal_req req = inr text) :
  let '(tr, _, _) := run env (intercepted method handler req) w in
  Event (Obs (Obs.SetAttribute "grpc.request" text)) tt ∈ tr /\
  Event (Obs (Obs.LogInfo 5 "GRPC request" (show_req req))) tt ∈ tr.
Proof.
  unfold intercepted, LogGRPC, UnaryServerInterceptorWithParams, call. cbn [bind run].
  destruct (env (Obs (Obs.LogInfo 3 _ _)) w) as [r1 w1].
  destruct (env (Obs (Obs.LogInfo 5 _ _)) w1) as [[] w2].
  pose proof (Hspan w2) as Hs. destruct (env (Obs Obs.SpanFromContext) w2) as [b w3]. cbn in Hs. subst b.
  cbn [negb]. rewrite Htext. unfold set_marshalled, call. cbn [bind run].
  destruct (env (Obs (Obs.SetAttribute _ _)) w3) as [[] w4].
  match goal with |- context [@run _ _ ?A ?p w4] => destruct (@run _ env A p w4) as [[tr o] w5] end.
  split; in_trace.
Qed.
End Interceptors.

(** A node handler behind the interceptors, with a request of which encoding/json
    shows the secrets. *)
Lemma request_recorded_witness :
  let secret := "{volume_id:7-pvc-1,secrets:{luksKey:secret}}" in
  let handler := fun _ : string => Ret (Some tt, None) in
  let '(tr, _, _) := run (fun c (w : unit) => (ex_world c, w))
    (intercepted inr (fun _ => inr "") (fun s => s) (fun _ => "") (fun _ => "") "/csi.v1.Node/NodeStageVolume"
       handler secret) tt in
  Event (Obs (Obs.SetAttribute "grpc.request" secret)) tt ∈ tr /\
  Event (Obs (Obs.LogInfo 5 "GRPC request" secret)) tt ∈ tr.
Proof.
  intros secret handler.
  apply (request_recorded inr (fun _ => inr "") (fun s => s) (fun _ => "") (fun _ => "")
           (fun c (w : unit) => (ex_world c, w)) "/csi.v1.Node/NodeStageVolume" handler secret secret tt);
    reflexivity.
Defined.

Lemma interceptors_transparent_witness :
  let handler := fun _ : string => Ret (Some tt, None) in
  observe (fun c (w : unit) => (ex_world c, w))
    (intercepted inr (fun _ => inr "") (fun s => s) (fun _ => "") (fun _ => "") "/csi.v1.Node/NodeStageVolume"
       handler "request") tt =
  ([], Done (Some tt, None), tt).
Proof.
  intros handler.
  apply (interceptors_transparent inr (fun _ => inr "") (fun s => s) (fun _ => "") (fun _ => "")
           (fun c (w : unit) => (ex_world c, w)) (fun c w => eq_refl)
           "/csi.v1.Node/NodeStageVolume" handler "request" tt).
Defined.

(** ControllerPublishVolume in a span. *)
Lemma tracing_transparent_witness :
  let g := {| Tracer := true; TracerProvider := true; SkipObservability := false |} in
  let env := fun c (w : unit) => (ex_world c, w) in
  let '(tr, o, w') := run env (ControllerPublishVolume ex_publish) tt in
  run env (traced g (ControllerPublishVolume ex_publish)) tt =
    (Event (Obs Obs.Caller) (ex_world (Obs Obs.Caller)) ::
     Event (Obs (Obs.StartSpan (span_name (ex_world (Obs Obs.Caller))))) tt ::
     tr ++ [Event (Obs Obs.EndSpan) tt], o, w').
Proof.
  intros g env.
  apply (tracing_transparent env (fun c w => eq_refl) (Some "no exporter") None "true" g tt
           (ControllerPublishVolume ex_publish) tt eq_refl).
Defined.
