(* ===== verification/Logger.v ===== *)
(** pkg/logger/logger.go: loggers, the context they travel in, and the logs around
    a method.

    A logger is its values; of a context only what is under [LoggerKey] matters
    here.  What klog prints of a value is left to it. *)
From S2P Require Import Prelude GoStrings Types Errors Effects Interceptors.

(** [Klogr]: the keys and values that every message of the logger has. *)
Record Logger := { Klogr : list (string * string) }.

(** What [ctx.Value(LoggerKey{})] is, a [*Logger] or not there. *)
Definition Context : Type := option Logger.

Definition Background : Context := None.
Definition WithValue (_ : Context) (l : Logger) : Context := Some l.

Definition NewLogger (_ : Context) : Logger := {| Klogr := [] |}.

Definition GetLogger (ctx : Context) : Logger :=
  match ctx with Some logger => logger | None => NewLogger ctx end.

(** A message at a level, with the values of the logger. *)
Section Show.
Context (show : list (string * string) -> string).

Definition V_Info (l : Logger) (level : Z) (msg : string) : prog unit :=
  obs (Obs.LogInfo level msg (show (Klogr l))).

Definition Error (l : Logger) (err msg : string) : prog unit :=
  obs (Obs.LogError msg (show (("err", err) :: Klogr l))).

(** The trace ID is a new UUID.  The receiver is not used. *)
Definition WithMethod (_ : Logger) (method traceID : string) : prog (Logger * Context * cmd) :=
  let newLogger := {| Klogr := [("method", method); ("traceID", traceID)] |} in
  let ctx := WithValue Background newLogger in
  let* _ := V_Info newLogger 4 "Starting method" in
  Ret (newLogger, ctx, Obs (Obs.LogInfo 4 "Method completed" (show (Klogr newLogger)))).

(** The start of every handler:
    [log, _, done := logger.GetLogger(ctx).WithMethod(method); defer done()].
    The rest of it gets the logger, and the context of the caller. *)
Definition with_method {A} (ctx : Context) (method traceID : string) (body : Logger -> Context -> prog A) : prog A :=
  let* r := WithMethod (GetLogger ctx) method traceID in
  let '(log, _, done) := r in
  finally (body log ctx) done.

(** * Properties *)

Section Runs.
Context {W : Type} (env : forall c : cmd, W -> resp c * W).
Hypothesis obs_inert : forall c w, (env (Obs c) w).2 = w.

(** The logs of a method: they change nothing of its calls, its state and its
    outcome. *)
Lemma method_transparent {A} ctx method traceID (body : Logger -> Context -> prog A) w :
  observe env (with_method ctx method traceID body) w =
  observe env (body {| Klogr := [("method", method); ("traceID", traceID)] |} ctx) w.
Proof.
  unfold with_method, WithMethod, V_Info, call. cbn [bind]. rewrite observe_obs by exact obs_inert.
  by apply observe_finally.
Qed.

(** The start of a method is logged before everything it does, and its end after
    everything, also when it panics, with the same method and trace ID. *)
Theorem method_logged {A} (ctx : Context) (method traceID : string) (body : Logger -> Context -> prog A) (w : W) :
  let values := [("method", method); ("traceID", traceID)] in
  let '(tr, o, w') := run env (body {| Klogr := values |} ctx) w in
  run env (with_method ctx method traceID body) w =
    (Event (Obs (Obs.LogInfo 4 "Starting method" (show values))) tt :: tr ++
     [Event (Obs (Obs.LogInfo 4 "Method completed" (show values))) tt], o, w').
Proof.
  cbv zeta. unfold with_method, WithMethod, V_Info, call. cbn [bind run Klogr].
  set (start := Obs.LogInfo 4 "Starting method" _). pose proof (obs_inert start w) as Hw.
  destruct (env (Obs start) w) as [[] w1]. cbn in Hw. subst w1. rewrite run_finally by exact obs_inert.
  destruct (run env (body _ ctx) w) as [[tr o] w2]. by destruct (env _ w2).1.
Qed.
End Runs.

(** The context that a handler passes on is its caller's: a helper that asks it for
    a logger gets one without the method and the trace ID, since no caller of the
    services puts one there; with the context that WithMethod returns, which every
    handler drops, it would have them. *)
Theorem helpers_untraced (method traceID : string) :
  Klogr (GetLogger Background) = [] /\
  (forall (log : Logger) (W : Type) (env : forall c : cmd, W -> resp c * W) (w : W),
     exists tr log' ctx done w', run env (WithMethod log method traceID) w = (tr, Done (log', ctx, done), w') /\
       GetLogger ctx = log' /\ Klogr log' = [("method", method); ("traceID", traceID)]).
Proof.
  split; [done|]. intros log W env w. unfold WithMethod, V_Info, call. cbn [bind run].
  destruct (env _ w) as [[] w1]. by do 5 eexists.
Qed.
End Show.
