(* ===== verification/Main.v ===== *)
(** main.go: the configuration, what the process does before it serves, and its
    exit code.

    The flag library (envflag), flag.Set, maxprocs.Set and the constant
    [linodego.APIHost] are not part of the repository: the value of an
    environment variable, given its default, what maxprocs.Set does and the default
    of the API URL are parameters. *)
From S2P Require Import Prelude GoStrings GoUrl Types Errors Metrics Effects LinodeVolumes Sizes Config.
From S2P Require Import Controller ControllerProofs Metadata Driver Cloud Server LinodeClient.

Record configuration := {
  csiEndpoint : string;
  linodeToken : string;
  linodeURL : string;
  volumeLabelPrefix : string;
  nodeName : string;
  enableMetrics : string;
  metricsPort : string;
  enableTracing : string;
  tracingPort : string;
}.

Section Main.
Context (StringVar : string -> string -> string) (APIHost : string).

Definition loadConfig : configuration := {|
  csiEndpoint := StringVar "CSI_ENDPOINT" "unix:/tmp/csi.sock";
  linodeToken := StringVar "LINODE_TOKEN" "";
  linodeURL := StringVar "LINODE_URL" APIHost;
  volumeLabelPrefix := StringVar "LINODE_VOLUME_LABEL_PREFIX" "";
  nodeName := StringVar "NODE_NAME" "";
  enableMetrics := StringVar "ENABLE_METRICS" "";
  metricsPort := StringVar "METRICS_PORT" "8081";
  enableTracing := StringVar "OTEL_TRACING" "";
  tracingPort := StringVar "OTEL_TRACING_PORT" "4318" |}.

(** The result is the error, if any.  The client, the mounter and the device
    utilities made here are not nil. *)
Definition handle (vendorVersion : string) : prog (option goerror) :=
  if String.eqb vendorVersion "" then Ret (Some (ENew "vendorVersion must be set at compile time"))
  else
    let cfg := loadConfig in
    if String.eqb (linodeToken cfg) "" then Ret (Some (ENew "linode token required"))
    else
      let linodeDriver := GetLinodeDriver in
      let uaPrefix := "LinodeCSI/" +:+ vendorVersion in
      match NewLinodeClient (linodeToken cfg) uaPrefix (linodeURL cfg) with
      | inl err => Ret (Some (EErrorf "failed to set up linode client: %w" [AErr err]))
      | inr _ =>
          let? nodeMetadata := GetNodeMetadata false
            else fun err => Ret (Some (EErrorf "failed to get node metadata: %w" [AErr err])) in
          match SetupLinodeDriver false false false nodeMetadata Name vendorVersion
                  (volumeLabelPrefix cfg) (enableMetrics cfg) (metricsPort cfg)
                  (enableTracing cfg) (tracingPort cfg) linodeDriver with
          | (_, Some err) => Ret (Some (EErrorf "setup driver: %w" [AErr err]))
          | (linodeDriver, None) =>
              let linodeDriver := Run linodeDriver in
              let* _ := Run_server (pl_driver linodeDriver) (csiEndpoint cfg) in
              Ret None
          end
      end.

(** GOMAXPROCS after the call, when it is [procs] before, and the error that is
    logged.  [maxprocs_Set] is that of automaxprocs: the new value, what its undo
    function makes of a value, and its error.  The undo is deferred. *)
Definition maxProcs (maxprocs_Set : Z -> Z * (Z -> Z) * option string) (procs : Z) : Z * option string :=
  let '(procs, undoMaxprocs, maxprocsError) := maxprocs_Set procs in
  let logged := match maxprocsError with Some _ => Some "Failed to set GOMAXPROCS" | None => None end in
  (undoMaxprocs procs, logged).

(** The exit code; [main] is what follows [maxProcs], which leaves nothing behind
    ([maxprocs_undone]); [set_err] is the error of setting the flag "logtostderr". *)
Definition main (vendorVersion : string) (set_err : option string) : prog Z :=
  match set_err with
  | Some _ => Ret 0
  | None =>
      let* err := handle vendorVersion in
      match err with
      | Some _ => Ret 1
      | None => Ret 0
      end
  end.
End Main.

#[export] Hint Unfold handle main : prog.

(** * Properties *)

(** GOMAXPROCS is never what automaxprocs makes it: the undo function, documented to
    restore the value before, is deferred in [maxProcs] and so called before the
    process has done anything. *)
Theorem maxprocs_undone (maxprocs_Set : Z -> Z * (Z -> Z) * option string) (procs : Z)
  (Hundo : forall p, let '(p', undo, _) := maxprocs_Set p in undo p' = p) :
  fst (maxProcs maxprocs_Set procs) = procs.
Proof. unfold maxProcs. specialize (Hundo procs). by destruct (maxprocs_Set procs) as [[p' undo] err]. Qed.

(** A container with a quota of two processors. *)
Lemma maxprocs_undone_witness :
  fst (fst ((fun p : Z => (2, fun _ : Z => p, @None string)) 8)) = 2 /\
  fst (maxProcs (fun p => (2, fun _ => p, None)) 8) = 8.
Proof. split; [reflexivity|]. by apply (maxprocs_undone (fun p => (2, fun _ => p, None)) 8). Defined.

(** The calls that start the server. *)
Definition starts_server (e : event) : bool := match e with Event (Net _) _ => true | _ => false end.

Section Exit.
Context (StringVar : string -> string -> string) (APIHost : string).

Lemma setup_driver_prefix metadata name vendorVersion prefix m p t q :
  name <> "" ->
  let '(pl, err) := SetupLinodeDriver false false false metadata name vendorVersion prefix m p t q GetLinodeDriver in
  (err = None <-> prefix_matched prefix = true) /\
  (err = None -> ld_volumeLabelPrefix (pl_driver pl) = prefix /\ ld_enableMetrics (pl_driver pl) = m /\
     ld_metricsPort (pl_driver pl) = p /\ pl_cs pl = Some metadata /\ pl_ns pl = Some metadata).
Proof.
  intros Hname. unfold SetupLinodeDriver. rewrite (proj2 (String.eqb_neq name "") Hname).
  destruct (Z.of_nat (RuneCount prefix) >? MaxVolumeLabelPrefixLength) eqn:Hrunes.
  { split; [|done]. split; [done|]. intros Hm. apply prefix_runes in Hm. unfold MaxVolumeLabelPrefixLength in *.
    zify_bool. lia. }
  destruct (prefix_matched prefix); [|done]. cbn -[String.eqb]. by split_and!.
Qed.

Definition no_server (tr : trace) : Prop := existsb starts_server tr = false.

Lemma metadata_no_server : every_run (GetNodeMetadata false) (fun tr _ => no_server tr).
Proof. unfold every_run. wp_unfold. wp_run; done. Qed.

(** The server is started after the calls [tr]. *)
Lemma wp_Run_server d endpoint tr (Q : trace -> outcome unit -> Prop) :
  (forall tr', Event (Net (Net.Go (GoServe endpoint true true true))) tt ∈ tr' -> Q (tr ++ tr') (Done tt)) ->
  wp any_env any_call (Run_server d endpoint) Q tr.
Proof.
  intros HQ. wp_unfold. wp_run; try done; rewrite <- !app_assoc; cbn [app]; destruct r, r0, r1; try destruct r2;
    apply HQ; in_trace.
Qed.

(** C39. How the process starts and ends.  It exits with 1, without having started a
    server, when the version or the token is missing, the API URL does not
    parse, the label prefix is not one, or no metadata of the node can be had;
    otherwise it starts the server with the configured endpoint and metrics and,
    if Run ever returns, exits with 0.  A flag that cannot be set is reported as
    an error and exits with 0.  The exits of klog.Fatal in a goroutine of the server
    and of the parsing of the flags are not counted. *)
Theorem exit_code (vendorVersion : string) (set_err : option string) :
  let cfg := loadConfig StringVar APIHost in
  let configured := vendorVersion <> "" /\ linodeToken cfg <> "" /\
    (linodeURL cfg = "" \/ url_Parse (linodeURL cfg) <> None) in
  every_run (main StringVar APIHost vendorVersion set_err) (fun tr o =>
    match o with
    | Done code =>
        (code = 0 \/ code = 1) /\
        (code = 1 -> set_err = None /\ existsb starts_server tr = false) /\
        (code = 0 -> is_Some set_err /\ tr = [] \/
           set_err = None /\ configured /\ prefix_matched (volumeLabelPrefix cfg) = true /\
           Event (Net (Net.Go (GoServe (csiEndpoint cfg) true true true))) tt ∈ tr) /\
        (set_err = None -> ~ configured -> code = 1 /\ tr = [])
    | Panicked _ => existsb starts_server tr = false
    end).
Proof.
  intros cfg configured. unfold every_run, main.
  destruct set_err as [e|]; [wp_run; split_and!; try done; [by left|left; by split]|].
  unfold handle. subst configured. fold cfg.
  destruct (String.eqb_spec vendorVersion "") as [->|Hv]; [wp_run; split_and!; try done; by right|].
  destruct (String.eqb_spec (linodeToken cfg) "") as [Ht|Ht]; [wp_run; split_and!; try done; by right|].
  destruct (NewLinodeClient _ _ _) as [e|settings] eqn:Hc; [wp_run; split_and!; try done; by right|].
  assert (linodeURL cfg = "" \/ url_Parse (linodeURL cfg) <> None) as Hurl.
  { unfold NewLinodeClient, getAPIURLComponents in Hc. destruct (String.eqb_spec (linodeURL cfg) ""); [by left|right].
    by destruct (url_Parse (linodeURL cfg)). }
  apply wp_bind, wp_bind. eapply wp_mono; [apply metadata_no_server|]. cbv beta.
  intros tr [[e|md]|why] Hno; [| |exact Hno].
  { cbn. split_and!; try done; [by right|]. intros _ H. by destruct H. }
  pose proof (setup_driver_prefix md Name vendorVersion (volumeLabelPrefix cfg) (enableMetrics cfg)
    (metricsPort cfg) (enableTracing cfg) (tracingPort cfg) ltac:(done)) as Hset.
  destruct (SetupLinodeDriver _ _ _ _ _ _ _ _ _ _ _ _) as [pl [err|]]; destruct Hset as [Hset _].
  { cbn. split_and!; try done; [by right|]. intros _ H. by destruct H. }
  apply wp_bind, wp_Run_server. intros tr' Htr'. cbn. split_and!; try done; [by left| |].
  - intros _. right. split_and!; try done; [by apply Hset|]. in_app.
  - intros _ H. by destruct H.
Qed.
End Exit.
